(** * Checkpoint converters and streaming checkpoint writers

    A shallow embedding of the checkpoint-conversion tensor algebra
    (rotary interleave, fused-QKV split/merge), of the configuration checks
    around it, and of the streaming checkpoint writers, with the properties
    the specification states about them. *)

From Stdlib Require Import ZArith QArith Qround Lia String Ascii.
From stdpp Require Import base numbers option list gmap strings fin_maps.

Open Scope string_scope.
Open Scope list_scope.

(** ** Python exceptions and results *)

Inductive exn : Type :=
  | AssertionError (msg : string)
  | ValueError (msg : string)
  | KeyError
  | IndexError
  | TypeError
  | RuntimeError
  | ZeroDivisionError
  | FileNotFoundError.

Inductive result (T : Type) : Type :=
  | Ok (x : T)
  | Raise (e : exn).

Arguments Ok {T} x.
Arguments Raise {T} e.

#[global] Instance result_ret : MRet result := fun _ x => Ok x.
#[global] Instance result_bind : MBind result := fun _ _ k r =>
  match r with
  | Ok x => k x
  | Raise e => Raise e
  end.

(** A call on a mutable object: it returns with the new state, or raises
    with the state it leaves behind. *)
Inductive outcome (S R : Type) : Type :=
  | Done (s : S)
  | Failed (e : exn) (r : R).

Arguments Done {S R} s.
Arguments Failed {S R} e r.

(** ** Tensors: a shape and the elements in row-major order *)

Module Torch.

Section tensor.
Context {A : Type} `{Inhabited A}.

Record Tensor : Type := mkTensor { shape : list nat; data : list A }.

Definition prod_dims (s : list nat) : nat := foldr Nat.mul 1 s.

Definition numel (t : Tensor) : nat := prod_dims (shape t).

Definition well_formed (t : Tensor) : Prop :=
  length (data t) = prod_dims (shape t).

(** [infer_size]: the size check behind [view] and [reshape]; at most one
    dimension may be [-1], every other one is non-negative. *)
Definition count_infer (dims : list Z) : nat :=
  length (filter (fun d => d = (-1)%Z) dims).

Definition known_size (dims : list Z) : nat :=
  prod_dims ((fun d => Z.to_nat d) <$> filter (fun d => d ≠ (-1)%Z) dims).

Definition infer_size (dims : list Z) (n : nat) : result (list nat) :=
  if decide (Exists (fun d => (d < -1)%Z) dims) then Raise RuntimeError
  else if decide (1 < count_infer dims) then Raise RuntimeError
  else
    let newsize := known_size dims in
    if decide (n = newsize
               ∨ (count_infer dims = 1 ∧ 0 < newsize ∧ n `mod` newsize = 0))
    then
      if decide (count_infer dims = 1) then
        if decide (newsize = 0) then Raise RuntimeError
        else Ok ((fun d => if decide (d = (-1)%Z) then n / newsize
                           else Z.to_nat d) <$> dims)
      else Ok (Z.to_nat <$> dims)
    else Raise RuntimeError.

(** [reshape] (and [view], the tensors here being contiguous values):
    the row-major elements stay, the shape changes. *)
Definition reshape (t : Tensor) (dims : list Z) : result Tensor :=
  s ← infer_size dims (numel t);
  Ok (mkTensor s (data t)).

Definition view (t : Tensor) (dims : list Z) : result Tensor :=
  reshape t dims.

(** Multi-indices. *)
Fixpoint unravel (s : list nat) (o : nat) : list nat :=
  match s with
  | [] => []
  | _ :: s' => o / prod_dims s' :: unravel s' (o `mod` prod_dims s')
  end.

Fixpoint ravel (s idx : list nat) : nat :=
  match s, idx with
  | _ :: s', i :: idx' => i * prod_dims s' + ravel s' idx'
  | _, _ => 0
  end.

Definition gather (p l : list nat) : list nat := (fun k => l !!! k) <$> p.

Fixpoint index_of (j : nat) (p : list nat) : nat :=
  match p with
  | [] => 0
  | k :: p' => if decide (k = j) then 0 else S (index_of j p')
  end.

Definition inverse_perm (p : list nat) : list nat :=
  (fun j => index_of j p) <$> seq 0 (length p).

Definition is_perm (p : list nat) (rank : nat) : Prop :=
  length p = rank ∧ NoDup p ∧ Forall (fun k => k < rank) p.

(** [permute]: output dimension [k] is input dimension [p !! k]. *)
Definition permute (t : Tensor) (p : list nat) : result Tensor :=
  if decide (is_perm p (length (shape t))) then
    let s' := gather p (shape t) in
    Ok (mkTensor s'
          ((fun o => data t !!! ravel (shape t)
                                 (gather (inverse_perm p) (unravel s' o)))
             <$> seq 0 (prod_dims s')))
  else Raise RuntimeError.

(** Consecutive blocks of [k] elements. *)
Fixpoint chunks (k cnt : nat) (l : list A) : list (list A) :=
  match cnt with
  | 0 => []
  | S c => take k l :: chunks k c (drop k l)
  end.

(** [t[..., lo:hi, ...]] along dimension [ax], with Python's clamping of
    the bounds to the dimension. *)
Definition narrow (t : Tensor) (ax lo hi : nat) : result Tensor :=
  match shape t !! ax with
  | None => Raise IndexError
  | Some dim =>
      let outer := prod_dims (take ax (shape t)) in
      let inner := prod_dims (drop (S ax) (shape t)) in
      let lo' := lo `min` dim in
      let hi' := lo' `max` (hi `min` dim) in
      Ok (mkTensor (<[ax := hi' - lo']> (shape t))
            (concat ((fun blk => take ((hi' - lo') * inner)
                                   (drop (lo' * inner) blk))
                       <$> chunks (dim * inner) outer (data t))))
  end.

(** [torch.cat((a, b), dim=ax)]. *)
Definition cat (a b : Tensor) (ax : nat) : result Tensor :=
  match shape a !! ax, shape b !! ax with
  | Some da, Some db =>
      if decide (<[ax := 0]> (shape a) = <[ax := 0]> (shape b)) then
        let outer := prod_dims (take ax (shape a)) in
        let inner := prod_dims (drop (S ax) (shape a)) in
        Ok (mkTensor (<[ax := da + db]> (shape a))
              (concat (zip_with app
                         (chunks (da * inner) outer (data a))
                         (chunks (db * inner) outer (data b)))))
      else Raise RuntimeError
  | _, _ => Raise IndexError
  end.

(** [t[idx]], the element at a multi-index within the shape. *)
Definition item (t : Tensor) (idx : list nat) : A :=
  data t !!! ravel (shape t) idx.

(** [torch.cat((a, b, c), dim=ax)]. *)
Definition cat3 (a b c : Tensor) (ax : nat) : result Tensor :=
  ab ← cat a b ax; cat ab c ax.

End tensor.

Arguments Tensor A : clear implicits.

End Torch.

(** ** Strings: suffix test and literal substitution *)

Fixpoint endswith_aux (rs rsuffix : list ascii) : bool :=
  match rsuffix, rs with
  | [], _ => true
  | c :: rsuffix', d :: rs' =>
      if decide (c = d) then endswith_aux rs' rsuffix' else false
  | _ :: _, [] => false
  end.

Definition endswith (s suffix : string) : bool :=
  endswith_aux (reverse (list_ascii_of_string s))
               (reverse (list_ascii_of_string suffix)).

Fixpoint startswith (pat s : list ascii) : bool :=
  match pat, s with
  | [], _ => true
  | c :: pat', d :: s' => if decide (c = d) then startswith pat' s' else false
  | _ :: _, [] => false
  end.

(** [re.sub] of a literal, non-empty pattern: every non-overlapping
    occurrence, leftmost first. [skip] counts the characters of a match that
    are still to be dropped. *)
Fixpoint sub_literal (pat rep : list ascii) (skip : nat) (s : list ascii)
  : list ascii :=
  match s with
  | [] => []
  | c :: s' =>
      match skip with
      | S k => sub_literal pat rep k s'
      | 0 =>
          if startswith pat s
          then rep ++ sub_literal pat rep (length pat - 1) s'
          else c :: sub_literal pat rep 0 s'
      end
  end.

Definition re_sub (pat rep s : string) : string :=
  string_of_list_ascii
    (sub_literal (list_ascii_of_string pat) (list_ascii_of_string rep) 0
       (list_ascii_of_string s)).

(** ** LLaMA attention converter: rotary interleave *)

Module Llama.
Import Torch.

Record cs_model_config : Type := {
  num_heads : nat;
  rotary_dim : nat;
  attention_module : option string;
  num_kv_groups : option nat;
}.

Section interleave.
Context {A : Type} `{Inhabited A}.

Definition interleave_helper (t : Tensor A) (cfg : cs_model_config)
  : result (Tensor A) :=
  let rotary_dim := rotary_dim cfg in
  match shape t with
  | [s0; s1; s2] =>
      to_rotate ← narrow t 1 0 rotary_dim;
      to_pass ← narrow t 1 rotary_dim s1;
      r1 ← reshape to_rotate [Z.of_nat s0; 2; -1; Z.of_nat s2]%Z;
      r2 ← permute r1 [0; 2; 1; 3];
      to_rotate ← reshape r2 [Z.of_nat s0; -1; Z.of_nat s2]%Z;
      cat to_rotate to_pass 1
  | [s0; s1] =>
      to_rotate ← narrow t 1 0 rotary_dim;
      to_pass ← narrow t 1 rotary_dim s1;
      r1 ← reshape to_rotate [Z.of_nat s0; 2; -1]%Z;
      r2 ← permute r1 [0; 2; 1];
      to_rotate ← reshape r2 [Z.of_nat s0; -1]%Z;
      cat to_rotate to_pass 1
  | _ =>
      Raise (AssertionError
        "shape of query, key, value projection tensor has to have shape of length 2 (biases) or 3 (weights) when converting from HF to CS")
  end.

Definition reverse_interleave_helper (t : Tensor A) (cfg : cs_model_config)
    (num_heads : nat) : result (Tensor A) :=
  let rotary_dim := rotary_dim cfg in
  match shape t with
  | [_; s1] =>
      t ← reshape t [Z.of_nat num_heads; -1; Z.of_nat s1]%Z;
      to_rotate ← narrow t 1 0 rotary_dim;
      to_pass ← narrow t 1 rotary_dim (shape t !!! 1);
      r1 ← reshape to_rotate [Z.of_nat num_heads; -1; 2; Z.of_nat s1]%Z;
      r2 ← permute r1 [0; 2; 1; 3];
      reversed ← reshape r2
        [Z.of_nat num_heads; Z.of_nat rotary_dim; Z.of_nat s1]%Z;
      cat reversed to_pass 1
  | [_] =>
      t ← reshape t [Z.of_nat num_heads; -1]%Z;
      to_rotate ← narrow t 1 0 rotary_dim;
      to_pass ← narrow t 1 rotary_dim (shape t !!! 1);
      r1 ← reshape to_rotate [Z.of_nat num_heads; -1; 2]%Z;
      r2 ← permute r1 [0; 2; 1];
      reversed ← reshape r2 [Z.of_nat num_heads; -1]%Z;
      cat reversed to_pass 1
  | _ =>
      Raise (AssertionError
        "shape of query, key, value projection tensor has to have shape of length 1 (biases) or 2 (weights) when converting from CS to HF")
  end.

(** The body shared by the query converter and the grouped key converter:
    [count] is [num_heads], respectively [num_kv_groups]. *)
Definition convert_interleaving (count : nat) (old_key new_key : string)
    (old_state_dict new_state_dict : gmap string (Tensor A))
    (from_index : nat) (cfg : cs_model_config)
  : result (gmap string (Tensor A)) :=
  match old_state_dict !! old_key with
  | None => Raise KeyError
  | Some tensor =>
      let initial_shape := shape tensor in
      tensor ←
        (if decide (from_index = 0) then
           tensor ←
             match shape tensor with
             | [s0; s1] =>
                 if decide (count = 0) then Raise ZeroDivisionError
                 else view tensor [Z.of_nat count; Z.of_nat (s0 / count);
                                   Z.of_nat s1]
             | [s0] =>
                 if decide (count = 0) then Raise ZeroDivisionError
                 else view tensor [Z.of_nat count; Z.of_nat (s0 / count)]
             | _ => Ok tensor
             end;
           interleave_helper tensor cfg
         else reverse_interleave_helper tensor cfg count);
      tensor ← view tensor (Z.of_nat <$> initial_shape);
      Ok (<[new_key := tensor]> new_state_dict)
  end.

Definition convert_with_interleaving_query (old_key new_key : string)
    (old_state_dict new_state_dict : gmap string (Tensor A))
    (from_index : nat) (cfg : cs_model_config)
  : result (gmap string (Tensor A)) :=
  convert_interleaving (num_heads cfg) old_key new_key
    old_state_dict new_state_dict from_index cfg.

Definition convert_with_interleaving_key (old_key new_key : string)
    (old_state_dict new_state_dict : gmap string (Tensor A))
    (from_index : nat) (cfg : cs_model_config)
  : result (gmap string (Tensor A)) :=
  let module := default "aiayn_attention" (attention_module cfg) in
  if decide (module = "aiayn_attention") then
    convert_with_interleaving_query old_key new_key
      old_state_dict new_state_dict from_index cfg
  else if decide (module = "multiquery_attention") then
    match num_kv_groups cfg with
    | None => Raise KeyError
    | Some num_group =>
        convert_interleaving num_group old_key new_key
          old_state_dict new_state_dict from_index cfg
    end
  else Raise (AssertionError "attention_module is not supported for llama").

End interleave.
(** Language-model head synthesis ([Converter_LlamaModel_HF_CS]). A state
    dict entry is a stored tensor or a freshly initialised one; the random
    initialisation is kept as the distribution it is drawn from. *)
Inductive entry (A : Type) : Type :=
  | Stored (t : Tensor A)
  | NormalInit (dims : list nat) (mean std : Q)
  | ZerosInit (dims : list nat).

Arguments Stored {A} t.
Arguments NormalInit {A} dims mean std.
Arguments ZerosInit {A} dims.

Record hf_config : Type := {
  tie_word_embeddings : bool;
  hf_initializer_range : Q;
}.

Record cs_head_config : Type := {
  use_bias_in_output : option bool;
  vocab_size : nat;
  hidden_size : nat;
  cs_initializer_range : Q;
}.

Section lm_head.
Context {A : Type}.
(** The hook of the base converter class, which runs last. *)
Variable base_post_model_convert :
  gmap string (entry A) -> gmap string (entry A) -> nat ->
  result (gmap string (entry A)).

Definition post_model_convert
    (old_state_dict new_state_dict : gmap string (entry A))
    (configs : hf_config * cs_head_config) (from_index : nat)
  : result (gmap string (entry A)) :=
  new_state_dict ←
    (if decide (from_index = 0) then
       let hf_config := configs.1 in
       let cs_config := configs.2 in
       let use_bias_in_output :=
         default false (use_bias_in_output cs_config) in
       let vocab_size := vocab_size cs_config in
       let embed_dim := hidden_size cs_config in
       lm_head_weight ←
         (if tie_word_embeddings hf_config then
            match old_state_dict !! "embed_tokens.weight" with
            | Some w => Ok w
            | None => Raise KeyError
            end
          else Ok (NormalInit [vocab_size; embed_dim] 0 (2 # 100)));
       let new_state_dict :=
         <["lm_head.weight" := lm_head_weight]> new_state_dict in
       Ok (if use_bias_in_output
           then <["lm_head.bias" := ZerosInit [vocab_size]]> new_state_dict
           else new_state_dict)
     else Ok new_state_dict);
  base_post_model_convert old_state_dict new_state_dict from_index.
End lm_head.

(** Configuration values and [ConfigConverter_LLaMa_HF_CS20.convert_gqa]. *)
Inductive cfg_value : Type :=
  | CInt (z : Z)
  | CStr (s : string)
  | CDict (d : gmap string Z).

#[global] Instance cfg_value_eq_dec : EqDecision cfg_value.
Proof. solve_decision. Defined.

Definition py_mod (a b : cfg_value) : result Z :=
  match a, b with
  | CInt x, CInt y =>
      if decide (y = 0%Z) then Raise ZeroDivisionError else Ok (x `mod` y)%Z
  | _, _ => Raise TypeError
  end.

Definition cfg_get (d : gmap string cfg_value) (k : string)
  : result cfg_value :=
  match d !! k with Some v => Ok v | None => Raise KeyError end.

Definition cfg_item (v : cfg_value) (k : string) : result cfg_value :=
  match v with
  | CDict d => match d !! k with Some z => Ok (CInt z) | None => Raise KeyError end
  | _ => Raise TypeError
  end.

Fixpoint contains (pat s : list ascii) : bool :=
  startswith pat s ||
  match s with
  | [] => false
  | _ :: s' => contains pat s'
  end.

Definition cfg_not_in (k : string) (v : cfg_value) : result bool :=
  match v with
  | CDict d => Ok (bool_decide (d !! k = None))
  | CStr s =>
      Ok (negb (contains (list_ascii_of_string k) (list_ascii_of_string s)))
  | CInt _ => Raise TypeError
  end.

Definition divisible_msg : string :=
  "number of attention heads should be divisible by num_key_value_heads but got {} and {}".

Definition gqa_writes (old_key new_key : string)
    (old_state_dict : gmap string cfg_value) (from_index : nat)
  : result (list (string * cfg_value)) :=
  if decide (from_index = 0) then
    kv ← cfg_get old_state_dict old_key;
    heads ← cfg_get old_state_dict "num_attention_heads";
    if decide (kv = heads) then
      Ok [("attention_module", CStr "aiayn_attention")]
    else
      r ← py_mod heads kv;
      if decide (r = 0%Z) then
        match kv with
        | CInt z =>
            Ok [(new_key, CDict {["num_kv_groups" := z]});
                ("attention_module", CStr "multiquery_attention")]
        | _ => Raise TypeError
        end
      else Raise (AssertionError divisible_msg)
  else if decide (from_index = 1) then
    let module :=
      default (CStr "aiayn_attention") (old_state_dict !! "attention_module")
    in
    if decide (module = CStr "aiayn_attention") then
      ok ← match old_state_dict !! old_key with
           | None => Ok true
           | Some v => cfg_not_in "num_kv_groups" v
           end;
      if ok : bool then
        extra ← cfg_get old_state_dict old_key;
        heads ← cfg_item extra "num_heads";
        Ok [(new_key, heads)]
      else Raise (AssertionError
             "Conflict between use of multi-query and multi-head attention")
    else if decide (module = CStr "multiquery_attention") then
      num_heads ← cfg_get old_state_dict "num_heads";
      extra ← cfg_get old_state_dict old_key;
      num_kv_groups ← cfg_item extra "num_kv_groups";
      r ← py_mod num_heads num_kv_groups;
      if decide (r = 0%Z) then Ok [(new_key, num_kv_groups)]
      else Raise (AssertionError divisible_msg)
    else Raise (AssertionError "attention_module {} is not supported for llama")
  else Ok [].

(** [convert_gqa]: every check precedes the writes into [new_state_dict]. *)
Definition convert_gqa (old_key new_key : string)
    (old_state_dict new_state_dict : gmap string cfg_value)
    (from_index : nat)
  : outcome (gmap string cfg_value) (gmap string cfg_value) :=
  match gqa_writes old_key new_key old_state_dict from_index with
  | Raise e => Failed e new_state_dict
  | Ok writes =>
      Done (foldl (fun sd kv => <[kv.1 := kv.2]> sd) new_state_dict writes)
  end.

End Llama.


(** ** Falcon-40B attention converter: fused QKV *)

Module Falcon.
Import Torch.

Record cs_model_config : Type := {
  hidden_size : nat;
  num_heads : nat;
  num_kv_groups : nat;
}.

Section qkv.
Context {A : Type} `{Inhabited A}.

Definition interleave_helper (rotary_dim : nat) (t : Tensor A)
  : result (Tensor A) :=
  match shape t with
  | [s0; s1; s2; s3] =>
      to_rotate ← narrow t 2 0 rotary_dim;
      to_pass ← narrow t 2 rotary_dim s2;
      r1 ← reshape to_rotate
             [Z.of_nat s0; Z.of_nat s1; 2; -1; Z.of_nat s3]%Z;
      r2 ← permute r1 [0; 1; 3; 2; 4];
      to_rotate ← reshape r2 [Z.of_nat s0; Z.of_nat s1; -1; Z.of_nat s3]%Z;
      cat to_rotate to_pass 2
  | [s0; s1; s2] =>
      to_rotate ← narrow t 2 0 rotary_dim;
      to_pass ← narrow t 2 rotary_dim s2;
      r1 ← reshape to_rotate [Z.of_nat s0; Z.of_nat s1; 2; -1]%Z;
      r2 ← permute r1 [0; 1; 3; 2];
      to_rotate ← reshape r2 [Z.of_nat s0; Z.of_nat s1; -1]%Z;
      cat to_rotate to_pass 2
  | _ =>
      Raise (AssertionError
        "shape of query, key, value projection tensor has to have shape of length 2 (biases) or 3 (weights) when converting from HF to CS")
  end.

Definition reverse_interleave_helper (rotary_dim : nat) (t : Tensor A)
    (group_size num_groups : nat) : result (Tensor A) :=
  match shape t with
  | [_; s1] =>
      t ← reshape t
            [Z.of_nat num_groups; Z.of_nat group_size; -1; Z.of_nat s1]%Z;
      to_rotate ← narrow t 2 0 rotary_dim;
      to_pass ← narrow t 2 rotary_dim (shape t !!! 2);
      r1 ← reshape to_rotate
             [Z.of_nat num_groups; Z.of_nat group_size; -1; 2;
              Z.of_nat s1]%Z;
      r2 ← permute r1 [0; 1; 3; 2; 4];
      reversed ← reshape r2
             [Z.of_nat num_groups; Z.of_nat group_size;
              Z.of_nat rotary_dim; Z.of_nat s1]%Z;
      cat reversed to_pass 2
  | [_] =>
      t ← reshape t [Z.of_nat num_groups; Z.of_nat group_size; -1]%Z;
      to_rotate ← narrow t 2 0 rotary_dim;
      to_pass ← narrow t 2 rotary_dim (shape t !!! 2);
      r1 ← reshape to_rotate
             [Z.of_nat num_groups; Z.of_nat group_size; -1; 2]%Z;
      r2 ← permute r1 [0; 1; 3; 2];
      reversed ← reshape r2
             [Z.of_nat num_groups; Z.of_nat group_size; -1]%Z;
      cat reversed to_pass 2
  | _ =>
      Raise (AssertionError
        "shape of query, key, value projection tensor has to have shape of length 1 (biases) or 2 (weights) when converting from CS to HF")
  end.

Definition k_key_of (q_key : string) : string :=
  re_sub ".proj_q_dense_layer." ".proj_k_dense_layer." q_key.

Definition v_key_of (q_key : string) : string :=
  re_sub ".proj_q_dense_layer." ".proj_v_dense_layer." q_key.

Definition floordiv (a b : nat) : result nat :=
  if decide (b = 0) then Raise ZeroDivisionError else Ok (a / b).

(** The tensor computation of [qkv_converter_hf_to_cs], up to the three
    writes into [new_state_dict]. *)
Definition split_qkv (old_key new_key : string)
    (old_state_dict : gmap string (Tensor A)) (cfg : cs_model_config)
  : result (Tensor A * Tensor A * Tensor A) :=
  head_size ← floordiv (hidden_size cfg) (num_heads cfg);
  kv_group_size ← floordiv (num_heads cfg) (num_kv_groups cfg);
  let num_kv_groups := num_kv_groups cfg in
  if endswith new_key ".bias" then
    match old_state_dict !! old_key with
    | None => Raise KeyError
    | Some packed =>
        match shape packed with
        | [packed_dim] =>
            if decide (head_size * (num_kv_groups * 2 + num_heads cfg)
                       = packed_dim) then
              split_by_num_heads ← reshape packed
                [Z.of_nat num_kv_groups; Z.of_nat (kv_group_size + 2);
                 -1]%Z;
              query ← narrow split_by_num_heads 1 0 kv_group_size;
              key ← narrow split_by_num_heads 1
                      kv_group_size (kv_group_size + 1);
              value ← narrow split_by_num_heads 1
                        (kv_group_size + 1) (kv_group_size + 2);
              query ← interleave_helper head_size query;
              key ← interleave_helper head_size key;
              query ← reshape query [-1]%Z;
              value ← reshape value [-1]%Z;
              key ← reshape key [-1]%Z;
              Ok (query, key, value)
            else Raise (AssertionError "Invalid tensor shape {} at {}.")
        | _ => Raise (AssertionError EmptyString)
        end
    end
  else if endswith new_key ".weight" then
    match old_state_dict !! old_key with
    | None => Raise KeyError
    | Some packed =>
        match shape packed with
        | [packed_dim; dim] =>
            if decide (head_size * (num_kv_groups * 2 + num_heads cfg)
                       = packed_dim) then
              split_by_num_heads ← reshape packed
                [Z.of_nat num_kv_groups; Z.of_nat (kv_group_size + 2);
                 -1; Z.of_nat dim]%Z;
              query ← narrow split_by_num_heads 1 0 kv_group_size;
              key ← narrow split_by_num_heads 1
                      kv_group_size (kv_group_size + 1);
              value ← narrow split_by_num_heads 1
                        (kv_group_size + 1) (kv_group_size + 2);
              query ← interleave_helper head_size query;
              key ← interleave_helper head_size key;
              query ← reshape query [-1; Z.of_nat dim]%Z;
              value ← reshape value [-1; Z.of_nat dim]%Z;
              key ← reshape key [-1; Z.of_nat dim]%Z;
              Ok (query, key, value)
            else Raise (AssertionError "Invalid tensor shape {} at {}.")
        | _ => Raise (ValueError "unpack")
        end
    end
  else Raise (ValueError "Invalid key after conversion: {}").

Definition qkv_converter_hf_to_cs (old_key new_key : string)
    (old_state_dict new_state_dict : gmap string (Tensor A))
    (cfg : cs_model_config)
  : outcome (gmap string (Tensor A)) (gmap string (Tensor A)) :=
  let q_key := new_key in
  let k_key := k_key_of q_key in
  let v_key := v_key_of q_key in
  match split_qkv old_key new_key old_state_dict cfg with
  | Raise e => Failed e new_state_dict
  | Ok (query, key, value) =>
      Done (<[v_key := value]>
              (<[k_key := key]> (<[q_key := query]> new_state_dict)))
  end.

Definition lookup_key (sd : gmap string (Tensor A)) (k : string)
  : result (Tensor A) :=
  match sd !! k with Some t => Ok t | None => Raise KeyError end.

(** The tensor computation of [qkv_converter_cs_to_hf]. *)
Definition merge_qkv (old_key new_key : string)
    (old_state_dict : gmap string (Tensor A)) (cfg : cs_model_config)
  : result (Tensor A) :=
  let q_key := old_key in
  let k_key := k_key_of q_key in
  let v_key := v_key_of q_key in
  head_size ← floordiv (hidden_size cfg) (num_heads cfg);
  kv_group_size ← floordiv (num_heads cfg) (num_kv_groups cfg);
  let num_kv_groups := num_kv_groups cfg in
  if decide (old_state_dict !! k_key = None) then
    Raise (AssertionError "Expected the following key to exist! {}")
  else if decide (old_state_dict !! v_key = None) then
    Raise (AssertionError "Expected the following key to exist! {}")
  else
    query ← lookup_key old_state_dict q_key;
    value ← lookup_key old_state_dict v_key;
    key ← lookup_key old_state_dict k_key;
    if endswith new_key ".bias" then
      query ← reverse_interleave_helper head_size query
                kv_group_size num_kv_groups;
      key ← reverse_interleave_helper head_size key 1 num_kv_groups;
      value ← reshape value [Z.of_nat num_kv_groups; 1; -1]%Z;
      packed_qkv ← cat3 query key value 1;
      reshape packed_qkv [-1]%Z
    else if endswith new_key ".weight" then
      match reverse (shape query) with
      | [] => Raise IndexError
      | hidden_size :: _ =>
          query ← reverse_interleave_helper head_size query
                    kv_group_size num_kv_groups;
          key ← reverse_interleave_helper head_size key 1 num_kv_groups;
          match reverse (shape value) with
          | [] => Raise IndexError
          | value_last :: _ =>
              value ← reshape value
                [Z.of_nat num_kv_groups; 1; -1; Z.of_nat value_last]%Z;
              packed_qkv ← cat3 query key value 1;
              reshape packed_qkv [-1; Z.of_nat hidden_size]%Z
          end
      end
    else Raise (ValueError "Invalid key after conversion: {}").

Definition qkv_converter_cs_to_hf (old_key new_key : string)
    (old_state_dict new_state_dict : gmap string (Tensor A))
    (cfg : cs_model_config)
  : outcome (gmap string (Tensor A)) (gmap string (Tensor A)) :=
  match merge_qkv old_key new_key old_state_dict cfg with
  | Raise e => Failed e new_state_dict
  | Ok packed_qkv => Done (<[new_key := packed_qkv]> new_state_dict)
  end.

Definition qkv_converter (old_key new_key : string)
    (old_state_dict new_state_dict : gmap string (Tensor A))
    (from_index : nat) (cfg : cs_model_config)
  : outcome (gmap string (Tensor A)) (gmap string (Tensor A)) :=
  if decide (from_index = 0) then
    qkv_converter_hf_to_cs old_key new_key old_state_dict new_state_dict cfg
  else
    qkv_converter_cs_to_hf old_key new_key old_state_dict new_state_dict cfg.

End qkv.
(** Language-model head synthesis
    ([Converter_Falcon_40B_Headless_WithoutModelPrefix_HF_CS20]). *)
Section lm_head.
Context {A : Type}.
Variable base_post_model_convert :
  gmap string (Llama.entry A) -> gmap string (Llama.entry A) -> nat ->
  string -> result (gmap string (Llama.entry A)).

Definition post_model_convert
    (old_state_dict new_state_dict : gmap string (Llama.entry A))
    (configs : Llama.hf_config * Llama.cs_head_config) (direction : nat)
    (key_prefix : string)
  : result (gmap string (Llama.entry A)) :=
  new_state_dict ←
    (if decide (direction = 0) then
       let hf_config := configs.1 in
       let cs_config := configs.2 in
       let use_bias_in_output :=
         default false (Llama.use_bias_in_output cs_config) in
       let vocab_size := Llama.vocab_size cs_config in
       let embed_dim := Llama.hidden_size cs_config in
       lm_head_weight ←
         (if Llama.tie_word_embeddings hf_config then
            match old_state_dict !! "transformer.word_embeddings.weight"
            with
            | Some w => Ok w
            | None => Raise KeyError
            end
          else Ok (Llama.NormalInit [vocab_size; embed_dim] 0 (2 # 100)));
       let new_state_dict :=
         <[(key_prefix +:+ "lm_head.weight") := lm_head_weight]>
           new_state_dict in
       Ok (if use_bias_in_output
           then <[(key_prefix +:+ "lm_head.bias")
                  := Llama.ZerosInit [vocab_size]]> new_state_dict
           else new_state_dict)
     else Ok new_state_dict);
  base_post_model_convert old_state_dict new_state_dict direction
    key_prefix.
End lm_head.

End Falcon.

(** ** Streaming checkpoints *)

Module Streaming.

(** *** Size strings *)

Inductive size_arg : Type :=
  | SizeInt (z : Z)
  | SizeStr (s : string).

Definition is_digit (c : ascii) : bool :=
  let n := nat_of_ascii c in ((48 <=? n)%nat && (n <=? 57)%nat).

Definition newline : ascii := ascii_of_nat 10.

(** [int(...)] on a run of decimal digits. *)
Definition int_of_digits (ds : list ascii) : Z :=
  foldl (fun acc c => (10 * acc + Z.of_nat (nat_of_ascii c - 48))%Z) 0%Z ds.

(** [re.search] with the pattern "digits, then anything": the leftmost
    digit starts the match; group 1 is the longest run of digits from there,
    group 2 the rest of that line. *)
Fixpoint take_while (p : ascii -> bool) (s : list ascii) : list ascii :=
  match s with
  | [] => []
  | c :: s' => if p c then c :: take_while p s' else []
  end.

Fixpoint drop_while (p : ascii -> bool) (s : list ascii) : list ascii :=
  match s with
  | [] => []
  | c :: s' => if p c then drop_while p s' else s
  end.

Definition re_search_size (size : list ascii)
  : option (list ascii * list ascii) :=
  match drop_while (fun c => negb (is_digit c)) size with
  | [] => None
  | rest =>
      Some (take_while is_digit rest,
            take_while (fun c => negb (bool_decide (c = newline)))
              (drop_while is_digit rest))
  end.

Definition size_format_msg : string :=
  "size '{}' is not in a valid format. Use an integer followed by the unit, e.g., '10GB'.".

Section size_strings.
(** [cerebras_appliance.utils.units.convert_byte_unit(num, "B",
    src_unit=unit)], a library outside this repository: [None] when it
    raises. *)
Variable convert_byte_unit : Z -> string -> option Z.

Definition convert_file_size_to_int (size : size_arg) : result Z :=
  match size with
  | SizeInt z => Ok z
  | SizeStr s =>
      match re_search_size (list_ascii_of_string s) with
      | None => Raise (ValueError size_format_msg)
      | Some (g1, g2) =>
          let num := int_of_digits g1 in
          let unit := string_of_list_ascii g2 in
          match convert_byte_unit num unit with
          | Some size => Ok size
          | None => Raise (ValueError size_format_msg)
          end
      end
  end.
End size_strings.

(** Modelled from the spec: the byte-unit conversion utility the size parser
    delegates to is consumed as a black box; the units of the examples
    ("10GB", "10GiB" = 10737418240) and their siblings are given their usual
    widths, every other unit is rejected. *)
Definition unit_width (unit : string) : option Z :=
  if decide (unit = "B") then Some 1%Z
  else if decide (unit = "KB") then Some (10 ^ 3)%Z
  else if decide (unit = "MB") then Some (10 ^ 6)%Z
  else if decide (unit = "GB") then Some (10 ^ 9)%Z
  else if decide (unit = "TB") then Some (10 ^ 12)%Z
  else if decide (unit = "KiB") then Some (2 ^ 10)%Z
  else if decide (unit = "MiB") then Some (2 ^ 20)%Z
  else if decide (unit = "GiB") then Some (2 ^ 30)%Z
  else if decide (unit = "TiB") then Some (2 ^ 40)%Z
  else None.

Definition convert_byte_unit_model (num : Z) (unit : string) : option Z :=
  w ← unit_width unit; Some (num * w)%Z.

(** *** Tensor sizes *)

Inductive torch_dtype : Type :=
  | torch_bool
  | torch_uint8 | torch_int8 | torch_int16 | torch_int32 | torch_int64
  | torch_float16 | torch_bfloat16 | torch_float32 | torch_float64.

#[global] Instance torch_dtype_eq_dec : EqDecision torch_dtype.
Proof. solve_decision. Defined.

Definition is_floating_point (d : torch_dtype) : bool :=
  match d with
  | torch_float16 | torch_bfloat16 | torch_float32 | torch_float64 => true
  | _ => false
  end.

(** [torch.finfo(dtype).bits] and [torch.iinfo(dtype).bits]. *)
Definition bits (d : torch_dtype) : Z :=
  match d with
  | torch_bool => 8
  | torch_uint8 | torch_int8 => 8
  | torch_int16 | torch_float16 | torch_bfloat16 => 16
  | torch_int32 | torch_float32 => 32
  | torch_int64 | torch_float64 => 64
  end.

Definition dtype_byte_size (d : torch_dtype) : Q :=
  if decide (d = torch_bool) then 1 # 8
  else if is_floating_point d then inject_Z (bits d) / 8
  else inject_Z (bits d) / 8.

Record HFTensor : Type := {
  dtype : torch_dtype;
  tensor : Torch.Tensor Z;
}.

(** [math.ceil(value.numel() * dtype_byte_size(value.dtype))]. *)
Definition weight_size (value : HFTensor) : Z :=
  Qceiling (inject_Z (Z.of_nat (Torch.numel (tensor value)))
            * dtype_byte_size (dtype value)).

(** *** Shard file names *)

Fixpoint digits_lsd (fuel n : nat) : list nat :=
  match fuel with
  | 0 => []
  | S f => n `mod` 10 :: (if decide (n < 10) then [] else digits_lsd f (n / 10))
  end.

Definition decimal (n : nat) : list nat := reverse (digits_lsd (S n) n).

(** The number a list of decimal digits denotes, most significant first. *)
Definition digits_value (ds : list nat) : nat :=
  foldl (fun acc d => 10 * acc + d) 0 ds.

Definition zero_pad (width : nat) (ds : list nat) : list nat :=
  replicate (width - length ds) 0 ++ ds.

Definition digit_char (d : nat) : ascii := ascii_of_nat (48 + d).

(** The format [{:05d}]. *)
Definition format_05d (n : nat) : list ascii :=
  digit_char <$> zero_pad 5 (decimal n).

Definition get_filename (file_number total_shards : nat) : string :=
  string_of_list_ascii
    (list_ascii_of_string "pytorch_model-" ++ format_05d (file_number + 1)
     ++ list_ascii_of_string "-of-" ++ format_05d total_shards
     ++ list_ascii_of_string ".bin").

Definition index_file : string := "pytorch_model.bin.index.json".

(** *** The sharded writer *)

Inductive file : Type :=
  | ShardFile (d : gmap string HFTensor)
  | IndexFile (total_size : Z) (weight_map : gmap string string).

(** The writer, together with the files of its checkpoint directory and the
    warnings it has logged. *)
Record writer : Type := mkWriter {
  fs : gmap string file;
  weight_map : gmap string string;
  current_file_number : nat;
  last_file_number : nat;
  total_shards_finalized : nat;
  active_file_name : string;
  active_file_data : gmap string HFTensor;
  file_size : gmap string Z;
  dirty : bool;
  max_shard_size : Z;
  warnings : list string;
}.

Definition call (S : Type) : Type := outcome S (gmap string file).

Definition and_then {S T : Type} (o : call S) (k : S -> call T) : call T :=
  match o with
  | Done s => k s
  | Failed e r => Failed e r
  end.

(** [__init__] on a directory that does not exist yet. *)
Definition fresh_writer (max_shard_size : Z) : writer :=
  {| fs := ∅;
     weight_map := ∅;
     current_file_number := 0;
     last_file_number := 0;
     total_shards_finalized := 0;
     active_file_name := get_filename 0 0;
     active_file_data := ∅;
     file_size := {[get_filename 0 0 := 0%Z]};
     dirty := false;
     max_shard_size := max_shard_size;
     warnings := [] |}.

Definition init (convert_byte_unit : Z -> string -> option Z)
    (shard_size : size_arg) : call writer :=
  match convert_file_size_to_int convert_byte_unit shard_size with
  | Ok size => Done (fresh_writer size)
  | Raise e => Failed e ∅
  end.

Definition _flush (w : writer) : writer :=
  if dirty w then
    mkWriter (<[active_file_name w := ShardFile (active_file_data w)]> (fs w))
      (weight_map w) (current_file_number w) (last_file_number w)
      (total_shards_finalized w) (active_file_name w) (active_file_data w)
      (file_size w) false (max_shard_size w) (warnings w)
  else w.

Definition _switch_shards (new_file : string) (w : writer) : call writer :=
  let w := _flush w in
  match fs w !! new_file with
  | Some (ShardFile d) =>
      Done (mkWriter (fs w) (weight_map w) (current_file_number w)
              (last_file_number w) (total_shards_finalized w) new_file d
              (file_size w) (dirty w) (max_shard_size w) (warnings w))
  | Some (IndexFile _ _) => Failed RuntimeError (fs w)
  | None => Failed FileNotFoundError (fs w)
  end.

Definition __getitem__ (key : string) (w : writer)
  : call (writer * HFTensor) :=
  match weight_map w !! key with
  | None => Failed KeyError (fs w)
  | Some file =>
      and_then
        (if decide (file ≠ active_file_name w) then _switch_shards file w
         else Done w)
        (fun w =>
           match active_file_data w !! key with
           | Some v => Done (w, v)
           | None => Failed KeyError (fs w)
           end)
  end.

Definition overrun_warning : string :=
  "Updating {} is causing shard {} to be larger than limit".

(** The writes that end both branches of [__setitem__]. *)
Definition store (key : string) (value : HFTensor) (size : Z) (w : writer)
    (warn : bool) : writer :=
  mkWriter (fs w) (<[key := active_file_name w]> (weight_map w))
    (current_file_number w) (last_file_number w) (total_shards_finalized w)
    (active_file_name w) (<[key := value]> (active_file_data w))
    (<[active_file_name w := size]> (file_size w)) true (max_shard_size w)
    (if warn then warnings w ++ [overrun_warning] else warnings w).

(** A new, empty shard becomes the active one. *)
Definition open_next_shard (w : writer) : writer :=
  let w := _flush w in
  let number := last_file_number w + 1 in
  let name := get_filename number (total_shards_finalized w) in
  mkWriter (fs w) (weight_map w) number number (total_shards_finalized w)
    name ∅ (<[name := 0%Z]> (file_size w)) (dirty w) (max_shard_size w)
    (warnings w).

Definition __setitem__ (key : string) (value : HFTensor) (w : writer)
  : call writer :=
  match weight_map w !! key with
  | Some file =>
      and_then
        (if decide (active_file_name w ≠ file) then _switch_shards file w
         else Done w)
        (fun w =>
           match active_file_data w !! key with
           | None => Failed KeyError (fs w)
           | Some old_value =>
               let old_weight_size := weight_size old_value in
               let weight_size := weight_size value in
               let delta_size := (weight_size - old_weight_size)%Z in
               match file_size w !! active_file_name w with
               | None => Failed KeyError (fs w)
               | Some size =>
                   Done (store key value (size + delta_size)%Z w
                           (bool_decide
                              (size + delta_size > max_shard_size w)%Z))
               end
           end)
  | None =>
      let weight_size := weight_size value in
      and_then
        (if decide (current_file_number w ≠ last_file_number w) then
           _switch_shards
             (get_filename (last_file_number w) (total_shards_finalized w)) w
         else Done w)
        (fun w =>
           match file_size w !! active_file_name w with
           | None => Failed KeyError (fs w)
           | Some size =>
               let w :=
                 if decide (size + weight_size > max_shard_size w)%Z
                 then open_next_shard w else w in
               match file_size w !! active_file_name w with
               | None => Failed KeyError (fs w)
               | Some size => Done (store key value (size + weight_size)%Z w false)
               end
           end)
  end.

(** [os.rename] inside the checkpoint directory. *)
Definition os_rename (prev_file new_file : string) (files : gmap string file)
  : result (gmap string file) :=
  match files !! prev_file with
  | None => Raise FileNotFoundError
  | Some content => Ok (<[new_file := content]> (delete prev_file files))
  end.

Fixpoint rename_all (renames : list (string * string))
    (files : gmap string file) : call (gmap string file) :=
  match renames with
  | [] => Done files
  | (prev_file, new_file) :: rest =>
      match os_rename prev_file new_file files with
      | Ok files => rename_all rest files
      | Raise e => Failed e files
      end
  end.

Definition sum_sizes (sizes : gmap string Z) : Z :=
  map_fold (fun _ size acc => (size + acc)%Z) 0%Z sizes.

Definition save (w : writer) : call writer :=
  let w := _flush w in
  let total_size := sum_sizes (file_size w) in
  let new_total_shards := last_file_number w + 1 in
  and_then
    (if decide (total_shards_finalized w ≠ new_total_shards) then
       (* the names are pairwise distinct, so the dict [file_renames] has
          these items, in this order *)
       let renames :=
         (fun i => (get_filename i (total_shards_finalized w),
                    get_filename i new_total_shards))
           <$> seq 0 new_total_shards in
       let file_renames : gmap string string :=
         foldl (fun m p => <[p.1 := p.2]> m) ∅ renames in
       and_then (rename_all renames (fs w))
         (fun files =>
            if decide (map_Forall (fun _ prev_file =>
                         is_Some (file_renames !! prev_file)) (weight_map w)
                       ∧ map_Forall (fun prev_file _ =>
                           is_Some (file_renames !! prev_file)) (file_size w))
            then
              let rename prev_file :=
                default prev_file (file_renames !! prev_file) in
              Done (mkWriter files (rename <$> weight_map w)
                      (current_file_number w) (last_file_number w)
                      new_total_shards (active_file_name w)
                      (active_file_data w)
                      (list_to_map
                         ((fun p => (rename p.1, p.2))
                            <$> map_to_list (file_size w)))
                      (dirty w) (max_shard_size w) (warnings w))
            else Failed KeyError files)
     else Done w)
    (fun w =>
       Done (mkWriter
               (<[index_file := IndexFile total_size (weight_map w)]> (fs w))
               (weight_map w) (current_file_number w) (last_file_number w)
               (total_shards_finalized w) (active_file_name w)
               (active_file_data w) (file_size w) (dirty w)
               (max_shard_size w) (warnings w))).

(** Calls on a writer, and runs of calls that all return. *)
Inductive op : Type :=
  | SetItem (key : string) (value : HFTensor)
  | GetItem (key : string)
  | Save.

Definition run_op (o : op) (w : writer) : call writer :=
  match o with
  | SetItem key value => __setitem__ key value w
  | GetItem key => and_then (__getitem__ key w) (fun r => Done r.1)
  | Save => save w
  end.

Fixpoint run (ops : list op) (w : writer) : call writer :=
  match ops with
  | [] => Done w
  | o :: ops => and_then (run_op o w) (run ops)
  end.

(** The bytes the run [kvs] of insertions has put into shard [name]. *)
Definition shard_tensors (kvs : list (string * HFTensor))
    (weight_map : gmap string string) (name : string)
  : list (string * HFTensor) :=
  filter (fun kv => weight_map !! kv.1 = Some name) kvs.

Definition shard_bytes (kvs : list (string * HFTensor))
    (weight_map : gmap string string) (name : string) : Z :=
  foldr Z.add 0%Z ((fun kv => weight_size kv.2) <$> shard_tensors kvs weight_map name).

(** What the writer's maps say of each other between two calls. *)
Record consistent (w : writer) : Prop := {
  cons_current : current_file_number w = last_file_number w;
  cons_sizes : forall f,
    is_Some (file_size w !! f)
    <-> exists i, i <= last_file_number w
                  ∧ f = get_filename i (total_shards_finalized w);
  cons_keys : forall k f,
    weight_map w !! k = Some f ->
    is_Some (file_size w !! f)
    ∧ (f = active_file_name w -> is_Some (active_file_data w !! k))
    ∧ (f ≠ active_file_name w ∨ dirty w = false ->
       exists d, fs w !! f = Some (ShardFile d) ∧ is_Some (d !! k));
  cons_active :
    is_Some (file_size w !! active_file_name w)
    ∨ (dirty w = false
       ∧ total_shards_finalized w = last_file_number w + 1);
}.

(** [__len__]. *)
Definition __len__ (w : writer) : nat := size (weight_map w).

(** The dictionary a run of calls describes: under each key the value of
    the last [__setitem__]. *)
Fixpoint dict_of (ops : list op) (d : gmap string HFTensor)
  : gmap string HFTensor :=
  match ops with
  | [] => d
  | SetItem key value :: ops => dict_of ops (<[key := value]> d)
  | _ :: ops => dict_of ops d
  end.

(** The writer holds the dictionary [d]: a key of the active shard has its
    value in memory, a key of another shard (or of a clean active shard)
    has it in the shard file. *)
Record agrees (w : writer) (d : gmap string HFTensor) : Prop := {
  agrees_absent : forall k, weight_map w !! k = None -> d !! k = None;
  agrees_present : forall k f,
    weight_map w !! k = Some f ->
    exists v, d !! k = Some v
      ∧ (f = active_file_name w -> active_file_data w !! k = Some v)
      ∧ (f ≠ active_file_name w ∨ dirty w = false ->
         exists sh, fs w !! f = Some (ShardFile sh) ∧ sh !! k = Some v);
}.

(** Shard 0 was skipped: it holds no key, is not the active shard and was
    never written; no save has written an index file. *)
Record skipped (w : writer) : Prop := {
  skipped_total : total_shards_finalized w = 0;
  skipped_file : fs w !! get_filename 0 0 = None;
  skipped_index : fs w !! index_file = None;
  skipped_active : active_file_name w ≠ get_filename 0 0;
  skipped_keys : forall k, weight_map w !! k ≠ Some (get_filename 0 0);
}.

(** The bytes of the values of [d] that [weight_map] files under [name]. *)
Definition held_bytes (d : gmap string HFTensor)
    (weight_map : gmap string string) (name : string) : Z :=
  map_fold (fun key value acc =>
              if decide (weight_map !! key = Some name)
              then (weight_size value + acc)%Z else acc) 0%Z d.

(** Every tracked shard size is the number of bytes the shard holds. *)
Definition accounted (w : writer) (d : gmap string HFTensor) : Prop :=
  forall f sz, file_size w !! f = Some sz ->
    sz = held_bytes d (weight_map w) f.

End Streaming.

(** ** The hierarchical (H5) writer view *)

Module CSWriter.

Inductive pykey : Type :=
  | KStr (s : string)
  | KInt (i : Z).

#[global] Instance pykey_eq_dec : EqDecision pykey.
Proof. solve_decision. Defined.

(** The logical tree a view keeps in [self.state]: leaf markers below
    dicts, lists and tuples. *)
#[warnings="-register-all"]
Inductive node : Type :=
  | StreamingCSLeaf
  | NDict (items : list (pykey * node))
  | NList (items : list node)
  | NTuple (items : list node).

Definition is_leaf (n : node) : bool :=
  match n with StreamingCSLeaf => true | _ => false end.

Section view.
Context {V : Type}.

(** Values handed to [__setitem__]: a leaf (a tensor, a scalar) or a
    dict, list or tuple of values. *)
#[warnings="-register-all"]
Inductive pyvalue : Type :=
  | PLeaf (v : V)
  | PDict (items : list (string * pyvalue))
  | PList (items : list pyvalue)
  | PTuple (items : list pyvalue).

Definition is_container (v : pyvalue) : bool :=
  match v with PLeaf _ => false | _ => true end.

Definition index_name (i : nat) : string :=
  string_of_list_ascii (Streaming.digit_char <$> Streaming.decimal i).

(** [tree_flatten] with the scopes [recurse_spec] yields: the leaves in
    order, each with the chain of keys that leads to it. *)
Fixpoint flatten (v : pyvalue) : list (list string * V) :=
  match v with
  | PLeaf x => [([], x)]
  | PDict items =>
      (fix go (l : list (string * pyvalue)) : list (list string * V) :=
         match l with
         | [] => []
         | (k, c) :: l' =>
             ((fun p => (k :: p.1, p.2)) <$> flatten c) ++ go l'
         end) items
  | PList items | PTuple items =>
      (fix go (i : nat) (l : list pyvalue) : list (list string * V) :=
         match l with
         | [] => []
         | c :: l' =>
             ((fun p => (index_name i :: p.1, p.2)) <$> flatten c)
             ++ go (S i) l'
         end) 0 items
  end.

(** [tree_unflatten] of leaf markers: the skeleton of the value. *)
Fixpoint skeleton (v : pyvalue) : node :=
  match v with
  | PLeaf _ => StreamingCSLeaf
  | PDict items =>
      NDict ((fix go (l : list (string * pyvalue)) : list (pykey * node) :=
                match l with
                | [] => []
                | (k, c) :: l' => (KStr k, skeleton c) :: go l'
                end) items)
  | PList items =>
      NList ((fix go (l : list pyvalue) : list node :=
                match l with
                | [] => []
                | c :: l' => skeleton c :: go l'
                end) items)
  | PTuple items =>
      NTuple ((fix go (l : list pyvalue) : list node :=
                 match l with
                 | [] => []
                 | c :: l' => skeleton c :: go l'
                 end) items)
  end.

(** [".".join(keys)]: every item has to be a string. *)
Fixpoint join_keys (keys : list pykey) : result string :=
  match keys with
  | [] => Ok EmptyString
  | KInt _ :: _ => Raise TypeError
  | [KStr s] => Ok s
  | KStr s :: rest => r ← join_keys rest; Ok (s +:+ "." +:+ r)
  end.

(** [key in self.state]: a key of a dict; an element of a list or tuple,
    which holds leaf markers, dicts, lists and tuples, never a key. *)
Definition contains_key (state : node) (key : pykey) : result bool :=
  match state with
  | NDict items => Ok (bool_decide (key ∈ (fst <$> items)))
  | NList _ | NTuple _ => Ok false
  | StreamingCSLeaf => Raise TypeError
  end.

Fixpoint assoc_get (items : list (pykey * node)) (key : pykey)
  : option node :=
  match items with
  | [] => None
  | (k, n) :: rest => if decide (k = key) then Some n else assoc_get rest key
  end.

Fixpoint assoc_set (items : list (pykey * node)) (key : pykey) (x : node)
  : list (pykey * node) :=
  match items with
  | [] => [(key, x)]
  | (k, n) :: rest =>
      if decide (k = key) then (k, x) :: rest
      else (k, n) :: assoc_set rest key x
  end.

(** A Python sequence index: negative ones count from the end. *)
Definition seq_index (len : nat) (i : Z) : option nat :=
  if decide (0 <= i < Z.of_nat len)%Z then Some (Z.to_nat i)
  else if decide (- Z.of_nat len <= i < 0)%Z
       then Some (Z.to_nat (Z.of_nat len + i))
       else None.

(** [self.state[key]]. *)
Definition get_item (state : node) (key : pykey) : result node :=
  match state, key with
  | NDict items, _ =>
      match assoc_get items key with
      | Some n => Ok n
      | None => Raise KeyError
      end
  | NList items, KInt i | NTuple items, KInt i =>
      match seq_index (length items) i with
      | Some j =>
          match items !! j with Some n => Ok n | None => Raise IndexError end
      | None => Raise IndexError
      end
  | _, _ => Raise TypeError
  end.

(** [self.state[key] = x]. *)
Definition set_item (state : node) (key : pykey) (x : node) : result node :=
  match state, key with
  | NDict items, _ => Ok (NDict (assoc_set items key x))
  | NList items, KInt i =>
      match seq_index (length items) i with
      | Some j => Ok (NList (<[j := x]> items))
      | None => Raise IndexError
      end
  | _, _ => Raise TypeError
  end.

Definition h5_file : Type := gmap string V.

(** A view: its state and prefix, on a checkpoint file. *)
Record view : Type := mkView {
  state : node;
  prefix : list pykey;
  checkpoint_file : h5_file;
}.

Definition existing_structural_msg : string :=
  "StreamingCSWriter does not support updating an existing key which had a dict/list/tuple value".

Definition becomes_structural_msg : string :=
  "StreamingCSWriter does not support updating a key which already exists with a dict/list/tuple".

(** [saver.save_tensor] for each flattened leaf, in order. *)
Fixpoint save_leaves (pre : list pykey) (leaves : list (list string * V))
    (file : h5_file) : outcome h5_file h5_file :=
  match leaves with
  | [] => Done file
  | (scope, v) :: rest =>
      match join_keys (pre ++ (KStr <$> scope)) with
      | Raise e => Failed e file
      | Ok name => save_leaves pre rest (<[name := v]> file)
      end
  end.

Definition __setitem__ (self : view) (key : pykey) (value : pyvalue)
  : outcome view view :=
  match contains_key (state self) key with
  | Raise e => Failed e self
  | Ok present =>
      match (if present then get_item (state self) key
             else Ok StreamingCSLeaf) with
      | Raise e => Failed e self
      | Ok held =>
          if present && negb (is_leaf held) then
            Failed (ValueError existing_structural_msg) self
          else if is_container value then
            if present then
              Failed (ValueError becomes_structural_msg) self
            else
              match save_leaves (prefix self ++ [key]) (flatten value)
                      (checkpoint_file self) with
              | Failed e file =>
                  Failed e (mkView (state self) (prefix self) file)
              | Done file =>
                  match set_item (state self) key (skeleton value) with
                  | Raise e =>
                      Failed e (mkView (state self) (prefix self) file)
                  | Ok state => Done (mkView state (prefix self) file)
                  end
              end
          else
            match value with
            | PLeaf v =>
                match join_keys (prefix self ++ [key]) with
                | Raise e => Failed e self
                | Ok name =>
                    let file := <[name := v]> (checkpoint_file self) in
                    match set_item (state self) key StreamingCSLeaf with
                    | Raise e =>
                        Failed e (mkView (state self) (prefix self) file)
                    | Ok state => Done (mkView state (prefix self) file)
                    end
                end
            | _ => Failed TypeError self
            end
      end
  end.

(** [__getitem__]: a stored leaf, or the sub-view of a dict, list or
    tuple, which shares the state it views. *)
Definition __getitem__ (self : view) (key : pykey) : result (V + view) :=
  value ← get_item (state self) key;
  match value with
  | StreamingCSLeaf =>
      name ← join_keys (prefix self ++ [key]);
      match checkpoint_file self !! name with
      | Some v => Ok (inl v)
      | None => Raise KeyError
      end
  | _ => Ok (inr (mkView value (prefix self ++ [key]) (checkpoint_file self)))
  end.

(** [StreamingCSWriter(checkpoint_file)] on a path that is free. *)
Definition StreamingCSWriter : view := mkView (NDict []) [] ∅.

End view.

Arguments pyvalue V : clear implicits.
Arguments view V : clear implicits.

Section chained.
Context {V : Type}.

(** Induction over values, through the lists they nest. *)
Fixpoint pyvalue_nested_ind (P : pyvalue V -> Prop)
    (Hleaf : forall x, P (PLeaf x))
    (Hdict : forall items, Forall (fun kc => P kc.2) items ->
                           P (PDict items))
    (Hlist : forall items, Forall P items -> P (PList items))
    (Htuple : forall items, Forall P items -> P (PTuple items))
    (v : pyvalue V) {struct v} : P v :=
  match v with
  | PLeaf x => Hleaf x
  | PDict items =>
      Hdict items
        ((fix go (l : list (string * pyvalue V))
            : Forall (fun kc => P kc.2) l :=
            match l with
            | [] => List.Forall_nil _
            | kc :: l' =>
                @List.Forall_cons _ (fun kc => P kc.2) kc l'
                  (pyvalue_nested_ind P Hleaf Hdict Hlist Htuple kc.2)
                  (go l')
            end) items)
  | PList items =>
      Hlist items
        ((fix go (l : list (pyvalue V)) : Forall P l :=
            match l with
            | [] => List.Forall_nil _
            | c :: l' =>
                @List.Forall_cons _ P c l'
                  (pyvalue_nested_ind P Hleaf Hdict Hlist Htuple c) (go l')
            end) items)
  | PTuple items =>
      Htuple items
        ((fix go (l : list (pyvalue V)) : Forall P l :=
            match l with
            | [] => List.Forall_nil _
            | c :: l' =>
                @List.Forall_cons _ P c l'
                  (pyvalue_nested_ind P Hleaf Hdict Hlist Htuple c) (go l')
            end) items)
  end.

(** A value made of dicts only, each with pairwise distinct keys, as a
    Python dict has them. *)
Fixpoint plain (v : pyvalue V) : Prop :=
  match v with
  | PLeaf _ => True
  | PDict items =>
      NoDup (fst <$> items)
      ∧ (fix go (l : list (string * pyvalue V)) : Prop :=
           match l with
           | [] => True
           | (_, c) :: l' => plain c ∧ go l'
           end) items
  | PList _ | PTuple _ => False
  end.

(** Chained subscripts [self[k1][k2]...]: through the sub-views, and
    by [leaf_getitem] on a value that is no view. *)
Fixpoint follow (leaf_getitem : V -> pykey -> result (V + view V))
    (current : V + view V) (path : list pykey) : result (V + view V) :=
  match path with
  | [] => Ok current
  | key :: rest =>
      r ← match current with
          | inr self => __getitem__ self key
          | inl x => leaf_getitem x key
          end;
      follow leaf_getitem r rest
  end.

End chained.

End CSWriter.

(** ** The sharded reader ([StreamingShardedHFReader]) *)

Module Reader.

(** The exceptions of the reader: Python's, the [AttributeError] of an
    attribute that [del] has removed, and the [pickle.UnpicklingError] of
    [torch.load] on a file that is no saved shard. *)
Inductive reader_exn : Type :=
  | Py (e : exn)
  | AttributeError
  | UnpicklingError.

(** The attribute [active_file_data]: [None], a loaded shard, or unbound
    once [del] has removed it and the load that follows has raised. *)
Inductive slot : Type :=
  | PyNone
  | Loaded (d : gmap string Streaming.HFTensor)
  | Unbound.

(** The reader; the lists of [file2keys] serve [__iter__] only and are
    left out, its keys are the files of the weight map. *)
Record reader : Type := mkReader {
  weight_map : gmap string string;
  active_file_name : option string;
  active_file_data : slot;
}.

(** [__init__] on the index file [index_name] of the directory [dir]. *)
Definition __init__ (dir : gmap string Streaming.file) (index_name : string)
  : result reader :=
  match dir !! index_name with
  | None => Raise FileNotFoundError
  | Some (Streaming.ShardFile _) => Raise (ValueError "json")
  | Some (Streaming.IndexFile _ weight_map) =>
      if decide (map_Forall (fun _ file => is_Some (dir !! file)) weight_map)
      then Ok (mkReader weight_map None PyNone)
      else Raise FileNotFoundError
  end.

Definition __len__ (r : reader) : nat := size (weight_map r).

(** A call of [__getitem__]: the value and the reader after it, or the
    exception and the reader it leaves behind. *)
Inductive read : Type :=
  | Returned (r : reader) (v : Streaming.HFTensor)
  | Raised (e : reader_exn) (r : reader).

Definition subscript (d : gmap string Streaming.HFTensor) (key : string)
    (r : reader) : read :=
  match d !! key with
  | Some v => Returned r v
  | None => Raised (Py KeyError) r
  end.

Definition __getitem__ (dir : gmap string Streaming.file) (key : string)
    (r : reader) : read :=
  match weight_map r !! key with
  | None => Raised (Py KeyError) r
  | Some file =>
      if decide (Some file ≠ active_file_name r) then
        match active_file_data r with
        | Unbound =>
            Raised AttributeError (mkReader (weight_map r) (Some file) Unbound)
        | held =>
            let deleted :=
              match held with PyNone => PyNone | _ => Unbound end in
            match dir !! file with
            | Some (Streaming.ShardFile d) =>
                subscript d key (mkReader (weight_map r) (Some file) (Loaded d))
            | Some (Streaming.IndexFile _ _) =>
                Raised UnpicklingError
                  (mkReader (weight_map r) (Some file) deleted)
            | None =>
                Raised (Py FileNotFoundError)
                  (mkReader (weight_map r) (Some file) deleted)
            end
        end
      else
        match active_file_data r with
        | Loaded d => subscript d key r
        | PyNone => Raised (Py TypeError) r
        | Unbound => Raised AttributeError r
        end
  end.

(** The reader a call leaves behind, and a caller that reads the keys
    [keys] one after the other, whatever each read gives. *)
Definition after (o : read) : reader :=
  match o with
  | Returned r _ => r
  | Raised _ r => r
  end.

Fixpoint reads (dir : gmap string Streaming.file) (keys : list string)
    (r : reader) : reader :=
  match keys with
  | [] => r
  | key :: keys => reads dir keys (after (__getitem__ dir key r))
  end.

(** The reader between two calls that found their shards: nothing is
    loaded yet, or the loaded data is the content of the active file. *)
Definition in_step (dir : gmap string Streaming.file)
    (wm : gmap string string) (r : reader) : Prop :=
  weight_map r = wm
  ∧ ((active_file_name r = None ∧ active_file_data r = PyNone)
     ∨ exists f d, active_file_name r = Some f
                   ∧ active_file_data r = Loaded d
                   ∧ dir !! f = Some (Streaming.ShardFile d)).

End Reader.

(** ** Configuration converters *)

Module Config.

Inductive cfg_exn : Type :=
  | Py (e : exn)
  | ConfigConversionError (msg : string).

(** An action on [new_state_dict]: the dict after the call, or the
    exception and the dict as the call leaves it. *)
Inductive cfg_outcome : Type :=
  | CDone (new_state_dict : gmap string Llama.cfg_value)
  | CFailed (e : cfg_exn) (new_state_dict : gmap string Llama.cfg_value).

Fixpoint assoc (table : list (string * string)) (k : string)
  : option string :=
  match table with
  | [] => None
  | (a, b) :: rest => if decide (a = k) then Some b else assoc rest k
  end.

Definition gated_hf2cs : list (string * string) :=
  [("silu", "swiglu"); ("relu", "reglu"); ("gelu", "geglu")].

Definition gated_cs2hf : list (string * string) :=
  [("swiglu", "silu"); ("reglu", "relu"); ("geglu", "gelu")].

(** [activation not in table.keys()] and [table[activation]]: an int is in
    no table, a dict cannot be hashed. *)
Definition glu_lookup (table : list (string * string)) (msg : string)
    (activation : Llama.cfg_value) : cfg_exn + Llama.cfg_value :=
  match activation with
  | Llama.CStr a =>
      match assoc table a with
      | Some b => inr (Llama.CStr b)
      | None => inl (ConfigConversionError msg)
      end
  | Llama.CInt _ => inl (ConfigConversionError msg)
  | Llama.CDict _ => inl (Py TypeError)
  end.

(** [ConfigConverter_LLaMa_HF_CS19.convert_nonlinearity]. *)
Definition convert_nonlinearity (old_key new_key : string)
    (old_state_dict new_state_dict : gmap string Llama.cfg_value)
    (from_index : nat) : cfg_outcome :=
  match old_state_dict !! old_key with
  | None => CFailed (Py KeyError) new_state_dict
  | Some activation =>
      let converted :=
        if decide (from_index = 0) then
          glu_lookup gated_hf2cs "{} is not a GLU-able activation in CS"
            activation
        else if decide (from_index = 1) then
          glu_lookup gated_cs2hf
            "{} is not a supported GLU activation in HF" activation
        else inr activation in
      match converted with
      | inl e => CFailed e new_state_dict
      | inr activation => CDone (<[new_key := activation]> new_state_dict)
      end
  end.

(** Python's [//] on ints. *)
Definition floordiv (a b : Llama.cfg_value) : cfg_exn + Llama.cfg_value :=
  match a, b with
  | Llama.CInt x, Llama.CInt y =>
      if decide (y = 0%Z) then inl (Py ZeroDivisionError)
      else inr (Llama.CInt (x `div` y))
  | _, _ => inl (Py TypeError)
  end.

(** [ConfigConverter_LLaMa_HF_CS19.assert_rotary_dim]: it writes nothing. *)
Definition assert_rotary_dim (old_key new_key : string)
    (old_state_dict new_state_dict : gmap string Llama.cfg_value)
    (from_index : nat) : cfg_outcome :=
  if decide (from_index = 1) then
    match old_state_dict !! old_key with
    | None => CFailed (Py KeyError) new_state_dict
    | Some rotary_dim =>
        match old_state_dict !! "hidden_size" with
        | None => CFailed (Py KeyError) new_state_dict
        | Some hidden_size =>
            match old_state_dict !! "num_heads" with
            | None => CFailed (Py KeyError) new_state_dict
            | Some num_heads =>
                match floordiv hidden_size num_heads with
                | inl e => CFailed e new_state_dict
                | inr head_dim =>
                    if decide (rotary_dim ≠ head_dim) then
                      CFailed (ConfigConversionError
                        "rotary_dim must be hidden_size // num_heads in order to be compatible with HF")
                        new_state_dict
                    else CDone new_state_dict
                end
            end
        end
    end
  else
    CFailed (Py (AssertionError "{} should only exist in CS config"))
      new_state_dict.

(** [s * n] for a string. *)
Fixpoint str_repeat (s : string) (n : nat) : string :=
  match n with
  | 0 => EmptyString
  | S n => s +:+ str_repeat s n
  end.

(** [value * 4]. *)
Definition times4 (v : Llama.cfg_value) : cfg_exn + Llama.cfg_value :=
  match v with
  | Llama.CInt z => inr (Llama.CInt (z * 4))
  | Llama.CStr s => inr (Llama.CStr (str_repeat s 4))
  | Llama.CDict _ => inl (Py TypeError)
  end.

(** [ConfigConverter_Falcon_40B_HF_CS20.convert_hidden_size]: the hidden
    size is written before the check of the CS-to-HF direction. *)
Definition convert_hidden_size (old_key new_key : string)
    (old_state_dict new_state_dict : gmap string Llama.cfg_value)
    (from_index : nat) : cfg_outcome :=
  match old_state_dict !! old_key with
  | None => CFailed (Py KeyError) new_state_dict
  | Some hidden =>
      let new_state_dict := <[new_key := hidden]> new_state_dict in
      match times4 hidden with
      | inl e => CFailed e new_state_dict
      | inr filter =>
          if decide (from_index = 0) then
            CDone (<["filter_size" := filter]> new_state_dict)
          else
            match old_state_dict !! "filter_size" with
            | None => CFailed (Py KeyError) new_state_dict
            | Some filter_size =>
                if decide (filter = filter_size) then CDone new_state_dict
                else
                  CFailed (Py (AssertionError
                    "HF model only supports filter_size = 4 * hidden_size"))
                    new_state_dict
            end
      end
  end.

(** [ConfigConverter_LLaMa_HF_CS19.post_config_convert], over the
    [post_config_convert] of the base class. *)
Section post_config.
Variable base_post_config_convert :
  gmap string Llama.cfg_value -> gmap string Llama.cfg_value ->
  gmap string Llama.cfg_value -> nat -> bool ->
  cfg_exn + gmap string Llama.cfg_value.

Definition post_config_convert
    (original_config old_config new_config : gmap string Llama.cfg_value)
    (from_index : nat) (drop_unmatched_keys : bool)
  : cfg_exn + gmap string Llama.cfg_value :=
  let new_config :=
    if decide (from_index = 0) then
      match new_config !! "hidden_size" with
      | None => inl (Py KeyError)
      | Some hidden_size =>
          match new_config !! "num_heads" with
          | None => inl (Py KeyError)
          | Some num_heads =>
              match floordiv hidden_size num_heads with
              | inl e => inl e
              | inr rotary_dim =>
                  inr (<["rotary_dim" := rotary_dim]> new_config)
              end
          end
      end
    else inr new_config in
  match new_config with
  | inl e => inl e
  | inr new_config =>
      base_post_config_convert original_config old_config new_config
        from_index drop_unmatched_keys
  end.
End post_config.

End Config.

(** * Properties of the tensor operations *)

Section tensor_lemmas.
Context {A : Type} `{Inhabited A}.
Import Torch.

Lemma prod_dims_app (s1 s2 : list nat) :
  prod_dims (s1 ++ s2) = prod_dims s1 * prod_dims s2.
Proof.
  induction s1 as [|d s1 IH]; simpl; [lia|]. rewrite IH. lia.
Qed.

Lemma length_chunks (k cnt : nat) (l : list A) :
  length (chunks k cnt l) = cnt.
Proof. revert l. induction cnt; intros; simpl; auto. Qed.

Lemma chunks_concat (k : nat) (ls : list (list A)) :
  Forall (fun c => length c = k) ls ->
  chunks k (length ls) (concat ls) = ls.
Proof.
  induction 1 as [|c ls Hc _ IH]; simpl; [done|].
  rewrite take_app_length' by done.
  rewrite drop_app_length' by done.
  by rewrite IH.
Qed.

Lemma concat_chunks (k cnt : nat) (l : list A) :
  length l = cnt * k -> concat (chunks k cnt l) = l.
Proof.
  revert l. induction cnt as [|cnt IH]; intros l Hl; simpl.
  - destruct l; [done|simpl in Hl; lia].
  - rewrite IH, take_drop; [done|]. rewrite length_drop. lia.
Qed.

Lemma Forall_length_chunks (k cnt : nat) (l : list A) :
  length l = cnt * k ->
  Forall (fun c => length c = k) (chunks k cnt l).
Proof.
  revert l. induction cnt as [|cnt IH]; intros l Hl; simpl; constructor.
  - rewrite length_take. lia.
  - apply IH. rewrite length_drop. lia.
Qed.

Lemma filter_infer_of_nat (s : list nat) :
  filter (fun d : Z => d = (-1)%Z) (Z.of_nat <$> s) = [].
Proof.
  induction s as [|d s IH]; [done|].
  rewrite fmap_cons, filter_cons_False by lia. done.
Qed.

Lemma filter_known_of_nat (s : list nat) :
  filter (fun d : Z => d ≠ (-1)%Z) (Z.of_nat <$> s) = Z.of_nat <$> s.
Proof.
  induction s as [|d s IH]; [done|].
  rewrite fmap_cons, filter_cons_True by lia. rewrite IH. reflexivity.
Qed.

Lemma to_nat_of_nat_fmap (s : list nat) :
  Z.to_nat <$> (Z.of_nat <$> s) = s.
Proof.
  rewrite <- list_fmap_compose. rewrite <- (list_fmap_id s) at 2.
  apply list_fmap_ext. intros; simpl. apply Nat2Z.id.
Qed.

Lemma not_Exists_negative (s1 s2 : list nat) :
  ¬ Exists (fun d => (d < -1)%Z)
      ((Z.of_nat <$> s1) ++ (-1)%Z :: (Z.of_nat <$> s2)).
Proof.
  rewrite Exists_exists. intros (d & Hd & Hlt).
  apply elem_of_app in Hd as [Hd|Hd].
  - apply list_elem_of_fmap in Hd as (m & -> & _). lia.
  - apply elem_of_cons in Hd as [->|Hd]; [lia|].
    apply list_elem_of_fmap in Hd as (m & -> & _). lia.
Qed.

(** Size inference: all dimensions given. *)
Lemma infer_size_exact (s : list nat) (n : nat) :
  n = prod_dims s -> infer_size (Z.of_nat <$> s) n = Ok s.
Proof.
  intros ->. unfold infer_size, count_infer, known_size.
  rewrite filter_infer_of_nat, filter_known_of_nat, to_nat_of_nat_fmap.
  simpl length.
  rewrite decide_False.
  2:{ rewrite Exists_exists. intros (d & Hd & Hlt).
      apply list_elem_of_fmap in Hd as (m & -> & _). lia. }
  rewrite (decide_False (P := 1 < 0)) by lia.
  rewrite decide_True by (left; done).
  rewrite (decide_False (P := 0 = 1)) by lia.
  by rewrite to_nat_of_nat_fmap.
Qed.

(** Size inference: one dimension left to infer. *)
Lemma infer_size_infer (pre post : list nat) (n : nat) :
  0 < prod_dims pre * prod_dims post ->
  n `mod` (prod_dims pre * prod_dims post) = 0 ->
  infer_size ((Z.of_nat <$> pre) ++ (-1)%Z :: (Z.of_nat <$> post)) n
  = Ok (pre ++ n / (prod_dims pre * prod_dims post) :: post).
Proof.
  intros Hpos Hmod. unfold infer_size.
  assert (Hc : count_infer
                 ((Z.of_nat <$> pre) ++ (-1)%Z :: (Z.of_nat <$> post)) = 1).
  { unfold count_infer. rewrite filter_app, filter_cons_True by done.
    rewrite !filter_infer_of_nat. done. }
  assert (Hk : known_size
                 ((Z.of_nat <$> pre) ++ (-1)%Z :: (Z.of_nat <$> post))
               = prod_dims pre * prod_dims post).
  { unfold known_size. rewrite filter_app, filter_cons_False by tauto.
    rewrite !filter_known_of_nat, fmap_app, !to_nat_of_nat_fmap.
    apply prod_dims_app. }
  rewrite Hc, Hk.
  rewrite decide_False by apply not_Exists_negative.
  rewrite (decide_False (P := 1 < 1)) by lia.
  rewrite decide_True by (right; done).
  rewrite (decide_True (P := 1 = 1)) by done.
  rewrite decide_False by lia.
  f_equal. rewrite fmap_app, fmap_cons. f_equal.
  - rewrite <- (list_fmap_id pre) at 2. rewrite <- list_fmap_compose.
    apply list_fmap_ext. intros ? x _; simpl.
    rewrite decide_False by lia. apply Nat2Z.id.
  - rewrite decide_True by done. f_equal.
    rewrite <- (list_fmap_id post) at 2. rewrite <- list_fmap_compose.
    apply list_fmap_ext. intros ? x _; simpl.
    rewrite decide_False by lia. apply Nat2Z.id.
Qed.

(** Multi-indices and flat offsets. *)
Lemma length_unravel (s : list nat) (o : nat) :
  length (unravel s o) = length s.
Proof. revert o. induction s; intros; simpl; auto. Qed.

Lemma unravel_valid (s : list nat) (o : nat) :
  o < prod_dims s -> Forall2 lt (unravel s o) s.
Proof.
  revert o. induction s as [|d s IH]; intros o Ho; simpl in *.
  - constructor.
  - assert (0 < prod_dims s) by (destruct (prod_dims s); lia).
    constructor.
    + apply Nat.Div0.div_lt_upper_bound. lia.
    + apply IH. apply Nat.mod_upper_bound. lia.
Qed.

Lemma ravel_unravel (s : list nat) (o : nat) :
  o < prod_dims s -> ravel s (unravel s o) = o.
Proof.
  revert o. induction s as [|d s IH]; intros o Ho; simpl in *.
  - lia.
  - assert (0 < prod_dims s) by (destruct (prod_dims s); lia).
    rewrite IH by (apply Nat.mod_upper_bound; lia).
    pose proof (Nat.div_mod o (prod_dims s)). lia.
Qed.

Lemma ravel_lt (s idx : list nat) :
  Forall2 lt idx s -> ravel s idx < prod_dims s.
Proof.
  induction 1 as [|i d idx s Hi _ IH]; simpl; [lia|]. nia.
Qed.

Lemma unravel_ravel (s idx : list nat) :
  Forall2 lt idx s -> unravel s (ravel s idx) = idx.
Proof.
  induction 1 as [|i d idx s Hi Hrest IH]; simpl; [done|].
  pose proof (ravel_lt _ _ Hrest) as Hlt.
  f_equal.
  - rewrite Nat.div_add_l by lia. rewrite Nat.div_small by done. lia.
  - rewrite Nat.add_comm, Nat.Div0.mod_add.
    rewrite Nat.mod_small by done. done.
Qed.

Lemma fmap_lookup_total_seq (l : list A) :
  (fun o => l !!! o) <$> seq 0 (length l) = l.
Proof.
  apply list_eq. intros i.
  rewrite list_lookup_fmap.
  destruct (decide (i < length l)) as [Hi|Hi].
  - rewrite lookup_seq_lt by done. simpl.
    destruct (lookup_lt_is_Some_2 l i Hi) as [x Hx].
    rewrite Hx. f_equal. by apply list_lookup_total_correct.
  - rewrite lookup_seq_ge by lia. simpl.
    symmetry. apply lookup_ge_None. lia.
Qed.

(** Two permutes cancel when the second undoes the first on shapes and on
    multi-indices. *)
Lemma permute_permute_cancel (t t1 : Tensor A) (p q : list nat) :
  well_formed t ->
  is_perm q (length (shape t)) ->
  gather q (gather p (shape t)) = shape t ->
  (forall x, length x = length (shape t) ->
     gather (inverse_perm p) (gather (inverse_perm q) x) = x) ->
  (forall x, Forall2 lt x (shape t) ->
     Forall2 lt (gather (inverse_perm q) x) (gather p (shape t))) ->
  permute t p = Ok t1 ->
  permute t1 q = Ok t.
Proof.
  intros Hwf Hq Hshape Hinv Hvalid Hp.
  unfold permute in Hp. case_decide as Hpp; [|done].
  injection Hp as <-. unfold permute. simpl.
  assert (Hlen : length (gather p (shape t)) = length (shape t)).
  { unfold gather. rewrite length_fmap. apply Hpp. }
  rewrite Hlen. rewrite decide_True by done.
  rewrite Hshape. destruct t as [s d]. simpl in *. f_equal. f_equal.
  unfold well_formed in Hwf. simpl in Hwf.
  transitivity ((fun o => d !!! o) <$> seq 0 (length d));
    [|apply fmap_lookup_total_seq].
  rewrite Hwf. apply list_fmap_ext. intros i o Ho.
  apply lookup_seq in Ho as [-> Ho]. simpl in *.
  pose proof (unravel_valid _ _ Ho) as Hv.
  pose proof (Hvalid _ Hv) as Hv1.
  pose proof (ravel_lt _ _ Hv1) as Hlt.
  match goal with
  | |- (?f <$> seq 0 ?n) !!! ?j = _ =>
      pose proof (list_lookup_total_fmap f (seq 0 n) j) as Hf
  end.
  rewrite Hf by (rewrite length_seq; done). clear Hf.
  rewrite lookup_total_seq_lt by done. simpl.
  rewrite unravel_ravel by done.
  rewrite Hinv by apply length_unravel.
  by rewrite ravel_unravel.
Qed.

(** Blocks of a dimension: splitting and re-joining. *)
Lemma prod_dims_split (s : list nat) (ax dim : nat) :
  s !! ax = Some dim ->
  prod_dims s = prod_dims (take ax s) * (dim * prod_dims (drop (S ax) s)).
Proof.
  intros Hax. rewrite <- (take_drop_middle s ax dim Hax) at 1.
  rewrite prod_dims_app. done.
Qed.

Lemma fmap_take_zip_app (k : nat) (l1 l2 : list (list A)) :
  Forall (fun c => length c = k) l1 -> length l1 = length l2 ->
  (fun blk => take k (drop 0 blk)) <$> zip_with app l1 l2 = l1.
Proof.
  intros Hl. revert l2.
  induction Hl as [|c l1 Hc _ IH]; intros [|c2 l2] Hlen;
    simpl in *; try done.
  rewrite drop_0, take_app_length' by done. f_equal. apply IH. lia.
Qed.

Lemma fmap_drop_zip_app (k m : nat) (l1 l2 : list (list A)) :
  Forall (fun c => length c = k) l1 ->
  Forall (fun c => length c = m) l2 -> length l1 = length l2 ->
  (fun blk => take m (drop k blk)) <$> zip_with app l1 l2 = l2.
Proof.
  intros Hl. revert l2.
  induction Hl as [|c l1 Hc _ IH]; intros [|c2 l2] Hl2 Hlen;
    simpl in *; try done.
  inversion Hl2; subst.
  rewrite drop_app_length' by done.
  rewrite take_ge by lia. f_equal. apply IH; [done|lia].
Qed.

Lemma zip_app_take_drop (k m : nat) (cs : list (list A)) :
  Forall (fun c => length c = k + m) cs ->
  zip_with app ((fun blk => take k (drop 0 blk)) <$> cs)
               ((fun blk => take m (drop k blk)) <$> cs) = cs.
Proof.
  induction 1 as [|c cs Hc _ IH]; [done|].
  rewrite !fmap_cons. cbn [zip_with]. rewrite IH. f_equal.
  rewrite drop_0, (take_ge (drop k c)) by (rewrite length_drop; lia).
  apply take_drop.
Qed.

Lemma Forall_length_zip_app (k m : nat) (l1 l2 : list (list A)) :
  Forall (fun c => length c = k) l1 ->
  Forall (fun c => length c = m) l2 ->
  Forall (fun c => length c = k + m) (zip_with app l1 l2).
Proof.
  intros Hl. revert l2.
  induction Hl as [|c l1 Hc _ IH]; intros l2 Hl2; simpl; [constructor|].
  destruct Hl2 as [|c2 l2 Hc2 Hl2]; constructor.
  - rewrite length_app. lia.
  - by apply IH.
Qed.

Lemma length_concat_uniform (k : nat) (ls : list (list A)) :
  Forall (fun c => length c = k) ls ->
  length (concat ls) = length ls * k.
Proof.
  induction 1 as [|c ls Hc _ IH]; simpl; [done|].
  rewrite length_app, IH. lia.
Qed.

Lemma same_but_axis (sa sb : list nat) (ax : nat) :
  <[ax := 0]> sa = <[ax := 0]> sb ->
  take ax sa = take ax sb ∧ drop (S ax) sa = drop (S ax) sb
  ∧ length sa = length sb.
Proof.
  intros Heq. split; [|split].
  - rewrite <- (take_insert_ge sa ax ax 0), <- (take_insert_ge sb ax ax 0)
      by lia. by rewrite Heq.
  - rewrite <- (drop_insert_lt sa (S ax) ax 0),
      <- (drop_insert_lt sb (S ax) ax 0) by lia. by rewrite Heq.
  - rewrite <- (length_insert sa ax 0), <- (length_insert sb ax 0).
    by rewrite Heq.
Qed.

Lemma narrow_eq (t : Tensor A) (ax lo hi dim : nat) :
  shape t !! ax = Some dim -> lo <= hi -> hi <= dim ->
  narrow t ax lo hi
  = Ok (mkTensor (<[ax := hi - lo]> (shape t))
          (concat ((fun blk =>
                      take ((hi - lo) * prod_dims (drop (S ax) (shape t)))
                        (drop (lo * prod_dims (drop (S ax) (shape t))) blk))
                     <$> chunks (dim * prod_dims (drop (S ax) (shape t)))
                           (prod_dims (take ax (shape t))) (data t)))).
Proof.
  intros Hax Hlo Hhi. unfold narrow. rewrite Hax.
  rewrite (Nat.min_l lo dim) by lia.
  rewrite (Nat.min_l hi dim) by lia.
  rewrite (Nat.max_r lo hi) by lia. done.
Qed.

Lemma cat_well_formed (a b c : Tensor A) (ax : nat) :
  well_formed a -> well_formed b -> cat a b ax = Ok c -> well_formed c.
Proof.
  unfold well_formed, cat. intros Ha Hb Hc.
  destruct (shape a !! ax) as [da|] eqn:Hda; [|done].
  destruct (shape b !! ax) as [db|] eqn:Hdb; [|done].
  case_decide as Hs; [|done]. injection Hc as <-. simpl.
  destruct (same_but_axis _ _ _ Hs) as (Ht & Hd & _).
  rewrite (prod_dims_split _ _ _ Hda) in Ha.
  rewrite (prod_dims_split _ _ _ Hdb), <- Ht, <- Hd in Hb.
  pose proof (lookup_lt_Some _ _ _ Hda) as Hlt.
  rewrite (prod_dims_split (<[ax:=da + db]> (shape a)) ax (da + db))
    by (by apply list_lookup_insert_eq).
  rewrite take_insert_ge, drop_insert_lt by lia.
  rewrite (length_concat_uniform
             ((da + db) * prod_dims (drop (S ax) (shape a)))).
  - rewrite length_zip_with_l_eq by (by rewrite !length_chunks).
    by rewrite length_chunks.
  - rewrite Nat.mul_add_distr_r.
    apply Forall_length_zip_app; apply Forall_length_chunks; done.
Qed.

Lemma narrow_cat_l (a b c : Tensor A) (ax da : nat) :
  well_formed a -> well_formed b ->
  shape a !! ax = Some da ->
  cat a b ax = Ok c ->
  narrow c ax 0 da = Ok a.
Proof.
  unfold well_formed. intros Ha Hb Hda Hc. unfold cat in Hc.
  rewrite Hda in Hc.
  destruct (shape b !! ax) as [db|] eqn:Hdb; [|done].
  case_decide as Hs; [|done]. injection Hc as <-.
  destruct (same_but_axis _ _ _ Hs) as (Ht & Hd & _).
  rewrite (prod_dims_split _ _ _ Hda) in Ha.
  rewrite (prod_dims_split _ _ _ Hdb), <- Ht, <- Hd in Hb.
  pose proof (lookup_lt_Some _ _ _ Hda) as Hlt.
  rewrite (narrow_eq _ ax 0 da (da + db))
    by (cbn [shape]; first [by apply list_lookup_insert_eq|lia]).
  cbn [shape data].
  rewrite take_insert_ge, drop_insert_lt by lia.
  rewrite Nat.sub_0_r.
  rewrite list_insert_insert_eq, list_insert_id by done.
  set (inner := prod_dims (drop (S ax) (shape a))) in *.
  set (outer := prod_dims (take ax (shape a))) in *.
  assert (Hca : Forall (fun c => length c = da * inner)
                  (chunks (da * inner) outer (data a)))
    by (by apply Forall_length_chunks).
  assert (Hcb : Forall (fun c => length c = db * inner)
                  (chunks (db * inner) outer (data b)))
    by (by apply Forall_length_chunks).
  replace outer with
    (length (zip_with app (chunks (da * inner) outer (data a))
                          (chunks (db * inner) outer (data b)))) at 1
    by (rewrite length_zip_with_l_eq; by rewrite !length_chunks).
  rewrite (chunks_concat ((da + db) * inner)).
  2:{ rewrite Nat.mul_add_distr_r. by apply Forall_length_zip_app. }
  replace (0 * inner) with 0 by lia.
  rewrite fmap_take_zip_app by (by rewrite ?length_chunks).
  rewrite concat_chunks by done. by destruct a.
Qed.

Lemma narrow_cat_r (a b c : Tensor A) (ax da db : nat) :
  well_formed a -> well_formed b ->
  shape a !! ax = Some da -> shape b !! ax = Some db ->
  cat a b ax = Ok c ->
  narrow c ax da (da + db) = Ok b.
Proof.
  unfold well_formed. intros Ha Hb Hda Hdb Hc. unfold cat in Hc.
  rewrite Hda, Hdb in Hc.
  case_decide as Hs; [|done]. injection Hc as <-.
  destruct (same_but_axis _ _ _ Hs) as (Ht & Hd & Hlen).
  rewrite (prod_dims_split _ _ _ Hda) in Ha.
  rewrite (prod_dims_split _ _ _ Hdb), <- Ht, <- Hd in Hb.
  pose proof (lookup_lt_Some _ _ _ Hda) as Hlt.
  rewrite (narrow_eq _ ax da (da + db) (da + db))
    by (cbn [shape]; first [by apply list_lookup_insert_eq|lia]).
  cbn [shape data].
  rewrite take_insert_ge, drop_insert_lt by lia.
  replace (da + db - da) with db by lia.
  rewrite list_insert_insert_eq.
  assert (Hsb : <[ax:=db]> (shape a) = shape b).
  { rewrite <- (list_insert_id (shape b) ax db) by done.
    rewrite <- (list_insert_insert_eq (shape a) ax db 0).
    rewrite <- (list_insert_insert_eq (shape b) ax db 0).
    by rewrite Hs. }
  rewrite Hsb.
  set (inner := prod_dims (drop (S ax) (shape a))) in *.
  set (outer := prod_dims (take ax (shape a))) in *.
  assert (Hca : Forall (fun c => length c = da * inner)
                  (chunks (da * inner) outer (data a)))
    by (by apply Forall_length_chunks).
  assert (Hcb : Forall (fun c => length c = db * inner)
                  (chunks (db * inner) outer (data b)))
    by (by apply Forall_length_chunks).
  replace outer with
    (length (zip_with app (chunks (da * inner) outer (data a))
                          (chunks (db * inner) outer (data b)))) at 1
    by (rewrite length_zip_with_l_eq; by rewrite !length_chunks).
  rewrite (chunks_concat ((da + db) * inner)).
  2:{ rewrite Nat.mul_add_distr_r. by apply Forall_length_zip_app. }
  rewrite (fmap_drop_zip_app (da * inner) (db * inner))
    by (by rewrite ?length_chunks).
  rewrite concat_chunks by done. by destruct b.
Qed.

Lemma Forall_length_take_drop (k lo n : nat) (cs : list (list A)) :
  Forall (fun c => length c = n) cs -> lo + k <= n ->
  Forall (fun c => length c = k)
    ((fun blk => take k (drop lo blk)) <$> cs).
Proof.
  intros Hcs Hle. apply Forall_fmap.
  eapply Forall_impl; [exact Hcs|]. simpl. intros c Hc.
  rewrite length_take, length_drop. lia.
Qed.

Lemma narrow_well_formed (t t' : Tensor A) (ax lo hi dim : nat) :
  well_formed t -> shape t !! ax = Some dim -> lo <= hi -> hi <= dim ->
  narrow t ax lo hi = Ok t' -> well_formed t'.
Proof.
  unfold well_formed. intros Hwf Hax Hlo Hhi Hn.
  rewrite (narrow_eq _ _ _ _ _ Hax Hlo Hhi) in Hn. injection Hn as <-.
  cbn [shape data].
  pose proof (lookup_lt_Some _ _ _ Hax) as Hlt.
  rewrite (prod_dims_split _ _ _ Hax) in Hwf.
  rewrite (prod_dims_split (<[ax:=hi - lo]> (shape t)) ax (hi - lo))
    by (by apply list_lookup_insert_eq).
  rewrite take_insert_ge, drop_insert_lt by lia.
  rewrite (length_concat_uniform
             ((hi - lo) * prod_dims (drop (S ax) (shape t)))).
  - by rewrite length_fmap, length_chunks.
  - eapply Forall_length_take_drop;
      [apply Forall_length_chunks; exact Hwf|]. nia.
Qed.

Lemma cat_narrow (t a b : Tensor A) (ax r dim : nat) :
  well_formed t -> shape t !! ax = Some dim -> r <= dim ->
  narrow t ax 0 r = Ok a -> narrow t ax r dim = Ok b ->
  cat a b ax = Ok t.
Proof.
  unfold well_formed. intros Hwf Hax Hr Ha Hb.
  rewrite (narrow_eq _ _ _ _ dim Hax) in Ha by lia.
  rewrite (narrow_eq _ _ _ _ dim Hax) in Hb by lia.
  injection Ha as <-. injection Hb as <-.
  pose proof (lookup_lt_Some _ _ _ Hax) as Hlt.
  rewrite (prod_dims_split _ _ _ Hax) in Hwf.
  unfold cat. cbn [shape data].
  rewrite !list_lookup_insert_eq by done.
  rewrite !list_insert_insert_eq. rewrite decide_True by done.
  rewrite !take_insert_ge, !drop_insert_lt by lia.
  rewrite Nat.sub_0_r.
  replace (r + (dim - r)) with dim by lia.
  rewrite list_insert_id by done.
  set (inner := prod_dims (drop (S ax) (shape t))) in *.
  set (outer := prod_dims (take ax (shape t))) in *.
  pose proof (Forall_length_chunks _ _ _ Hwf) as Hcs.
  set (cs := chunks (dim * inner) outer (data t)) in *.
  assert (Hlen : length cs = outer) by apply length_chunks.
  rewrite <- Hlen at 1.
  erewrite <- (length_fmap _ cs) at 1.
  rewrite (chunks_concat (r * inner))
    by (eapply Forall_length_take_drop; [exact Hcs|nia]).
  rewrite <- Hlen.
  erewrite <- (length_fmap _ cs) at 1.
  rewrite (chunks_concat ((dim - r) * inner))
    by (eapply Forall_length_take_drop; [exact Hcs|nia]).
  rewrite zip_app_take_drop
    by (eapply Forall_impl; [exact Hcs|]; simpl; intros; nia).
  subst cs. rewrite concat_chunks by done. by destruct t.
Qed.

Lemma permute_ok (t : Tensor A) (p : list nat) :
  is_perm p (length (shape t)) ->
  exists d', permute t p = Ok (mkTensor (gather p (shape t)) d')
             ∧ length d' = prod_dims (gather p (shape t)).
Proof.
  intros Hp. unfold permute. rewrite decide_True by done.
  eexists. split; [done|]. by rewrite length_fmap, length_seq.
Qed.

Lemma narrow_spec (t : Tensor A) (ax lo hi dim : nat) :
  well_formed t -> shape t !! ax = Some dim -> lo <= hi -> hi <= dim ->
  exists a, narrow t ax lo hi = Ok a
            ∧ shape a = <[ax := hi - lo]> (shape t) ∧ well_formed a.
Proof.
  intros Hwf Hax Hlo Hhi.
  destruct (narrow t ax lo hi) as [a|e] eqn:Hn.
  - exists a. split; [done|]. split.
    + rewrite (narrow_eq _ _ _ _ _ Hax Hlo Hhi) in Hn.
      injection Hn as <-. reflexivity.
    + exact (narrow_well_formed _ _ _ _ _ _ Hwf Hax Hlo Hhi Hn).
  - by rewrite (narrow_eq _ _ _ _ _ Hax Hlo Hhi) in Hn.
Qed.

Lemma cat_spec (a b : Tensor A) (ax da db : nat) :
  well_formed a -> well_formed b ->
  shape a !! ax = Some da -> shape b !! ax = Some db ->
  <[ax := 0]> (shape a) = <[ax := 0]> (shape b) ->
  exists c, cat a b ax = Ok c
            ∧ shape c = <[ax := da + db]> (shape a) ∧ well_formed c.
Proof.
  intros Ha Hb Hda Hdb Hs.
  destruct (cat a b ax) as [c|e] eqn:Hc.
  - exists c. split; [done|].
    split; [|exact (cat_well_formed _ _ _ _ Ha Hb Hc)].
    unfold cat in Hc. rewrite Hda, Hdb, decide_True in Hc by done.
    injection Hc as <-. reflexivity.
  - unfold cat in Hc. by rewrite Hda, Hdb, decide_True in Hc by done.
Qed.

Lemma reshape_exact (t : Tensor A) (s : list nat) :
  prod_dims (shape t) = prod_dims s ->
  reshape t (Z.of_nat <$> s) = Ok (mkTensor s (data t)).
Proof.
  intros Hs. unfold reshape, numel. by rewrite infer_size_exact.
Qed.

Lemma reshape_infer (t : Tensor A) (pre post : list nat) (x : nat) :
  prod_dims (shape t) = x * (prod_dims pre * prod_dims post) ->
  0 < prod_dims pre * prod_dims post ->
  reshape t ((Z.of_nat <$> pre) ++ (-1)%Z :: (Z.of_nat <$> post))
  = Ok (mkTensor (pre ++ x :: post) (data t)).
Proof.
  intros Hs Hpos. unfold reshape, numel.
  rewrite infer_size_infer; [|done|].
  - rewrite Hs, Nat.div_mul by lia. done.
  - rewrite Hs. apply Nat.Div0.mod_mul.
Qed.

End tensor_lemmas.

(** Closed facts about concrete axis permutations. *)
Ltac solve_is_perm :=
  unfold Torch.is_perm; split; [reflexivity|]; split;
  [ apply (bool_decide_unpack _); vm_compute; exact I
  | repeat constructor; simpl; lia ].

Ltac destruct_index x :=
  repeat (destruct x as [|? x]; try discriminate); try reflexivity.

Ltac invert_Forall2 :=
  repeat match goal with
    | Hf : Forall2 _ _ (_ :: _) |- _ =>
        apply Forall2_cons_inv_r in Hf as (? & ? & ? & Hf & ->)
    | Hf : Forall2 _ _ [] |- _ => apply Forall2_nil_inv_r in Hf as ->
    end.

Section swap_axes.
Context {A : Type} `{Inhabited A}.
Import Torch.

Lemma permute_0213_cancel (t t1 : Tensor A) (a b c d : nat) :
  well_formed t -> shape t = [a; b; c; d] ->
  permute t [0; 2; 1; 3] = Ok t1 -> permute t1 [0; 2; 1; 3] = Ok t.
Proof.
  intros Hwf Hs. apply permute_permute_cancel; rewrite ?Hs; try done.
  - solve_is_perm.
  - intros x Hx. simpl in Hx. destruct_index x.
  - intros x Hx. invert_Forall2. repeat constructor; done.
Qed.

Lemma permute_021_cancel (t t1 : Tensor A) (a b c : nat) :
  well_formed t -> shape t = [a; b; c] ->
  permute t [0; 2; 1] = Ok t1 -> permute t1 [0; 2; 1] = Ok t.
Proof.
  intros Hwf Hs. apply permute_permute_cancel; rewrite ?Hs; try done.
  - solve_is_perm.
  - intros x Hx. simpl in Hx. destruct_index x.
  - intros x Hx. invert_Forall2. repeat constructor; done.
Qed.

Lemma permute_0132_cancel (t t1 : Tensor A) (a b c d : nat) :
  well_formed t -> shape t = [a; b; c; d] ->
  permute t [0; 1; 3; 2] = Ok t1 -> permute t1 [0; 1; 3; 2] = Ok t.
Proof.
  intros Hwf Hs. apply permute_permute_cancel; rewrite ?Hs; try done.
  - solve_is_perm.
  - intros x Hx. simpl in Hx. destruct_index x.
  - intros x Hx. invert_Forall2. repeat constructor; done.
Qed.

Lemma permute_01324_cancel (t t1 : Tensor A) (a b c d e : nat) :
  well_formed t -> shape t = [a; b; c; d; e] ->
  permute t [0; 1; 3; 2; 4] = Ok t1 -> permute t1 [0; 1; 3; 2; 4] = Ok t.
Proof.
  intros Hwf Hs. apply permute_permute_cancel; rewrite ?Hs; try done.
  - solve_is_perm.
  - intros x Hx. simpl in Hx. destruct_index x.
  - intros x Hx. invert_Forall2. repeat constructor; done.
Qed.

End swap_axes.

(** * LLaMA: interleave followed by de-interleave *)

Section llama_interleave.
Context {A : Type} `{Inhabited A}.
Import Torch Llama.

Lemma tensor_eta (t : Tensor A) (s : list nat) :
  shape t = s -> mkTensor s (data t) = t.
Proof. intros <-. by destruct t. Qed.

Lemma interleave_reverse_weight (n d h r m : nat) (dat : list A)
    (cfg : cs_model_config) :
  1 <= n -> 1 <= h -> rotary_dim cfg = r -> r = 2 * m -> r <= d ->
  length dat = n * d * h ->
  exists c,
    interleave_helper (mkTensor [n; d; h] dat) cfg
      = Ok (mkTensor [n; d; h] c)
    ∧ length c = n * d * h
    ∧ reverse_interleave_helper (mkTensor [n * d; h] c) cfg n
      = Ok (mkTensor [n; d; h] dat).
Proof.
  intros Hn Hh Hr Hm Hrd Hlen.
  set (T := mkTensor [n; d; h] dat).
  assert (HwT : well_formed T) by (unfold well_formed; simpl; lia).
  destruct (narrow_spec T 1 0 r d HwT eq_refl) as (a & Ha & Hsa & Hwa);
    [lia|lia|].
  destruct (narrow_spec T 1 r d d HwT eq_refl) as (b & Hb & Hsb & Hwb);
    [lia|lia|].
  simpl in Hsa, Hsb. rewrite Nat.sub_0_r in Hsa.
  assert (Hr1 : reshape a [Z.of_nat n; 2; -1; Z.of_nat h]%Z
                = Ok (mkTensor [n; 2; m; h] (data a))).
  { apply (reshape_infer a [n; 2] [h] m); rewrite ?Hsa; simpl; nia. }
  set (r1 := mkTensor [n; 2; m; h] (data a)).
  assert (Hwr1 : well_formed r1).
  { unfold well_formed in *. rewrite Hsa in Hwa. simpl in *. lia. }
  destruct (permute_ok r1 [0; 2; 1; 3]) as (d2 & Hp & Hd2);
    [solve_is_perm|].
  simpl in Hp, Hd2.
  set (r2 := mkTensor [n; m; 2; h] d2) in *.
  assert (Hr3 : reshape r2 [Z.of_nat n; -1; Z.of_nat h]%Z
                = Ok (mkTensor [n; r; h] d2)).
  { apply (reshape_infer r2 [n] [h] r); simpl; nia. }
  set (a' := mkTensor [n; r; h] d2).
  assert (Hwa' : well_formed a')
    by (unfold well_formed; simpl; lia).
  destruct (cat_spec a' b 1 r (d - r) Hwa' Hwb)
    as (c & Hc & Hsc & Hwc); [done|by rewrite Hsb|by rewrite Hsb|].
  simpl in Hsc. replace (r + (d - r)) with d in Hsc by lia.
  exists (data c). split; [|split].
  - unfold interleave_helper. rewrite Hr. cbn [shape T].
    fold T. rewrite Ha, Hb. cbn [mbind result_bind].
    rewrite Hr1. cbn [mbind result_bind]. fold r1.
    rewrite Hp. cbn [mbind result_bind].
    rewrite Hr3. cbn [mbind result_bind]. fold a'.
    rewrite Hc. by rewrite (tensor_eta c _ Hsc).
  - unfold well_formed in Hwc. rewrite Hwc, Hsc. simpl. lia.
  - unfold reverse_interleave_helper. rewrite Hr. cbn [shape].
    rewrite (reshape_infer _ [n] [h] d) by (simpl; nia).
    cbn [mbind result_bind app shape data].
    rewrite (tensor_eta c _ Hsc).
    rewrite (narrow_cat_l a' b c 1 r) by done.
    cbn [mbind result_bind].
    change ([n; d; h] !!! 1) with d.
    replace d with (r + (d - r)) at 1 by lia.
    rewrite (narrow_cat_r a' b c 1 r (d - r))
      by (done || by rewrite Hsb).
    cbn [mbind result_bind].
    assert (Hr1' : reshape a' [Z.of_nat n; -1; 2; Z.of_nat h]%Z = Ok r2)
      by (apply (reshape_infer a' [n] [2; h] m); simpl; nia).
    rewrite Hr1'. cbn [mbind result_bind].
    rewrite (permute_0213_cancel r1 r2 n 2 m h) by done.
    cbn [mbind result_bind].
    assert (Hr3' : reshape r1 [Z.of_nat n; Z.of_nat r; Z.of_nat h]
                   = Ok (mkTensor [n; r; h] (data a)))
      by (apply (reshape_exact r1 [n; r; h]); simpl; nia).
    rewrite Hr3'. cbn [mbind result_bind].
    rewrite (tensor_eta a _ Hsa).
    apply (cat_narrow T a b 1 r d); try done.
Qed.

Lemma interleave_reverse_bias (n d r m : nat) (dat : list A)
    (cfg : cs_model_config) :
  1 <= n -> rotary_dim cfg = r -> r = 2 * m -> r <= d ->
  length dat = n * d ->
  exists c,
    interleave_helper (mkTensor [n; d] dat) cfg = Ok (mkTensor [n; d] c)
    ∧ length c = n * d
    ∧ reverse_interleave_helper (mkTensor [n * d] c) cfg n
      = Ok (mkTensor [n; d] dat).
Proof.
  intros Hn Hr Hm Hrd Hlen.
  set (T := mkTensor [n; d] dat).
  assert (HwT : well_formed T) by (unfold well_formed; simpl; lia).
  destruct (narrow_spec T 1 0 r d HwT eq_refl) as (a & Ha & Hsa & Hwa);
    [lia|lia|].
  destruct (narrow_spec T 1 r d d HwT eq_refl) as (b & Hb & Hsb & Hwb);
    [lia|lia|].
  simpl in Hsa, Hsb. rewrite Nat.sub_0_r in Hsa.
  assert (Hr1 : reshape a [Z.of_nat n; 2; -1]%Z
                = Ok (mkTensor [n; 2; m] (data a))).
  { apply (reshape_infer a [n; 2] [] m); rewrite ?Hsa; simpl; nia. }
  set (r1 := mkTensor [n; 2; m] (data a)).
  assert (Hwr1 : well_formed r1).
  { unfold well_formed in *. rewrite Hsa in Hwa. simpl in *. lia. }
  destruct (permute_ok r1 [0; 2; 1]) as (d2 & Hp & Hd2); [solve_is_perm|].
  simpl in Hp, Hd2.
  set (r2 := mkTensor [n; m; 2] d2) in *.
  assert (Hr3 : reshape r2 [Z.of_nat n; -1]%Z = Ok (mkTensor [n; r] d2)).
  { apply (reshape_infer r2 [n] [] r); simpl; nia. }
  set (a' := mkTensor [n; r] d2).
  assert (Hwa' : well_formed a') by (unfold well_formed; simpl; lia).
  destruct (cat_spec a' b 1 r (d - r) Hwa' Hwb)
    as (c & Hc & Hsc & Hwc); [done|by rewrite Hsb|by rewrite Hsb|].
  simpl in Hsc. replace (r + (d - r)) with d in Hsc by lia.
  exists (data c). split; [|split].
  - unfold interleave_helper. rewrite Hr. cbn [shape T].
    fold T. rewrite Ha, Hb. cbn [mbind result_bind].
    rewrite Hr1. cbn [mbind result_bind]. fold r1.
    rewrite Hp. cbn [mbind result_bind].
    rewrite Hr3. cbn [mbind result_bind]. fold a'.
    rewrite Hc. by rewrite (tensor_eta c _ Hsc).
  - unfold well_formed in Hwc. rewrite Hwc, Hsc. simpl. lia.
  - unfold reverse_interleave_helper. rewrite Hr. cbn [shape].
    assert (Hr0 : reshape (mkTensor [n * d] (data c)) [Z.of_nat n; -1]%Z
                  = Ok (mkTensor [n; d] (data c))).
    { apply (reshape_infer (mkTensor [n * d] (data c)) [n] [] d);
        simpl; nia. }
    rewrite Hr0. cbn [mbind result_bind shape].
    rewrite (tensor_eta c _ Hsc).
    rewrite (narrow_cat_l a' b c 1 r) by done.
    cbn [mbind result_bind].
    change ([n; d] !!! 1) with d.
    replace d with (r + (d - r)) at 1 by lia.
    rewrite (narrow_cat_r a' b c 1 r (d - r))
      by (done || by rewrite Hsb).
    cbn [mbind result_bind].
    assert (Hr1' : reshape a' [Z.of_nat n; -1; 2]%Z = Ok r2)
      by (apply (reshape_infer a' [n] [2] m); simpl; nia).
    rewrite Hr1'. cbn [mbind result_bind].
    rewrite (permute_021_cancel r1 r2 n 2 m) by done.
    cbn [mbind result_bind].
    assert (Hr3' : reshape r1 [Z.of_nat n; -1]%Z
                   = Ok (mkTensor [n; r] (data a)))
      by (apply (reshape_infer r1 [n] [] r); simpl; nia).
    rewrite Hr3'. cbn [mbind result_bind].
    rewrite (tensor_eta a _ Hsa).
    apply (cat_narrow T a b 1 r d); try done.
Qed.

(** The converter round trip, for the head (or group) count [n]. *)
Lemma convert_interleaving_roundtrip (cfg : cs_model_config)
    (n d r : nat) (dat : list A) (t0 : Tensor A) (k k' : string)
    (osd nsd nsd' : gmap string (Tensor A)) :
  Nat.Even r -> 1 <= n -> r <= d -> rotary_dim cfg = r ->
  ((exists h, 1 <= h ∧ t0 = mkTensor [n * d; h] dat
              ∧ length dat = n * d * h)
   ∨ (t0 = mkTensor [n * d] dat ∧ length dat = n * d)) ->
  osd !! k = Some t0 ->
  exists sd1,
    convert_interleaving n k k' osd nsd 0 cfg = Ok sd1
    ∧ convert_interleaving n k' k sd1 nsd' 1 cfg = Ok (<[k := t0]> nsd').
Proof.
  intros [m Hm] Hn Hrd Hr Ht0 Hk.
  destruct Ht0 as [(h & Hh & -> & Hlen)|(-> & Hlen)].
  - destruct (interleave_reverse_weight n d h r m dat cfg)
      as (c & Hi & Hc & Hrev); try done.
    exists (<[k' := mkTensor [n * d; h] c]> nsd). split.
    + unfold convert_interleaving. rewrite Hk. cbn [shape].
      rewrite decide_True by done. rewrite decide_False by lia.
      replace (n * d / n) with d
        by (rewrite Nat.mul_comm, Nat.div_mul; lia).
      unfold view.
      assert (Hv : reshape (mkTensor [n * d; h] dat)
                     [Z.of_nat n; Z.of_nat d; Z.of_nat h]
                   = Ok (mkTensor [n; d; h] dat))
        by (apply (reshape_exact (mkTensor [n * d; h] dat) [n; d; h]);
            simpl; lia).
      rewrite Hv. cbn [mbind result_bind]. rewrite Hi.
      cbn [mbind result_bind].
      rewrite (reshape_exact (mkTensor [n; d; h] c) [n * d; h])
        by (simpl; lia).
      cbn [mbind result_bind data]. done.
    + unfold convert_interleaving. rewrite lookup_insert_eq. cbn [shape].
      rewrite decide_False by lia. rewrite Hrev.
      cbn [mbind result_bind]. unfold view.
      rewrite (reshape_exact (mkTensor [n; d; h] dat) [n * d; h])
        by (simpl; lia).
      done.
  - destruct (interleave_reverse_bias n d r m dat cfg)
      as (c & Hi & Hc & Hrev); try done.
    exists (<[k' := mkTensor [n * d] c]> nsd). split.
    + unfold convert_interleaving. rewrite Hk. cbn [shape].
      rewrite decide_True by done. rewrite decide_False by lia.
      replace (n * d / n) with d
        by (rewrite Nat.mul_comm, Nat.div_mul; lia).
      unfold view.
      assert (Hv : reshape (mkTensor [n * d] dat) [Z.of_nat n; Z.of_nat d]
                   = Ok (mkTensor [n; d] dat))
        by (apply (reshape_exact (mkTensor [n * d] dat) [n; d]);
            simpl; lia).
      rewrite Hv. cbn [mbind result_bind]. rewrite Hi.
      cbn [mbind result_bind].
      rewrite (reshape_exact (mkTensor [n; d] c) [n * d]) by (simpl; lia).
      cbn [mbind result_bind data]. done.
    + unfold convert_interleaving. rewrite lookup_insert_eq. cbn [shape].
      rewrite decide_False by lia. rewrite Hrev.
      cbn [mbind result_bind]. unfold view.
      rewrite (reshape_exact (mkTensor [n; d] dat) [n * d])
        by (simpl; lia).
      done.
Qed.

End llama_interleave.

(** * Claims on the LLaMA converter *)

(** C1 (as amended): for an even [rotary_dim], a head or key/value-group
    count [n >= 1] and a weight of shape [(n*d, h)] with [h >= 1], or a bias
    of shape [(n*d)], with [rotary_dim <= d], converting HF to CS
    (interleave, [from_index] 0) and then CS to HF (de-interleave,
    [from_index] 1) with the query converter or the key converter succeeds
    and gives back exactly the tensor it started from. *)
Theorem interleave_roundtrip {A : Type} `{Inhabited A}
    (conv : string -> string -> gmap string (Torch.Tensor A) ->
            gmap string (Torch.Tensor A) -> nat -> Llama.cs_model_config ->
            result (gmap string (Torch.Tensor A)))
    (cfg : Llama.cs_model_config) (n d r : nat) (dat : list A)
    (t0 : Torch.Tensor A) (k k' : string)
    (osd nsd nsd' : gmap string (Torch.Tensor A)) :
  ((conv = Llama.convert_with_interleaving_query
    ∧ Llama.num_heads cfg = n)
   ∨ (conv = Llama.convert_with_interleaving_key
      ∧ ((default "aiayn_attention" (Llama.attention_module cfg)
          = "aiayn_attention" ∧ Llama.num_heads cfg = n)
         ∨ (Llama.attention_module cfg = Some "multiquery_attention"
            ∧ Llama.num_kv_groups cfg = Some n)))) ->
  Nat.Even r -> 1 <= n -> r <= d -> Llama.rotary_dim cfg = r ->
  ((exists h, 1 <= h ∧ t0 = Torch.mkTensor [n * d; h] dat
              ∧ length dat = n * d * h)
   ∨ (t0 = Torch.mkTensor [n * d] dat ∧ length dat = n * d)) ->
  osd !! k = Some t0 ->
  exists sd1,
    conv k k' osd nsd 0 cfg = Ok sd1
    ∧ conv k' k sd1 nsd' 1 cfg = Ok (<[k := t0]> nsd').
Proof.
  intros Hconv Hr Hn Hrd Hrot Ht0 Hk.
  destruct (convert_interleaving_roundtrip cfg n d r dat t0 k k'
              osd nsd nsd' Hr Hn Hrd Hrot Ht0 Hk) as (sd1 & H1 & H2).
  exists sd1.
  destruct Hconv as [[-> Hh]|[-> [[Hm Hh]|[Hm Hg]]]].
  - unfold Llama.convert_with_interleaving_query. by rewrite Hh.
  - unfold Llama.convert_with_interleaving_key,
      Llama.convert_with_interleaving_query.
    rewrite Hm, decide_True by done. by rewrite Hh.
  - unfold Llama.convert_with_interleaving_key.
    rewrite Hm, Hg. simpl default.
    rewrite decide_False by discriminate.
    rewrite decide_True by done. done.
Qed.

Lemma interleave_roundtrip_witness :
  let cfg := Llama.Build_cs_model_config 2 2 None None in
  let t0 := Torch.mkTensor [2 * 3; 1] [1; 2; 3; 4; 5; 6]%Z in
  Nat.Even 2 ∧ 1 <= 2 ∧ 2 <= 3
  ∧ exists sd1,
      Llama.convert_with_interleaving_query "q_proj.weight"
        "proj_q_dense_layer.weight" {["q_proj.weight" := t0]} ∅ 0 cfg
      = Ok sd1
      ∧ Llama.convert_with_interleaving_query "proj_q_dense_layer.weight"
          "q_proj.weight" sd1 ∅ 1 cfg
        = Ok (<["q_proj.weight" := t0]> ∅).
Proof.
  intros cfg t0.
  assert (He : Nat.Even 2) by (exists 1; reflexivity).
  split; [exact He|]. split; [lia|]. split; [lia|].
  apply (interleave_roundtrip Llama.convert_with_interleaving_query cfg
           2 3 2 [1; 2; 3; 4; 5; 6]%Z t0).
  - left. split; reflexivity.
  - exact He.
  - lia.
  - lia.
  - reflexivity.
  - left. exists 1. split; [lia|]. split; reflexivity.
  - apply lookup_singleton_eq.
Defined.

(** C1 as stated fails for a weight without columns: for the shape
    [(1*2, 0)] the interleave cannot infer its [-1] dimension and raises. *)
Lemma interleave_roundtrip_counterexample :
  let cfg := Llama.Build_cs_model_config 1 2 None None in
  let t0 : Torch.Tensor Z := Torch.mkTensor [1 * 2; 0] [] in
  Nat.Even 2 ∧ 1 <= 1 ∧ 2 <= 2 ∧ length (Torch.data t0) = 1 * 2 * 0
  ∧ Llama.interleave_helper (Torch.mkTensor [1; 2; 0] ([] : list Z)) cfg
    = Raise RuntimeError
  ∧ Llama.convert_with_interleaving_query "q_proj.weight"
      "proj_q_dense_layer.weight" {["q_proj.weight" := t0]} ∅ 0 cfg
    = Raise RuntimeError.
Proof.
  intros cfg t0. split; [exists 1; reflexivity|].
  repeat split; try lia; vm_compute; reflexivity.
Qed.

(** Where the head synthesis works: the LLaMA converter reads
    [embed_tokens.weight], the key under which a headless LLaMA source
    holds its input embedding, and writes that entry as the head; without
    weight tying the head is drawn with the literal standard deviation
    0.02. *)
Lemma llama_head_synthesis {A : Type}
    (base : gmap string (Llama.entry A) -> gmap string (Llama.entry A) ->
            nat -> result (gmap string (Llama.entry A)))
    (osd nsd : gmap string (Llama.entry A))
    (hf : Llama.hf_config) (cs : Llama.cs_head_config) (w : Llama.entry A) :
  (Llama.tie_word_embeddings hf = true ->
   osd !! "embed_tokens.weight" = Some w) ->
  exists nsd1,
    Llama.post_model_convert base osd nsd (hf, cs) 0 = base osd nsd1 0
    ∧ nsd1 !! "lm_head.weight"
      = Some (if Llama.tie_word_embeddings hf then w
              else Llama.NormalInit
                     [Llama.vocab_size cs; Llama.hidden_size cs] 0 (2 # 100)).
Proof.
  intros Htie. unfold Llama.post_model_convert.
  rewrite decide_True by done. cbn [fst snd].
  destruct (Llama.tie_word_embeddings hf) eqn:Ht.
  - rewrite (Htie eq_refl). cbn [mbind result_bind].
    eexists. split; [reflexivity|].
    destruct (default false (Llama.use_bias_in_output cs)).
    + rewrite lookup_insert_ne by discriminate. apply lookup_insert_eq.
    + apply lookup_insert_eq.
  - cbn [mbind result_bind].
    eexists. split; [reflexivity|].
    destruct (default false (Llama.use_bias_in_output cs)).
    + rewrite lookup_insert_ne by discriminate. apply lookup_insert_eq.
    + apply lookup_insert_eq.
Qed.

(** The Falcon converter writes a head only without weight tying, or when
    the source dict holds the prefixed key
    [transformer.word_embeddings.weight]. *)
Lemma falcon_head_synthesis {A : Type}
    (fbase : gmap string (Llama.entry A) -> gmap string (Llama.entry A) ->
             nat -> string -> result (gmap string (Llama.entry A)))
    (osd nsd : gmap string (Llama.entry A))
    (hf : Llama.hf_config) (cs : Llama.cs_head_config)
    (fw : Llama.entry A) (key_prefix : string) :
  (Llama.tie_word_embeddings hf = true ->
   osd !! "transformer.word_embeddings.weight" = Some fw) ->
  exists nsd1,
    Falcon.post_model_convert fbase osd nsd (hf, cs) 0 key_prefix
    = fbase osd nsd1 0 key_prefix
    ∧ nsd1 !! (key_prefix +:+ "lm_head.weight")
      = Some (if Llama.tie_word_embeddings hf then fw
              else Llama.NormalInit
                     [Llama.vocab_size cs; Llama.hidden_size cs] 0 (2 # 100)).
Proof.
  intros Htie.
  assert (Hne : key_prefix +:+ "lm_head.bias"
                ≠ key_prefix +:+ "lm_head.weight").
  { induction key_prefix as [|c p IH]; simpl; [discriminate|].
    intros Heq. injection Heq as Heq. by apply IH. }
  unfold Falcon.post_model_convert. rewrite decide_True by done.
  cbn [fst snd].
  destruct (Llama.tie_word_embeddings hf) eqn:Ht.
  - rewrite (Htie eq_refl). cbn [mbind result_bind].
    eexists. split; [reflexivity|].
    destruct (default false (Llama.use_bias_in_output cs)).
    + rewrite lookup_insert_ne by done. apply lookup_insert_eq.
    + apply lookup_insert_eq.
  - cbn [mbind result_bind].
    eexists. split; [reflexivity|].
    destruct (default false (Llama.use_bias_in_output cs)).
    + rewrite lookup_insert_ne by done. apply lookup_insert_eq.
    + apply lookup_insert_eq.
Qed.

(** The standard deviation of a head that is not tied is the literal 0.02:
    with an initializer range of 0.01 in both configs the head is still
    drawn with 0.02. *)
Lemma lm_head_std_is_literal :
  let hf := Llama.Build_hf_config false (1 # 100) in
  let cs := Llama.Build_cs_head_config None 2 1 (1 # 100) in
  exists nsd1 : gmap string (Llama.entry Z),
    Llama.post_model_convert (fun _ sd _ => Ok sd) ∅ ∅ (hf, cs) 0 = Ok nsd1
    ∧ nsd1 !! "lm_head.weight" = Some (Llama.NormalInit [2; 1] 0 (2 # 100))
    ∧ ¬ (2 # 100 == Llama.cs_initializer_range cs)%Q
    ∧ ¬ (2 # 100 == Llama.hf_initializer_range hf)%Q.
Proof.
  intros hf cs. eexists. split; [reflexivity|].
  split; [apply lookup_insert_eq|]. split; intros Hq; discriminate Hq.
Qed.

(** C5 fails on the headless Falcon converter.  Its rules convert the
    input embedding of a headless source under [word_embeddings.weight],
    but with [tie_word_embeddings] its [post_model_convert] reads
    [transformer.word_embeddings.weight]: on every source dict that lacks
    this prefixed key, whatever else it holds, the conversion (direction 0)
    raises [KeyError]; no head is written and the hook of the base class
    is never reached. *)
Theorem falcon_tied_head_key_error {A : Type}
    (fbase : gmap string (Llama.entry A) -> gmap string (Llama.entry A) ->
             nat -> string -> result (gmap string (Llama.entry A)))
    (osd nsd : gmap string (Llama.entry A))
    (hf : Llama.hf_config) (cs : Llama.cs_head_config)
    (key_prefix : string) :
  Llama.tie_word_embeddings hf = true ->
  osd !! "transformer.word_embeddings.weight" = None ->
  Falcon.post_model_convert fbase osd nsd (hf, cs) 0 key_prefix
  = Raise KeyError.
Proof.
  intros Htie Hkey. unfold Falcon.post_model_convert.
  rewrite decide_True by done. cbn [fst snd].
  rewrite Htie, Hkey. reflexivity.
Qed.

(** A headless Falcon source that holds its embedding: the Falcon
    conversion raises, while the LLaMA converter on the like LLaMA source
    writes the embedding as the head. *)
Lemma falcon_tied_head_key_error_witness :
  let emb : Llama.entry Z := Llama.Stored (Torch.mkTensor [2; 1] [5; 6]%Z) in
  let falcon_source : gmap string (Llama.entry Z) :=
    {["word_embeddings.weight" := emb]} in
  let llama_source : gmap string (Llama.entry Z) :=
    {["embed_tokens.weight" := emb]} in
  let hf := Llama.Build_hf_config true (2 # 100) in
  let cs := Llama.Build_cs_head_config None 2 1 (2 # 100) in
  falcon_source !! "word_embeddings.weight" = Some emb
  ∧ Falcon.post_model_convert (fun _ sd _ _ => Ok sd) falcon_source ∅
      (hf, cs) 0 EmptyString
    = Raise KeyError
  ∧ exists nsd1,
      Llama.post_model_convert (fun _ sd _ => Ok sd) llama_source ∅
        (hf, cs) 0
      = Ok nsd1
      ∧ nsd1 !! "lm_head.weight" = Some emb.
Proof.
  intros emb falcon_source llama_source hf cs.
  split; [vm_compute; reflexivity|]. split.
  - apply (falcon_tied_head_key_error (fun _ sd _ _ => Ok sd)
             falcon_source ∅ hf cs EmptyString).
    + reflexivity.
    + vm_compute. reflexivity.
  - apply (llama_head_synthesis (fun _ sd _ => Ok sd) llama_source ∅ hf cs
             emb).
    intros _. vm_compute. reflexivity.
Defined.

(** * Claims on the precondition checks *)

(** C6: a packed query_key_value tensor whose leading dimension is not
    [head_size * (num_kv_groups * 2 + num_heads)] makes the Falcon QKV
    converter raise, and a configuration whose number of attention heads is
    not a multiple of its number of key/value heads makes [convert_gqa]
    raise (in either direction); in each case [new_state_dict] is left as it
    was, and the error is the assertion with its message whenever the
    checked quantities are well-defined. *)
Theorem shape_and_head_count_checks {A : Type} `{Inhabited A}
    (old_key new_key : string)
    (osd nsd : gmap string (Torch.Tensor A)) (cfg : Falcon.cs_model_config)
    (packed : Torch.Tensor A)
    (gqa_key gqa_new_key : string)
    (old_config new_config : gmap string Llama.cfg_value)
    (heads kv : Z) (extra : gmap string Z) :
  (osd !! old_key = Some packed ->
   head (Torch.shape packed)
   ≠ Some (Falcon.hidden_size cfg / Falcon.num_heads cfg
           * (Falcon.num_kv_groups cfg * 2 + Falcon.num_heads cfg)) ->
   exists e,
     Falcon.qkv_converter_hf_to_cs old_key new_key osd nsd cfg
     = Failed e nsd
     ∧ (Falcon.num_heads cfg ≠ 0 -> Falcon.num_kv_groups cfg ≠ 0 ->
        (endswith new_key ".bias" = true
         ∧ length (Torch.shape packed) = 1)
        ∨ (endswith new_key ".bias" = false
           ∧ endswith new_key ".weight" = true
           ∧ length (Torch.shape packed) = 2) ->
        e = AssertionError "Invalid tensor shape {} at {}."))
  ∧ (¬ (kv | heads)%Z ->
     old_config !! gqa_key = Some (Llama.CInt kv) ->
     old_config !! "num_attention_heads" = Some (Llama.CInt heads) ->
     exists e,
       Llama.convert_gqa gqa_key gqa_new_key old_config new_config 0
       = Failed e new_config
       ∧ (kv ≠ 0%Z -> e = AssertionError Llama.divisible_msg))
  ∧ (¬ (kv | heads)%Z ->
     old_config !! "attention_module"
     = Some (Llama.CStr "multiquery_attention") ->
     old_config !! "num_heads" = Some (Llama.CInt heads) ->
     old_config !! gqa_key = Some (Llama.CDict extra) ->
     extra !! "num_kv_groups" = Some kv ->
     exists e,
       Llama.convert_gqa gqa_key gqa_new_key old_config new_config 1
       = Failed e new_config
       ∧ (kv ≠ 0%Z -> e = AssertionError Llama.divisible_msg)).
Proof.
  split; [|split].
  - intros Hk Hdim.
    unfold Falcon.qkv_converter_hf_to_cs, Falcon.split_qkv, Falcon.floordiv.
    destruct (decide (Falcon.num_heads cfg = 0)) as [Hh|Hh].
    { eexists. split; [reflexivity|]. intros; done. }
    cbn [mbind result_bind].
    destruct (decide (Falcon.num_kv_groups cfg = 0)) as [Hg|Hg].
    { eexists. split; [reflexivity|]. intros; done. }
    cbn [mbind result_bind]. rewrite Hk.
    destruct (endswith new_key ".bias") eqn:Hb.
    + destruct (Torch.shape packed) as [|p [|q s]] eqn:Hs.
      * eexists. split; [reflexivity|].
        intros _ _ [[_ Hl]|[Hx _]]; simpl in *; congruence.
      * rewrite decide_False by (simpl in Hdim; congruence).
        eexists. split; [reflexivity|]. done.
      * eexists. split; [reflexivity|].
        intros _ _ [[_ Hl]|[Hx _]]; simpl in *; congruence.
    + destruct (endswith new_key ".weight") eqn:Hw.
      * destruct (Torch.shape packed) as [|p [|q [|q' s]]] eqn:Hs.
        -- eexists. split; [reflexivity|].
           intros _ _ [[Hx _]|(_ & _ & Hl)]; simpl in *; congruence.
        -- eexists. split; [reflexivity|].
           intros _ _ [[Hx _]|(_ & _ & Hl)]; simpl in *; congruence.
        -- rewrite decide_False by (simpl in Hdim; congruence).
           eexists. split; [reflexivity|]. done.
        -- eexists. split; [reflexivity|].
           intros _ _ [[Hx _]|(_ & _ & Hl)]; simpl in *; congruence.
      * eexists. split; [reflexivity|].
        intros _ _ [[Hx _]|(_ & Hx & _)]; congruence.
  - intros Hdiv Hkv Hheads.
    unfold Llama.convert_gqa, Llama.gqa_writes, Llama.cfg_get.
    rewrite decide_True by done. rewrite Hkv, Hheads.
    cbn [mbind result_bind].
    rewrite decide_False.
    2:{ intros Heq. injection Heq as ->. apply Hdiv. reflexivity. }
    unfold Llama.py_mod.
    destruct (decide (kv = 0%Z)) as [Hz|Hz].
    { eexists. split; [reflexivity|]. done. }
    cbn [mbind result_bind].
    rewrite decide_False.
    2:{ intros Hm. apply Hdiv. by apply Z.mod_divide. }
    eexists. split; [reflexivity|]. done.
  - intros Hdiv Hmod Hheads Hextra Hkv.
    unfold Llama.convert_gqa, Llama.gqa_writes, Llama.cfg_get,
      Llama.cfg_item.
    rewrite decide_False by done. rewrite decide_True by done.
    rewrite Hmod. simpl default.
    rewrite decide_False by discriminate.
    rewrite decide_True by done.
    rewrite Hheads, Hextra. cbn [mbind result_bind].
    rewrite Hkv. cbn [mbind result_bind].
    unfold Llama.py_mod.
    destruct (decide (kv = 0%Z)) as [Hz|Hz].
    { eexists. split; [reflexivity|]. done. }
    cbn [mbind result_bind].
    rewrite decide_False.
    2:{ intros Hm. apply Hdiv. by apply Z.mod_divide. }
    eexists. split; [reflexivity|]. done.
Qed.

Lemma shape_and_head_count_checks_witness :
  let cfg := Falcon.Build_cs_model_config 4 2 1 in
  let packed : Torch.Tensor Z := Torch.mkTensor [7; 1] [1; 2; 3; 4; 5; 6; 7]%Z
  in
  let osd : gmap string (Torch.Tensor Z) := {["qkv.weight" := packed]} in
  let old_config : gmap string Llama.cfg_value :=
    {["num_key_value_heads" := Llama.CInt 3;
      "num_attention_heads" := Llama.CInt 8]} in
  (osd !! "qkv.weight" = Some packed
   ∧ head (Torch.shape packed) ≠ Some (4 / 2 * (1 * 2 + 2))
   ∧ exists e,
       Falcon.qkv_converter_hf_to_cs "qkv.weight"
         "x.proj_q_dense_layer.weight" osd ∅ cfg = Failed e ∅)
  ∧ (¬ (3 | 8)%Z
     ∧ exists e,
         Llama.convert_gqa "num_key_value_heads" "extra_attention_params"
           old_config ∅ 0 = Failed e ∅
         ∧ (3 ≠ 0 -> e = AssertionError Llama.divisible_msg)%Z).
Proof.
  intros cfg packed osd old_config.
  assert (Hnd : ¬ (3 | 8)%Z).
  { intros [q Hq]. lia. }
  assert (Hhd : head (Torch.shape packed) ≠ Some (4 / 2 * (1 * 2 + 2)))
    by (vm_compute; discriminate).
  destruct (shape_and_head_count_checks "qkv.weight"
              "x.proj_q_dense_layer.weight" osd ∅ cfg packed
              "num_key_value_heads" "extra_attention_params"
              old_config ∅ 8 3 ∅) as (Hf & Hg & _).
  split.
  - split; [reflexivity|]. split; [exact Hhd|].
    destruct (Hf eq_refl Hhd) as (e & He & _). by exists e.
  - split; [exact Hnd|]. apply Hg; [exact Hnd|reflexivity|reflexivity].
Defined.

(** * Claims on the hierarchical writer view *)

Section cs_view.
Context {V : Type}.
Import CSWriter.

Lemma contains_key_dict (items : list (pykey * node)) (key : pykey) :
  contains_key (NDict items) key
  = Ok (bool_decide (is_Some (assoc_get items key))).
Proof.
  unfold contains_key. f_equal. apply bool_decide_ext.
  induction items as [|[k n] items IH]; simpl.
  - split; [intros Hin; by apply elem_of_nil in Hin|intros [? ?]; done].
  - rewrite elem_of_cons. destruct (decide (k = key)) as [->|Hne].
    + split; [eauto|by left].
    + rewrite <- IH. split; [intros [?|?]; [congruence|done]|by right].
Qed.

(** On a view whose state is a dict, [__setitem__] is as the two
    restrictions say: a key that holds a dict, list or tuple is never
    rebound, a key that exists is never rebound to a dict, list or tuple,
    and a leaf is rebound to a leaf whenever its name can be joined. *)
Lemma setitem_dict_view (items : list (pykey * node)) (pre : list pykey)
    (file : h5_file (V := V)) (key : pykey) (value : pyvalue V)
    (held : node) :
  assoc_get items key = Some held ->
  let self := mkView (NDict items) pre file in
  (is_leaf held = false ->
   __setitem__ self key value
   = Failed (ValueError existing_structural_msg) self)
  ∧ (is_leaf held = true -> is_container value = true ->
     __setitem__ self key value
     = Failed (ValueError becomes_structural_msg) self)
  ∧ (forall v name,
       is_leaf held = true -> value = PLeaf v ->
       join_keys (pre ++ [key]) = Ok name ->
       __setitem__ self key value
       = Done (mkView (NDict (assoc_set items key StreamingCSLeaf)) pre
                 (<[name := v]> file))).
Proof.
  intros Hget self. unfold __setitem__. cbn [state prefix checkpoint_file self].
  rewrite contains_key_dict, Hget.
  rewrite bool_decide_eq_true_2 by eauto.
  cbn [get_item]. rewrite Hget.
  split; [|split].
  - intros ->. done.
  - intros -> ->. done.
  - intros v name -> -> Hj. cbn [andb negb is_container].
    by rewrite Hj.
Qed.

End cs_view.

(** C7 fails on a view whose state is a list, as [w["a"]] is after
    [w["a"] = [[t], u]]: there [key in self.state] asks whether the key is
    an element, which it never is, so [v[0] = {}] replaces the list held at
    index 0 and [v[1] = {}] replaces the leaf held at index 1, both without
    an error; a leaf value is turned down with a [TypeError], not a
    [ValueError]. *)
Theorem list_view_rebinds_structure :
  let w1 := CSWriter.mkView
              (CSWriter.NDict
                 [(CSWriter.KStr "a",
                   CSWriter.NList [CSWriter.NList [CSWriter.StreamingCSLeaf];
                                   CSWriter.StreamingCSLeaf])])
              [] ({["a.1" := 8%Z; "a.0.0" := 7%Z]} : gmap string Z) in
  let v := CSWriter.mkView
             (CSWriter.NList [CSWriter.NList [CSWriter.StreamingCSLeaf];
                              CSWriter.StreamingCSLeaf])
             [CSWriter.KStr "a"] (CSWriter.checkpoint_file w1) in
  CSWriter.__setitem__ CSWriter.StreamingCSWriter (CSWriter.KStr "a")
    (CSWriter.PList [CSWriter.PList [CSWriter.PLeaf 7%Z];
                     CSWriter.PLeaf 8%Z])
  = Done w1
  ∧ CSWriter.__getitem__ w1 (CSWriter.KStr "a") = Ok (inr v)
  ∧ CSWriter.__setitem__ v (CSWriter.KInt 0) (CSWriter.PDict [])
    = Done (CSWriter.mkView
              (CSWriter.NList [CSWriter.NDict []; CSWriter.StreamingCSLeaf])
              [CSWriter.KStr "a"] (CSWriter.checkpoint_file w1))
  ∧ CSWriter.__setitem__ v (CSWriter.KInt 1) (CSWriter.PDict [])
    = Done (CSWriter.mkView
              (CSWriter.NList [CSWriter.NList [CSWriter.StreamingCSLeaf];
                               CSWriter.NDict []])
              [CSWriter.KStr "a"] (CSWriter.checkpoint_file w1))
  ∧ CSWriter.__setitem__ v (CSWriter.KInt 0) (CSWriter.PLeaf 3%Z)
    = Failed TypeError v.
Proof.
  intros w1 v. repeat split; vm_compute; reflexivity.
Qed.

(** * Claims on size strings *)

Section size_strings.
Variable convert_byte_unit : Z -> string -> option Z.
Import Streaming.

Lemma convert_file_size_int (z : Z) :
  convert_file_size_to_int convert_byte_unit (SizeInt z) = Ok z.
Proof. reflexivity. Qed.

Lemma drop_while_not_digit_nil (s : list ascii) :
  Forall (fun c => is_digit c = false) s ->
  drop_while (fun c => negb (is_digit c)) s = [].
Proof.
  induction 1 as [|c s Hc _ IH]; cbn [drop_while]; [done|].
  by rewrite Hc.
Qed.

(** A string without a digit is rejected. *)
Lemma convert_file_size_no_digit (s : string) :
  Forall (fun c => is_digit c = false) (list_ascii_of_string s) ->
  convert_file_size_to_int convert_byte_unit (SizeStr s)
  = Raise (ValueError size_format_msg).
Proof.
  intros Hs. unfold convert_file_size_to_int, re_search_size.
  by rewrite drop_while_not_digit_nil.
Qed.

Lemma take_while_digits (ds rest : list ascii) :
  Forall (fun c => is_digit c = true) ds ->
  match rest with [] => True | c :: _ => is_digit c = false end ->
  take_while is_digit (ds ++ rest) = ds
  ∧ drop_while is_digit (ds ++ rest) = rest.
Proof.
  intros Hds Hrest.
  induction Hds as [|c ds Hc _ IH]; cbn [take_while drop_while app].
  - destruct rest as [|c rest]; [done|].
    cbn [take_while drop_while]. by rewrite Hrest.
  - rewrite Hc. destruct IH as [-> ->]. done.
Qed.

Lemma take_while_no_newline (s : list ascii) :
  Forall (fun c => c ≠ newline) s ->
  take_while (fun c => negb (bool_decide (c = newline))) s = s.
Proof.
  induction 1 as [|c s Hc _ IH]; cbn [take_while]; [done|].
  rewrite bool_decide_eq_false_2 by done. cbn [negb]. by rewrite IH.
Qed.

(** A string of the form digits-then-unit, the unit on one line and not
    starting with a digit, is handed to the unit conversion as such. *)
Lemma convert_file_size_digits_unit (ds unit : list ascii) :
  ds ≠ [] -> Forall (fun c => is_digit c = true) ds ->
  match unit with [] => True | c :: _ => is_digit c = false end ->
  Forall (fun c => c ≠ newline) unit ->
  convert_file_size_to_int convert_byte_unit
    (SizeStr (string_of_list_ascii (ds ++ unit)))
  = match convert_byte_unit (int_of_digits ds) (string_of_list_ascii unit)
    with
    | Some size => Ok size
    | None => Raise (ValueError size_format_msg)
    end.
Proof.
  intros Hne Hds Hunit Hnl.
  unfold convert_file_size_to_int, re_search_size.
  rewrite list_ascii_of_string_of_list_ascii.
  destruct ds as [|c ds]; [done|].
  inversion Hds as [|? ? Hc Hds']; subst.
  destruct (take_while_digits (c :: ds) unit Hds Hunit) as [Ht Hd].
  rewrite <- app_comm_cons in *.
  assert (Hdw : drop_while (fun c => negb (is_digit c)) (c :: ds ++ unit)
                = c :: ds ++ unit) by (cbn [drop_while]; by rewrite Hc).
  rewrite Hdw, Ht, Hd.
  by rewrite take_while_no_newline.
Qed.

End size_strings.

(** C9 fails on leading characters that are no digits: the search for the
    digits is not anchored at the start of the string, so "abc10GB" is
    taken for ten gigabytes instead of being rejected. *)
Theorem size_string_leading_characters_accepted :
  Streaming.convert_file_size_to_int Streaming.convert_byte_unit_model
    (Streaming.SizeStr "abc10GB")
  = Ok 10000000000%Z
  ∧ Streaming.convert_file_size_to_int Streaming.convert_byte_unit_model
      (Streaming.SizeStr "10GB")
    = Ok 10000000000%Z
  ∧ Streaming.convert_file_size_to_int Streaming.convert_byte_unit_model
      (Streaming.SizeStr "10GiB")
    = Ok 10737418240%Z.
Proof. repeat split; vm_compute; reflexivity. Qed.

(** * Claims on the sharded writer: the empty checkpoint *)

(** C10: on a writer into which no key was ever inserted, [_flush] writes
    nothing and [save] raises a file-not-found error on renaming
    pytorch_model-00001-of-00000.bin, a file that was never created; the
    directory is left empty, without a manifest. *)
Theorem save_empty_writer_raises (max_shard_size : Z) :
  let w := Streaming.fresh_writer max_shard_size in
  Streaming._flush w = w
  ∧ Streaming.get_filename 0 (Streaming.total_shards_finalized w)
    = "pytorch_model-00001-of-00000.bin"
  ∧ Streaming.fs w !! "pytorch_model-00001-of-00000.bin" = None
  ∧ Streaming.save w = Failed FileNotFoundError ∅
  ∧ (∅ : gmap string Streaming.file) !! Streaming.index_file = None.
Proof.
  intros w. split; [reflexivity|]. split; [vm_compute; reflexivity|].
  split; [apply lookup_empty|]. split; [|apply lookup_empty].
  unfold Streaming.save, w. cbn.
  unfold Streaming.os_rename. rewrite lookup_empty. reflexivity.
Qed.

(** * Shard file names determine the shard *)

Section filenames.
Import Streaming.

Lemma digits_value_snoc (ds : list nat) (d : nat) :
  digits_value (ds ++ [d]) = 10 * digits_value ds + d.
Proof. unfold digits_value. by rewrite foldl_app. Qed.

Lemma digits_lsd_spec (fuel n : nat) :
  n < fuel ->
  digits_value (reverse (digits_lsd fuel n)) = n
  ∧ Forall (fun d => d < 10) (digits_lsd fuel n).
Proof.
  revert n. induction fuel as [|fuel IH]; intros n Hn; [lia|].
  cbn [digits_lsd]. case_decide as Hlt.
  - split.
    + rewrite reverse_singleton. unfold digits_value. cbn [foldl].
      rewrite Nat.mod_small by done. lia.
    + constructor; [|constructor]. rewrite Nat.mod_small by done. done.
  - assert (Hdiv : n / 10 < fuel).
    { apply Nat.Div0.div_lt_upper_bound. lia. }
    destruct (IH _ Hdiv) as [Hv Hd]. split.
    + rewrite reverse_cons, digits_value_snoc, Hv.
      pose proof (Nat.div_mod n 10). lia.
    + constructor; [|done]. apply Nat.mod_upper_bound. lia.
Qed.

Lemma digits_value_zero_pad (width : nat) (ds : list nat) :
  digits_value (zero_pad width ds) = digits_value ds.
Proof.
  unfold zero_pad, digits_value. rewrite foldl_app.
  f_equal. induction (width - length ds) as [|k IH]; simpl; [done|].
  exact IH.
Qed.

Lemma padded_decimal_value (n : nat) :
  digits_value (zero_pad 5 (decimal n)) = n.
Proof.
  rewrite digits_value_zero_pad. unfold decimal.
  apply digits_lsd_spec. lia.
Qed.

Lemma padded_decimal_digits (n : nat) :
  Forall (fun d => d < 10) (zero_pad 5 (decimal n)).
Proof.
  unfold zero_pad, decimal. apply Forall_app. split.
  - apply Forall_replicate. lia.
  - apply Forall_reverse. apply digits_lsd_spec. lia.
Qed.

Lemma digit_char_is_digit (d : nat) :
  d < 10 -> is_digit (digit_char d) = true.
Proof.
  intros Hd. unfold is_digit, digit_char.
  rewrite nat_ascii_embedding by lia.
  apply andb_true_iff. split; apply Nat.leb_le; lia.
Qed.

Lemma digit_char_inj (d d' : nat) :
  d < 10 -> d' < 10 -> digit_char d = digit_char d' -> d = d'.
Proof.
  intros Hd Hd' Heq. unfold digit_char in Heq.
  apply (f_equal nat_of_ascii) in Heq.
  rewrite !nat_ascii_embedding in Heq by lia. lia.
Qed.

Lemma fmap_digit_char_inj (l l' : list nat) :
  Forall (fun d => d < 10) l -> Forall (fun d => d < 10) l' ->
  digit_char <$> l = digit_char <$> l' -> l = l'.
Proof.
  intros Hl. revert l'.
  induction Hl as [|d l Hd _ IH]; intros [|d' l'] Hl' Heq;
    try discriminate; [done|].
  inversion Hl'; subst. rewrite !fmap_cons in Heq.
  injection Heq as Hc Hrest. f_equal; [by apply digit_char_inj|by apply IH].
Qed.

Lemma format_05d_inj (n n' : nat) :
  format_05d n = format_05d n' -> n = n'.
Proof.
  intros Heq. unfold format_05d in Heq.
  apply fmap_digit_char_inj in Heq; try apply padded_decimal_digits.
  rewrite <- (padded_decimal_value n), <- (padded_decimal_value n').
  by rewrite Heq.
Qed.

Lemma format_05d_digits (n : nat) :
  Forall (fun c => is_digit c = true) (format_05d n).
Proof.
  unfold format_05d. apply Forall_fmap.
  eapply Forall_impl; [apply padded_decimal_digits|].
  intros d Hd. by apply digit_char_is_digit.
Qed.

(** A run of digits ends where the first other character stands. *)
Lemma digits_prefix_inj (l1 l2 r1 r2 : list ascii) (c1 c2 : ascii) :
  Forall (fun c => is_digit c = true) l1 ->
  Forall (fun c => is_digit c = true) l2 ->
  is_digit c1 = false -> is_digit c2 = false ->
  l1 ++ c1 :: r1 = l2 ++ c2 :: r2 ->
  l1 = l2 ∧ c1 :: r1 = c2 :: r2.
Proof.
  intros Hl1. revert l2.
  induction Hl1 as [|a l1 Ha _ IH]; intros l2 Hl2 Hc1 Hc2 Heq.
  - destruct Hl2 as [|b l2 Hb _]; [done|].
    simpl in Heq. injection Heq as -> _. congruence.
  - destruct Hl2 as [|b l2 Hb Hl2].
    + simpl in Heq. injection Heq as -> _. congruence.
    + simpl in Heq. injection Heq as -> Heq.
      destruct (IH l2 Hl2 Hc1 Hc2 Heq) as [-> Hr]. done.
Qed.

Lemma get_filename_inj (i j t u : nat) :
  get_filename i t = get_filename j u -> i = j ∧ t = u.
Proof.
  unfold get_filename. intros Heq.
  apply (f_equal list_ascii_of_string) in Heq.
  rewrite !list_ascii_of_string_of_list_ascii in Heq.
  apply app_inv_head in Heq.
  apply digits_prefix_inj in Heq as [Hi Hrest];
    try apply format_05d_digits; try reflexivity.
  apply format_05d_inj in Hi.
  apply (app_inv_head (list_ascii_of_string "-of-")) in Hrest.
  apply digits_prefix_inj in Hrest as [Ht _];
    try apply format_05d_digits; try reflexivity.
  apply format_05d_inj in Ht. split; lia.
Qed.

Lemma get_filename_not_index (i t : nat) :
  get_filename i t ≠ index_file.
Proof.
  unfold get_filename, index_file. intros Heq.
  apply (f_equal list_ascii_of_string) in Heq.
  rewrite list_ascii_of_string_of_list_ascii in Heq.
  simpl in Heq. discriminate.
Qed.

End filenames.

(** * The sharded writer stays consistent *)

Ltac wsimpl :=
  cbn [Streaming.fs Streaming.weight_map Streaming.current_file_number
       Streaming.last_file_number Streaming.total_shards_finalized
       Streaming.active_file_name Streaming.active_file_data
       Streaming.file_size Streaming.dirty Streaming.max_shard_size
       Streaming.warnings] in *.

Section writer_invariant.
Import Streaming.

Lemma consistent_fresh (max : Z) : consistent (fresh_writer max).
Proof.
  unfold fresh_writer. split; wsimpl.
  - done.
  - intros f. rewrite lookup_singleton_is_Some. split.
    + intros <-. exists 0. done.
    + intros (i & Hi & ->). by replace i with 0 by lia.
  - intros k f Hk. by rewrite lookup_empty in Hk.
  - left. rewrite lookup_singleton_eq. eauto.
Qed.

Lemma flush_fields (w : writer) :
  weight_map (_flush w) = weight_map w
  ∧ current_file_number (_flush w) = current_file_number w
  ∧ last_file_number (_flush w) = last_file_number w
  ∧ total_shards_finalized (_flush w) = total_shards_finalized w
  ∧ active_file_name (_flush w) = active_file_name w
  ∧ active_file_data (_flush w) = active_file_data w
  ∧ file_size (_flush w) = file_size w
  ∧ max_shard_size (_flush w) = max_shard_size w
  ∧ warnings (_flush w) = warnings w
  ∧ dirty (_flush w) = false.
Proof.
  unfold _flush. destruct (dirty w) eqn:Hd; wsimpl; repeat split; done.
Qed.

(** After a flush every key is in its shard file. *)
Lemma flush_on_disk (w : writer) (k f : string) :
  consistent w -> weight_map w !! k = Some f ->
  exists d, fs (_flush w) !! f = Some (ShardFile d) ∧ is_Some (d !! k).
Proof.
  intros Hc Hk. destruct (cons_keys w Hc k f Hk) as (_ & Hact & Hdisk).
  unfold _flush. destruct (dirty w) eqn:Hd; wsimpl.
  - destruct (decide (f = active_file_name w)) as [->|Hne].
    + rewrite lookup_insert_eq. eauto.
    + rewrite lookup_insert_ne by done. apply Hdisk. by left.
  - apply Hdisk. by right.
Qed.

Lemma consistent_flush (w : writer) :
  consistent w -> consistent (_flush w).
Proof.
  intros Hc.
  destruct (flush_fields w)
    as (Hwm & Hcur & Hlast & Htsf & Han & Had & Hfs & _ & _ & Hd).
  split.
  - rewrite Hcur, Hlast. apply Hc.
  - intros f. rewrite Hfs, Hlast, Htsf. apply Hc.
  - intros k f. rewrite Hwm, Hfs, Han, Had. intros Hk.
    destruct (cons_keys w Hc k f Hk) as (Hsz & Hact & _).
    split; [done|]. split; [done|]. intros _.
    by apply flush_on_disk.
  - rewrite Hfs, Han, Hlast, Htsf.
    destruct (cons_active w Hc) as [?|[_ ?]]; [by left|by right].
Qed.

Lemma switch_shards_spec (w : writer) (k f : string) :
  consistent w -> weight_map w !! k = Some f ->
  exists d,
    fs (_flush w) !! f = Some (ShardFile d)
    ∧ is_Some (d !! k)
    ∧ _switch_shards f w
      = Done (mkWriter (fs (_flush w)) (weight_map w)
                (current_file_number w) (last_file_number w)
                (total_shards_finalized w) f d (file_size w) false
                (max_shard_size w) (warnings w)).
Proof.
  intros Hc Hk. destruct (flush_on_disk w k f Hc Hk) as (d & Hd & Hin).
  exists d. split; [done|]. split; [done|].
  unfold _switch_shards. rewrite Hd.
  destruct (flush_fields w)
    as (-> & -> & -> & -> & _ & _ & -> & -> & -> & ->).
  done.
Qed.

Lemma consistent_switched (w : writer) (k f : string)
    (d : gmap string HFTensor) :
  consistent w -> weight_map w !! k = Some f ->
  fs (_flush w) !! f = Some (ShardFile d) ->
  consistent (mkWriter (fs (_flush w)) (weight_map w)
                (current_file_number w) (last_file_number w)
                (total_shards_finalized w) f d (file_size w) false
                (max_shard_size w) (warnings w)).
Proof.
  intros Hc Hk Hd. split; wsimpl.
  - apply Hc.
  - apply Hc.
  - intros k' f' Hk'.
    destruct (cons_keys w Hc k' f' Hk') as (Hsz & _ & _).
    destruct (flush_on_disk w k' f' Hc Hk') as (d' & Hd' & Hin').
    split; [done|]. split.
    + intros ->. rewrite Hd in Hd'. by injection Hd' as ->.
    + intros _. eauto.
  - left. by destruct (cons_keys w Hc k f Hk) as (Hsz & _ & _).
Qed.

Lemma consistent_store (w : writer) (k : string) (v : HFTensor) (sz : Z)
    (warn : bool) :
  consistent w -> is_Some (file_size w !! active_file_name w) ->
  consistent (store k v sz w warn).
Proof.
  intros Hc Hact. unfold store. split; wsimpl.
  - apply Hc.
  - intros f. rewrite lookup_insert_is_Some'.
    rewrite <- (cons_sizes w Hc f). split; [|tauto].
    intros [<-|?]; done.
  - intros k' f'. rewrite lookup_insert_Some.
    intros [[<- <-]|[Hne Hk']].
    + split; [rewrite lookup_insert_eq; eauto|].
      split; [intros _; rewrite lookup_insert_eq; eauto|].
      intros [?|?]; done.
    + destruct (cons_keys w Hc k' f' Hk') as (Hsz & Hact' & Hdisk).
      split; [rewrite lookup_insert_is_Some'; by right|].
      split.
      * intros Hf. rewrite lookup_insert_ne by done. by apply Hact'.
      * intros [Hf|?]; [|done]. apply Hdisk. by left.
  - left. rewrite lookup_insert_eq. eauto.
Qed.

Lemma next_shard_fresh (w : writer) :
  consistent w ->
  file_size w
    !! get_filename (last_file_number w + 1) (total_shards_finalized w)
  = None.
Proof.
  intros Hc. apply eq_None_not_Some. rewrite (cons_sizes w Hc).
  intros (i & Hi & Heq). apply get_filename_inj in Heq. lia.
Qed.

Lemma consistent_open_next_shard (w : writer) :
  consistent w -> consistent (open_next_shard w).
Proof.
  intros Hc. pose proof (next_shard_fresh w Hc) as Hfresh.
  pose proof (consistent_flush w Hc) as Hcf.
  unfold open_next_shard.
  destruct (flush_fields w)
    as (Hwm & Hcur & Hlast & Htsf & Han & Had & Hfs & Hmax & Hwarn & Hd).
  rewrite Hwm, Hlast, Htsf, Hfs, Hd, Hmax, Hwarn.
  split; wsimpl.
  - done.
  - intros f. rewrite lookup_insert_is_Some', (cons_sizes w Hc f). split.
    + intros [<-|(i & Hi & ->)]; [eexists; split; [|done]; lia|].
      exists i. split; [lia|done].
    + intros (i & Hi & ->).
      destruct (decide (i = last_file_number w + 1)) as [->|Hne];
        [by left|right]. exists i. split; [lia|done].
  - intros k f Hk.
    destruct (cons_keys w Hc k f Hk) as (Hsz & _ & _).
    destruct (flush_on_disk w k f Hc Hk) as (d & Hdk & Hin).
    split; [rewrite lookup_insert_is_Some'; by right|].
    split; [|intros _; eauto].
    intros ->. rewrite Hfresh in Hsz. by destruct Hsz.
  - left. rewrite lookup_insert_eq. eauto.
Qed.

(** Making the shard of an existing key the active one. *)
Lemma activate_spec (w : writer) (k f : string) :
  consistent w -> weight_map w !! k = Some f ->
  exists w1,
    (if decide (active_file_name w ≠ f) then _switch_shards f w
     else Done w) = Done w1
    ∧ (if decide (f ≠ active_file_name w) then _switch_shards f w
       else Done w) = Done w1
    ∧ consistent w1
    ∧ active_file_name w1 = f
    ∧ is_Some (active_file_data w1 !! k)
    ∧ weight_map w1 = weight_map w
    ∧ file_size w1 = file_size w
    ∧ last_file_number w1 = last_file_number w
    ∧ total_shards_finalized w1 = total_shards_finalized w
    ∧ max_shard_size w1 = max_shard_size w
    ∧ warnings w1 = warnings w.
Proof.
  intros Hc Hk.
  destruct (decide (active_file_name w = f)) as [Heq|Hne].
  - exists w. rewrite decide_False by (intros ?; done).
    rewrite decide_False by (intros ?; done).
    destruct (cons_keys w Hc k f Hk) as (_ & Hact & _).
    split; [done|]. split; [done|]. split; [exact Hc|].
    split; [done|]. split; [by apply Hact|]. repeat split; done.
  - destruct (switch_shards_spec w k f Hc Hk) as (d & Hd & Hin & Hsw).
    eexists. rewrite decide_True by done.
    rewrite decide_True by (intros ?; done).
    split; [exact Hsw|]. split; [exact Hsw|].
    split; [by eapply consistent_switched|].
    wsimpl. split; [done|]. split; [done|]. repeat split; done.
Qed.

Lemma getitem_spec (w : writer) (k f : string) :
  consistent w -> weight_map w !! k = Some f ->
  exists w1 v,
    __getitem__ k w = Done (w1, v)
    ∧ consistent w1
    ∧ active_file_name w1 = f
    ∧ active_file_data w1 !! k = Some v
    ∧ weight_map w1 = weight_map w
    ∧ file_size w1 = file_size w.
Proof.
  intros Hc Hk.
  destruct (activate_spec w k f Hc Hk)
    as (w1 & _ & Hact & Hc1 & Han & [v Hv] & Hwm & Hfs & _).
  exists w1, v. unfold __getitem__. rewrite Hk, Hact.
  cbn [and_then]. rewrite Hv. done.
Qed.

Lemma getitem_consistent (w w1 : writer) (k : string) (v : HFTensor) :
  consistent w -> __getitem__ k w = Done (w1, v) -> consistent w1.
Proof.
  intros Hc Hget.
  destruct (weight_map w !! k) as [f|] eqn:Hk.
  - destruct (getitem_spec w k f Hc Hk) as (w2 & v2 & Hg & Hc2 & _).
    rewrite Hg in Hget. by injection Hget as <- _.
  - unfold __getitem__ in Hget. by rewrite Hk in Hget.
Qed.

(** Updating a key that exists never fails. *)
Lemma setitem_update_spec (w : writer) (k f : string) (v : HFTensor) :
  consistent w -> weight_map w !! k = Some f ->
  exists w1 old sz,
    __getitem__ k w = Done (w1, old)
    ∧ file_size w !! f = Some sz
    ∧ __setitem__ k v w
      = Done (store k v (sz + (weight_size v - weight_size old))%Z w1
                (bool_decide
                   (sz + (weight_size v - weight_size old)
                    > max_shard_size w)%Z))
    ∧ consistent w1 ∧ active_file_name w1 = f
    ∧ file_size w1 = file_size w
    ∧ warnings w1 = warnings w.
Proof.
  intros Hc Hk.
  destruct (activate_spec w k f Hc Hk)
    as (w1 & Hact & Hact' & Hc1 & Han & [old Hold] & Hwm & Hfs & _ & _
        & Hmax & Hwarn).
  destruct (cons_keys w Hc k f Hk) as ([sz Hsz] & _ & _).
  exists w1, old, sz. split; [|split; [done|split]].
  - unfold __getitem__. rewrite Hk, Hact'. cbn [and_then].
    by rewrite Hold.
  - unfold __setitem__. rewrite Hk, Hact. cbn [and_then].
    rewrite Hold, Han, Hfs, Hsz, Hmax. done.
  - done.
Qed.

Lemma setitem_consistent (w w' : writer) (k : string) (v : HFTensor) :
  consistent w -> __setitem__ k v w = Done w' -> consistent w'.
Proof.
  intros Hc Hset.
  destruct (weight_map w !! k) as [f|] eqn:Hk.
  - destruct (setitem_update_spec w k f v Hc Hk)
      as (w1 & old & sz & _ & Hsz & Hs & Hc1 & Han & Hfs & _).
    rewrite Hs in Hset. injection Hset as <-.
    apply consistent_store; [done|].
    rewrite Han, Hfs, Hsz. eauto.
  - unfold __setitem__ in Hset. rewrite Hk in Hset.
    rewrite decide_False in Hset
      by (intros Hne; apply Hne; apply Hc).
    cbn [and_then] in Hset.
    destruct (file_size w !! active_file_name w) as [sz|] eqn:Hsz;
      [|done].
    case_decide as Htip.
    + pose proof (consistent_open_next_shard w Hc) as Hco.
      destruct (cons_active _ Hco) as [[sz' Hsz']|[_ Hx]].
      * rewrite Hsz' in Hset. injection Hset as <-.
        apply consistent_store; [done|]. rewrite Hsz'. eauto.
      * unfold open_next_shard in Hx. wsimpl.
        destruct (flush_fields w) as (_ & _ & Hl & Ht & _).
        rewrite Hl, Ht in Hx.
        unfold open_next_shard in Hset. wsimpl.
        rewrite lookup_insert_eq in Hset. injection Hset as <-.
        apply (consistent_store (open_next_shard w)); [done|].
        unfold open_next_shard. wsimpl. rewrite lookup_insert_eq. eauto.
    + rewrite Hsz in Hset. injection Hset as <-.
      apply consistent_store; [done|]. rewrite Hsz. eauto.
Qed.

(** Renaming: distinct sources to distinct targets, no target a source. *)
Lemma rename_all_spec (ps : list (string * string))
    (files files' : gmap string file) :
  NoDup ((fst <$> ps) ++ (snd <$> ps)) ->
  rename_all ps files = Done files' ->
  (forall p n, (p, n) ∈ ps ->
     exists c, files !! p = Some c ∧ files' !! n = Some c)
  ∧ (forall p, p ∈ (fst <$> ps) -> files' !! p = None)
  ∧ (forall x, x ∉ (fst <$> ps) -> x ∉ (snd <$> ps) -> files' !! x = files !! x).
Proof.
  revert files. induction ps as [|[p n] ps IH]; intros files Hnd Hr.
  - simpl in Hr. injection Hr as <-. split; [|split].
    + intros p n Hin. by apply elem_of_nil in Hin.
    + intros p Hin. by apply elem_of_nil in Hin.
    + done.
  - cbn [rename_all] in Hr. unfold os_rename in Hr.
    destruct (files !! p) as [c|] eqn:Hp; [|done].
    rewrite !fmap_cons in Hnd. cbn [fst snd] in Hnd.
    assert (Hnd' : NoDup ((fst <$> ps) ++ (snd <$> ps))).
    { apply NoDup_app in Hnd as (Hs & Hd & Ht).
      apply NoDup_cons in Hs as [_ Hs]. apply NoDup_cons in Ht as [_ Ht].
      apply NoDup_app. split; [done|]. split; [|done].
      intros x Hx Hx'. apply (Hd x); [by right|by right]. }
    assert (Hp1 : (p ∉ (fst <$> ps)) ∧ (p ∉ (snd <$> ps)) ∧ p ≠ n).
    { apply NoDup_app in Hnd as (Hs & Hd & Ht).
      apply NoDup_cons in Hs as [Hs _].
      split; [done|]. split.
      - intros Hx. apply (Hd p); [by left|by right].
      - intros ->. apply (Hd n); by left. }
    assert (Hn1 : (n ∉ (fst <$> ps)) ∧ (n ∉ (snd <$> ps))).
    { apply NoDup_app in Hnd as (Hs & Hd & Ht).
      apply NoDup_cons in Ht as [Ht _]. split; [|done].
      intros Hx. apply (Hd n); [by right|by left]. }
    destruct Hp1 as (Hp1 & Hp2 & Hpn). destruct Hn1 as (Hn1 & Hn2).
    destruct (IH _ Hnd' Hr) as (Hmove & Hgone & Hrest).
    split; [|split].
    + intros p' n' Hin. apply elem_of_cons in Hin as [Heq|Hin].
      * injection Heq as -> ->. exists c. split; [done|].
        rewrite (Hrest n Hn1 Hn2). apply lookup_insert_eq.
      * destruct (Hmove p' n' Hin) as (c' & Hc' & Hn').
        exists c'. split; [|done].
        assert (p' ∈ (fst <$> ps)) by (apply list_elem_of_fmap; by exists (p', n')).
        rewrite lookup_insert_ne in Hc' by (intros ->; done).
        rewrite lookup_delete_ne in Hc' by (intros ->; done). done.
    + intros p' Hin. rewrite fmap_cons in Hin. cbn [fst] in Hin.
      apply elem_of_cons in Hin as [Heq|Hin].
      * rewrite Heq. rewrite (Hrest p Hp1 Hp2).
        rewrite lookup_insert_ne by done. apply lookup_delete_eq.
      * by apply Hgone.
    + intros x Hx1 Hx2. rewrite fmap_cons in Hx1, Hx2.
      cbn [fst snd] in Hx1, Hx2.
      apply not_elem_of_cons in Hx1 as [Hxp Hx1].
      apply not_elem_of_cons in Hx2 as [Hxn Hx2].
      rewrite (Hrest x Hx1 Hx2).
      rewrite lookup_insert_ne by done. by rewrite lookup_delete_ne.
Qed.

Lemma foldl_insert_lookup (ps : list (string * string)) (f g : string) :
  NoDup (fst <$> ps) ->
  foldl (fun m p => <[p.1 := p.2]> m) (∅ : gmap string string) ps !! f
  = Some g <-> (f, g) ∈ ps.
Proof.
  induction ps as [|[p n] ps IH] using rev_ind; intros Hnd.
  - simpl. rewrite lookup_empty. split; [done|].
    intros Hin. by apply elem_of_nil in Hin.
  - rewrite fmap_app in Hnd. apply NoDup_app in Hnd as (Hnd & Hd & _).
    rewrite foldl_app. cbn [foldl fst snd].
    rewrite elem_of_app, list_elem_of_singleton.
    destruct (decide (p = f)) as [->|Hne].
    + rewrite lookup_insert_eq. split.
      * intros [= ->]. by right.
      * intros [Hin|[= ->]]; [|done]. exfalso.
        apply (Hd f); [|by left].
        apply list_elem_of_fmap. by exists (f, g).
    + rewrite lookup_insert_ne by done. rewrite (IH Hnd). split.
      * by left.
      * intros [?|[= -> _]]; done.
Qed.

Lemma renames_NoDup (t u n : nat) :
  t ≠ u ->
  let ps := (fun i => (get_filename i t, get_filename i u)) <$> seq 0 n in
  NoDup ((fst <$> ps) ++ (snd <$> ps)).
Proof.
  intros Htu ps. subst ps. rewrite <- !list_fmap_compose.
  apply NoDup_app. split; [|split].
  - apply NoDup_fmap_2_strong; [|apply NoDup_seq].
    intros i j _ _ Heq. unfold compose in Heq. cbn [fst snd] in Heq.
    by apply get_filename_inj in Heq as [? ?].
  - intros x Hx Hx'.
    apply list_elem_of_fmap in Hx as (i & -> & _).
    apply list_elem_of_fmap in Hx' as (j & Heq & _).
    unfold compose in Heq. cbn [fst snd] in Heq.
    apply get_filename_inj in Heq. lia.
  - apply NoDup_fmap_2_strong; [|apply NoDup_seq].
    intros i j _ _ Heq. unfold compose in Heq. cbn [fst snd] in Heq.
    by apply get_filename_inj in Heq as [? ?].
Qed.

Lemma elem_of_renames (t u n : nat) (f g : string) :
  (f, g) ∈ (fun i => (get_filename i t, get_filename i u)) <$> seq 0 n
  <-> exists i, i < n ∧ f = get_filename i t ∧ g = get_filename i u.
Proof.
  rewrite list_elem_of_fmap. split.
  - intros (i & [= -> ->] & Hi). apply elem_of_seq in Hi.
    exists i. split; [lia|done].
  - intros (i & Hi & -> & ->). exists i. split; [done|].
    apply elem_of_seq. lia.
Qed.

Lemma sum_sizes_values (m : gmap string Z) :
  sum_sizes m = foldr Z.add 0%Z (snd <$> map_to_list m).
Proof.
  unfold sum_sizes. rewrite map_fold_foldr.
  induction (map_to_list m) as [|[k z] l IH]; [done|].
  rewrite fmap_cons. cbn [foldr uncurry snd]. by rewrite IH.
Qed.

Lemma sum_permutation (l l' : list Z) :
  l ≡ₚ l' -> foldr Z.add 0%Z l = foldr Z.add 0%Z l'.
Proof.
  induction 1 as [|x l l' _ IH|x y l|l l' l'' _ IH1 _ IH2];
    cbn [foldr]; lia.
Qed.

(** Renaming the keys of the size table keeps the sum. *)
Lemma sum_sizes_renamed (rename : string -> string) (m : gmap string Z) :
  NoDup (rename <$> (fst <$> map_to_list m)) ->
  sum_sizes (list_to_map ((fun p => (rename p.1, p.2)) <$> map_to_list m))
  = sum_sizes m.
Proof.
  intros Hnd. rewrite !sum_sizes_values. apply sum_permutation.
  rewrite map_to_list_to_map.
  - rewrite <- list_fmap_compose. done.
  - rewrite <- list_fmap_compose. rewrite <- list_fmap_compose in Hnd.
    exact Hnd.
Qed.

Lemma lookup_renamed (rename : string -> string) (m : gmap string Z)
    (g : string) (z : Z) :
  NoDup (rename <$> (fst <$> map_to_list m)) ->
  (list_to_map ((fun p => (rename p.1, p.2)) <$> map_to_list m)
     : gmap string Z) !! g = Some z
  <-> exists f, g = rename f ∧ m !! f = Some z.
Proof.
  intros Hnd. rewrite <- elem_of_list_to_map.
  - rewrite list_elem_of_fmap. split.
    + intros ([f z'] & [= -> ->] & Hin).
      apply elem_of_map_to_list in Hin. eauto.
    + intros (f & -> & Hf). exists (f, z). split; [done|].
      by apply elem_of_map_to_list.
  - rewrite <- list_fmap_compose. rewrite <- list_fmap_compose in Hnd.
    exact Hnd.
Qed.

Lemma consistent_write_index (w : writer) (x : file) :
  consistent w ->
  consistent (mkWriter (<[index_file := x]> (fs w)) (weight_map w)
                (current_file_number w) (last_file_number w)
                (total_shards_finalized w) (active_file_name w)
                (active_file_data w) (file_size w) (dirty w)
                (max_shard_size w) (warnings w)).
Proof.
  intros Hc. split; wsimpl; try apply Hc.
  intros k f Hk. destruct (cons_keys w Hc k f Hk) as (Hsz & Hact & Hdisk).
  split; [done|]. split; [done|]. intros Hcond.
  destruct (Hdisk Hcond) as (d & Hd & Hin). exists d. split; [|done].
  rewrite lookup_insert_ne; [done|].
  apply (cons_sizes w Hc) in Hsz as (i & _ & ->).
  intros Heq. symmetry in Heq. by apply get_filename_not_index in Heq.
Qed.

Lemma save_spec (w w' : writer) :
  consistent w -> save w = Done w' ->
  consistent w'
  ∧ last_file_number w' = last_file_number w
  ∧ total_shards_finalized w' = last_file_number w + 1
  ∧ dirty w' = false
  ∧ fs w' !! index_file
    = Some (IndexFile (sum_sizes (file_size w)) (weight_map w'))
  ∧ sum_sizes (file_size w') = sum_sizes (file_size w)
  ∧ (forall k, is_Some (weight_map w' !! k)
               <-> is_Some (weight_map w !! k))
  ∧ (forall k f, weight_map w' !! k = Some f ->
       exists d, fs w' !! f = Some (ShardFile d) ∧ is_Some (d !! k)).
Proof.
  intros Hc Hsave. unfold save in Hsave.
  pose proof (consistent_flush w Hc) as Hcf.
  pose proof (flush_on_disk w) as Hdisk.
  destruct (flush_fields w)
    as (Hwm & Hcur & Hlast & Htsf & Han & Had & Hfs & Hmax & Hwarn & Hd).
  set (w0 := _flush w) in *.
  rewrite Hwm, Hcur, Hlast, Htsf, Han, Had, Hfs, Hmax, Hwarn, Hd in Hsave.
  case_decide as Hren.
  - (* the shards are renumbered *)
    set (T := last_file_number w + 1) in *.
    set (t := total_shards_finalized w) in *.
    set (ps := (fun i => (get_filename i t, get_filename i T))
                 <$> seq 0 T) in *.
    set (file_renames := foldl (fun m p => <[p.1 := p.2]> m) ∅ ps) in *.
    destruct (rename_all ps (fs w0)) as [files|] eqn:Hra;
      cbn [and_then] in Hsave; [|done].
    case_decide as Hall; cbn [and_then] in Hsave; [|done].
    injection Hsave as <-. wsimpl.
    pose proof (renames_NoDup t T T Hren) as Hnd. fold ps in Hnd.
    assert (Hnd1 : NoDup (fst <$> ps)) by (by apply NoDup_app in Hnd as [? _]).
    destruct (rename_all_spec ps _ _ Hnd Hra) as (Hmove & Hgone & Hrest).
    set (rename := fun prev_file : string =>
                     default prev_file (file_renames !! prev_file)) in *.
    assert (Hrename : forall i, i <= last_file_number w ->
               rename (get_filename i t) = get_filename i T).
    { intros i Hi. unfold rename, file_renames.
      assert (Hl : foldl (fun m p => <[p.1 := p.2]> m)
                     (∅ : gmap string string) ps !! get_filename i t
                   = Some (get_filename i T)).
      { apply foldl_insert_lookup; [done|]. apply elem_of_renames.
        exists i. split; [unfold T; lia|done]. }
      by rewrite Hl. }
    assert (Hdom : forall f z, file_size w !! f = Some z ->
               exists i, i <= last_file_number w ∧ f = get_filename i t).
    { intros f z Hf. apply (cons_sizes w Hc). eauto. }
    assert (Hndr : NoDup (rename <$> (fst <$> map_to_list (file_size w)))).
    { apply NoDup_fmap_2_strong; [|apply NoDup_fst_map_to_list].
      intros f g Hf Hg Heq.
      apply list_elem_of_fmap in Hf as ([f' zf] & -> & Hf).
      apply list_elem_of_fmap in Hg as ([g' zg] & -> & Hg).
      apply elem_of_map_to_list in Hf, Hg. cbn [fst] in *.
      destruct (Hdom _ _ Hf) as (i & Hi & ->).
      destruct (Hdom _ _ Hg) as (j & Hj & ->).
      rewrite !Hrename in Heq by done.
      apply get_filename_inj in Heq as [-> _]. done. }
    assert (Hsizes' : forall g,
               is_Some ((list_to_map ((fun p => (rename p.1, p.2))
                                        <$> map_to_list (file_size w))
                         : gmap string Z) !! g)
               <-> exists i, i <= last_file_number w
                             ∧ g = get_filename i T).
    { intros g. split.
      - intros [z Hz]. apply lookup_renamed in Hz as (f & -> & Hf); [|done].
        destruct (Hdom _ _ Hf) as (i & Hi & ->).
        exists i. split; [done|]. by apply Hrename.
      - intros (i & Hi & ->).
        assert (Hs : is_Some (file_size w !! get_filename i t))
          by (apply (cons_sizes w Hc); eauto).
        destruct Hs as [z Hz]. exists z.
        apply lookup_renamed; [done|].
        exists (get_filename i t). split; [|done].
        symmetry. by apply Hrename. }
    assert (Hkeys' : forall k f',
               (rename <$> weight_map w) !! k = Some f' ->
               exists i d, i <= last_file_number w
                 ∧ f' = get_filename i T
                 ∧ weight_map w !! k = Some (get_filename i t)
                 ∧ files !! f' = Some (ShardFile d) ∧ is_Some (d !! k)).
    { intros k f' Hk. apply lookup_fmap_Some in Hk as (f & <- & Hk).
      destruct (cons_keys w Hc k f Hk) as ([z Hz] & _ & _).
      destruct (Hdom _ _ Hz) as (i & Hi & ->).
      destruct (Hdisk k _ Hc Hk) as (d & Hd' & Hin).
      exists i, d. rewrite Hrename by done.
      split; [done|]. split; [done|]. split; [done|]. split; [|done].
      destruct (Hmove (get_filename i t) (get_filename i T))
        as (c & Hc1 & Hc2).
      { apply elem_of_renames. exists i. split; [unfold T; lia|done]. }
      fold w0 in Hd'. rewrite Hd' in Hc1. by injection Hc1 as <-. }
    split; [|split; [done|split; [done|split; [done|split; [|split;
      [|split]]]]]].
    + split; wsimpl.
      * apply Hc.
      * exact Hsizes'.
      * intros k f' Hk.
        destruct (Hkeys' k f' Hk) as (i & d & Hi & -> & Hk0 & Hf & Hin).
        split; [apply Hsizes'; eauto|]. split.
        -- intros Hact. exfalso.
           destruct (cons_active w Hc) as [Hs|[_ Hx]]; [|done].
           apply (cons_sizes w Hc) in Hs as (j & _ & Hj).
           rewrite Hj in Hact. apply get_filename_inj in Hact. lia.
        -- intros _. exists d. split; [|done].
           rewrite lookup_insert_ne; [done|].
           intros Heq. symmetry in Heq.
           by apply get_filename_not_index in Heq.
      * right. done.
    + apply lookup_insert_eq.
    + by apply (sum_sizes_renamed rename).
    + intros k. rewrite lookup_fmap. by rewrite fmap_is_Some.
    + intros k f' Hk.
      destruct (Hkeys' k f' Hk) as (i & d & Hi & -> & Hk0 & Hf & Hin).
      exists d. split; [|done].
      rewrite lookup_insert_ne; [done|].
      intros Heq. symmetry in Heq. by apply get_filename_not_index in Heq.
  - (* nothing to rename *)
    cbn [and_then] in Hsave. injection Hsave as <-. wsimpl.
    assert (Ht : total_shards_finalized w = last_file_number w + 1)
      by (destruct (decide (total_shards_finalized w
                            = last_file_number w + 1)); done).
    pose proof (consistent_write_index w0
                  (IndexFile (sum_sizes (file_size w)) (weight_map w)) Hcf)
      as Hci.
    rewrite Hwm, Hcur, Hlast, Htsf, Han, Had, Hfs, Hmax, Hwarn, Hd in Hci.
    rewrite ?Hwm, ?Hcur, ?Hlast, ?Htsf, ?Han, ?Had, ?Hfs, ?Hmax, ?Hwarn,
      ?Hd.
    split; [exact Hci|]. wsimpl.
    split; [done|]. split; [done|]. split; [done|].
    split; [apply lookup_insert_eq|]. split; [done|]. split; [done|].
    intros k f Hk.
    destruct (Hdisk k f Hc Hk) as (d & Hd' & Hin).
    exists d. split; [|done].
    rewrite lookup_insert_ne; [done|].
    destruct (cons_keys w Hc k f Hk) as (Hsz & _ & _).
    apply (cons_sizes w Hc) in Hsz as (i & _ & ->).
    intros Heq. symmetry in Heq. by apply get_filename_not_index in Heq.
Qed.

Lemma run_consistent (ops : list op) (w w' : writer) :
  consistent w -> run ops w = Done w' -> consistent w'.
Proof.
  revert w. induction ops as [|o ops IH]; intros w Hc Hrun.
  - simpl in Hrun. by injection Hrun as <-.
  - cbn [run] in Hrun.
    destruct (run_op o w) as [w1|] eqn:Ho; cbn [and_then] in Hrun; [|done].
    apply (IH w1); [|done].
    destruct o as [k v|k|]; cbn [run_op] in Ho.
    + by eapply setitem_consistent.
    + destruct (__getitem__ k w) as [[w2 v]|] eqn:Hg;
        cbn [and_then] in Ho; [|done].
      injection Ho as <-. by eapply getitem_consistent.
    + by apply (save_spec w w1).
Qed.

Lemma run_app (ops ops' : list op) (w : writer) :
  run (ops ++ ops') w = and_then (run ops w) (run ops').
Proof.
  revert w. induction ops as [|o ops IH]; intros w; [done|].
  cbn [app run]. destruct (run_op o w) as [w1|]; cbn [and_then]; [|done].
  apply IH.
Qed.

Lemma save_fixed (w : writer) :
  total_shards_finalized w = last_file_number w + 1 ->
  dirty w = false ->
  fs w !! index_file
  = Some (IndexFile (sum_sizes (file_size w)) (weight_map w)) ->
  save w = Done w.
Proof.
  intros Ht Hd Hidx. unfold save, _flush. rewrite Hd.
  rewrite decide_False by (intros Hne; by apply Hne).
  cbn [and_then]. rewrite insert_id by done. by destruct w.
Qed.

(** The tensors of a shard, when one more key is stored. *)
Lemma shard_tensors_snoc (kvs : list (string * HFTensor))
    (wm : gmap string string) (k g f : string) (v : HFTensor) :
  k ∉ (fst <$> kvs) ->
  shard_tensors (kvs ++ [(k, v)]) (<[k := g]> wm) f
  = shard_tensors kvs wm f ++ (if decide (g = f) then [(k, v)] else []).
Proof.
  intros Hk. unfold shard_tensors. rewrite filter_app. f_equal.
  - induction kvs as [|[k' v'] kvs IH]; [done|].
    rewrite fmap_cons in Hk. apply not_elem_of_cons in Hk as [Hne Hk].
    cbn [fst] in Hne.
    destruct (decide (wm !! k' = Some f)) as [Hf|Hf].
    + rewrite !filter_cons_True; cbn [fst];
        rewrite ?lookup_insert_ne by done; try done.
      by rewrite IH.
    + rewrite !filter_cons_False; cbn [fst];
        rewrite ?lookup_insert_ne by done; try done.
      by apply IH.
  - case_decide as Hg.
    + rewrite filter_cons_True; [done|].
      cbn [fst]. rewrite lookup_insert_eq. by rewrite Hg.
    + rewrite filter_cons_False; [done|].
      cbn [fst]. rewrite lookup_insert_eq. intros [= ?]. done.
Qed.

Lemma shard_bytes_snoc (kvs : list (string * HFTensor))
    (wm : gmap string string) (k g f : string) (v : HFTensor) :
  k ∉ (fst <$> kvs) ->
  shard_bytes (kvs ++ [(k, v)]) (<[k := g]> wm) f
  = (shard_bytes kvs wm f
     + (if decide (g = f) then weight_size v else 0))%Z.
Proof.
  intros Hk. unfold shard_bytes. rewrite shard_tensors_snoc by done.
  rewrite fmap_app.
  induction ((fun kv => weight_size kv.2) <$> shard_tensors kvs wm f)
    as [|z l IH].
  - case_decide; cbn; lia.
  - cbn [app foldr]. rewrite IH. cbn [foldr]. lia.
Qed.

Lemma shard_tensors_unmapped (kvs : list (string * HFTensor))
    (wm : gmap string string) (f : string) :
  (forall k, wm !! k ≠ Some f) -> shard_tensors kvs wm f = [].
Proof.
  intros Hf. unfold shard_tensors.
  induction kvs as [|[k v] kvs IH]; [done|].
  rewrite filter_cons_False; [done|]. apply Hf.
Qed.

(** Insertions of new keys only: the state they lead to. *)
Lemma insert_run_spec (max : Z) (kvs : list (string * HFTensor)) :
  (0 <= max)%Z -> NoDup (fst <$> kvs) ->
  exists w,
    run ((fun kv => SetItem kv.1 kv.2) <$> kvs) (fresh_writer max) = Done w
    ∧ consistent w
    ∧ total_shards_finalized w = 0
    ∧ max_shard_size w = max
    ∧ (forall k, is_Some (weight_map w !! k) <-> k ∈ (fst <$> kvs))
    ∧ (forall f sz, file_size w !! f = Some sz ->
         sz = shard_bytes kvs (weight_map w) f
         ∧ ((sz <= max)%Z
            ∨ exists kv, shard_tensors kvs (weight_map w) f = [kv]
                         ∧ (weight_size kv.2 > max)%Z)).
Proof.
  intros Hmax.
  induction kvs as [|[k v] kvs IH] using rev_ind; intros Hnd.
  - exists (fresh_writer max). split; [done|].
    split; [apply consistent_fresh|]. split; [done|]. split; [done|].
    split.
    + intros k. unfold fresh_writer; wsimpl. rewrite lookup_empty.
      split; [intros [? ?]; done|intros Hin; by apply elem_of_nil in Hin].
    + intros f sz. unfold fresh_writer; wsimpl.
      intros Hf. apply lookup_singleton_Some in Hf as [<- <-].
      split; [done|]. by left.
  - rewrite fmap_app in Hnd. apply NoDup_app in Hnd as (Hnd & Hdisj & _).
    assert (Hk : k ∉ (fst <$> kvs)).
    { intros Hin. apply (Hdisj k Hin). by left. }
    destruct (IH Hnd) as (w & Hrun & Hc & Ht & Hm & Hdom & Hsz).
    assert (Hnone : weight_map w !! k = None).
    { apply eq_None_not_Some. by rewrite Hdom. }
    destruct (cons_active w Hc) as [[sz0 Hsz0]|[_ Hx]]; [|lia].
    rewrite fmap_app, run_app, Hrun. cbn [and_then fmap list_fmap run run_op fst snd].
    unfold __setitem__. rewrite Hnone.
    rewrite decide_False by (intros Hne; apply Hne; apply Hc).
    cbn [and_then]. rewrite Hsz0.
    destruct (decide (sz0 + weight_size v > max_shard_size w)%Z)
      as [Htip|Htip].
    + (* a new shard is opened *)
      pose proof (consistent_open_next_shard w Hc) as Hco.
      pose proof (next_shard_fresh w Hc) as Hfresh.
      set (fn := get_filename (last_file_number w + 1)
                   (total_shards_finalized w)) in *.
      assert (Hfn : file_size (open_next_shard w)
                      !! active_file_name (open_next_shard w) = Some 0%Z).
      { unfold open_next_shard. wsimpl. apply lookup_insert_eq. }
      rewrite Hfn. cbn [and_then].
      eexists. split; [reflexivity|].
      split; [apply consistent_store; [done|rewrite Hfn; eauto]|].
      assert (Hfields : weight_map (open_next_shard w) = weight_map w
                ∧ total_shards_finalized (open_next_shard w)
                  = total_shards_finalized w
                ∧ max_shard_size (open_next_shard w) = max_shard_size w
                ∧ active_file_name (open_next_shard w) = fn
                ∧ file_size (open_next_shard w)
                  = <[fn := 0%Z]> (file_size w)).
      { unfold open_next_shard.
        destruct (flush_fields w)
          as (-> & _ & -> & -> & _ & _ & -> & -> & _). wsimpl. done. }
      destruct Hfields as (Hwm1 & Ht1 & Hm1 & Han1 & Hfs1).
      unfold store. wsimpl. rewrite Hwm1, Ht1, Hm1, Han1, Hfs1.
      split; [done|]. split; [done|]. split.
      * intros k'. rewrite lookup_insert_is_Some', Hdom.
        rewrite fmap_app, elem_of_app. cbn [fmap list_fmap fst].
        rewrite list_elem_of_singleton.
        split; intros [?|?]; auto.
      * intros f sz. rewrite insert_insert_eq.
        rewrite shard_bytes_snoc, shard_tensors_snoc by done.
        destruct (decide (fn = f)) as [<-|Hne].
        -- rewrite lookup_insert_eq. intros [= <-].
           assert (Hno : forall k', weight_map w !! k' ≠ Some fn).
           { intros k' Hk'.
             destruct (cons_keys w Hc k' fn Hk') as ([? Hs] & _).
             fold fn in Hfresh. congruence. }
           assert (He : shard_tensors kvs (weight_map w) fn = [])
             by (by apply shard_tensors_unmapped).
           unfold shard_bytes. rewrite He. cbn [fmap list_fmap foldr app].
           split; [lia|].
           destruct (decide (weight_size v <= max)%Z); [left; lia|].
           right. exists (k, v). split; [done|]. cbn [snd]. lia.
        -- rewrite lookup_insert_ne by done. intros Hf.
           destruct (Hsz f sz Hf) as (Hb & Hbound).
           rewrite app_nil_r. split; [lia|done].
    + (* the tensor fits into the active shard *)
      rewrite Hsz0. cbn [and_then].
      eexists. split; [reflexivity|].
      split; [apply consistent_store; [done|rewrite Hsz0; eauto]|].
      unfold store. wsimpl.
      split; [done|]. split; [done|]. split.
      * intros k'. rewrite lookup_insert_is_Some', Hdom.
        rewrite fmap_app, elem_of_app. cbn [fmap list_fmap fst].
        rewrite list_elem_of_singleton.
        split; intros [?|?]; auto.
      * intros f sz.
        rewrite shard_bytes_snoc, shard_tensors_snoc by done.
        destruct (decide (active_file_name w = f)) as [<-|Hne].
        -- rewrite lookup_insert_eq. intros [= <-].
           destruct (Hsz _ _ Hsz0) as (Hb & _).
           split; [lia|]. left. lia.
        -- rewrite lookup_insert_ne by done. intros Hf.
           destruct (Hsz f sz Hf) as (Hb & Hbound).
           rewrite app_nil_r. split; [lia|done].
Qed.

Lemma setitem_new_step (w : writer) (k : string) (v : HFTensor) (sz : Z) :
  weight_map w !! k = None ->
  current_file_number w = last_file_number w ->
  file_size w !! active_file_name w = Some sz ->
  __setitem__ k v w
  = Done (if decide (sz + weight_size v > max_shard_size w)%Z
          then store k v (0 + weight_size v) (open_next_shard w) false
          else store k v (sz + weight_size v) w false).
Proof.
  intros Hk Hcur Hsz. unfold __setitem__. rewrite Hk.
  rewrite decide_False by (intros Hne; by apply Hne).
  cbn [and_then]. rewrite Hsz.
  destruct (decide (sz + weight_size v > max_shard_size w)%Z).
  - assert (Hfn : file_size (open_next_shard w)
                    !! active_file_name (open_next_shard w) = Some 0%Z).
    { unfold open_next_shard. wsimpl. apply lookup_insert_eq. }
    by rewrite Hfn.
  - by rewrite Hsz.
Qed.

End writer_invariant.

(** * Claims on the sharded writer *)

(** C3: after any run of insertions under pairwise distinct keys into a
    fresh writer with limit [max >= 0], the tracked size of every shard is
    the sum of the sizes of the tensors stored in it, and it is at most
    [max] unless the shard holds a single tensor that alone exceeds [max];
    with a limit of 100 bytes, a tensor of 60 bytes and then one of 50 bytes
    end up in two shards. *)
Theorem shard_size_invariant (max : Z)
    (kvs : list (string * Streaming.HFTensor)) :
  (0 <= max)%Z -> NoDup (fst <$> kvs) ->
  exists w,
    Streaming.run ((fun kv => Streaming.SetItem kv.1 kv.2) <$> kvs)
      (Streaming.fresh_writer max) = Done w
    ∧ (forall f sz, Streaming.file_size w !! f = Some sz ->
         sz = Streaming.shard_bytes kvs (Streaming.weight_map w) f
         ∧ ((sz <= max)%Z
            ∨ exists kv,
                Streaming.shard_tensors kvs (Streaming.weight_map w) f = [kv]
                ∧ (Streaming.weight_size kv.2 > max)%Z))
    ∧ (max = 100%Z ->
       (fun kv => Streaming.weight_size kv.2) <$> kvs = [60; 50]%Z ->
       Streaming.file_size w
       = {[Streaming.get_filename 0 0 := 60%Z;
           Streaming.get_filename 1 0 := 50%Z]}).
Proof.
  intros Hmax Hnd.
  destruct (insert_run_spec max kvs Hmax Hnd)
    as (w & Hrun & Hc & Ht & Hm & Hdom & Hsz).
  exists w. split; [done|]. split; [done|].
  intros -> Hsizes.
  destruct kvs as [|[ka a] [|[kb b] [|? ?]]]; try discriminate.
  rewrite !fmap_cons in Hsizes. cbn [snd] in Hsizes.
  injection Hsizes as Ha Hb.
  assert (Hab : ka ≠ kb).
  { rewrite !fmap_cons in Hnd. cbn [fst] in Hnd.
    apply NoDup_cons in Hnd as [Hnin _].
    intros ->. apply Hnin. by left. }
  assert (Hne : Streaming.get_filename 0 0 ≠ Streaming.get_filename 1 0).
  { intros Heq. apply get_filename_inj in Heq. lia. }
  revert Hrun. clear Hc Ht Hm Hdom Hsz.
  cbn [fmap list_fmap Streaming.run Streaming.run_op fst snd].
  rewrite (setitem_new_step _ ka a 0);
    [|done|done|apply lookup_singleton_eq].
  rewrite Ha. unfold Streaming.fresh_writer at 1. wsimpl.
  destruct (decide (0 + 60 > 100)%Z) as [?|_]; [lia|].
  cbn [Streaming.and_then].
  rewrite (setitem_new_step _ kb b (0 + 60));
    [|unfold Streaming.store; wsimpl; by rewrite lookup_insert_ne
     |done
     |unfold Streaming.store; wsimpl; apply lookup_insert_eq].
  rewrite Hb. unfold Streaming.store at 1. wsimpl.
  destruct (decide (0 + 60 + 50 > 100)%Z) as [_|?]; [|lia].
  cbn [Streaming.and_then].
  intros [= <-].
  unfold Streaming.store, Streaming.open_next_shard, Streaming._flush,
    Streaming.fresh_writer. wsimpl.
  change (0 + 1) with 1.
  apply map_eq. intros f.
  destruct (decide (Streaming.get_filename 1 0 = f)) as [<-|Hf1].
  - rewrite lookup_insert_eq, lookup_insert_ne by done.
    by rewrite lookup_singleton_eq.
  - rewrite !(lookup_insert_ne _ (Streaming.get_filename 1 0)) by done.
    destruct (decide (Streaming.get_filename 0 0 = f)) as [<-|Hf0].
    + by rewrite !lookup_insert_eq.
    + rewrite !lookup_insert_ne by done.
      by rewrite !lookup_singleton_ne by done.
Qed.

Lemma shard_size_invariant_witness :
  let t60 := Streaming.Build_HFTensor Streaming.torch_uint8
               (Torch.mkTensor [60] (replicate 60 0%Z)) in
  let t50 := Streaming.Build_HFTensor Streaming.torch_uint8
               (Torch.mkTensor [50] (replicate 50 0%Z)) in
  let kvs := [("a", t60); ("b", t50)] in
  (0 <= 100)%Z ∧ NoDup (fst <$> kvs)
  ∧ exists w,
      Streaming.run ((fun kv => Streaming.SetItem kv.1 kv.2) <$> kvs)
        (Streaming.fresh_writer 100) = Done w
      ∧ Streaming.file_size w
        = {[Streaming.get_filename 0 0 := 60%Z;
            Streaming.get_filename 1 0 := 50%Z]}.
Proof.
  intros t60 t50 kvs.
  assert (Hnd : NoDup (fst <$> kvs)).
  { apply (bool_decide_unpack _). vm_compute. exact I. }
  split; [lia|]. split; [exact Hnd|].
  destruct (shard_size_invariant 100 kvs ltac:(lia) Hnd)
    as (w & Hrun & _ & Htwo).
  exists w. split; [exact Hrun|].
  apply Htwo; [reflexivity|]. vm_compute. reflexivity.
Defined.

(** C4: when [save] returns on a writer reached by calls that all returned,
    the manifest it has written lists the keys of the writer, each with a
    shard file that exists in the directory under its final name
    pytorch_model-<i+1>-of-<total>.bin (five digits each, [i < total]) and
    holds the key; the manifest's total size is the sum of the tracked shard
    sizes, before and after the renumbering; and a second [save] changes
    nothing. *)
Theorem manifest_consistency (max : Z) (ops : list Streaming.op)
    (w w' : Streaming.writer) :
  Streaming.run ops (Streaming.fresh_writer max) = Done w ->
  Streaming.save w = Done w' ->
  (exists total_size manifest_map,
     Streaming.fs w' !! Streaming.index_file
     = Some (Streaming.IndexFile total_size manifest_map)
     ∧ manifest_map = Streaming.weight_map w'
     ∧ (forall k, is_Some (manifest_map !! k)
                  <-> is_Some (Streaming.weight_map w !! k))
     ∧ total_size = Streaming.sum_sizes (Streaming.file_size w)
     ∧ total_size = Streaming.sum_sizes (Streaming.file_size w')
     ∧ forall k f, manifest_map !! k = Some f ->
         (exists d, Streaming.fs w' !! f = Some (Streaming.ShardFile d)
                    ∧ is_Some (d !! k))
         ∧ exists i, i < Streaming.last_file_number w + 1
                     ∧ f = Streaming.get_filename i
                             (Streaming.last_file_number w + 1))
  ∧ Streaming.save w' = Done w'.
Proof.
  intros Hrun Hsave.
  pose proof (run_consistent ops _ w (consistent_fresh max) Hrun) as Hc.
  destruct (save_spec w w' Hc Hsave)
    as (Hc' & Hlast & Ht & Hd & Hidx & Hsum & Hkeys & Hdisk).
  split.
  - exists (Streaming.sum_sizes (Streaming.file_size w)),
      (Streaming.weight_map w').
    split; [done|]. split; [done|]. split; [done|]. split; [done|].
    split; [done|]. intros k f Hk. split; [by apply Hdisk|].
    destruct (Streaming.cons_keys w' Hc' k f Hk) as (Hsz & _ & _).
    apply (Streaming.cons_sizes w' Hc') in Hsz as (i & Hi & ->).
    exists i. rewrite Ht. split; [lia|done].
  - apply save_fixed; [lia|done|]. by rewrite Hsum.
Qed.

Lemma manifest_consistency_witness :
  let t60 := Streaming.Build_HFTensor Streaming.torch_uint8
               (Torch.mkTensor [60] (replicate 60 0%Z)) in
  let t50 := Streaming.Build_HFTensor Streaming.torch_uint8
               (Torch.mkTensor [50] (replicate 50 0%Z)) in
  let ops := [Streaming.SetItem "a" t60; Streaming.SetItem "b" t50] in
  exists w w',
    Streaming.run ops (Streaming.fresh_writer 100) = Done w
    ∧ Streaming.save w = Done w'
    ∧ Streaming.weight_map w'
      = {["a" := "pytorch_model-00001-of-00002.bin";
          "b" := "pytorch_model-00002-of-00002.bin"]}
    ∧ Streaming.fs w' !! Streaming.index_file
      = Some (Streaming.IndexFile 110 (Streaming.weight_map w'))
    ∧ Streaming.save w' = Done w'.
Proof.
  intros t60 t50 ops.
  destruct (Streaming.run ops (Streaming.fresh_writer 100)) as [w|e r] eqn:Hrun;
    [|vm_compute in Hrun; discriminate Hrun].
  destruct (Streaming.save w) as [w'|e r] eqn:Hsave.
  2:{ exfalso. vm_compute in Hrun. injection Hrun as <-.
      vm_compute in Hsave. discriminate Hsave. }
  exists w, w'. split; [reflexivity|]. split; [exact Hsave|].
  destruct (manifest_consistency 100 ops w w' Hrun Hsave) as [_ Hfix].
  split; [|split; [|exact Hfix]].
  - vm_compute in Hrun. injection Hrun as <-.
    vm_compute in Hsave. injection Hsave as <-. vm_compute. reflexivity.
  - vm_compute in Hrun. injection Hrun as <-.
    vm_compute in Hsave. injection Hsave as <-. vm_compute. reflexivity.
Defined.

(** C8: on a writer reached by calls that all returned, setting a key that
    exists never raises: the shard that holds the key becomes the active
    one, the new value is stored in it, the tracked size of the shard
    changes by the difference of the two tensor sizes, and a warning is
    logged exactly when the new tracked size exceeds the limit. *)
Theorem update_overrun_not_fatal (max : Z) (ops : list Streaming.op)
    (w : Streaming.writer) (k f : string) (v : Streaming.HFTensor) :
  Streaming.run ops (Streaming.fresh_writer max) = Done w ->
  Streaming.weight_map w !! k = Some f ->
  exists w1 old sz w',
    Streaming.__getitem__ k w = Done (w1, old)
    ∧ Streaming.file_size w !! f = Some sz
    ∧ Streaming.__setitem__ k v w = Done w'
    ∧ Streaming.active_file_name w' = f
    ∧ Streaming.active_file_data w' !! k = Some v
    ∧ Streaming.weight_map w' !! k = Some f
    ∧ Streaming.dirty w' = true
    ∧ let size := (sz + (Streaming.weight_size v
                          - Streaming.weight_size old))%Z in
      Streaming.file_size w' !! f = Some size
      ∧ ((size > Streaming.max_shard_size w)%Z ->
         Streaming.warnings w'
         = Streaming.warnings w ++ [Streaming.overrun_warning])
      ∧ ((size <= Streaming.max_shard_size w)%Z ->
         Streaming.warnings w' = Streaming.warnings w).
Proof.
  intros Hrun Hk.
  pose proof (run_consistent ops _ w (consistent_fresh max) Hrun) as Hc.
  destruct (setitem_update_spec w k f v Hc Hk)
    as (w1 & old & sz & Hget & Hsz & Hset & Hc1 & Han & Hfs & Hwarn).
  exists w1, old, sz. eexists. split; [exact Hget|]. split; [exact Hsz|].
  split; [exact Hset|]. unfold Streaming.store. wsimpl.
  split; [done|]. split; [apply lookup_insert_eq|].
  split; [rewrite Han; apply lookup_insert_eq|]. split; [done|].
  cbn zeta. split; [rewrite Han; apply lookup_insert_eq|].
  rewrite Hwarn. split.
  - intros Hgt. by rewrite bool_decide_eq_true_2.
  - intros Hle. rewrite bool_decide_eq_false_2 by lia. done.
Qed.

Lemma update_overrun_not_fatal_witness :
  let t60 := Streaming.Build_HFTensor Streaming.torch_uint8
               (Torch.mkTensor [60] (replicate 60 0%Z)) in
  let t200 := Streaming.Build_HFTensor Streaming.torch_uint8
                (Torch.mkTensor [200] (replicate 200 0%Z)) in
  let ops := [Streaming.SetItem "a" t60] in
  exists w w',
    Streaming.run ops (Streaming.fresh_writer 100) = Done w
    ∧ Streaming.weight_map w !! "a" = Some (Streaming.get_filename 0 0)
    ∧ Streaming.__setitem__ "a" t200 w = Done w'
    ∧ Streaming.active_file_data w' !! "a" = Some t200.
Proof.
  intros t60 t200 ops.
  destruct (Streaming.run ops (Streaming.fresh_writer 100)) as [w|e r] eqn:Hrun;
    [|vm_compute in Hrun; discriminate Hrun].
  assert (Hk : Streaming.weight_map w !! "a"
               = Some (Streaming.get_filename 0 0)).
  { vm_compute in Hrun. injection Hrun as <-. vm_compute. reflexivity. }
  destruct (update_overrun_not_fatal 100 ops w "a"
              (Streaming.get_filename 0 0) t200 Hrun Hk)
    as (w1 & old & sz & w' & _ & _ & Hset & _ & Hdata & _).
  exists w, w'. split; [reflexivity|]. split; [exact Hk|].
  split; [exact Hset|exact Hdata].
Defined.

(** * Falcon: splitting and merging the fused query/key/value tensor *)

Section torch_slices.
Context {A : Type} `{Inhabited A}.
Import Torch.

Lemma take_drop_take (k l n : nat) (c : list A) :
  l + k <= n -> take k (drop l (take n (drop 0 c))) = take k (drop l c).
Proof.
  intros Hle. rewrite drop_0.
  replace n with (l + (n - l)) by lia.
  rewrite <- take_drop_commute, take_take.
  by rewrite Nat.min_l by lia.
Qed.

(** A slice of a leading slice is a slice of the tensor. *)
Lemma narrow_prefix (t t' : Tensor A) (ax b lo hi dim : nat) :
  well_formed t -> shape t !! ax = Some dim ->
  b <= dim -> lo <= hi -> hi <= b ->
  narrow t ax 0 b = Ok t' ->
  narrow t' ax lo hi = narrow t ax lo hi.
Proof.
  unfold well_formed. intros Hwf Hax Hb Hlo Hhi Hn.
  rewrite (narrow_eq _ _ _ _ _ Hax (Nat.le_0_l b) Hb) in Hn.
  rewrite Nat.sub_0_r in Hn. injection Hn as <-.
  pose proof (lookup_lt_Some _ _ _ Hax) as Hlt.
  rewrite (narrow_eq _ ax lo hi b)
    by (cbn [shape]; first [by apply list_lookup_insert_eq|lia]).
  rewrite (narrow_eq t ax lo hi dim) by (done || lia).
  cbn [shape data]. rewrite take_insert_ge, drop_insert_lt by lia.
  rewrite list_insert_insert_eq.
  rewrite (prod_dims_split _ _ _ Hax) in Hwf.
  set (inner := prod_dims (drop (S ax) (shape t))) in *.
  set (outer := prod_dims (take ax (shape t))) in *.
  assert (Hc : Forall (fun c => length c = dim * inner)
                 (chunks (dim * inner) outer (data t)))
    by (by apply Forall_length_chunks).
  do 3 f_equal.
  replace outer with
    (length ((fun blk => take (b * inner) (drop (0 * inner) blk))
               <$> chunks (dim * inner) outer (data t))) at 1
    by (by rewrite length_fmap, length_chunks).
  rewrite (chunks_concat (b * inner)).
  2:{ eapply Forall_length_take_drop; [exact Hc|]. nia. }
  rewrite <- list_fmap_compose. apply list_fmap_ext.
  intros i c _. unfold compose. apply take_drop_take. nia.
Qed.

(** Three adjacent slices that cover a dimension concatenate to the
    tensor. *)
Lemma cat3_narrow (t a b c : Tensor A) (ax r1 r2 dim : nat) :
  well_formed t -> shape t !! ax = Some dim -> r1 <= r2 -> r2 <= dim ->
  narrow t ax 0 r1 = Ok a -> narrow t ax r1 r2 = Ok b ->
  narrow t ax r2 dim = Ok c ->
  cat3 a b c ax = Ok t.
Proof.
  intros Hwf Hax H12 H2 Ha Hb Hc.
  destruct (narrow_spec t ax 0 r2 dim Hwf Hax) as (ab & Hab & Hsab & Hwab);
    [lia|lia|].
  unfold cat3.
  assert (Hcat : cat a b ax = Ok ab).
  { pose proof (lookup_lt_Some _ _ _ Hax) as Hlt.
    apply (cat_narrow ab a b ax r1 r2); [done| |done| |].
    - rewrite Hsab, Nat.sub_0_r. by apply list_lookup_insert_eq.
    - by rewrite (narrow_prefix t ab ax r2 0 r1 dim) by (done || lia).
    - by rewrite (narrow_prefix t ab ax r2 r1 r2 dim) by (done || lia). }
  rewrite Hcat. cbn [mbind result_bind].
  by apply (cat_narrow t ab c ax r2 dim).
Qed.

(** The three slices of a concatenation of three tensors. *)
Lemma narrow_cat3 (a b c t : Tensor A) (ax da db dc : nat) :
  well_formed a -> well_formed b -> well_formed c ->
  shape a !! ax = Some da -> shape b !! ax = Some db ->
  shape c !! ax = Some dc ->
  cat3 a b c ax = Ok t ->
  narrow t ax 0 da = Ok a
  ∧ narrow t ax da (da + db) = Ok b
  ∧ narrow t ax (da + db) (da + db + dc) = Ok c
  ∧ well_formed t
  ∧ shape t = <[ax := da + db + dc]> (shape a).
Proof.
  intros Hwa Hwb Hwc Hda Hdb Hdc Hcat. unfold cat3 in Hcat.
  destruct (cat a b ax) as [ab|] eqn:Hab; [|done].
  cbn [mbind result_bind] in Hcat.
  pose proof (cat_well_formed a b ab ax Hwa Hwb Hab) as Hwab.
  pose proof (cat_well_formed ab c t ax Hwab Hwc Hcat) as Hwt.
  pose proof (lookup_lt_Some _ _ _ Hda) as Hlt.
  assert (Hsab : shape ab = <[ax := da + db]> (shape a)).
  { unfold cat in Hab. rewrite Hda, Hdb in Hab.
    case_decide; [|done]. by injection Hab as <-. }
  assert (Hdab : shape ab !! ax = Some (da + db)).
  { rewrite Hsab. by apply list_lookup_insert_eq. }
  assert (Hst : shape t = <[ax := da + db + dc]> (shape a)).
  { unfold cat in Hcat. rewrite Hdab, Hdc in Hcat.
    case_decide; [|done]. injection Hcat as <-. cbn [shape].
    by rewrite Hsab, list_insert_insert_eq. }
  assert (Hdt : shape t !! ax = Some (da + db + dc)).
  { rewrite Hst. by apply list_lookup_insert_eq. }
  pose proof (narrow_cat_l ab c t ax (da + db) Hwab Hwc Hdab Hcat) as Hl.
  split; [|split; [|split; [|done]]].
  - rewrite <- (narrow_prefix t ab ax (da + db) 0 da (da + db + dc))
      by (done || lia).
    by apply (narrow_cat_l a b ab ax da).
  - rewrite <- (narrow_prefix t ab ax (da + db) da (da + db)
                  (da + db + dc)) by (done || lia).
    by apply (narrow_cat_r a b ab ax da db).
  - by apply (narrow_cat_r ab c t ax (da + db) dc).
Qed.

Lemma cat3_spec (a b c : Tensor A) (ax da db dc : nat) :
  well_formed a -> well_formed b -> well_formed c ->
  shape a !! ax = Some da -> shape b !! ax = Some db ->
  shape c !! ax = Some dc ->
  <[ax := 0]> (shape a) = <[ax := 0]> (shape b) ->
  <[ax := 0]> (shape a) = <[ax := 0]> (shape c) ->
  exists t, cat3 a b c ax = Ok t.
Proof.
  intros Hwa Hwb Hwc Hda Hdb Hdc Hab Hac.
  destruct (cat_spec a b ax da db Hwa Hwb Hda Hdb Hab)
    as (ab & Hcat & Hsab & Hwab).
  pose proof (lookup_lt_Some _ _ _ Hda) as Hlt.
  destruct (cat_spec ab c ax (da + db) dc Hwab Hwc) as (t & Ht & _).
  - rewrite Hsab. by apply list_lookup_insert_eq.
  - done.
  - by rewrite Hsab, list_insert_insert_eq.
  - exists t. unfold cat3. by rewrite Hcat.
Qed.

End torch_slices.

Section falcon_interleave.
Context {A : Type} `{Inhabited A}.
Import Torch Falcon.

Lemma falcon_interleave_reverse_weight (g k d h r m : nat)
    (dat : list A) :
  1 <= g -> 1 <= k -> 1 <= h -> r = 2 * m -> r <= d ->
  length dat = g * k * d * h ->
  exists c,
    interleave_helper r (mkTensor [g; k; d; h] dat)
      = Ok (mkTensor [g; k; d; h] c)
    ∧ length c = g * k * d * h
    ∧ reverse_interleave_helper r (mkTensor [g * k * d; h] c) k g
      = Ok (mkTensor [g; k; d; h] dat).
Proof.
  intros Hg Hk Hh Hm Hrd Hlen.
  set (T := mkTensor [g; k; d; h] dat).
  assert (HwT : well_formed T) by (unfold well_formed; simpl; lia).
  destruct (narrow_spec T 2 0 r d HwT eq_refl) as (a & Ha & Hsa & Hwa);
    [lia|lia|].
  destruct (narrow_spec T 2 r d d HwT eq_refl) as (b & Hb & Hsb & Hwb);
    [lia|lia|].
  simpl in Hsa, Hsb. rewrite Nat.sub_0_r in Hsa.
  assert (Hr1 : reshape a [Z.of_nat g; Z.of_nat k; 2; -1; Z.of_nat h]%Z
                = Ok (mkTensor [g; k; 2; m; h] (data a))).
  { apply (reshape_infer a [g; k; 2] [h] m); rewrite ?Hsa; simpl; nia. }
  set (r1 := mkTensor [g; k; 2; m; h] (data a)).
  assert (Hwr1 : well_formed r1).
  { unfold well_formed in *. rewrite Hsa in Hwa. simpl in *. lia. }
  destruct (permute_ok r1 [0; 1; 3; 2; 4]) as (d2 & Hp & Hd2);
    [solve_is_perm|].
  simpl in Hp, Hd2.
  set (r2 := mkTensor [g; k; m; 2; h] d2) in *.
  assert (Hr3 : reshape r2 [Z.of_nat g; Z.of_nat k; -1; Z.of_nat h]%Z
                = Ok (mkTensor [g; k; r; h] d2)).
  { apply (reshape_infer r2 [g; k] [h] r); simpl; nia. }
  set (a' := mkTensor [g; k; r; h] d2).
  assert (Hwa' : well_formed a')
    by (unfold well_formed; simpl; lia).
  destruct (cat_spec a' b 2 r (d - r) Hwa' Hwb)
    as (c & Hc & Hsc & Hwc); [done|by rewrite Hsb|by rewrite Hsb|].
  simpl in Hsc. replace (r + (d - r)) with d in Hsc by lia.
  exists (data c). split; [|split].
  - unfold interleave_helper. cbn [shape T].
    fold T. rewrite Ha, Hb. cbn [mbind result_bind].
    rewrite Hr1. cbn [mbind result_bind]. fold r1.
    rewrite Hp. cbn [mbind result_bind].
    rewrite Hr3. cbn [mbind result_bind]. fold a'.
    rewrite Hc. by rewrite (tensor_eta c _ Hsc).
  - unfold well_formed in Hwc. rewrite Hwc, Hsc. simpl. lia.
  - unfold reverse_interleave_helper. cbn [shape].
    assert (Hr0 : reshape (mkTensor [g * k * d; h] (data c))
                    [Z.of_nat g; Z.of_nat k; -1; Z.of_nat h]%Z
                  = Ok (mkTensor [g; k; d; h] (data c))).
    { apply (reshape_infer (mkTensor [g * k * d; h] (data c))
               [g; k] [h] d); simpl; nia. }
    rewrite Hr0. cbn [mbind result_bind shape].
    rewrite (tensor_eta c _ Hsc).
    rewrite (narrow_cat_l a' b c 2 r) by done.
    cbn [mbind result_bind].
    change ([g; k; d; h] !!! 2) with d.
    replace d with (r + (d - r)) at 1 by lia.
    rewrite (narrow_cat_r a' b c 2 r (d - r))
      by (done || by rewrite Hsb).
    cbn [mbind result_bind].
    assert (Hr1' : reshape a'
                     [Z.of_nat g; Z.of_nat k; -1; 2; Z.of_nat h]%Z
                   = Ok r2)
      by (apply (reshape_infer a' [g; k] [2; h] m); simpl; nia).
    rewrite Hr1'. cbn [mbind result_bind].
    rewrite (permute_01324_cancel r1 r2 g k 2 m h) by done.
    cbn [mbind result_bind].
    assert (Hr3' : reshape r1
                     [Z.of_nat g; Z.of_nat k; Z.of_nat r; Z.of_nat h]
                   = Ok (mkTensor [g; k; r; h] (data a)))
      by (apply (reshape_exact r1 [g; k; r; h]); simpl; nia).
    rewrite Hr3'. cbn [mbind result_bind].
    rewrite (tensor_eta a _ Hsa).
    apply (cat_narrow T a b 2 r d); try done.
Qed.

Lemma falcon_reverse_interleave_weight (g k d h r m : nat)
    (dat : list A) :
  1 <= g -> 1 <= k -> 1 <= h -> r = 2 * m -> r <= d ->
  length dat = g * k * d * h ->
  exists c,
    reverse_interleave_helper r (mkTensor [g * k * d; h] dat) k g
      = Ok (mkTensor [g; k; d; h] c)
    ∧ length c = g * k * d * h
    ∧ interleave_helper r (mkTensor [g; k; d; h] c)
      = Ok (mkTensor [g; k; d; h] dat).
Proof.
  intros Hg Hk Hh Hm Hrd Hlen.
  set (T := mkTensor [g; k; d; h] dat).
  assert (HwT : well_formed T) by (unfold well_formed; simpl; lia).
  destruct (narrow_spec T 2 0 r d HwT eq_refl) as (a & Ha & Hsa & Hwa);
    [lia|lia|].
  destruct (narrow_spec T 2 r d d HwT eq_refl) as (b & Hb & Hsb & Hwb);
    [lia|lia|].
  simpl in Hsa, Hsb. rewrite Nat.sub_0_r in Hsa.
  assert (Hr1 : reshape a [Z.of_nat g; Z.of_nat k; -1; 2; Z.of_nat h]%Z
                = Ok (mkTensor [g; k; m; 2; h] (data a))).
  { apply (reshape_infer a [g; k] [2; h] m); rewrite ?Hsa; simpl; nia. }
  set (r1 := mkTensor [g; k; m; 2; h] (data a)).
  assert (Hwr1 : well_formed r1).
  { unfold well_formed in *. rewrite Hsa in Hwa. simpl in *. lia. }
  destruct (permute_ok r1 [0; 1; 3; 2; 4]) as (d2 & Hp & Hd2);
    [solve_is_perm|].
  simpl in Hp, Hd2.
  set (r2 := mkTensor [g; k; 2; m; h] d2) in *.
  assert (Hr3 : reshape r2
                  [Z.of_nat g; Z.of_nat k; Z.of_nat r; Z.of_nat h]
                = Ok (mkTensor [g; k; r; h] d2)).
  { apply (reshape_exact r2 [g; k; r; h]); simpl; nia. }
  set (a' := mkTensor [g; k; r; h] d2).
  assert (Hwa' : well_formed a')
    by (unfold well_formed; simpl; lia).
  destruct (cat_spec a' b 2 r (d - r) Hwa' Hwb)
    as (c & Hc & Hsc & Hwc); [done|by rewrite Hsb|by rewrite Hsb|].
  simpl in Hsc. replace (r + (d - r)) with d in Hsc by lia.
  exists (data c). split; [|split].
  - unfold reverse_interleave_helper. cbn [shape].
    assert (Hr0 : reshape (mkTensor [g * k * d; h] dat)
                    [Z.of_nat g; Z.of_nat k; -1; Z.of_nat h]%Z
                  = Ok T).
    { apply (reshape_infer (mkTensor [g * k * d; h] dat)
               [g; k] [h] d); simpl; nia. }
    rewrite Hr0. cbn [mbind result_bind].
    change (shape T !!! 2) with d.
    rewrite Ha, Hb. cbn [mbind result_bind].
    rewrite Hr1. cbn [mbind result_bind]. fold r1.
    rewrite Hp. cbn [mbind result_bind].
    rewrite Hr3. cbn [mbind result_bind]. fold a'.
    rewrite Hc. by rewrite (tensor_eta c _ Hsc).
  - unfold well_formed in Hwc. rewrite Hwc, Hsc. simpl. lia.
  - unfold interleave_helper. cbn [shape].
    rewrite (tensor_eta c _ Hsc).
    rewrite (narrow_cat_l a' b c 2 r) by done.
    cbn [mbind result_bind].
    replace d with (r + (d - r)) at 1 by lia.
    rewrite (narrow_cat_r a' b c 2 r (d - r))
      by (done || by rewrite Hsb).
    cbn [mbind result_bind].
    assert (Hr1' : reshape a'
                     [Z.of_nat g; Z.of_nat k; 2; -1; Z.of_nat h]%Z
                   = Ok r2)
      by (apply (reshape_infer a' [g; k; 2] [h] m); simpl; nia).
    rewrite Hr1'. cbn [mbind result_bind].
    rewrite (permute_01324_cancel r1 r2 g k m 2 h) by done.
    cbn [mbind result_bind].
    assert (Hr3' : reshape r1
                     [Z.of_nat g; Z.of_nat k; -1; Z.of_nat h]%Z
                   = Ok (mkTensor [g; k; r; h] (data a)))
      by (apply (reshape_infer r1 [g; k] [h] r); simpl; nia).
    rewrite Hr3'. cbn [mbind result_bind].
    rewrite (tensor_eta a _ Hsa).
    apply (cat_narrow T a b 2 r d); try done.
Qed.

Lemma falcon_interleave_reverse_bias (g k d r m : nat) (dat : list A) :
  1 <= g -> 1 <= k -> r = 2 * m -> r <= d ->
  length dat = g * k * d ->
  exists c,
    interleave_helper r (mkTensor [g; k; d] dat)
      = Ok (mkTensor [g; k; d] c)
    ∧ length c = g * k * d
    ∧ reverse_interleave_helper r (mkTensor [g * k * d] c) k g
      = Ok (mkTensor [g; k; d] dat).
Proof.
  intros Hg Hk Hm Hrd Hlen.
  set (T := mkTensor [g; k; d] dat).
  assert (HwT : well_formed T) by (unfold well_formed; simpl; lia).
  destruct (narrow_spec T 2 0 r d HwT eq_refl) as (a & Ha & Hsa & Hwa);
    [lia|lia|].
  destruct (narrow_spec T 2 r d d HwT eq_refl) as (b & Hb & Hsb & Hwb);
    [lia|lia|].
  simpl in Hsa, Hsb. rewrite Nat.sub_0_r in Hsa.
  assert (Hr1 : reshape a [Z.of_nat g; Z.of_nat k; 2; -1]%Z
                = Ok (mkTensor [g; k; 2; m] (data a))).
  { apply (reshape_infer a [g; k; 2] [] m); rewrite ?Hsa; simpl; nia. }
  set (r1 := mkTensor [g; k; 2; m] (data a)).
  assert (Hwr1 : well_formed r1).
  { unfold well_formed in *. rewrite Hsa in Hwa. simpl in *. lia. }
  destruct (permute_ok r1 [0; 1; 3; 2]) as (d2 & Hp & Hd2);
    [solve_is_perm|].
  simpl in Hp, Hd2.
  set (r2 := mkTensor [g; k; m; 2] d2) in *.
  assert (Hr3 : reshape r2 [Z.of_nat g; Z.of_nat k; -1]%Z
                = Ok (mkTensor [g; k; r] d2)).
  { apply (reshape_infer r2 [g; k] [] r); simpl; nia. }
  set (a' := mkTensor [g; k; r] d2).
  assert (Hwa' : well_formed a')
    by (unfold well_formed; simpl; lia).
  destruct (cat_spec a' b 2 r (d - r) Hwa' Hwb)
    as (c & Hc & Hsc & Hwc); [done|by rewrite Hsb|by rewrite Hsb|].
  simpl in Hsc. replace (r + (d - r)) with d in Hsc by lia.
  exists (data c). split; [|split].
  - unfold interleave_helper. cbn [shape T].
    fold T. rewrite Ha, Hb. cbn [mbind result_bind].
    rewrite Hr1. cbn [mbind result_bind]. fold r1.
    rewrite Hp. cbn [mbind result_bind].
    rewrite Hr3. cbn [mbind result_bind]. fold a'.
    rewrite Hc. by rewrite (tensor_eta c _ Hsc).
  - unfold well_formed in Hwc. rewrite Hwc, Hsc. simpl. lia.
  - unfold reverse_interleave_helper. cbn [shape].
    assert (Hr0 : reshape (mkTensor [g * k * d] (data c))
                    [Z.of_nat g; Z.of_nat k; -1]%Z
                  = Ok (mkTensor [g; k; d] (data c))).
    { apply (reshape_infer (mkTensor [g * k * d] (data c))
               [g; k] [] d); simpl; nia. }
    rewrite Hr0. cbn [mbind result_bind shape].
    rewrite (tensor_eta c _ Hsc).
    rewrite (narrow_cat_l a' b c 2 r) by done.
    cbn [mbind result_bind].
    change ([g; k; d] !!! 2) with d.
    replace d with (r + (d - r)) at 1 by lia.
    rewrite (narrow_cat_r a' b c 2 r (d - r))
      by (done || by rewrite Hsb).
    cbn [mbind result_bind].
    assert (Hr1' : reshape a' [Z.of_nat g; Z.of_nat k; -1; 2]%Z = Ok r2)
      by (apply (reshape_infer a' [g; k] [2] m); simpl; nia).
    rewrite Hr1'. cbn [mbind result_bind].
    rewrite (permute_0132_cancel r1 r2 g k 2 m) by done.
    cbn [mbind result_bind].
    assert (Hr3' : reshape r1 [Z.of_nat g; Z.of_nat k; -1]%Z
                   = Ok (mkTensor [g; k; r] (data a)))
      by (apply (reshape_infer r1 [g; k] [] r); simpl; nia).
    rewrite Hr3'. cbn [mbind result_bind].
    rewrite (tensor_eta a _ Hsa).
    apply (cat_narrow T a b 2 r d); try done.
Qed.

Lemma falcon_reverse_interleave_bias (g k d r m : nat) (dat : list A) :
  1 <= g -> 1 <= k -> r = 2 * m -> r <= d ->
  length dat = g * k * d ->
  exists c,
    reverse_interleave_helper r (mkTensor [g * k * d] dat) k g
      = Ok (mkTensor [g; k; d] c)
    ∧ length c = g * k * d
    ∧ interleave_helper r (mkTensor [g; k; d] c)
      = Ok (mkTensor [g; k; d] dat).
Proof.
  intros Hg Hk Hm Hrd Hlen.
  set (T := mkTensor [g; k; d] dat).
  assert (HwT : well_formed T) by (unfold well_formed; simpl; lia).
  destruct (narrow_spec T 2 0 r d HwT eq_refl) as (a & Ha & Hsa & Hwa);
    [lia|lia|].
  destruct (narrow_spec T 2 r d d HwT eq_refl) as (b & Hb & Hsb & Hwb);
    [lia|lia|].
  simpl in Hsa, Hsb. rewrite Nat.sub_0_r in Hsa.
  assert (Hr1 : reshape a [Z.of_nat g; Z.of_nat k; -1; 2]%Z
                = Ok (mkTensor [g; k; m; 2] (data a))).
  { apply (reshape_infer a [g; k] [2] m); rewrite ?Hsa; simpl; nia. }
  set (r1 := mkTensor [g; k; m; 2] (data a)).
  assert (Hwr1 : well_formed r1).
  { unfold well_formed in *. rewrite Hsa in Hwa. simpl in *. lia. }
  destruct (permute_ok r1 [0; 1; 3; 2]) as (d2 & Hp & Hd2);
    [solve_is_perm|].
  simpl in Hp, Hd2.
  set (r2 := mkTensor [g; k; 2; m] d2) in *.
  assert (Hr3 : reshape r2 [Z.of_nat g; Z.of_nat k; -1]%Z
                = Ok (mkTensor [g; k; r] d2)).
  { apply (reshape_infer r2 [g; k] [] r); simpl; nia. }
  set (a' := mkTensor [g; k; r] d2).
  assert (Hwa' : well_formed a')
    by (unfold well_formed; simpl; lia).
  destruct (cat_spec a' b 2 r (d - r) Hwa' Hwb)
    as (c & Hc & Hsc & Hwc); [done|by rewrite Hsb|by rewrite Hsb|].
  simpl in Hsc. replace (r + (d - r)) with d in Hsc by lia.
  exists (data c). split; [|split].
  - unfold reverse_interleave_helper. cbn [shape].
    assert (Hr0 : reshape (mkTensor [g * k * d] dat)
                    [Z.of_nat g; Z.of_nat k; -1]%Z
                  = Ok T).
    { apply (reshape_infer (mkTensor [g * k * d] dat) [g; k] [] d);
        simpl; nia. }
    rewrite Hr0. cbn [mbind result_bind].
    change (shape T !!! 2) with d.
    rewrite Ha, Hb. cbn [mbind result_bind].
    rewrite Hr1. cbn [mbind result_bind]. fold r1.
    rewrite Hp. cbn [mbind result_bind].
    rewrite Hr3. cbn [mbind result_bind]. fold a'.
    rewrite Hc. by rewrite (tensor_eta c _ Hsc).
  - unfold well_formed in Hwc. rewrite Hwc, Hsc. simpl. lia.
  - unfold interleave_helper. cbn [shape].
    rewrite (tensor_eta c _ Hsc).
    rewrite (narrow_cat_l a' b c 2 r) by done.
    cbn [mbind result_bind].
    replace d with (r + (d - r)) at 1 by lia.
    rewrite (narrow_cat_r a' b c 2 r (d - r))
      by (done || by rewrite Hsb).
    cbn [mbind result_bind].
    assert (Hr1' : reshape a' [Z.of_nat g; Z.of_nat k; 2; -1]%Z = Ok r2)
      by (apply (reshape_infer a' [g; k; 2] [] m); simpl; nia).
    rewrite Hr1'. cbn [mbind result_bind].
    rewrite (permute_0132_cancel r1 r2 g k m 2) by done.
    cbn [mbind result_bind].
    assert (Hr3' : reshape r1 [Z.of_nat g; Z.of_nat k; -1]%Z
                   = Ok (mkTensor [g; k; r] (data a)))
      by (apply (reshape_infer r1 [g; k] [] r); simpl; nia).
    rewrite Hr3'. cbn [mbind result_bind].
    rewrite (tensor_eta a _ Hsa).
    apply (cat_narrow T a b 2 r d); try done.
Qed.

End falcon_interleave.

Section falcon_qkv.
Context {A : Type} `{Inhabited A}.
Import Torch Falcon.

Variable cfg : cs_model_config.
Variables K hs m : nat.
Hypothesis Hgroups : 1 <= num_kv_groups cfg.
Hypothesis Hsize : 1 <= K.
Hypothesis Hheads : num_heads cfg = num_kv_groups cfg * K.
Hypothesis Hhead_size : hidden_size cfg / num_heads cfg = hs.
Hypothesis Heven : hs = 2 * m.

Lemma head_size_eq :
  floordiv (hidden_size cfg) (num_heads cfg) = Ok hs.
Proof.
  unfold floordiv. rewrite decide_False by nia. by rewrite Hhead_size.
Qed.

Lemma kv_group_size_eq :
  floordiv (num_heads cfg) (num_kv_groups cfg) = Ok K.
Proof.
  unfold floordiv. rewrite decide_False by lia.
  rewrite Hheads, Nat.mul_comm, Nat.div_mul by lia. done.
Qed.

Lemma split_merge_weight (dim : nat) (dat : list A)
    (osd : gmap string (Tensor A)) (old_key new_key : string) :
  let packed :=
    mkTensor [hs * (num_kv_groups cfg * 2 + num_heads cfg); dim] dat in
  1 <= dim ->
  length dat = hs * (num_kv_groups cfg * 2 + num_heads cfg) * dim ->
  osd !! old_key = Some packed ->
  endswith new_key ".bias" = false ->
  endswith new_key ".weight" = true ->
  exists q k v,
    split_qkv old_key new_key osd cfg = Ok (q, k, v)
    ∧ forall (sd : gmap string (Tensor A)) (q_key hf_key : string),
        sd !! q_key = Some q ->
        sd !! k_key_of q_key = Some k ->
        sd !! v_key_of q_key = Some v ->
        endswith hf_key ".bias" = false ->
        endswith hf_key ".weight" = true ->
        merge_qkv q_key hf_key sd cfg = Ok packed.
Proof.
  intros packed Hdim Hlen Hold Hnb Hnw.
  set (G := num_kv_groups cfg) in *.
  set (S0 := mkTensor [G; K + 2; hs; dim] dat).
  assert (HwS : well_formed S0).
  { unfold well_formed. simpl. rewrite Hlen, Hheads. nia. }
  assert (Hsplit : reshape packed
                     [Z.of_nat G; Z.of_nat (K + 2); -1; Z.of_nat dim]%Z
                   = Ok S0).
  { apply (reshape_infer packed [G; K + 2] [dim] hs).
    - simpl. rewrite Hheads. nia.
    - simpl. nia. }
  destruct (narrow_spec S0 1 0 K (K + 2) HwS eq_refl)
    as (q0 & Hq0 & Hsq & Hwq); [lia|lia|].
  destruct (narrow_spec S0 1 K (K + 1) (K + 2) HwS eq_refl)
    as (k0 & Hk0 & Hsk & Hwk); [lia|lia|].
  destruct (narrow_spec S0 1 (K + 1) (K + 2) (K + 2) HwS eq_refl)
    as (v0 & Hv0 & Hsv & Hwv); [lia|lia|].
  simpl in Hsq, Hsk, Hsv. rewrite Nat.sub_0_r in Hsq.
  replace (K + 1 - K) with 1 in Hsk by lia.
  replace (K + 2 - (K + 1)) with 1 in Hsv by lia.
  unfold well_formed in Hwq, Hwk, Hwv.
  rewrite Hsq in Hwq. rewrite Hsk in Hwk. rewrite Hsv in Hwv.
  simpl in Hwq, Hwk, Hwv.
  destruct (falcon_interleave_reverse_weight G K hs dim hs m (data q0))
    as (cq & Hiq & Hcq & Hrq); [done|done|done|done|lia|lia|].
  destruct (falcon_interleave_reverse_weight G 1 hs dim hs m (data k0))
    as (ck & Hik & Hck & Hrk); [done|done|done|done|lia|lia|].
  rewrite (tensor_eta q0 _ Hsq) in Hiq, Hrq.
  rewrite (tensor_eta k0 _ Hsk) in Hik, Hrk.
  exists (mkTensor [G * K * hs; dim] cq), (mkTensor [G * 1 * hs; dim] ck),
    (mkTensor [G * 1 * hs; dim] (data v0)).
  split.
  - unfold split_qkv. rewrite head_size_eq, kv_group_size_eq.
    cbn [mbind result_bind]. rewrite Hnb, Hnw, Hold. cbn [shape packed].
    rewrite decide_True by done. fold G. fold packed.
    rewrite Hsplit. cbn [mbind result_bind].
    rewrite Hq0, Hk0, Hv0. cbn [mbind result_bind].
    rewrite Hiq, Hik. cbn [mbind result_bind].
    assert (Hfq : reshape (mkTensor [G; K; hs; dim] cq)
                    [-1; Z.of_nat dim]%Z
                  = Ok (mkTensor [G * K * hs; dim] cq)).
    { apply (reshape_infer (mkTensor [G; K; hs; dim] cq) [] [dim]
               (G * K * hs)); simpl; nia. }
    assert (Hfk : reshape (mkTensor [G; 1; hs; dim] ck)
                    [-1; Z.of_nat dim]%Z
                  = Ok (mkTensor [G * 1 * hs; dim] ck)).
    { apply (reshape_infer (mkTensor [G; 1; hs; dim] ck) [] [dim]
               (G * 1 * hs)); simpl; nia. }
    assert (Hfv : reshape v0 [-1; Z.of_nat dim]%Z
                  = Ok (mkTensor [G * 1 * hs; dim] (data v0))).
    { apply (reshape_infer v0 [] [dim] (G * 1 * hs));
        rewrite ?Hsv; simpl; nia. }
    rewrite Hfq, Hfv, Hfk. done.
  - intros sd q_key hf_key Hq Hk Hv Hhb Hhw.
    unfold merge_qkv. rewrite head_size_eq, kv_group_size_eq.
    cbn [mbind result_bind].
    rewrite decide_False by (by rewrite Hk).
    rewrite decide_False by (by rewrite Hv).
    unfold lookup_key. rewrite Hq, Hk, Hv. cbn [mbind result_bind].
    rewrite Hhb, Hhw. cbn [shape reverse rev_append].
    fold G. rewrite Hrq. cbn [mbind result_bind].
    rewrite Hrk. cbn [mbind result_bind].
    assert (Hfv : reshape (mkTensor [G * 1 * hs; dim] (data v0))
                    [Z.of_nat G; 1; -1; Z.of_nat dim]%Z
                  = Ok v0).
    { rewrite <- (tensor_eta v0 _ Hsv) at 2.
      apply (reshape_infer (mkTensor [G * 1 * hs; dim] (data v0))
               [G; 1] [dim] hs); simpl; nia. }
    rewrite Hfv. cbn [mbind result_bind].
    rewrite (cat3_narrow S0 q0 k0 v0 1 K (K + 1) (K + 2))
      by (done || lia).
    cbn [mbind result_bind].
    apply (reshape_infer S0 [] [dim]
             (hs * (G * 2 + num_heads cfg))).
    + simpl. rewrite Hheads. nia.
    + simpl. nia.
Qed.

Lemma split_merge_bias (dat : list A)
    (osd : gmap string (Tensor A)) (old_key new_key : string) :
  let packed :=
    mkTensor [hs * (num_kv_groups cfg * 2 + num_heads cfg)] dat in
  length dat = hs * (num_kv_groups cfg * 2 + num_heads cfg) ->
  osd !! old_key = Some packed ->
  endswith new_key ".bias" = true ->
  exists q k v,
    split_qkv old_key new_key osd cfg = Ok (q, k, v)
    ∧ forall (sd : gmap string (Tensor A)) (q_key hf_key : string),
        sd !! q_key = Some q ->
        sd !! k_key_of q_key = Some k ->
        sd !! v_key_of q_key = Some v ->
        endswith hf_key ".bias" = true ->
        merge_qkv q_key hf_key sd cfg = Ok packed.
Proof.
  intros packed Hlen Hold Hnb.
  set (G := num_kv_groups cfg) in *.
  set (S0 := mkTensor [G; K + 2; hs] dat).
  assert (HwS : well_formed S0).
  { unfold well_formed. simpl. rewrite Hlen, Hheads. nia. }
  assert (Hsplit : reshape packed
                     [Z.of_nat G; Z.of_nat (K + 2); -1]%Z
                   = Ok S0).
  { apply (reshape_infer packed [G; K + 2] [] hs).
    - simpl. rewrite Hheads. nia.
    - simpl. nia. }
  destruct (narrow_spec S0 1 0 K (K + 2) HwS eq_refl)
    as (q0 & Hq0 & Hsq & Hwq); [lia|lia|].
  destruct (narrow_spec S0 1 K (K + 1) (K + 2) HwS eq_refl)
    as (k0 & Hk0 & Hsk & Hwk); [lia|lia|].
  destruct (narrow_spec S0 1 (K + 1) (K + 2) (K + 2) HwS eq_refl)
    as (v0 & Hv0 & Hsv & Hwv); [lia|lia|].
  simpl in Hsq, Hsk, Hsv. rewrite Nat.sub_0_r in Hsq.
  replace (K + 1 - K) with 1 in Hsk by lia.
  replace (K + 2 - (K + 1)) with 1 in Hsv by lia.
  unfold well_formed in Hwq, Hwk, Hwv.
  rewrite Hsq in Hwq. rewrite Hsk in Hwk. rewrite Hsv in Hwv.
  simpl in Hwq, Hwk, Hwv.
  destruct (falcon_interleave_reverse_bias G K hs hs m (data q0))
    as (cq & Hiq & Hcq & Hrq); [done|done|done|lia|lia|].
  destruct (falcon_interleave_reverse_bias G 1 hs hs m (data k0))
    as (ck & Hik & Hck & Hrk); [done|done|done|lia|lia|].
  rewrite (tensor_eta q0 _ Hsq) in Hiq, Hrq.
  rewrite (tensor_eta k0 _ Hsk) in Hik, Hrk.
  exists (mkTensor [G * K * hs] cq), (mkTensor [G * 1 * hs] ck),
    (mkTensor [G * 1 * hs] (data v0)).
  split.
  - unfold split_qkv. rewrite head_size_eq, kv_group_size_eq.
    cbn [mbind result_bind]. rewrite Hnb, Hold. cbn [shape packed].
    rewrite decide_True by done. fold G. fold packed.
    rewrite Hsplit. cbn [mbind result_bind].
    rewrite Hq0, Hk0, Hv0. cbn [mbind result_bind].
    rewrite Hiq, Hik. cbn [mbind result_bind].
    assert (Hfq : reshape (mkTensor [G; K; hs] cq) [-1]%Z
                  = Ok (mkTensor [G * K * hs] cq)).
    { apply (reshape_infer (mkTensor [G; K; hs] cq) [] []
               (G * K * hs)); simpl; nia. }
    assert (Hfk : reshape (mkTensor [G; 1; hs] ck) [-1]%Z
                  = Ok (mkTensor [G * 1 * hs] ck)).
    { apply (reshape_infer (mkTensor [G; 1; hs] ck) [] []
               (G * 1 * hs)); simpl; nia. }
    assert (Hfv : reshape v0 [-1]%Z
                  = Ok (mkTensor [G * 1 * hs] (data v0))).
    { apply (reshape_infer v0 [] [] (G * 1 * hs));
        rewrite ?Hsv; simpl; nia. }
    rewrite Hfq, Hfv, Hfk. done.
  - intros sd q_key hf_key Hq Hk Hv Hhb.
    unfold merge_qkv. rewrite head_size_eq, kv_group_size_eq.
    cbn [mbind result_bind].
    rewrite decide_False by (by rewrite Hk).
    rewrite decide_False by (by rewrite Hv).
    unfold lookup_key. rewrite Hq, Hk, Hv. cbn [mbind result_bind].
    rewrite Hhb.
    fold G. rewrite Hrq. cbn [mbind result_bind].
    rewrite Hrk. cbn [mbind result_bind].
    assert (Hfv : reshape (mkTensor [G * 1 * hs] (data v0))
                    [Z.of_nat G; 1; -1]%Z
                  = Ok v0).
    { rewrite <- (tensor_eta v0 _ Hsv) at 2.
      apply (reshape_infer (mkTensor [G * 1 * hs] (data v0))
               [G; 1] [] hs); simpl; nia. }
    rewrite Hfv. cbn [mbind result_bind].
    rewrite (cat3_narrow S0 q0 k0 v0 1 K (K + 1) (K + 2))
      by (done || lia).
    cbn [mbind result_bind].
    apply (reshape_infer S0 [] []
             (hs * (G * 2 + num_heads cfg))).
    + simpl. rewrite Hheads. nia.
    + simpl. nia.
Qed.

Lemma merge_split_weight (dim : nat) (qd kd vd : list A)
    (sd : gmap string (Tensor A)) (q_key hf_key : string) :
  let G := num_kv_groups cfg in
  let q := mkTensor [G * K * hs; dim] qd in
  let k := mkTensor [G * 1 * hs; dim] kd in
  let v := mkTensor [G * 1 * hs; dim] vd in
  1 <= dim ->
  length qd = G * K * hs * dim ->
  length kd = G * 1 * hs * dim ->
  length vd = G * 1 * hs * dim ->
  sd !! q_key = Some q ->
  sd !! k_key_of q_key = Some k ->
  sd !! v_key_of q_key = Some v ->
  endswith hf_key ".bias" = false ->
  endswith hf_key ".weight" = true ->
  exists packed,
    merge_qkv q_key hf_key sd cfg = Ok packed
    ∧ forall (osd : gmap string (Tensor A)) (old_key new_key : string),
        osd !! old_key = Some packed ->
        endswith new_key ".bias" = false ->
        endswith new_key ".weight" = true ->
        split_qkv old_key new_key osd cfg = Ok (q, k, v).
Proof.
  intros G q k v Hdim Hlq Hlk Hlv Hq Hk Hv Hhb Hhw.
  destruct (falcon_reverse_interleave_weight G K hs dim hs m qd)
    as (cq & Hrq & Hcq & Hiq); [done|done|done|done|lia|done|].
  destruct (falcon_reverse_interleave_weight G 1 hs dim hs m kd)
    as (ck & Hrk & Hck & Hik); [done|done|done|done|lia|done|].
  fold q in Hrq. fold k in Hrk.
  set (Q1 := mkTensor [G; K; hs; dim] cq) in *.
  set (K1 := mkTensor [G; 1; hs; dim] ck) in *.
  set (V1 := mkTensor [G; 1; hs; dim] vd).
  assert (HwQ : well_formed Q1) by (unfold well_formed; simpl; lia).
  assert (HwK : well_formed K1) by (unfold well_formed; simpl; lia).
  assert (HwV : well_formed V1) by (unfold well_formed; simpl; lia).
  destruct (cat3_spec Q1 K1 V1 1 K 1 1) as (t & Ht); try done.
  destruct (narrow_cat3 Q1 K1 V1 t 1 K 1 1 HwQ HwK HwV eq_refl eq_refl
              eq_refl Ht) as (Hnq & Hnk & Hnv & Hwt & Hst).
  simpl in Hst. replace (K + 1 + 1) with (K + 2) in * by lia.
  assert (Hlt : length (data t) = G * (K + 2) * hs * dim).
  { unfold well_formed in Hwt. rewrite Hwt, Hst. simpl. lia. }
  set (P := mkTensor [hs * (G * 2 + num_heads cfg); dim] (data t)).
  exists P. split.
  - unfold merge_qkv. rewrite head_size_eq, kv_group_size_eq.
    cbn [mbind result_bind].
    rewrite decide_False by (by rewrite Hk).
    rewrite decide_False by (by rewrite Hv).
    unfold lookup_key. rewrite Hq, Hk, Hv. cbn [mbind result_bind].
    rewrite Hhb, Hhw. cbn [shape q v reverse rev_append].
    fold G. fold q. rewrite Hrq. cbn [mbind result_bind].
    fold k. rewrite Hrk. cbn [mbind result_bind].
    assert (Hfv : reshape v [Z.of_nat G; 1; -1; Z.of_nat dim]%Z
                  = Ok V1).
    { apply (reshape_infer v [G; 1] [dim] hs); simpl; nia. }
    fold v. rewrite Hfv. cbn [mbind result_bind].
    rewrite Ht. cbn [mbind result_bind].
    rewrite <- (tensor_eta t _ Hst).
    apply (reshape_infer (mkTensor [G; K + 2; hs; dim] (data t)) [] [dim]
             (hs * (G * 2 + num_heads cfg))).
    + simpl. rewrite Hheads. fold G. nia.
    + simpl. nia.
  - intros osd old_key new_key Hold Hnb Hnw.
    unfold split_qkv. rewrite head_size_eq, kv_group_size_eq.
    cbn [mbind result_bind]. rewrite Hnb, Hnw, Hold. cbn [shape P].
    rewrite decide_True by done. fold G. fold P.
    assert (Hsplit : reshape P
                       [Z.of_nat G; Z.of_nat (K + 2); -1; Z.of_nat dim]%Z
                     = Ok t).
    { rewrite <- (tensor_eta t _ Hst).
      apply (reshape_infer P [G; K + 2] [dim] hs).
      - simpl. rewrite Hheads. fold G. nia.
      - simpl. nia. }
    rewrite Hsplit. cbn [mbind result_bind].
    rewrite Hnq, Hnk, Hnv. cbn [mbind result_bind].
    rewrite Hiq, Hik. cbn [mbind result_bind].
    assert (Hfq : reshape (mkTensor [G; K; hs; dim] qd)
                    [-1; Z.of_nat dim]%Z = Ok q).
    { apply (reshape_infer (mkTensor [G; K; hs; dim] qd) [] [dim]
               (G * K * hs)); simpl; nia. }
    assert (Hfk : reshape (mkTensor [G; 1; hs; dim] kd)
                    [-1; Z.of_nat dim]%Z = Ok k).
    { apply (reshape_infer (mkTensor [G; 1; hs; dim] kd) [] [dim]
               (G * 1 * hs)); simpl; nia. }
    assert (Hfv : reshape V1 [-1; Z.of_nat dim]%Z = Ok v).
    { apply (reshape_infer V1 [] [dim] (G * 1 * hs)); simpl; nia. }
    rewrite Hfq, Hfv, Hfk. done.
Qed.

Lemma merge_split_bias (qd kd vd : list A)
    (sd : gmap string (Tensor A)) (q_key hf_key : string) :
  let G := num_kv_groups cfg in
  let q := mkTensor [G * K * hs] qd in
  let k := mkTensor [G * 1 * hs] kd in
  let v := mkTensor [G * 1 * hs] vd in
  length qd = G * K * hs ->
  length kd = G * 1 * hs ->
  length vd = G * 1 * hs ->
  sd !! q_key = Some q ->
  sd !! k_key_of q_key = Some k ->
  sd !! v_key_of q_key = Some v ->
  endswith hf_key ".bias" = true ->
  exists packed,
    merge_qkv q_key hf_key sd cfg = Ok packed
    ∧ forall (osd : gmap string (Tensor A)) (old_key new_key : string),
        osd !! old_key = Some packed ->
        endswith new_key ".bias" = true ->
        split_qkv old_key new_key osd cfg = Ok (q, k, v).
Proof.
  intros G q k v Hlq Hlk Hlv Hq Hk Hv Hhb.
  destruct (falcon_reverse_interleave_bias G K hs hs m qd)
    as (cq & Hrq & Hcq & Hiq); [done|done|done|lia|done|].
  destruct (falcon_reverse_interleave_bias G 1 hs hs m kd)
    as (ck & Hrk & Hck & Hik); [done|done|done|lia|done|].
  fold q in Hrq. fold k in Hrk.
  set (Q1 := mkTensor [G; K; hs] cq) in *.
  set (K1 := mkTensor [G; 1; hs] ck) in *.
  set (V1 := mkTensor [G; 1; hs] vd).
  assert (HwQ : well_formed Q1) by (unfold well_formed; simpl; lia).
  assert (HwK : well_formed K1) by (unfold well_formed; simpl; lia).
  assert (HwV : well_formed V1) by (unfold well_formed; simpl; lia).
  destruct (cat3_spec Q1 K1 V1 1 K 1 1) as (t & Ht); try done.
  destruct (narrow_cat3 Q1 K1 V1 t 1 K 1 1 HwQ HwK HwV eq_refl eq_refl
              eq_refl Ht) as (Hnq & Hnk & Hnv & Hwt & Hst).
  simpl in Hst. replace (K + 1 + 1) with (K + 2) in * by lia.
  assert (Hlt : length (data t) = G * (K + 2) * hs).
  { unfold well_formed in Hwt. rewrite Hwt, Hst. simpl. lia. }
  set (P := mkTensor [hs * (G * 2 + num_heads cfg)] (data t)).
  exists P. split.
  - unfold merge_qkv. rewrite head_size_eq, kv_group_size_eq.
    cbn [mbind result_bind].
    rewrite decide_False by (by rewrite Hk).
    rewrite decide_False by (by rewrite Hv).
    unfold lookup_key. rewrite Hq, Hk, Hv. cbn [mbind result_bind].
    rewrite Hhb.
    fold G. fold q. rewrite Hrq. cbn [mbind result_bind].
    fold k. rewrite Hrk. cbn [mbind result_bind].
    assert (Hfv : reshape v [Z.of_nat G; 1; -1]%Z = Ok V1).
    { apply (reshape_infer v [G; 1] [] hs); simpl; nia. }
    fold v. rewrite Hfv. cbn [mbind result_bind].
    rewrite Ht. cbn [mbind result_bind].
    rewrite <- (tensor_eta t _ Hst).
    apply (reshape_infer (mkTensor [G; K + 2; hs] (data t)) [] []
             (hs * (G * 2 + num_heads cfg))).
    + simpl. rewrite Hheads. fold G. nia.
    + simpl. nia.
  - intros osd old_key new_key Hold Hnb.
    unfold split_qkv. rewrite head_size_eq, kv_group_size_eq.
    cbn [mbind result_bind]. rewrite Hnb, Hold. cbn [shape P].
    rewrite decide_True by done. fold G. fold P.
    assert (Hsplit : reshape P [Z.of_nat G; Z.of_nat (K + 2); -1]%Z
                     = Ok t).
    { rewrite <- (tensor_eta t _ Hst).
      apply (reshape_infer P [G; K + 2] [] hs).
      - simpl. rewrite Hheads. fold G. nia.
      - simpl. nia. }
    rewrite Hsplit. cbn [mbind result_bind].
    rewrite Hnq, Hnk, Hnv. cbn [mbind result_bind].
    rewrite Hiq, Hik. cbn [mbind result_bind].
    assert (Hfq : reshape (mkTensor [G; K; hs] qd) [-1]%Z = Ok q).
    { apply (reshape_infer (mkTensor [G; K; hs] qd) [] [] (G * K * hs));
        simpl; nia. }
    assert (Hfk : reshape (mkTensor [G; 1; hs] kd) [-1]%Z = Ok k).
    { apply (reshape_infer (mkTensor [G; 1; hs] kd) [] [] (G * 1 * hs));
        simpl; nia. }
    assert (Hfv : reshape V1 [-1]%Z = Ok v).
    { apply (reshape_infer V1 [] [] (G * 1 * hs)); simpl; nia. }
    rewrite Hfq, Hfv, Hfk. done.
Qed.

End falcon_qkv.

(** C2 (as amended): for a grouping configuration with [G >= 1] key/value
    groups, [num_heads = G * K] heads ([K >= 1]: multi-head, multi-query or
    grouped-query) and an even head size [hs = hidden_size // num_heads],
    the fused converter is an involution on weights (with at least one
    column) and on biases.  A packed tensor whose leading dimension is
    [hs * (G * 2 + num_heads)] is split by [qkv_converter] (direction 0)
    and merged back (direction 1) into exactly the packed tensor; and three
    projection tensors of [G * K * hs], [G * hs] and [G * hs] rows are
    merged (direction 1) and split again (direction 0) into exactly the
    three tensors. *)
Theorem qkv_split_merge_roundtrip {A : Type} `{Inhabited A}
    (cfg : Falcon.cs_model_config) (K m : nat) (hf_key cs_key : string)
    (bias : bool) :
  let G := Falcon.num_kv_groups cfg in
  let hs := Falcon.hidden_size cfg / Falcon.num_heads cfg in
  let k_key := Falcon.k_key_of cs_key in
  let v_key := Falcon.v_key_of cs_key in
  let shaped (t : Torch.Tensor A) (rows dim : nat) :=
    Torch.well_formed t
    ∧ Torch.shape t = (if bias then [rows] else [rows; dim]) in
  1 <= G -> 1 <= K -> Falcon.num_heads cfg = G * K -> hs = 2 * m ->
  endswith hf_key ".bias" = bias -> endswith cs_key ".bias" = bias ->
  (bias = false ->
   endswith hf_key ".weight" = true ∧ endswith cs_key ".weight" = true) ->
  cs_key ≠ k_key -> cs_key ≠ v_key -> k_key ≠ v_key ->
  (forall (packed : Torch.Tensor A) (packed_dim dim : nat)
          (osd nsd nsd' : gmap string (Torch.Tensor A)),
     hs * (G * 2 + Falcon.num_heads cfg) = packed_dim -> 1 <= dim ->
     shaped packed packed_dim dim ->
     osd !! hf_key = Some packed ->
     exists sd1,
       Falcon.qkv_converter hf_key cs_key osd nsd 0 cfg = Done sd1
       ∧ Falcon.qkv_converter cs_key hf_key sd1 nsd' 1 cfg
         = Done (<[hf_key := packed]> nsd'))
  ∧ (forall (q k v : Torch.Tensor A) (dim : nat)
            (osd nsd nsd' : gmap string (Torch.Tensor A)),
       1 <= dim ->
       shaped q (G * K * hs) dim -> shaped k (G * hs) dim ->
       shaped v (G * hs) dim ->
       osd !! cs_key = Some q -> osd !! k_key = Some k ->
       osd !! v_key = Some v ->
       exists sd1,
         Falcon.qkv_converter cs_key hf_key osd nsd 1 cfg = Done sd1
         ∧ Falcon.qkv_converter hf_key cs_key sd1 nsd' 0 cfg
           = Done (<[v_key := v]> (<[k_key := k]> (<[cs_key := q]> nsd')))).
Proof.
  intros G hs k_key v_key shaped HG HK HH Hhs Hhb Hcb Hw Hqk Hqv Hkv.
  assert (Hlook : forall (q k v : Torch.Tensor A)
                         (nsd : gmap string (Torch.Tensor A)),
            let sd := <[v_key := v]> (<[k_key := k]> (<[cs_key := q]> nsd))
            in sd !! cs_key = Some q ∧ sd !! k_key = Some k
               ∧ sd !! v_key = Some v).
  { intros q k v nsd sd. unfold sd. split; [|split].
    - rewrite !lookup_insert_ne by done. apply lookup_insert_eq.
    - rewrite lookup_insert_ne by done. apply lookup_insert_eq.
    - apply lookup_insert_eq. }
  assert (Hconv : forall (o n : string)
                         (osd nsd : gmap string (Torch.Tensor A)),
            Falcon.qkv_converter o n osd nsd 0 cfg
            = Falcon.qkv_converter_hf_to_cs o n osd nsd cfg
            ∧ Falcon.qkv_converter o n osd nsd 1 cfg
              = Falcon.qkv_converter_cs_to_hf o n osd nsd cfg).
  { intros o n osd nsd. unfold Falcon.qkv_converter.
    rewrite decide_True by done. by rewrite decide_False by done. }
  split.
  - intros packed packed_dim dim osd nsd nsd' Hpd Hdim [Hwf Hshape] Hold.
    setoid_rewrite (proj1 (Hconv _ _ _ _)).
    setoid_rewrite (proj2 (Hconv _ _ _ _)).
    unfold Falcon.qkv_converter_hf_to_cs, Falcon.qkv_converter_cs_to_hf.
    fold k_key v_key.
    unfold Torch.well_formed in Hwf. rewrite Hshape in Hwf.
    destruct bias.
    + rewrite <- (tensor_eta packed _ Hshape) in Hold |- *.
      subst packed_dim. simpl in Hwf.
      destruct (split_merge_bias cfg K hs m HG HK HH eq_refl Hhs
                  (Torch.data packed) osd hf_key cs_key)
        as (q & k & v & Hsplit & Hmerge); [lia|done|done|].
      rewrite Hsplit. eexists. split; [reflexivity|].
      destruct (Hlook q k v nsd) as (Hq & Hk & Hv).
      by rewrite (Hmerge _ cs_key hf_key Hq Hk Hv Hhb).
    + destruct (Hw eq_refl) as [Hhw Hcw].
      rewrite <- (tensor_eta packed _ Hshape) in Hold |- *.
      subst packed_dim. simpl in Hwf.
      destruct (split_merge_weight cfg K hs m HG HK HH eq_refl Hhs
                  dim (Torch.data packed) osd hf_key cs_key)
        as (q & k & v & Hsplit & Hmerge); [done|lia|done|done|done|].
      rewrite Hsplit. eexists. split; [reflexivity|].
      destruct (Hlook q k v nsd) as (Hq & Hk & Hv).
      by rewrite (Hmerge _ cs_key hf_key Hq Hk Hv Hhb Hhw).
  - intros q k v dim osd nsd nsd' Hdim [Hwq Hsq] [Hwk Hsk] [Hwv Hsv]
      Hq Hk Hv.
    setoid_rewrite (proj1 (Hconv _ _ _ _)).
    setoid_rewrite (proj2 (Hconv _ _ _ _)).
    unfold Falcon.qkv_converter_hf_to_cs, Falcon.qkv_converter_cs_to_hf.
    fold k_key v_key.
    unfold Torch.well_formed in Hwq, Hwk, Hwv.
    rewrite Hsq in Hwq. rewrite Hsk in Hwk. rewrite Hsv in Hwv.
    replace (G * hs) with (G * 1 * hs) in Hsk, Hsv by lia.
    rewrite <- (tensor_eta q _ Hsq) in Hq |- *.
    rewrite <- (tensor_eta k _ Hsk) in Hk |- *.
    rewrite <- (tensor_eta v _ Hsv) in Hv |- *.
    destruct bias.
    + simpl in Hwq, Hwk, Hwv.
      destruct (merge_split_bias cfg K hs m HG HK HH eq_refl Hhs
                  (Torch.data q) (Torch.data k) (Torch.data v)
                  osd cs_key hf_key)
        as (packed & Hmerge & Hsplit); try done; try (fold G; lia).
      rewrite Hmerge. eexists. split; [reflexivity|].
      by rewrite (Hsplit _ hf_key cs_key (lookup_insert_eq _ _ _) Hcb).
    + destruct (Hw eq_refl) as [Hhw Hcw]. simpl in Hwq, Hwk, Hwv.
      destruct (merge_split_weight cfg K hs m HG HK HH eq_refl Hhs dim
                  (Torch.data q) (Torch.data k) (Torch.data v)
                  osd cs_key hf_key)
        as (packed & Hmerge & Hsplit); try done; try (fold G; lia).
      rewrite Hmerge. eexists. split; [reflexivity|].
      by rewrite (Hsplit _ hf_key cs_key (lookup_insert_eq _ _ _) Hcb Hcw).
Qed.

Lemma qkv_split_merge_roundtrip_witness :
  let cfg := Falcon.Build_cs_model_config 4 2 1 in
  let hf_key := "transformer.h.0.self_attention.query_key_value.bias" in
  let cs_key :=
    "model.transformer_decoder.layers.0.self_attn.proj_q_dense_layer.bias" in
  let packed := Torch.mkTensor [8] [1; 2; 3; 4; 5; 6; 7; 8]%Z in
  1 <= Falcon.num_kv_groups cfg
  ∧ Falcon.num_heads cfg = Falcon.num_kv_groups cfg * 2
  ∧ Falcon.hidden_size cfg / Falcon.num_heads cfg = 2 * 1
  ∧ exists sd1,
      Falcon.qkv_converter hf_key cs_key {[hf_key := packed]} ∅ 0 cfg
      = Done sd1
      ∧ Falcon.qkv_converter cs_key hf_key sd1 ∅ 1 cfg
        = Done (<[hf_key := packed]> ∅).
Proof.
  intros cfg hf_key cs_key packed.
  split; [vm_compute; lia|]. split; [reflexivity|]. split; [reflexivity|].
  destruct (qkv_split_merge_roundtrip (A:=Z) cfg 2 1 hf_key cs_key true)
    as [Hsplit _].
  - vm_compute; lia.
  - lia.
  - reflexivity.
  - reflexivity.
  - vm_compute; reflexivity.
  - vm_compute; reflexivity.
  - discriminate.
  - apply (bool_decide_unpack _). vm_compute. exact I.
  - apply (bool_decide_unpack _). vm_compute. exact I.
  - apply (bool_decide_unpack _). vm_compute. exact I.
  - apply (Hsplit packed 8 1).
    + reflexivity.
    + lia.
    + split; reflexivity.
    + apply lookup_singleton_eq.
Defined.

(** C2 as stated fails for an odd head size: with [hidden_size = 3],
    one head and one group the packed bias of length [3 * (1 * 2 + 1)]
    satisfies the size equation, and the split raises when the interleave
    reshapes three elements to [(1, 1, 2, -1)]. *)
Lemma qkv_split_merge_roundtrip_counterexample :
  let cfg := Falcon.Build_cs_model_config 3 1 1 in
  let hf_key := "transformer.h.0.self_attention.query_key_value.bias" in
  let cs_key :=
    "model.transformer_decoder.layers.0.self_attn.proj_q_dense_layer.bias" in
  let packed := Torch.mkTensor [9] [1; 2; 3; 4; 5; 6; 7; 8; 9]%Z in
  Falcon.hidden_size cfg / Falcon.num_heads cfg
    * (Falcon.num_kv_groups cfg * 2 + Falcon.num_heads cfg) = 9
  ∧ Torch.well_formed packed
  ∧ Falcon.qkv_converter hf_key cs_key {[hf_key := packed]} ∅ 0 cfg
    = Failed RuntimeError ∅.
Proof.
  intros cfg hf_key cs_key packed.
  split; [reflexivity|]. split; [reflexivity|]. vm_compute. reflexivity.
Qed.

(** * The sharded writer as a dictionary *)

Section writer_dictionary.
Import Streaming.

Lemma agrees_fresh (max : Z) : agrees (fresh_writer max) ∅.
Proof.
  split; unfold fresh_writer; wsimpl.
  - intros k _. apply lookup_empty.
  - intros k f Hk. by rewrite lookup_empty in Hk.
Qed.

Lemma agrees_None (w : writer) (d : gmap string HFTensor) (k : string) :
  agrees w d -> d !! k = None -> weight_map w !! k = None.
Proof.
  intros Ha Hd. destruct (weight_map w !! k) as [f|] eqn:Hk; [|done].
  destruct (agrees_present w d Ha k f Hk) as (v & Hv & _). congruence.
Qed.

(** After a flush every key has its value in its shard file. *)
Lemma agrees_flush (w : writer) (d : gmap string HFTensor) :
  agrees w d ->
  agrees (_flush w) d
  ∧ forall k f, weight_map w !! k = Some f ->
      exists v sh, d !! k = Some v
        ∧ fs (_flush w) !! f = Some (ShardFile sh) ∧ sh !! k = Some v.
Proof.
  intros Ha.
  assert (Hdisk : forall k f, weight_map w !! k = Some f ->
            exists v sh, d !! k = Some v
              ∧ fs (_flush w) !! f = Some (ShardFile sh)
              ∧ sh !! k = Some v).
  { intros k f Hk.
    destruct (agrees_present w d Ha k f Hk) as (v & Hv & Hmem & Hfile).
    exists v. unfold _flush. destruct (dirty w) eqn:Hd; wsimpl.
    - destruct (decide (f = active_file_name w)) as [->|Hne].
      + exists (active_file_data w). rewrite lookup_insert_eq. auto.
      + destruct Hfile as (sh & Hsh & Hshk); [by left|].
        exists sh. by rewrite lookup_insert_ne.
    - destruct Hfile as (sh & Hsh & Hshk); [by right|]. eauto. }
  split; [|exact Hdisk].
  destruct (flush_fields w)
    as (Hwm & _ & _ & _ & Han & Had & _ & _ & _ & Hd).
  split.
  - intros k Hk. rewrite Hwm in Hk. by apply (agrees_absent w d Ha).
  - intros k f Hk. rewrite Hwm in Hk.
    destruct (agrees_present w d Ha k f Hk) as (v & Hv & Hmem & _).
    destruct (Hdisk k f Hk) as (v' & sh & Hv' & Hsh & Hshk).
    assert (v' = v) as -> by congruence.
    exists v. rewrite Han, Had. eauto.
Qed.

Lemma agrees_switched (w : writer) (d : gmap string HFTensor)
    (f : string) (sh : gmap string HFTensor) :
  agrees w d ->
  fs (_flush w) !! f = Some (ShardFile sh) ->
  agrees (mkWriter (fs (_flush w)) (weight_map w)
            (current_file_number w) (last_file_number w)
            (total_shards_finalized w) f sh (file_size w) false
            (max_shard_size w) (warnings w)) d.
Proof.
  intros Ha Hf. destruct (agrees_flush w d Ha) as [_ Hdisk].
  split; wsimpl.
  - apply (agrees_absent w d Ha).
  - intros k f' Hk. destruct (Hdisk k f' Hk) as (v & sh' & Hv & Hsh & Hshk).
    exists v. split; [done|]. split; [|eauto].
    intros ->. rewrite Hf in Hsh. by injection Hsh as <-.
Qed.

Lemma agrees_store (w : writer) (d : gmap string HFTensor)
    (k : string) (v : HFTensor) (sz : Z) (warn : bool) :
  agrees w d -> agrees (store k v sz w warn) (<[k := v]> d).
Proof.
  intros Ha. split; unfold store; wsimpl.
  - intros k' Hk. apply lookup_insert_None in Hk as [Hk Hne].
    rewrite lookup_insert_ne by done. by apply (agrees_absent w d Ha).
  - intros k' f Hk. destruct (decide (k = k')) as [<-|Hne].
    + rewrite lookup_insert_eq in Hk. injection Hk as <-.
      exists v. rewrite !lookup_insert_eq. split; [done|]. split; [done|].
      intros [?|?]; done.
    + rewrite lookup_insert_ne in Hk by done.
      destruct (agrees_present w d Ha k' f Hk) as (v' & Hv & Hmem & Hfile).
      exists v'. rewrite !lookup_insert_ne by done.
      split; [done|]. split; [done|].
      intros [Hf|?]; [|done]. apply Hfile. by left.
Qed.

Lemma agrees_open_next_shard (w : writer) (d : gmap string HFTensor) :
  consistent w -> agrees w d -> agrees (open_next_shard w) d.
Proof.
  intros Hc Ha. destruct (agrees_flush w d Ha) as [_ Hdisk].
  pose proof (next_shard_fresh w Hc) as Hfresh.
  destruct (flush_fields w)
    as (Hwm & _ & Hlast & Htsf & _ & _ & _ & _ & _ & Hd).
  split; unfold open_next_shard; wsimpl.
  - rewrite Hwm. apply (agrees_absent w d Ha).
  - rewrite Hwm, Hlast, Htsf, Hd. intros k f Hk.
    destruct (Hdisk k f Hk) as (v & sh & Hv & Hsh & Hshk).
    exists v. split; [done|]. split; [|eauto].
    intros ->. destruct (cons_keys w Hc k _ Hk) as ([z Hz] & _).
    congruence.
Qed.

(** [__getitem__] returns what the dictionary holds, and keeps it. *)
Lemma getitem_agrees (w : writer) (d : gmap string HFTensor)
    (k : string) :
  consistent w -> agrees w d ->
  match d !! k with
  | Some v => exists w1, __getitem__ k w = Done (w1, v)
                         ∧ consistent w1 ∧ agrees w1 d
  | None => __getitem__ k w = Failed KeyError (fs w)
  end.
Proof.
  intros Hc Ha. destruct (d !! k) as [v|] eqn:Hd.
  - destruct (weight_map w !! k) as [f|] eqn:Hk.
    2:{ rewrite (agrees_absent w d Ha k Hk) in Hd. done. }
    destruct (agrees_present w d Ha k f Hk) as (v' & Hv & Hmem & Hfile).
    assert (v' = v) as -> by congruence.
    unfold __getitem__. rewrite Hk. case_decide as Hact.
    + destruct (switch_shards_spec w k f Hc Hk) as (sh & Hsh & _ & Hsw).
      rewrite Hsw. cbn [and_then]. wsimpl.
      destruct (agrees_flush w d Ha) as [_ Hdisk].
      destruct (Hdisk k f Hk) as (v' & sh' & Hv' & Hsh' & Hshk).
      assert (sh' = sh) as -> by congruence.
      assert (v' = v) as -> by congruence.
      rewrite Hshk. eexists. split; [reflexivity|].
      split; [by apply (consistent_switched w k)|].
      by apply agrees_switched.
    + cbn [and_then].
      assert (Hf : f = active_file_name w)
        by (destruct (decide (f = active_file_name w)); done).
      rewrite (Hmem Hf). eauto.
  - unfold __getitem__. by rewrite (agrees_None w d k Ha Hd).
Qed.

Lemma setitem_agrees (w w' : writer) (d : gmap string HFTensor)
    (k : string) (v : HFTensor) :
  consistent w -> agrees w d -> __setitem__ k v w = Done w' ->
  agrees w' (<[k := v]> d).
Proof.
  intros Hc Ha Hset.
  destruct (weight_map w !! k) as [f|] eqn:Hk.
  - destruct (setitem_update_spec w k f v Hc Hk)
      as (w1 & old & sz & Hget & _ & Hset' & _).
    rewrite Hset' in Hset. injection Hset as <-.
    apply agrees_store.
    pose proof (getitem_agrees w d k Hc Ha) as Hg.
    destruct (agrees_present w d Ha k f Hk) as (v0 & Hv0 & _).
    rewrite Hv0 in Hg. destruct Hg as (w2 & Hg & _ & Ha2).
    rewrite Hget in Hg. by injection Hg as -> _.
  - destruct (file_size w !! active_file_name w) as [sz|] eqn:Hsz.
    + rewrite (setitem_new_step w k v sz Hk (cons_current w Hc) Hsz)
        in Hset.
      injection Hset as <-. case_decide.
      * apply agrees_store. by apply agrees_open_next_shard.
      * by apply agrees_store.
    + unfold __setitem__ in Hset. rewrite Hk in Hset.
      rewrite decide_False in Hset
        by (intros Hne; apply Hne; apply Hc).
      cbn [and_then] in Hset. by rewrite Hsz in Hset.
Qed.

Lemma save_agrees (w w' : writer) (d : gmap string HFTensor) :
  consistent w -> agrees w d -> save w = Done w' -> agrees w' d.
Proof.
  intros Hc Ha Hsave. unfold save in Hsave.
  destruct (agrees_flush w d Ha) as [Haf Hdisk].
  destruct (flush_fields w)
    as (Hwm & Hcur & Hlast & Htsf & Han & Had & Hfs & Hmax & Hwarn & Hd).
  set (w0 := _flush w) in *.
  rewrite Hwm, Hcur, Hlast, Htsf, Han, Had, Hfs, Hmax, Hwarn, Hd in Hsave.
  case_decide as Hren.
  - set (T := last_file_number w + 1) in *.
    set (t := total_shards_finalized w) in *.
    set (ps := (fun i => (get_filename i t, get_filename i T))
                 <$> seq 0 T) in *.
    set (file_renames := foldl (fun m p => <[p.1 := p.2]> m) ∅ ps) in *.
    destruct (rename_all ps (fs w0)) as [files|] eqn:Hra;
      cbn [and_then] in Hsave; [|done].
    case_decide as Hall; cbn [and_then] in Hsave; [|done].
    injection Hsave as <-.
    pose proof (renames_NoDup t T T Hren) as Hnd. fold ps in Hnd.
    assert (Hnd1 : NoDup (fst <$> ps))
      by (by apply NoDup_app in Hnd as [? _]).
    destruct (rename_all_spec ps _ _ Hnd Hra) as (Hmove & _ & _).
    set (rename := fun prev_file : string =>
                     default prev_file (file_renames !! prev_file)) in *.
    assert (Hrename : forall i, i <= last_file_number w ->
               rename (get_filename i t) = get_filename i T).
    { intros i Hi. unfold rename, file_renames.
      assert (Hl : foldl (fun m p => <[p.1 := p.2]> m)
                     (∅ : gmap string string) ps !! get_filename i t
                   = Some (get_filename i T)).
      { apply foldl_insert_lookup; [done|]. apply elem_of_renames.
        exists i. split; [unfold T; lia|done]. }
      by rewrite Hl. }
    split; wsimpl.
    + intros k Hk. rewrite lookup_fmap in Hk.
      apply fmap_None in Hk. by apply (agrees_absent w d Ha).
    + intros k f' Hk. apply lookup_fmap_Some in Hk as (f & <- & Hk).
      destruct (Hdisk k f Hk) as (v & sh & Hv & Hsh & Hshk).
      destruct (cons_keys w Hc k f Hk) as (Hz & _ & _).
      apply (cons_sizes w Hc) in Hz as (i & Hi & ->). fold t.
      rewrite Hrename by done.
      exists v. split; [done|]. split.
      * intros Hact. exfalso.
        destruct (cons_active w Hc) as [Hs|[_ Hx]]; [|done].
        apply (cons_sizes w Hc) in Hs as (j & _ & Hj).
        rewrite Hj in Hact. apply get_filename_inj in Hact. lia.
      * intros _. exists sh. split; [|done].
        rewrite lookup_insert_ne
          by (intros Heq; symmetry in Heq;
              by apply get_filename_not_index in Heq).
        destruct (Hmove (get_filename i t) (get_filename i T))
          as (c & Hc1 & Hc2).
        { apply elem_of_renames. exists i. split; [unfold T; lia|done]. }
        fold t in Hsh. rewrite Hsh in Hc1. by injection Hc1 as <-.
  - cbn [and_then] in Hsave. injection Hsave as <-.
    split; wsimpl.
    + rewrite Hwm. apply (agrees_absent w d Ha).
    + rewrite Hwm, Han, Had, Hd. intros k f Hk.
      destruct (agrees_present w d Ha k f Hk) as (v & Hv & Hmem & _).
      destruct (Hdisk k f Hk) as (v' & sh & Hv' & Hsh & Hshk).
      assert (v' = v) as -> by congruence.
      exists v. split; [done|]. split; [done|].
      intros _. exists sh. split; [|done].
      rewrite lookup_insert_ne; [done|].
      intros Heq.
      destruct (cons_keys w Hc k f Hk) as (Hz & _ & _).
      apply (cons_sizes w Hc) in Hz as (i & _ & ->).
      symmetry in Heq. by apply get_filename_not_index in Heq.
Qed.

Lemma run_agrees (ops : list op) (w w' : writer)
    (d : gmap string HFTensor) :
  consistent w -> agrees w d -> run ops w = Done w' ->
  agrees w' (dict_of ops d).
Proof.
  revert w d. induction ops as [|o ops IH]; intros w d Hc Ha Hrun.
  - cbn in Hrun. by injection Hrun as <-.
  - cbn [run] in Hrun.
    destruct (run_op o w) as [w1|] eqn:Hop; cbn [and_then] in Hrun;
      [|done].
    assert (Hc1 : consistent w1).
    { apply (run_consistent [o] w w1 Hc). cbn [run]. by rewrite Hop. }
    destruct o as [k v|k|]; cbn [run_op dict_of] in *.
    + apply (IH w1); [done| |done]. by apply (setitem_agrees w).
    + apply (IH w1); [done| |done].
      destruct (__getitem__ k w) as [[w2 v]|] eqn:Hg;
        cbn [and_then] in Hop; [|done].
      injection Hop as <-. cbn [fst].
      pose proof (getitem_agrees w d k Hc Ha) as Hd.
      destruct (d !! k) as [v'|].
      * destruct Hd as (w3 & Hg' & _ & Ha3). rewrite Hg in Hg'.
        by injection Hg' as -> _.
      * by rewrite Hg in Hd.
    + apply (IH w1); [done| |done]. by apply (save_agrees w).
Qed.

End writer_dictionary.

(** X1: a writer reached from a fresh one by calls that all returned
    behaves as the dictionary those calls describe: reading a key returns
    the value of the last [__setitem__] under it, whatever shard switches,
    updates and saves came in between, and reading a key that was never set
    raises [KeyError]. *)
Theorem writer_reads_last_write (max : Z) (ops : list Streaming.op)
    (w : Streaming.writer) (k : string) :
  Streaming.run ops (Streaming.fresh_writer max) = Done w ->
  match Streaming.dict_of ops ∅ !! k with
  | Some v => exists w1, Streaming.__getitem__ k w = Done (w1, v)
  | None => Streaming.__getitem__ k w = Failed KeyError (Streaming.fs w)
  end.
Proof.
  intros Hrun.
  pose proof (run_consistent ops _ w (consistent_fresh max) Hrun) as Hc.
  pose proof (run_agrees ops _ w ∅ (consistent_fresh max)
                (agrees_fresh max) Hrun) as Ha.
  pose proof (getitem_agrees w _ k Hc Ha) as Hg.
  destruct (Streaming.dict_of ops ∅ !! k); [|done].
  destruct Hg as (w1 & Hg & _). eauto.
Qed.

Lemma writer_reads_last_write_witness :
  let t n := Streaming.Build_HFTensor Streaming.torch_uint8
               (Torch.mkTensor [n] (replicate n 0%Z)) in
  let ops := [Streaming.SetItem "a" (t 60); Streaming.SetItem "b" (t 50);
              Streaming.SetItem "a" (t 200); Streaming.Save;
              Streaming.GetItem "b"] in
  exists w w1,
    Streaming.run ops (Streaming.fresh_writer 100) = Done w
    ∧ Streaming.__getitem__ "a" w = Done (w1, t 200).
Proof.
  intros t ops.
  destruct (Streaming.run ops (Streaming.fresh_writer 100)) as [w|e r] eqn:Hrun;
    [|vm_compute in Hrun; discriminate Hrun].
  pose proof (writer_reads_last_write 100 ops w "a" Hrun) as Hread.
  assert (Hd : Streaming.dict_of ops ∅ !! "a" = Some (t 200))
    by (vm_compute; reflexivity).
  rewrite Hd in Hread. destruct Hread as (w1 & Hread).
  exists w, w1. split; [reflexivity|exact Hread].
Defined.

(** X2: in any writer state, when [__setitem__] returns, the value can be
    read back at once: [__getitem__] of the same key returns it without
    switching shards or changing the writer. *)
Theorem writer_read_after_write (w w' : Streaming.writer) (k : string)
    (v : Streaming.HFTensor) :
  Streaming.__setitem__ k v w = Done w' ->
  Streaming.__getitem__ k w' = Done (w', v).
Proof.
  intros Hset.
  assert (Hst : exists w0 sz warn, w' = Streaming.store k v sz w0 warn).
  { unfold Streaming.__setitem__ in Hset.
    destruct (Streaming.weight_map w !! k) as [f|].
    - destruct (if decide (Streaming.active_file_name w ≠ f)
                then Streaming._switch_shards f w else Done w) as [w0|];
        cbn [Streaming.and_then] in Hset; [|done].
      destruct (Streaming.active_file_data w0 !! k); [|done].
      destruct (Streaming.file_size w0 !! Streaming.active_file_name w0);
        [|done].
      injection Hset as <-. eauto.
    - destruct (if decide (Streaming.current_file_number w
                           ≠ Streaming.last_file_number w)
                then Streaming._switch_shards _ w else Done w) as [w0|];
        cbn [Streaming.and_then] in Hset; [|done].
      destruct (Streaming.file_size w0 !! Streaming.active_file_name w0);
        [|done].
      cbn zeta in Hset.
      match type of Hset with
      | match Streaming.file_size ?x !! _ with _ => _ end = _ =>
          destruct (Streaming.file_size x !! Streaming.active_file_name x);
            [|done]
      end.
      injection Hset as <-. eauto. }
  destruct Hst as (w0 & sz & warn & ->).
  unfold Streaming.__getitem__, Streaming.store. wsimpl.
  rewrite lookup_insert_eq. rewrite decide_False by (intros Hne; done).
  cbn [Streaming.and_then]. wsimpl. by rewrite lookup_insert_eq.
Qed.

Lemma writer_read_after_write_witness :
  let t60 := Streaming.Build_HFTensor Streaming.torch_uint8
               (Torch.mkTensor [60] (replicate 60 0%Z)) in
  exists w',
    Streaming.__setitem__ "a" t60 (Streaming.fresh_writer 100) = Done w'
    ∧ Streaming.__getitem__ "a" w' = Done (w', t60).
Proof.
  intros t60.
  destruct (Streaming.__setitem__ "a" t60 (Streaming.fresh_writer 100))
    as [w'|e r] eqn:Hset; [|vm_compute in Hset; discriminate Hset].
  exists w'. split; [reflexivity|].
  exact (writer_read_after_write _ w' "a" t60 Hset).
Defined.

(** X3: [len(writer)] is the number of distinct keys that have been set:
    an update of an existing key, a read and a save do not change it. *)
Theorem writer_len_counts_keys (max : Z) (ops : list Streaming.op)
    (w : Streaming.writer) :
  Streaming.run ops (Streaming.fresh_writer max) = Done w ->
  Streaming.__len__ w = size (Streaming.dict_of ops ∅).
Proof.
  intros Hrun.
  pose proof (run_agrees ops _ w ∅ (consistent_fresh max)
                (agrees_fresh max) Hrun) as Ha.
  unfold Streaming.__len__.
  rewrite <- !(size_dom (D := gset string)). f_equal.
  apply set_eq. intros k. rewrite !elem_of_dom. split.
  - intros [f Hk].
    destruct (Streaming.agrees_present w _ Ha k f Hk) as (v & Hv & _).
    eauto.
  - intros [v Hv].
    destruct (Streaming.weight_map w !! k) eqn:Hk; [eauto|].
    rewrite (Streaming.agrees_absent w _ Ha k Hk) in Hv. done.
Qed.

Lemma writer_len_counts_keys_witness :
  let t n := Streaming.Build_HFTensor Streaming.torch_uint8
               (Torch.mkTensor [n] (replicate n 0%Z)) in
  let ops := [Streaming.SetItem "a" (t 60); Streaming.SetItem "b" (t 50);
              Streaming.SetItem "a" (t 200); Streaming.Save] in
  exists w,
    Streaming.run ops (Streaming.fresh_writer 100) = Done w
    ∧ Streaming.__len__ w = 2.
Proof.
  intros t ops.
  destruct (Streaming.run ops (Streaming.fresh_writer 100)) as [w|e r] eqn:Hrun;
    [|vm_compute in Hrun; discriminate Hrun].
  exists w. split; [reflexivity|].
  rewrite (writer_len_counts_keys 100 ops w Hrun). vm_compute. reflexivity.
Defined.

Section shard_stability.
Import Streaming.

Lemma switch_keeps_maps (w w1 : writer) (f : string) :
  _switch_shards f w = Done w1 ->
  weight_map w1 = weight_map w
  ∧ total_shards_finalized w1 = total_shards_finalized w.
Proof.
  unfold _switch_shards. intros Hsw.
  destruct (flush_fields w) as (Hwm & _ & _ & Htsf & _).
  destruct (fs (_flush w) !! f) as [[d|? ?]|]; try done.
  injection Hsw as <-. by wsimpl.
Qed.

Lemma getitem_keeps_maps (w w1 : writer) (k : string) (v : HFTensor) :
  __getitem__ k w = Done (w1, v) ->
  weight_map w1 = weight_map w
  ∧ total_shards_finalized w1 = total_shards_finalized w.
Proof.
  unfold __getitem__. intros Hg.
  destruct (weight_map w !! k) as [f|]; [|done].
  case_decide.
  - destruct (_switch_shards f w) as [w2|] eqn:Hsw;
      cbn [and_then] in Hg; [|done].
    destruct (active_file_data w2 !! k); [|done].
    injection Hg as <- _. by apply (switch_keeps_maps w w2 f).
  - cbn [and_then] in Hg. destruct (active_file_data w !! k); [|done].
    by injection Hg as <- _.
Qed.

Lemma setitem_keeps_shard (w w' : writer) (k' k : string) (v : HFTensor)
    (i : nat) :
  consistent w -> __setitem__ k' v w = Done w' ->
  weight_map w !! k
    = Some (get_filename i (total_shards_finalized w)) ->
  weight_map w' !! k
    = Some (get_filename i (total_shards_finalized w')).
Proof.
  intros Hc Hset Hk.
  destruct (weight_map w !! k') as [f|] eqn:Hk'.
  - destruct (setitem_update_spec w k' f v Hc Hk')
      as (w1 & old & sz & Hget & _ & Hset' & _ & Han & _).
    rewrite Hset' in Hset. injection Hset as <-.
    destruct (getitem_keeps_maps w w1 k' old Hget) as [Hwm Htsf].
    unfold store. wsimpl. rewrite Han, Hwm, Htsf.
    destruct (decide (k' = k)) as [->|Hne].
    + rewrite lookup_insert_eq. congruence.
    + by rewrite lookup_insert_ne.
  - assert (Hne : k' ≠ k) by congruence.
    destruct (file_size w !! active_file_name w) as [sz|] eqn:Hsz.
    + rewrite (setitem_new_step w k' v sz Hk' (cons_current w Hc) Hsz)
        in Hset.
      injection Hset as <-.
      destruct (flush_fields w) as (Hwm & _ & _ & Htsf & _).
      case_decide; unfold store, open_next_shard; wsimpl;
        rewrite lookup_insert_ne by done; by rewrite ?Hwm, ?Htsf.
    + unfold __setitem__ in Hset. rewrite Hk' in Hset.
      rewrite decide_False in Hset
        by (intros Hn; apply Hn; apply Hc).
      cbn [and_then] in Hset. by rewrite Hsz in Hset.
Qed.

Lemma save_keeps_shard (w w' : writer) (k : string) (i : nat) :
  consistent w -> save w = Done w' -> weight_map w !! k
    = Some (get_filename i (total_shards_finalized w)) ->
  weight_map w' !! k
    = Some (get_filename i (total_shards_finalized w')).
Proof.
  intros Hc Hsave Hk. unfold save in Hsave.
  destruct (flush_fields w)
    as (Hwm & Hcur & Hlast & Htsf & Han & Had & Hfs & Hmax & Hwarn & Hd).
  set (w0 := _flush w) in *.
  rewrite Hwm, Hcur, Hlast, Htsf, Han, Had, Hfs, Hmax, Hwarn, Hd in Hsave.
  case_decide as Hren.
  - set (T := last_file_number w + 1) in *.
    set (t := total_shards_finalized w) in *.
    set (ps := (fun i => (get_filename i t, get_filename i T))
                 <$> seq 0 T) in *.
    destruct (rename_all ps (fs w0)) as [files|] eqn:Hra;
      cbn [and_then] in Hsave; [|done].
    case_decide as Hall; cbn [and_then] in Hsave; [|done].
    injection Hsave as <-. wsimpl.
    pose proof (renames_NoDup t T T Hren) as Hnd. fold ps in Hnd.
    assert (Hnd1 : NoDup (fst <$> ps))
      by (by apply NoDup_app in Hnd as [? _]).
    rewrite lookup_fmap, Hk. cbn [fmap option_fmap option_map].
    destruct (cons_keys w Hc k _ Hk) as (Hz & _ & _).
    apply (cons_sizes w Hc) in Hz as (j & Hj & Heq).
    apply get_filename_inj in Heq as [-> _].
    assert (Hl : foldl (fun m p => <[p.1 := p.2]> m)
                   (∅ : gmap string string) ps !! get_filename j t
                 = Some (get_filename j T)).
    { apply foldl_insert_lookup; [done|]. apply elem_of_renames.
      exists j. split; [unfold T; lia|done]. }
    by rewrite Hl.
  - cbn [and_then] in Hsave. injection Hsave as <-. wsimpl.
    by rewrite Hwm, Htsf.
Qed.

Lemma run_keeps_shard (ops : list op) (w w' : writer) (k : string)
    (i : nat) :
  consistent w -> run ops w = Done w' -> weight_map w !! k
    = Some (get_filename i (total_shards_finalized w)) ->
  weight_map w' !! k
    = Some (get_filename i (total_shards_finalized w')).
Proof.
  revert w. induction ops as [|o ops IH]; intros w Hc Hrun Hk.
  - cbn in Hrun. by injection Hrun as <-.
  - cbn [run] in Hrun.
    destruct (run_op o w) as [w1|] eqn:Hop; cbn [and_then] in Hrun;
      [|done].
    assert (Hc1 : consistent w1).
    { apply (run_consistent [o] w w1 Hc). cbn [run]. by rewrite Hop. }
    apply (IH w1 Hc1 Hrun).
    destruct o as [k' v|k'|]; cbn [run_op] in Hop.
    + by apply (setitem_keeps_shard w w1 k' k v).
    + destruct (__getitem__ k' w) as [[w2 v]|] eqn:Hg;
        cbn [and_then] in Hop; [|done].
      injection Hop as <-. cbn [fst].
      destruct (getitem_keeps_maps w w2 k' v Hg) as [-> ->]. done.
    + by apply (save_keeps_shard w).
Qed.

End shard_stability.

(** X14: a key never moves to another shard.  Once a key is filed under
    shard number [i], every later update of it, every insertion, read and
    save leaves it in shard [i]; only the total in the file name changes
    when [save] renumbers. *)
Theorem key_stays_in_shard (max : Z) (ops ops' : list Streaming.op)
    (w w' : Streaming.writer) (k : string) (i : nat) :
  Streaming.run ops (Streaming.fresh_writer max) = Done w ->
  Streaming.run ops' w = Done w' ->
  Streaming.weight_map w !! k
    = Some (Streaming.get_filename i (Streaming.total_shards_finalized w)) ->
  Streaming.weight_map w' !! k
    = Some (Streaming.get_filename i (Streaming.total_shards_finalized w')).
Proof.
  intros Hrun Hrun' Hk.
  pose proof (run_consistent ops _ w (consistent_fresh max) Hrun) as Hc.
  by apply (run_keeps_shard ops' w w' k i Hc Hrun').
Qed.

Lemma key_stays_in_shard_witness :
  let t n := Streaming.Build_HFTensor Streaming.torch_uint8
               (Torch.mkTensor [n] (replicate n 0%Z)) in
  let ops := [Streaming.SetItem "a" (t 60); Streaming.SetItem "b" (t 50)] in
  let ops' := [Streaming.SetItem "a" (t 10); Streaming.SetItem "c" (t 20);
               Streaming.Save] in
  exists w w',
    Streaming.run ops (Streaming.fresh_writer 100) = Done w
    ∧ Streaming.run ops' w = Done w'
    ∧ Streaming.weight_map w' !! "a"
      = Some "pytorch_model-00001-of-00002.bin".
Proof.
  intros t ops ops'.
  destruct (Streaming.run ops (Streaming.fresh_writer 100)) as [w|e r] eqn:Hrun;
    [|vm_compute in Hrun; discriminate Hrun].
  destruct (Streaming.run ops' w) as [w'|e r] eqn:Hrun'.
  2:{ exfalso. vm_compute in Hrun. injection Hrun as <-.
      vm_compute in Hrun'. discriminate Hrun'. }
  pose proof (key_stays_in_shard 100 ops ops' w w' "a" 0 Hrun Hrun') as Hk.
  exists w, w'. split; [reflexivity|]. split; [exact Hrun'|].
  assert (Ht : Streaming.total_shards_finalized w' = 2).
  { vm_compute in Hrun. injection Hrun as <-.
    vm_compute in Hrun'. injection Hrun' as <-. reflexivity. }
  rewrite Ht in Hk. apply Hk.
  vm_compute in Hrun. injection Hrun as <-. vm_compute. reflexivity.
Defined.

(** * The sharded reader *)

Section reader_lemmas.
Import Reader.

Variable dir : gmap string Streaming.file.

Lemma getitem_in_step (wm : gmap string string) (r : reader)
    (k : string) :
  (forall k f, wm !! k = Some f ->
     exists d, dir !! f = Some (Streaming.ShardFile d)) ->
  in_step dir wm r ->
  in_step dir wm (after (__getitem__ dir k r))
  ∧ match wm !! k with
    | None => __getitem__ dir k r = Raised (Py KeyError) r
    | Some f =>
        exists d, dir !! f = Some (Streaming.ShardFile d)
          ∧ __getitem__ dir k r
            = subscript d k (mkReader wm (Some f) (Loaded d))
    end.
Proof.
  intros Hshards [Hwm Hact]. unfold __getitem__. rewrite Hwm.
  destruct (wm !! k) as [f|] eqn:Hk; [|by split].
  destruct (Hshards k f Hk) as (d & Hd).
  assert (Hstep : in_step dir wm (mkReader wm (Some f) (Loaded d))).
  { split; [done|]. right. by exists f, d. }
  assert (Hsub : in_step dir wm
            (after (subscript d k (mkReader wm (Some f) (Loaded d))))).
  { unfold subscript. by destruct (d !! k). }
  case_decide as Hne.
  - destruct Hact as [[Hn Hdata]|(f' & d' & Hn & Hdata & Hf')];
      rewrite Hdata, Hd; (split; [done|by exists d]).
  - assert (Hf : active_file_name r = Some f)
      by (destruct (decide (Some f = active_file_name r)); done).
    destruct Hact as [[Hn _]|(f' & d' & Hn & Hdata & Hf')]; [congruence|].
    rewrite Hn in Hf. injection Hf as ->.
    assert (d' = d) as -> by congruence.
    rewrite Hdata.
    assert (Hr : r = mkReader wm (Some f) (Loaded d)).
    { destruct r; cbn in *; congruence. }
    rewrite <- Hr in *. split; [done|]. exists d. by rewrite <- Hr.
Qed.

Lemma reads_in_step (wm : gmap string string) (ks : list string)
    (r : reader) :
  (forall k f, wm !! k = Some f ->
     exists d, dir !! f = Some (Streaming.ShardFile d)) ->
  in_step dir wm r -> in_step dir wm (reads dir ks r).
Proof.
  intros Hshards. revert r. induction ks as [|k ks IH]; intros r Hr;
    [done|].
  cbn [reads]. apply IH. by apply getitem_in_step.
Qed.

Lemma init_in_step (index_name : string) (r0 : reader) :
  __init__ dir index_name = Ok r0 ->
  in_step dir (weight_map r0) r0
  ∧ (exists total,
       dir !! index_name
       = Some (Streaming.IndexFile total (weight_map r0)))
  ∧ forall k f, weight_map r0 !! k = Some f -> is_Some (dir !! f).
Proof.
  unfold __init__. intros Hinit.
  destruct (dir !! index_name) as [[sh|total wm]|]; try done.
  case_decide as Hall; [|done]. injection Hinit as <-. cbn.
  split; [split; [done|by left]|]. split; [eauto|].
  intros k f Hk. by apply (Hall k f).
Qed.

End reader_lemmas.

(** X4: when every file the index lists is a shard file, a reader reads,
    in whatever order and however often the keys are asked for, the value
    the shard file of the key holds; a key that is not in the index raises
    [KeyError] and leaves the reader as it was. *)
Theorem reader_returns_shard_contents (dir : gmap string Streaming.file)
    (index_name : string) (r0 : Reader.reader) (ks : list string)
    (k : string) :
  Reader.__init__ dir index_name = Ok r0 ->
  (forall k f, Reader.weight_map r0 !! k = Some f ->
     exists d, dir !! f = Some (Streaming.ShardFile d)) ->
  let r := Reader.reads dir ks r0 in
  match Reader.weight_map r0 !! k with
  | None => Reader.__getitem__ dir k r = Reader.Raised (Reader.Py KeyError) r
  | Some f =>
      exists d, dir !! f = Some (Streaming.ShardFile d)
        ∧ Reader.__getitem__ dir k r
          = Reader.subscript d k
              (Reader.mkReader (Reader.weight_map r0) (Some f)
                 (Reader.Loaded d))
  end.
Proof.
  intros Hinit Hshards r.
  destruct (init_in_step dir index_name r0 Hinit) as (H0 & _).
  pose proof (reads_in_step dir _ ks r0 Hshards H0) as Hr.
  by destruct (getitem_in_step dir _ (Reader.reads dir ks r0) k Hshards Hr).
Qed.

Lemma reader_returns_shard_contents_witness :
  let t n := Streaming.Build_HFTensor Streaming.torch_uint8
               (Torch.mkTensor [n] (replicate n 0%Z)) in
  let dir : gmap string Streaming.file :=
    {["index.json" := Streaming.IndexFile 3 {["a" := "s1"; "b" := "s2"]};
      "s1" := Streaming.ShardFile {["a" := t 1]};
      "s2" := Streaming.ShardFile {["b" := t 2]}]} in
  exists r0 r1,
    Reader.__init__ dir "index.json" = Ok r0
    ∧ Reader.__getitem__ dir "a" (Reader.reads dir ["b"; "a"; "b"] r0)
      = Reader.Returned r1 (t 1).
Proof.
  intros t dir.
  destruct (Reader.__init__ dir "index.json") as [r0|e] eqn:Hinit;
    [|vm_compute in Hinit; discriminate Hinit].
  assert (Hwm : Reader.weight_map r0 = {["a" := "s1"; "b" := "s2"]}).
  { vm_compute in Hinit. injection Hinit as <-. vm_compute. reflexivity. }
  assert (Hshards : forall k f, Reader.weight_map r0 !! k = Some f ->
            exists d, dir !! f = Some (Streaming.ShardFile d)).
  { intros k f. rewrite Hwm. intros Hk.
    apply lookup_insert_Some in Hk as [[_ <-]|[_ Hk]].
    - eexists. vm_compute. reflexivity.
    - apply lookup_singleton_Some in Hk as [_ <-].
      eexists. vm_compute. reflexivity. }
  pose proof (reader_returns_shard_contents dir "index.json" r0
                ["b"; "a"; "b"] "a" Hinit Hshards) as Hread.
  cbn zeta in Hread. rewrite Hwm in Hread.
  rewrite lookup_insert_eq in Hread.
  destruct Hread as (d & Hd & Hread).
  assert (d = {["a" := t 1]}) as ->.
  { vm_compute in Hd. injection Hd as <-. vm_compute. reflexivity. }
  exists r0. eexists. split; [reflexivity|].
  rewrite Hread. unfold Reader.subscript. rewrite lookup_singleton_eq.
  reflexivity.
Defined.

(** X5: what the writer saves, the reader reads.  After [save] has
    returned on a writer reached by calls that all returned, a reader
    opened on the index file finds every shard, and reading a key, after
    any other reads, returns the value of the last [__setitem__] under it;
    a key that was never set raises [KeyError]. *)
Theorem writer_reader_round_trip (max : Z) (ops : list Streaming.op)
    (w w' : Streaming.writer) (ks : list string) (k : string) :
  Streaming.run ops (Streaming.fresh_writer max) = Done w ->
  Streaming.save w = Done w' ->
  exists r0,
    Reader.__init__ (Streaming.fs w') Streaming.index_file = Ok r0
    ∧ let r := Reader.reads (Streaming.fs w') ks r0 in
      match Streaming.dict_of ops ∅ !! k with
      | Some v =>
          exists r1,
            Reader.__getitem__ (Streaming.fs w') k r = Reader.Returned r1 v
      | None =>
          Reader.__getitem__ (Streaming.fs w') k r
          = Reader.Raised (Reader.Py KeyError) r
      end.
Proof.
  intros Hrun Hsave.
  pose proof (run_consistent ops _ w (consistent_fresh max) Hrun) as Hc.
  pose proof (run_agrees ops _ w ∅ (consistent_fresh max)
                (agrees_fresh max) Hrun) as Ha.
  pose proof (save_agrees w w' _ Hc Ha Hsave) as Ha'.
  destruct (save_spec w w' Hc Hsave)
    as (Hc' & _ & _ & Hd & Hidx & _).
  set (d := Streaming.dict_of ops ∅) in *.
  assert (Hshards : forall k f, Streaming.weight_map w' !! k = Some f ->
            exists v sh, d !! k = Some v
              ∧ Streaming.fs w' !! f = Some (Streaming.ShardFile sh)
              ∧ sh !! k = Some v).
  { intros k' f Hk.
    destruct (Streaming.agrees_present w' d Ha' k' f Hk)
      as (v & Hv & _ & Hfile).
    destruct Hfile as (sh & Hsh & Hshk); [by right|]. eauto. }
  exists (Reader.mkReader (Streaming.weight_map w') None Reader.PyNone).
  split.
  - unfold Reader.__init__. rewrite Hidx. rewrite decide_True; [done|].
    intros k' f Hk. destruct (Hshards k' f Hk) as (v & sh & _ & Hsh & _).
    eauto.
  - cbn zeta.
    set (r0 := Reader.mkReader (Streaming.weight_map w') None Reader.PyNone).
    assert (Hsh' : forall k f, Streaming.weight_map w' !! k = Some f ->
              exists sh, Streaming.fs w' !! f
                         = Some (Streaming.ShardFile sh)).
    { intros k' f Hk. destruct (Hshards k' f Hk) as (v & sh & _ & Hsh & _).
      eauto. }
    assert (H0 : Reader.in_step (Streaming.fs w')
                   (Streaming.weight_map w') r0)
      by (split; [done|by left]).
    pose proof (reads_in_step _ _ ks r0 Hsh' H0) as Hr.
    destruct (getitem_in_step _ _ (Reader.reads (Streaming.fs w') ks r0) k
                Hsh' Hr) as [_ Hget].
    destruct (d !! k) as [v|] eqn:Hdk.
    + destruct (Streaming.weight_map w' !! k) as [f|] eqn:Hk.
      2:{ rewrite (Streaming.agrees_absent w' d Ha' k Hk) in Hdk. done. }
      destruct Hget as (sh & Hsh & Hget).
      destruct (Hshards k f Hk) as (v' & sh' & Hv' & Hs' & Hshk).
      assert (sh' = sh) as -> by congruence.
      assert (v' = v) as -> by congruence.
      rewrite Hget. unfold Reader.subscript. rewrite Hshk. eauto.
    + by rewrite (agrees_None w' d k Ha' Hdk) in Hget.
Qed.

Lemma writer_reader_round_trip_witness :
  let t n := Streaming.Build_HFTensor Streaming.torch_uint8
               (Torch.mkTensor [n] (replicate n 0%Z)) in
  let ops := [Streaming.SetItem "a" (t 60); Streaming.SetItem "b" (t 50);
              Streaming.SetItem "a" (t 70)] in
  exists w w' r0 r1,
    Streaming.run ops (Streaming.fresh_writer 100) = Done w
    ∧ Streaming.save w = Done w'
    ∧ Reader.__init__ (Streaming.fs w') Streaming.index_file = Ok r0
    ∧ Reader.__getitem__ (Streaming.fs w') "a"
        (Reader.reads (Streaming.fs w') ["b"] r0)
      = Reader.Returned r1 (t 70).
Proof.
  intros t ops.
  destruct (Streaming.run ops (Streaming.fresh_writer 100)) as [w|e r] eqn:Hrun;
    [|vm_compute in Hrun; discriminate Hrun].
  destruct (Streaming.save w) as [w'|e r] eqn:Hsave.
  2:{ exfalso. vm_compute in Hrun. injection Hrun as <-.
      vm_compute in Hsave. discriminate Hsave. }
  destruct (writer_reader_round_trip 100 ops w w' ["b"] "a" Hrun Hsave)
    as (r0 & Hinit & Hread).
  cbn zeta in Hread.
  assert (Hd : Streaming.dict_of ops ∅ !! "a" = Some (t 70))
    by (vm_compute; reflexivity).
  rewrite Hd in Hread. destruct Hread as (r1 & Hread).
  exists w, w', r0, r1. split; [reflexivity|]. split; [exact Hsave|].
  split; [exact Hinit|exact Hread].
Defined.

Section reader_failure.
Import Reader.
Variable dir : gmap string Streaming.file.

Lemma unbound_getitem (r : reader) (k : string) :
  active_file_data r = Unbound ->
  weight_map (after (__getitem__ dir k r)) = weight_map r
  ∧ active_file_data (after (__getitem__ dir k r)) = Unbound
  ∧ (is_Some (weight_map r !! k) ->
     __getitem__ dir k r
     = Raised AttributeError (after (__getitem__ dir k r))).
Proof.
  intros Hu. unfold __getitem__.
  destruct (weight_map r !! k) as [f|]; cbn [after].
  - case_decide; rewrite Hu; cbn [after]; wsimpl; cbn; done.
  - split; [done|]. split; [done|]. intros [? ?]. done.
Qed.

Lemma unbound_reads (ks : list string) (r : reader) :
  active_file_data r = Unbound ->
  weight_map (reads dir ks r) = weight_map r
  ∧ active_file_data (reads dir ks r) = Unbound.
Proof.
  revert r. induction ks as [|k ks IH]; intros r Hu; [done|].
  cbn [reads]. destruct (unbound_getitem r k Hu) as (Hwm & Hu' & _).
  destruct (IH _ Hu') as [Hwm' Hu'']. by rewrite Hwm', Hwm.
Qed.

End reader_failure.

(** X6: a load that fails leaves the reader unusable.  When a reader that
    holds a loaded shard is asked for a key whose file is missing or is not
    a shard file, the call raises after [del] has removed the loaded data;
    from then on every read of a key of the index, also of an intact shard,
    raises [AttributeError]. *)
Theorem reader_unusable_after_failed_load (dir : gmap string Streaming.file)
    (r : Reader.reader) (d : gmap string Streaming.HFTensor)
    (k f : string) (ks : list string) (k' : string) :
  Reader.active_file_data r = Reader.Loaded d ->
  Reader.weight_map r !! k = Some f ->
  Reader.active_file_name r ≠ Some f ->
  (forall sh, dir !! f ≠ Some (Streaming.ShardFile sh)) ->
  is_Some (Reader.weight_map r !! k') ->
  exists e r1 r2,
    Reader.__getitem__ dir k r = Reader.Raised e r1
    ∧ (e = Reader.Py FileNotFoundError ∨ e = Reader.UnpicklingError)
    ∧ Reader.__getitem__ dir k' (Reader.reads dir ks r1)
      = Reader.Raised Reader.AttributeError r2.
Proof.
  intros Hdata Hk Hact Hbad Hk'.
  set (r1 := Reader.mkReader (Reader.weight_map r) (Some f) Reader.Unbound).
  assert (Hget : exists e,
            Reader.__getitem__ dir k r = Reader.Raised e r1
            ∧ (e = Reader.Py FileNotFoundError
               ∨ e = Reader.UnpicklingError)).
  { unfold Reader.__getitem__. rewrite Hk.
    rewrite decide_True by congruence. rewrite Hdata.
    destruct (dir !! f) as [[sh|total wm]|] eqn:Hf.
    - by destruct (Hbad sh).
    - exists Reader.UnpicklingError. auto.
    - exists (Reader.Py FileNotFoundError). auto. }
  destruct Hget as (e & Hget & He).
  destruct (unbound_reads dir ks r1 eq_refl) as [Hwm Hu].
  destruct (unbound_getitem dir (Reader.reads dir ks r1) k' Hu)
    as (_ & _ & Hattr).
  exists e, r1. eexists. split; [exact Hget|]. split; [exact He|].
  apply Hattr. by rewrite Hwm.
Qed.

Lemma reader_unusable_after_failed_load_witness :
  let t n := Streaming.Build_HFTensor Streaming.torch_uint8
               (Torch.mkTensor [n] (replicate n 0%Z)) in
  let dir : gmap string Streaming.file :=
    {["s1" := Streaming.ShardFile {["a" := t 1]}]} in
  let r := Reader.mkReader {["a" := "s1"; "b" := "s2"]} (Some "s1")
             (Reader.Loaded {["a" := t 1]}) in
  exists e r1 r2,
    Reader.__getitem__ dir "b" r = Reader.Raised e r1
    ∧ Reader.__getitem__ dir "a" (Reader.reads dir [] r1)
      = Reader.Raised Reader.AttributeError r2.
Proof.
  intros t dir r.
  destruct (reader_unusable_after_failed_load dir r {["a" := t 1]}
              "b" "s2" [] "a") as (e & r1 & r2 & Hget & _ & Hattr).
  - reflexivity.
  - vm_compute. reflexivity.
  - discriminate.
  - intros sh Hsh. vm_compute in Hsh. discriminate Hsh.
  - exists "s1". vm_compute. reflexivity.
  - exists e, r1, r2. split; [exact Hget|exact Hattr].
Defined.

(** * Configuration converters *)

Section config_lemmas.
Import Llama Config.

Lemma gated_tables_inverse (a b : string) :
  assoc gated_hf2cs a = Some b <-> assoc gated_cs2hf b = Some a.
Proof.
  unfold gated_hf2cs, gated_cs2hf. cbn [assoc].
  split; intros Hx;
    repeat (case_decide; [simplify_eq; by vm_compute|]); done.
Qed.

Lemma glu_lookup_inr (table : list (string * string)) (msg : string)
    (v w : cfg_value) :
  glu_lookup table msg v = inr w ->
  exists a b, v = CStr a ∧ w = CStr b ∧ assoc table a = Some b.
Proof.
  unfold glu_lookup. destruct v as [z|a|d]; try done.
  destruct (assoc table a) as [b|] eqn:Hb; [|done].
  intros [= <-]. eauto.
Qed.

End config_lemmas.

(** X7: the activation converter of the LLaMA config is its own inverse.
    When the HF to CS direction returns, it has written a gated activation
    under the new key, and the CS to HF direction applied to a config that
    holds this activation writes back the original one; the same holds
    starting from CS. *)
Theorem nonlinearity_round_trip (hf_key cs_key : string)
    (osd nsd sd1 : gmap string Llama.cfg_value) (from_index : nat) :
  from_index = 0 ∨ from_index = 1 ->
  Config.convert_nonlinearity hf_key cs_key osd nsd from_index
    = Config.CDone sd1 ->
  exists original converted,
    osd !! hf_key = Some original
    ∧ sd1 = <[cs_key := converted]> nsd
    ∧ forall csd nsd' : gmap string Llama.cfg_value,
        csd !! cs_key = Some converted ->
        Config.convert_nonlinearity cs_key hf_key csd nsd' (1 - from_index)
        = Config.CDone (<[hf_key := original]> nsd').
Proof.
  intros Hdir Hconv. unfold Config.convert_nonlinearity in Hconv.
  destruct (osd !! hf_key) as [v|] eqn:Hv; [|done].
  destruct Hdir as [-> | ->].
  - rewrite decide_True in Hconv by done.
    destruct (Config.glu_lookup _ _ v) as [e|w] eqn:Hl; [done|].
    injection Hconv as <-.
    apply glu_lookup_inr in Hl as (a & b & -> & -> & Hab).
    exists (Llama.CStr a), (Llama.CStr b). split; [done|]. split; [done|].
    intros csd nsd' Hc. unfold Config.convert_nonlinearity. rewrite Hc.
    cbn [Nat.sub]. rewrite decide_False by done.
    rewrite decide_True by done. unfold Config.glu_lookup.
    apply gated_tables_inverse in Hab. by rewrite Hab.
  - rewrite decide_False in Hconv by done.
    rewrite decide_True in Hconv by done.
    destruct (Config.glu_lookup _ _ v) as [e|w] eqn:Hl; [done|].
    injection Hconv as <-.
    apply glu_lookup_inr in Hl as (a & b & -> & -> & Hab).
    exists (Llama.CStr a), (Llama.CStr b). split; [done|]. split; [done|].
    intros csd nsd' Hc. unfold Config.convert_nonlinearity. rewrite Hc.
    cbn [Nat.sub]. rewrite decide_True by done. unfold Config.glu_lookup.
    apply gated_tables_inverse in Hab. by rewrite Hab.
Qed.

Lemma nonlinearity_round_trip_witness :
  exists sd1,
    Config.convert_nonlinearity "hidden_act" "nonlinearity"
      {["hidden_act" := Llama.CStr "silu"]} ∅ 0 = Config.CDone sd1
    ∧ Config.convert_nonlinearity "nonlinearity" "hidden_act" sd1 ∅ 1
      = Config.CDone {["hidden_act" := Llama.CStr "silu"]}.
Proof.
  destruct (Config.convert_nonlinearity "hidden_act" "nonlinearity"
              {["hidden_act" := Llama.CStr "silu"]} ∅ 0) as [sd1|e r] eqn:Hc;
    [|vm_compute in Hc; discriminate Hc].
  destruct (nonlinearity_round_trip "hidden_act" "nonlinearity" _ ∅ sd1 0
              (or_introl eq_refl) Hc)
    as (original & converted & Ho & -> & Hback).
  rewrite lookup_singleton_eq in Ho. injection Ho as <-.
  eexists. split; [reflexivity|].
  rewrite (Hback _ ∅ (lookup_insert_eq _ _ _)). reflexivity.
Defined.

(** X8: an activation that has no gated counterpart is refused by the
    LLaMA config converter in both directions with [ConfigConversionError],
    and nothing is written. *)
Theorem nonlinearity_rejects_unknown (old_key new_key a : string)
    (osd nsd : gmap string Llama.cfg_value) (from_index : nat) :
  osd !! old_key = Some (Llama.CStr a) ->
  (from_index = 0 ∧ a ∉ ["silu"; "relu"; "gelu"])
  ∨ (from_index = 1 ∧ a ∉ ["swiglu"; "reglu"; "geglu"]) ->
  exists msg,
    Config.convert_nonlinearity old_key new_key osd nsd from_index
    = Config.CFailed (Config.ConfigConversionError msg) nsd.
Proof.
  intros Ho Hdir. unfold Config.convert_nonlinearity. rewrite Ho.
  destruct Hdir as [[-> Ha]|[-> Ha]].
  - rewrite decide_True by done. unfold Config.glu_lookup.
    assert (Hn : Config.assoc Config.gated_hf2cs a = None).
    { unfold Config.gated_hf2cs. cbn [Config.assoc].
      repeat (case_decide;
              [exfalso; apply Ha; subst a;
               apply (bool_decide_unpack _); by vm_compute|]).
      done. }
    rewrite Hn. eauto.
  - rewrite decide_False by done. rewrite decide_True by done.
    unfold Config.glu_lookup.
    assert (Hn : Config.assoc Config.gated_cs2hf a = None).
    { unfold Config.gated_cs2hf. cbn [Config.assoc].
      repeat (case_decide;
              [exfalso; apply Ha; subst a;
               apply (bool_decide_unpack _); by vm_compute|]).
      done. }
    rewrite Hn. eauto.
Qed.

Lemma nonlinearity_rejects_unknown_witness :
  exists msg,
    Config.convert_nonlinearity "hidden_act" "nonlinearity"
      {["hidden_act" := Llama.CStr "tanh"]} ∅ 0
    = Config.CFailed (Config.ConfigConversionError msg) ∅.
Proof.
  apply (nonlinearity_rejects_unknown "hidden_act" "nonlinearity" "tanh").
  - apply lookup_singleton_eq.
  - left. split; [reflexivity|].
    apply (bool_decide_unpack _). vm_compute. exact I.
Defined.

(** X9: a grouped-query LLaMA config survives the round trip.  When the HF
    to CS direction of [convert_gqa] returns for a number of key/value
    heads that differs from the number of attention heads, it has written
    the group count and the multi-query attention module, and the CS to HF
    direction on a config with these entries and the same number of heads
    writes the original number of key/value heads back. *)
Theorem gqa_round_trip (hf_key cs_key : string)
    (osd nsd sd1 : gmap string Llama.cfg_value) (g h : Z) :
  osd !! hf_key = Some (Llama.CInt g) ->
  osd !! "num_attention_heads" = Some (Llama.CInt h) ->
  g ≠ h ->
  Llama.convert_gqa hf_key cs_key osd nsd 0 = Done sd1 ->
  sd1 = <["attention_module" := Llama.CStr "multiquery_attention"]>
          (<[cs_key := Llama.CDict {["num_kv_groups" := g]}]> nsd)
  ∧ forall csd nsd' : gmap string Llama.cfg_value,
      csd !! cs_key = Some (Llama.CDict {["num_kv_groups" := g]}) ->
      csd !! "attention_module"
        = Some (Llama.CStr "multiquery_attention") ->
      csd !! "num_heads" = Some (Llama.CInt h) ->
      Llama.convert_gqa cs_key hf_key csd nsd' 1
      = Done (<[hf_key := Llama.CInt g]> nsd').
Proof.
  intros Hg Hh Hne Hconv.
  unfold Llama.convert_gqa, Llama.gqa_writes in Hconv.
  rewrite decide_True in Hconv by done.
  unfold Llama.cfg_get in Hconv. rewrite Hg, Hh in Hconv.
  cbn [mbind result_bind] in Hconv.
  rewrite decide_False in Hconv by congruence.
  unfold Llama.py_mod in Hconv.
  destruct (decide (g = 0%Z)) as [->|Hg0]; [done|].
  cbn [mbind result_bind] in Hconv.
  case_decide as Hmod; [|done].
  injection Hconv as <-. cbn [foldl fst snd]. split; [done|].
  intros csd nsd' Hc Hm Hn.
  unfold Llama.convert_gqa, Llama.gqa_writes.
  rewrite decide_False by done. rewrite decide_True by done.
  rewrite Hm. cbn [default]. rewrite decide_False by done.
  rewrite decide_True by done.
  unfold Llama.cfg_get. rewrite Hn, Hc. cbn [mbind result_bind].
  unfold Llama.cfg_item. rewrite lookup_singleton_eq.
  cbn [mbind result_bind]. unfold Llama.py_mod.
  rewrite decide_False by done. cbn [mbind result_bind].
  rewrite decide_True by done. done.
Qed.

Lemma gqa_round_trip_witness :
  let osd : gmap string Llama.cfg_value :=
    {["num_key_value_heads" := Llama.CInt 8;
      "num_attention_heads" := Llama.CInt 64]} in
  exists sd1,
    Llama.convert_gqa "num_key_value_heads" "extra_attention_params" osd ∅ 0
    = Done sd1
    ∧ Llama.convert_gqa "extra_attention_params" "num_key_value_heads"
        (<["num_heads" := Llama.CInt 64]> sd1) ∅ 1
      = Done {["num_key_value_heads" := Llama.CInt 8]}.
Proof.
  intros osd.
  destruct (Llama.convert_gqa "num_key_value_heads" "extra_attention_params"
              osd ∅ 0) as [sd1|e r] eqn:Hc;
    [|vm_compute in Hc; discriminate Hc].
  destruct (gqa_round_trip "num_key_value_heads" "extra_attention_params"
              osd ∅ sd1 8 64) as [-> Hback].
  - vm_compute. reflexivity.
  - vm_compute. reflexivity.
  - lia.
  - exact Hc.
  - eexists. split; [reflexivity|]. apply Hback.
    + vm_compute. reflexivity.
    + vm_compute. reflexivity.
    + apply lookup_insert_eq.
Defined.

(** X10: the Falcon hidden-size converter.  HF to CS writes the hidden
    size and four times it as [filter_size]; CS to HF returns on a config
    whose [filter_size] is four times the hidden size, and on any other
    [filter_size] it raises [AssertionError] after the hidden size has
    been written. *)
Theorem falcon_hidden_size_round_trip (hf_key cs_key : string)
    (osd nsd : gmap string Llama.cfg_value) (h : Z) :
  osd !! hf_key = Some (Llama.CInt h) ->
  Config.convert_hidden_size hf_key cs_key osd nsd 0
    = Config.CDone (<["filter_size" := Llama.CInt (h * 4)]>
                      (<[cs_key := Llama.CInt h]> nsd))
  ∧ forall (csd nsd' : gmap string Llama.cfg_value) (filter : Llama.cfg_value),
      csd !! cs_key = Some (Llama.CInt h) ->
      csd !! "filter_size" = Some filter ->
      Config.convert_hidden_size cs_key hf_key csd nsd' 1
      = if decide (filter = Llama.CInt (h * 4))
        then Config.CDone (<[hf_key := Llama.CInt h]> nsd')
        else Config.CFailed
               (Config.Py (AssertionError
                  "HF model only supports filter_size = 4 * hidden_size"))
               (<[hf_key := Llama.CInt h]> nsd').
Proof.
  intros Hh. split.
  - unfold Config.convert_hidden_size. rewrite Hh. cbn [Config.times4].
    by rewrite decide_True by done.
  - intros csd nsd' filter Hc Hf. unfold Config.convert_hidden_size.
    rewrite Hc. cbn [Config.times4]. rewrite decide_False by done.
    rewrite Hf. case_decide as H1; case_decide as H2; congruence.
Qed.

Lemma falcon_hidden_size_round_trip_witness :
  Config.convert_hidden_size "hidden_size" "hidden_size"
    {["hidden_size" := Llama.CInt 8192]} ∅ 0
  = Config.CDone {["filter_size" := Llama.CInt 32768;
                   "hidden_size" := Llama.CInt 8192]}.
Proof.
  destruct (falcon_hidden_size_round_trip "hidden_size" "hidden_size"
              {["hidden_size" := Llama.CInt 8192]} ∅ 8192) as [Hfwd _].
  - apply lookup_singleton_eq.
  - exact Hfwd.
Defined.

(** X11: the rotary dimension that the HF to CS direction of
    [post_config_convert] writes, [hidden_size // num_heads], is the one
    that [assert_rotary_dim] accepts in the CS to HF direction; any other
    value of [rotary_dim] is refused with [ConfigConversionError]; the
    check writes nothing. *)
Theorem rotary_dim_written_is_accepted
    (base : gmap string Llama.cfg_value -> gmap string Llama.cfg_value ->
            gmap string Llama.cfg_value -> nat -> bool ->
            Config.cfg_exn + gmap string Llama.cfg_value)
    (original old new : gmap string Llama.cfg_value) (drop : bool)
    (h n : Z) :
  new !! "hidden_size" = Some (Llama.CInt h) ->
  new !! "num_heads" = Some (Llama.CInt n) ->
  n ≠ 0%Z ->
  let new' := <["rotary_dim" := Llama.CInt (h `div` n)]> new in
  Config.post_config_convert base original old new 0 drop
    = base original old new' 0 drop
  ∧ forall (new_key : string) (nsd : gmap string Llama.cfg_value)
           (rotary_dim : Llama.cfg_value),
      Config.assert_rotary_dim "rotary_dim" new_key
        (<["rotary_dim" := rotary_dim]> new) nsd 1
      = if decide (rotary_dim = Llama.CInt (h `div` n))
        then Config.CDone nsd
        else Config.CFailed
               (Config.ConfigConversionError
                  "rotary_dim must be hidden_size // num_heads in order to be compatible with HF")
               nsd.
Proof.
  intros Hh Hn Hn0 new'. split.
  - unfold Config.post_config_convert. rewrite decide_True by done.
    rewrite Hh, Hn. unfold Config.floordiv.
    by rewrite decide_False by done.
  - intros new_key nsd rotary_dim. unfold Config.assert_rotary_dim.
    rewrite decide_True by done. rewrite lookup_insert_eq.
    rewrite !lookup_insert_ne by done. rewrite Hh, Hn.
    unfold Config.floordiv. rewrite decide_False by done.
    case_decide as H1; case_decide as H2; congruence.
Qed.

Lemma rotary_dim_written_is_accepted_witness :
  let new : gmap string Llama.cfg_value :=
    {["hidden_size" := Llama.CInt 4096; "num_heads" := Llama.CInt 32]} in
  Config.assert_rotary_dim "rotary_dim" "rotary_dim"
    (<["rotary_dim" := Llama.CInt 128]> new) ∅ 1
  = Config.CDone ∅.
Proof.
  intros new.
  destruct (rotary_dim_written_is_accepted (fun _ _ c _ _ => inr c)
              ∅ ∅ new false 4096 32) as [_ Hcheck].
  - vm_compute. reflexivity.
  - vm_compute. reflexivity.
  - lia.
  - rewrite (Hcheck "rotary_dim" ∅ (Llama.CInt 128)). reflexivity.
Defined.

(** * The hierarchical writer view: reading back *)

Section view_reads.
Context {V : Type}.
Import CSWriter.

Lemma assoc_get_set (items : list (pykey * node)) (k : pykey) (x : node) :
  assoc_get (assoc_set items k x) k = Some x.
Proof.
  induction items as [|[k' n] items IH]; cbn [assoc_set assoc_get].
  - by rewrite decide_True.
  - destruct (decide (k' = k)) as [->|Hne]; cbn [assoc_get].
    + by rewrite decide_True.
    + by rewrite decide_False.
Qed.

Lemma assoc_get_set_ne (items : list (pykey * node)) (k k' : pykey)
    (x : node) :
  k ≠ k' -> assoc_get (assoc_set items k x) k' = assoc_get items k'.
Proof.
  intros Hne. induction items as [|[k0 n] items IH];
    cbn [assoc_set assoc_get].
  - by rewrite decide_False.
  - destruct (decide (k0 = k)) as [->|Hne0]; cbn [assoc_get].
    + by rewrite !decide_False.
    + by rewrite IH.
Qed.

Lemma string_app_inj (s x y : string) : s +:+ x = s +:+ y -> x = y.
Proof.
  induction s as [|c s IH]; [done|].
  change (String c (s +:+ x) = String c (s +:+ y) -> x = y).
  intros [= Heq]. by apply IH.
Qed.

Lemma string_app_assoc (s x y : string) :
  (s +:+ x) +:+ y = s +:+ (x +:+ y).
Proof.
  induction s as [|c s IH]; [done|].
  change (String c ((s +:+ x) +:+ y) = String c (s +:+ (x +:+ y))).
  by f_equal.
Qed.

Lemma join_keys_cons (s : string) (k : pykey) (rest : list pykey) :
  join_keys (KStr s :: k :: rest)
  = (r ← join_keys (k :: rest); Ok (s +:+ "." +:+ r)).
Proof. done. Qed.

Lemma join_keys_snoc (pre : list pykey) (a : string) :
  join_keys (pre ++ [KStr a])
  = match join_keys pre with
    | Raise e => Raise e
    | Ok p => Ok (match pre with [] => a | _ => p +:+ "." +:+ a end)
    end.
Proof.
  induction pre as [|[s|i] pre IH]; [done| |done].
  destruct pre as [|k pre]; [done|].
  change ((KStr s :: k :: pre) ++ [KStr a])
    with (KStr s :: k :: (pre ++ [KStr a])).
  rewrite !join_keys_cons.
  change (k :: (pre ++ [KStr a])) with ((k :: pre) ++ [KStr a]).
  rewrite IH.
  destruct (join_keys (k :: pre)) as [p|e];
    cbn [mbind result_bind]; [|done].
  f_equal. by rewrite !string_app_assoc.
Qed.

Lemma join_keys_last_inj (pre : list pykey) (a b n : string) :
  join_keys (pre ++ [KStr a]) = Ok n ->
  join_keys (pre ++ [KStr b]) = Ok n -> a = b.
Proof.
  rewrite !join_keys_snoc.
  destruct (join_keys pre) as [p|e]; [|done].
  destruct pre; intros [= <-] [= Heq]; [done|].
  apply string_app_inj in Heq. apply (string_app_inj ".") in Heq. done.
Qed.

Lemma join_keys_int (pre : list pykey) (i : Z) :
  join_keys (pre ++ [KInt i]) = Raise TypeError.
Proof.
  induction pre as [|[s|j] pre IH]; [done| |done].
  destruct pre as [|k pre]; [done|].
  change ((KStr s :: k :: pre) ++ [KInt i])
    with (KStr s :: k :: (pre ++ [KInt i])).
  rewrite join_keys_cons.
  change (k :: (pre ++ [KInt i])) with ((k :: pre) ++ [KInt i]).
  by rewrite IH.
Qed.

(** What a returning [__setitem__] of a leaf does to a dict-backed
    view. *)
Lemma setitem_leaf_dict (self self' : view V)
    (items : list (pykey * node)) (key : pykey) (x : V) :
  state self = NDict items ->
  __setitem__ self key (PLeaf x) = Done self' ->
  exists name,
    join_keys (prefix self ++ [key]) = Ok name
    ∧ self' = mkView (NDict (assoc_set items key StreamingCSLeaf))
                (prefix self) (<[name := x]> (checkpoint_file self)).
Proof.
  intros Hst Hset. unfold __setitem__ in Hset. rewrite Hst in Hset.
  rewrite contains_key_dict in Hset.
  destruct (assoc_get items key) as [held|] eqn:Hget.
  - rewrite bool_decide_eq_true_2 in Hset by eauto.
    cbn [get_item] in Hset. rewrite Hget in Hset.
    destruct held; cbn [is_leaf negb andb is_container] in Hset; try done.
    destruct (join_keys (prefix self ++ [key])) as [name|];
      [|done].
    cbn [set_item] in Hset. injection Hset as <-. eauto.
  - rewrite bool_decide_eq_false_2 in Hset by (intros [? ?]; done).
    cbn [is_leaf negb andb is_container] in Hset.
    destruct (join_keys (prefix self ++ [key])) as [name|];
      [|done].
    cbn [set_item] in Hset. injection Hset as <-. eauto.
Qed.

End view_reads.

(** X12: on a view whose state is a dict, a leaf that [__setitem__] has
    stored under a string key is what [__getitem__] of the key returns,
    and the leaves under the other keys of the view read as before. *)
Theorem view_leaf_round_trip {V : Type} (self self' : CSWriter.view V)
    (items : list (CSWriter.pykey * CSWriter.node)) (k : string) (x : V) :
  CSWriter.state self = CSWriter.NDict items ->
  CSWriter.__setitem__ self (CSWriter.KStr k) (CSWriter.PLeaf x)
    = Done self' ->
  CSWriter.__getitem__ self' (CSWriter.KStr k) = Ok (inl x)
  ∧ forall (k' : string) (y : V),
      k' ≠ k ->
      CSWriter.__getitem__ self (CSWriter.KStr k') = Ok (inl y) ->
      CSWriter.__getitem__ self' (CSWriter.KStr k') = Ok (inl y).
Proof.
  intros Hst Hset.
  destruct (setitem_leaf_dict self self' items _ x Hst Hset)
    as (name & Hname & ->).
  split.
  - unfold CSWriter.__getitem__.
    cbn [CSWriter.state CSWriter.prefix CSWriter.checkpoint_file
         CSWriter.get_item].
    rewrite assoc_get_set. cbn [mbind result_bind]. rewrite Hname.
    cbn [mbind result_bind]. unfold CSWriter.h5_file.
    by rewrite lookup_insert_eq.
  - intros k' y Hne. unfold CSWriter.__getitem__. rewrite Hst.
    cbn [CSWriter.state CSWriter.prefix CSWriter.checkpoint_file
         CSWriter.get_item].
    rewrite assoc_get_set_ne by congruence.
    destruct (CSWriter.assoc_get items (CSWriter.KStr k')) as [n|];
      [|done].
    cbn [mbind result_bind]. destruct n; try done.
    destruct (CSWriter.join_keys (CSWriter.prefix self ++ [CSWriter.KStr k']))
      as [name'|] eqn:Hname'; [|done].
    cbn [mbind result_bind].
    unfold CSWriter.h5_file. rewrite lookup_insert_ne; [done|].
    intros ->. apply Hne.
    by apply (join_keys_last_inj (CSWriter.prefix self) k' k name').
Qed.

Lemma view_leaf_round_trip_witness :
  exists self',
    CSWriter.__setitem__ (V := Z) CSWriter.StreamingCSWriter
      (CSWriter.KStr "step") (CSWriter.PLeaf 7%Z) = Done self'
    ∧ CSWriter.__getitem__ self' (CSWriter.KStr "step") = Ok (inl 7%Z).
Proof.
  destruct (CSWriter.__setitem__ (V := Z) CSWriter.StreamingCSWriter
              (CSWriter.KStr "step") (CSWriter.PLeaf 7%Z))
    as [self'|e r] eqn:Hset; [|vm_compute in Hset; discriminate Hset].
  exists self'. split; [reflexivity|].
  by destruct (view_leaf_round_trip CSWriter.StreamingCSWriter self' []
                 "step" 7%Z eq_refl Hset).
Defined.

(** * Where the interleave puts each element *)

Section elements.
Context {A : Type} `{Inhabited A}.
Import Torch.

Lemma lookup_total_concat_uniform (K : nat) (ls : list (list A))
    (i r : nat) :
  Forall (fun c => length c = K) ls -> i < length ls -> r < K ->
  concat ls !!! (i * K + r) = (ls !!! i) !!! r.
Proof.
  intros Hls. revert i. induction Hls as [|c ls Hc Hls IH]; intros i Hi Hr.
  - cbn in Hi. lia.
  - cbn [concat]. destruct i as [|i].
    + cbn [Nat.mul Nat.add]. rewrite lookup_total_app_l by lia. done.
    + rewrite lookup_total_app_r by (rewrite Hc; lia).
      replace (S i * K + r - length c) with (i * K + r)
        by (rewrite Hc; lia).
      cbn [length] in Hi. rewrite IH by lia. done.
Qed.

Lemma lookup_total_chunks (K cnt : nat) (l : list A) (i : nat) :
  i < cnt -> chunks K cnt l !!! i = take K (drop (i * K) l).
Proof.
  revert l i. induction cnt as [|cnt IH]; intros l i Hi; [lia|].
  cbn [chunks]. destruct i as [|i].
  - by rewrite drop_0.
  - change ((take K l :: chunks K cnt (drop K l)) !!! S i)
      with (chunks K cnt (drop K l) !!! i).
    rewrite IH by lia. rewrite drop_drop. done.
Qed.

Lemma lookup_total_take_drop (k lo r : nat) (l : list A) :
  r < k -> take k (drop lo l) !!! r = l !!! (lo + r).
Proof.
  intros Hr. rewrite lookup_total_take_lt by done.
  by rewrite lookup_total_drop.
Qed.

(** The element of a slice. *)
Lemma narrow_elem (t a : Tensor A) (ax lo hi dim i r : nat) :
  well_formed t -> shape t !! ax = Some dim -> lo <= hi -> hi <= dim ->
  narrow t ax lo hi = Ok a ->
  i < prod_dims (take ax (shape t)) ->
  r < (hi - lo) * prod_dims (drop (S ax) (shape t)) ->
  data a !!! (i * ((hi - lo) * prod_dims (drop (S ax) (shape t))) + r)
  = data t !!! (i * (dim * prod_dims (drop (S ax) (shape t)))
                + (lo * prod_dims (drop (S ax) (shape t)) + r)).
Proof.
  unfold well_formed. intros Hwf Hax Hlo Hhi Hn Hi Hr.
  rewrite (narrow_eq _ _ _ _ _ Hax Hlo Hhi) in Hn. injection Hn as <-.
  cbn [data]. rewrite (prod_dims_split _ _ _ Hax) in Hwf.
  set (inner := prod_dims (drop (S ax) (shape t))) in *.
  set (outer := prod_dims (take ax (shape t))) in *.
  assert (Hc : Forall (fun c => length c = dim * inner)
                 (chunks (dim * inner) outer (data t)))
    by (by apply Forall_length_chunks).
  rewrite (lookup_total_concat_uniform ((hi - lo) * inner)).
  - match goal with
    | |- context [(?f <$> ?l) !!! ?j] =>
        rewrite (list_lookup_total_fmap f l j)
          by (by rewrite length_chunks)
    end.
    rewrite lookup_total_chunks by done.
    rewrite lookup_total_take_drop by done.
    rewrite lookup_total_take_drop by nia. done.
  - eapply Forall_length_take_drop; [exact Hc|]. nia.
  - by rewrite length_fmap, length_chunks.
  - done.
Qed.

(** The element of a concatenation. *)
Lemma cat_elem (a b c : Tensor A) (ax da db i r : nat) :
  well_formed a -> well_formed b ->
  shape a !! ax = Some da -> shape b !! ax = Some db ->
  cat a b ax = Ok c ->
  i < prod_dims (take ax (shape a)) ->
  r < (da + db) * prod_dims (drop (S ax) (shape a)) ->
  data c !!! (i * ((da + db) * prod_dims (drop (S ax) (shape a))) + r)
  = if decide (r < da * prod_dims (drop (S ax) (shape a)))
    then data a !!! (i * (da * prod_dims (drop (S ax) (shape a))) + r)
    else data b !!! (i * (db * prod_dims (drop (S ax) (shape a)))
                     + (r - da * prod_dims (drop (S ax) (shape a)))).
Proof.
  unfold well_formed. intros Ha Hb Hda Hdb Hc Hi Hr. unfold cat in Hc.
  rewrite Hda, Hdb in Hc. case_decide as Hs; [|done].
  injection Hc as <-. cbn [data].
  destruct (same_but_axis _ _ _ Hs) as (Ht & Hd & _).
  rewrite (prod_dims_split _ _ _ Hda) in Ha.
  rewrite (prod_dims_split _ _ _ Hdb), <- Ht, <- Hd in Hb.
  set (inner := prod_dims (drop (S ax) (shape a))) in *.
  set (outer := prod_dims (take ax (shape a))) in *.
  assert (Hca : Forall (fun c => length c = da * inner)
                  (chunks (da * inner) outer (data a)))
    by (by apply Forall_length_chunks).
  assert (Hcb : Forall (fun c => length c = db * inner)
                  (chunks (db * inner) outer (data b)))
    by (by apply Forall_length_chunks).
  rewrite (lookup_total_concat_uniform ((da + db) * inner)).
  - match goal with
    | |- context [zip_with app ?l ?k !!! ?j] =>
        rewrite (lookup_total_zip_with app l k j)
          by (by rewrite length_chunks)
    end.
    rewrite !lookup_total_chunks by done.
    assert (Hfit : i * (da * inner) + da * inner <= length (data a))
      by (rewrite Ha; nia).
    assert (Hlen : length (take (da * inner)
                             (drop (i * (da * inner)) (data a)))
                   = da * inner)
      by (rewrite length_take, length_drop; lia).
    case_decide as Hlt.
    + rewrite lookup_total_app_l by (rewrite Hlen; lia).
      by rewrite lookup_total_take_drop.
    + rewrite lookup_total_app_r by (rewrite Hlen; lia).
      rewrite Hlen. rewrite lookup_total_take_drop by nia. done.
  - rewrite Nat.mul_add_distr_r. by apply Forall_length_zip_app.
  - rewrite length_zip_with_l_eq; by rewrite !length_chunks.
  - done.
Qed.

(** The element of a permuted tensor. *)
Lemma permute_elem (t t' : Tensor A) (p idx : list nat) :
  permute t p = Ok t' ->
  Forall2 lt idx (gather p (shape t)) ->
  data t' !!! ravel (gather p (shape t)) idx
  = data t !!! ravel (shape t) (gather (inverse_perm p) idx).
Proof.
  unfold permute. intros Hp Hidx. case_decide; [|done].
  injection Hp as <-. cbn [data].
  pose proof (ravel_lt _ _ Hidx) as Hlt.
  match goal with
  | |- context [(?f <$> ?l) !!! ?j] =>
      rewrite (list_lookup_total_fmap f l j) by (by rewrite length_seq)
  end.
  rewrite lookup_total_seq_lt by done. cbn [Nat.add].
  by rewrite unravel_ravel.
Qed.

End elements.

Section llama_elements.
Context {A : Type} `{Inhabited A}.
Import Torch Llama.

(** The steps of [interleave_helper] on a bias. *)
Lemma interleave_bias_steps (n d r m : nat) (dat : list A)
    (cfg : cs_model_config) :
  1 <= n -> rotary_dim cfg = r -> r = 2 * m -> r <= d ->
  length dat = n * d ->
  let T := mkTensor [n; d] dat in
  exists a b r2 c,
    narrow T 1 0 r = Ok a ∧ shape a = [n; r] ∧ well_formed a
    ∧ narrow T 1 r d = Ok b ∧ shape b = [n; d - r] ∧ well_formed b
    ∧ permute (mkTensor [n; 2; m] (data a)) [0; 2; 1] = Ok r2
    ∧ length (data r2) = n * r
    ∧ cat (mkTensor [n; r] (data r2)) b 1 = Ok c
    ∧ shape c = [n; d]
    ∧ interleave_helper T cfg = Ok c.
Proof.
  intros Hn Hr Hm Hrd Hlen T.
  assert (HwT : well_formed T) by (unfold well_formed; simpl; lia).
  destruct (narrow_spec T 1 0 r d HwT eq_refl) as (a & Ha & Hsa & Hwa);
    [lia|lia|].
  destruct (narrow_spec T 1 r d d HwT eq_refl) as (b & Hb & Hsb & Hwb);
    [lia|lia|].
  simpl in Hsa, Hsb. rewrite Nat.sub_0_r in Hsa.
  assert (Hr1 : reshape a [Z.of_nat n; 2; -1]%Z
                = Ok (mkTensor [n; 2; m] (data a))).
  { apply (reshape_infer a [n; 2] [] m); rewrite ?Hsa; simpl; nia. }
  set (r1 := mkTensor [n; 2; m] (data a)).
  destruct (permute_ok r1 [0; 2; 1]) as (d2 & Hp & Hd2); [solve_is_perm|].
  simpl in Hp, Hd2.
  set (r2 := mkTensor [n; m; 2] d2) in *.
  assert (Hr3 : reshape r2 [Z.of_nat n; -1]%Z = Ok (mkTensor [n; r] d2)).
  { apply (reshape_infer r2 [n] [] r); simpl; nia. }
  set (a' := mkTensor [n; r] d2).
  assert (Hwa' : well_formed a') by (unfold well_formed; simpl; lia).
  destruct (cat_spec a' b 1 r (d - r) Hwa' Hwb)
    as (c & Hc & Hsc & Hwc); [done|by rewrite Hsb|by rewrite Hsb|].
  simpl in Hsc. replace (r + (d - r)) with d in Hsc by lia.
  exists a, b, r2, c.
  split; [done|]. split; [done|]. split; [done|]. split; [done|].
  split; [done|]. split; [done|]. split; [done|].
  split; [simpl; lia|]. split; [done|]. split; [done|].
  unfold interleave_helper. rewrite Hr. cbn [shape T].
  fold T. rewrite Ha, Hb. cbn [mbind result_bind].
  rewrite Hr1. cbn [mbind result_bind]. fold r1.
  rewrite Hp. cbn [mbind result_bind].
  rewrite Hr3. cbn [mbind result_bind]. done.
Qed.

(** The steps of [interleave_helper] on a weight. *)
Lemma interleave_weight_steps (n d h r m : nat) (dat : list A)
    (cfg : cs_model_config) :
  1 <= n -> 1 <= h -> rotary_dim cfg = r -> r = 2 * m -> r <= d ->
  length dat = n * d * h ->
  let T := mkTensor [n; d; h] dat in
  exists a b r2 c,
    narrow T 1 0 r = Ok a ∧ shape a = [n; r; h] ∧ well_formed a
    ∧ narrow T 1 r d = Ok b ∧ shape b = [n; d - r; h] ∧ well_formed b
    ∧ permute (mkTensor [n; 2; m; h] (data a)) [0; 2; 1; 3] = Ok r2
    ∧ length (data r2) = n * r * h
    ∧ cat (mkTensor [n; r; h] (data r2)) b 1 = Ok c
    ∧ shape c = [n; d; h]
    ∧ interleave_helper T cfg = Ok c.
Proof.
  intros Hn Hh Hr Hm Hrd Hlen T.
  assert (HwT : well_formed T) by (unfold well_formed; simpl; lia).
  destruct (narrow_spec T 1 0 r d HwT eq_refl) as (a & Ha & Hsa & Hwa);
    [lia|lia|].
  destruct (narrow_spec T 1 r d d HwT eq_refl) as (b & Hb & Hsb & Hwb);
    [lia|lia|].
  simpl in Hsa, Hsb. rewrite Nat.sub_0_r in Hsa.
  assert (Hr1 : reshape a [Z.of_nat n; 2; -1; Z.of_nat h]%Z
                = Ok (mkTensor [n; 2; m; h] (data a))).
  { apply (reshape_infer a [n; 2] [h] m); rewrite ?Hsa; simpl; nia. }
  set (r1 := mkTensor [n; 2; m; h] (data a)).
  destruct (permute_ok r1 [0; 2; 1; 3]) as (d2 & Hp & Hd2);
    [solve_is_perm|].
  simpl in Hp, Hd2.
  set (r2 := mkTensor [n; m; 2; h] d2) in *.
  assert (Hr3 : reshape r2 [Z.of_nat n; -1; Z.of_nat h]%Z
                = Ok (mkTensor [n; r; h] d2)).
  { apply (reshape_infer r2 [n] [h] r); simpl; nia. }
  set (a' := mkTensor [n; r; h] d2).
  assert (Hwa' : well_formed a') by (unfold well_formed; simpl; lia).
  destruct (cat_spec a' b 1 r (d - r) Hwa' Hwb)
    as (c & Hc & Hsc & Hwc); [done|by rewrite Hsb|by rewrite Hsb|].
  simpl in Hsc. replace (r + (d - r)) with d in Hsc by lia.
  exists a, b, r2, c.
  split; [done|]. split; [done|]. split; [done|]. split; [done|].
  split; [done|]. split; [done|]. split; [done|].
  split; [simpl; lia|]. split; [done|]. split; [done|].
  unfold interleave_helper. rewrite Hr. cbn [shape T].
  fold T. rewrite Ha, Hb. cbn [mbind result_bind].
  rewrite Hr1. cbn [mbind result_bind]. fold r1.
  rewrite Hp. cbn [mbind result_bind].
  rewrite Hr3. cbn [mbind result_bind]. done.
Qed.

End llama_elements.

Section llama_layout.
Context {A : Type} `{Inhabited A}.
Import Torch Llama.

Lemma interleave_weight_layout (cfg : cs_model_config) (n d h m : nat)
    (dat : list A) (c : Tensor A) :
  1 <= n -> 1 <= h -> rotary_dim cfg = 2 * m -> 2 * m <= d ->
  length dat = n * d * h ->
  interleave_helper (mkTensor [n; d; h] dat) cfg = Ok c ->
  shape c = [n; d; h]
  ∧ forall i z, i < n -> z < h ->
      (forall x b, x < m -> b < 2 ->
         item c [i; 2 * x + b; z]
         = item (mkTensor [n; d; h] dat) [i; b * m + x; z])
      ∧ (forall col, 2 * m <= col -> col < d ->
           item c [i; col; z] = item (mkTensor [n; d; h] dat) [i; col; z]).
Proof.
  intros Hn Hh Hr Hd Hlen Hint.
  destruct (interleave_weight_steps n d h (2 * m) m dat cfg)
    as (a & b0 & r2 & c0 & Ha & Hsa & Hwa & Hb0 & Hsb & Hwb & Hp & Hl2
        & Hc & Hsc & Hint'); try done.
  cbn zeta in *. rewrite Hint in Hint'. injection Hint' as ->.
  remember (2 * m) as r eqn:Hr2.
  split; [done|]. intros i z Hi Hz.
  assert (HwT : well_formed (mkTensor [n; d; h] dat))
    by (unfold well_formed; simpl; lia).
  assert (Hwa' : well_formed (mkTensor [n; r; h] (data r2)))
    by (unfold well_formed; simpl; lia).
  assert (Hcat : forall rr, rr < d * h ->
            data c0 !!! (i * (d * h) + rr)
            = if decide (rr < r * h)
              then data r2 !!! (i * (r * h) + rr)
              else data b0 !!! (i * ((d - r) * h) + (rr - r * h))).
  { intros rr Hrr.
    pose proof (cat_elem (mkTensor [n; r; h] (data r2)) b0 c0 1 r (d - r)
                  i rr Hwa' Hwb eq_refl) as Hx.
    cbn [shape take drop prod_dims foldr data] in Hx.
    rewrite Hsb in Hx. rewrite !Nat.mul_1_r in Hx.
    replace (r + (d - r)) with d in Hx by lia.
    apply Hx; [done|done|lia|lia]. }
  assert (Hrot : forall rr, rr < r * h ->
            data a !!! (i * (r * h) + rr)
            = dat !!! (i * (d * h) + rr)).
  { intros rr Hrr.
    pose proof (narrow_elem (mkTensor [n; d; h] dat) a 1 0 r d i rr HwT
                  eq_refl) as Hx.
    cbn [shape take drop prod_dims foldr data] in Hx.
    rewrite !Nat.mul_1_r, Nat.sub_0_r in Hx.
    rewrite Hx by (done || lia). f_equal; lia. }
  assert (Hpass : forall rr, rr < (d - r) * h ->
            data b0 !!! (i * ((d - r) * h) + rr)
            = dat !!! (i * (d * h) + (r * h + rr))).
  { intros rr Hrr.
    pose proof (narrow_elem (mkTensor [n; d; h] dat) b0 1 r d d i rr HwT
                  eq_refl) as Hx.
    cbn [shape take drop prod_dims foldr data] in Hx.
    rewrite !Nat.mul_1_r in Hx.
    by rewrite Hx by (done || lia). }
  split.
  - intros x b Hx Hb.
    pose proof (permute_elem (mkTensor [n; 2; m; h] (data a)) r2
                  [0; 2; 1; 3] [i; x; b; z] Hp) as Hperm.
    simpl in Hperm.
    unfold item. rewrite Hsc. cbn [ravel shape data prod_dims foldr].
    replace (i * (d * (h * 1)) + ((2 * x + b) * (h * 1) + (z * 1 + 0)))
      with (i * (d * h) + ((2 * x + b) * h + z)) by lia.
    rewrite Hcat by nia. rewrite decide_True by nia.
    replace (i * (r * h) + ((2 * x + b) * h + z))
      with (i * (m * (h * 1 + (h * 1 + 0)))
            + (x * (h * 1 + (h * 1 + 0)) + (b * (h * 1) + (z * 1 + 0))))
      by nia.
    rewrite Hperm
      by (repeat (apply List.Forall2_cons; [lia|]); apply List.Forall2_nil).
    replace (i * (m * (h * 1) + (m * (h * 1) + 0))
             + (b * (m * (h * 1)) + (x * (h * 1) + (z * 1 + 0))))
      with (i * (r * h) + ((b * m + x) * h + z)) by nia.
    rewrite Hrot by nia. f_equal; lia.
  - intros col Hlo Hhi.
    unfold item. rewrite Hsc. cbn [ravel shape data prod_dims foldr].
    replace (i * (d * (h * 1)) + (col * (h * 1) + (z * 1 + 0)))
      with (i * (d * h) + (col * h + z)) by lia.
    rewrite Hcat by nia. rewrite decide_False by nia.
    rewrite Hpass by nia. f_equal; nia.
Qed.

Lemma interleave_bias_layout (cfg : cs_model_config) (n d m : nat)
    (dat : list A) (c : Tensor A) :
  1 <= n -> rotary_dim cfg = 2 * m -> 2 * m <= d ->
  length dat = n * d ->
  interleave_helper (mkTensor [n; d] dat) cfg = Ok c ->
  shape c = [n; d]
  ∧ forall i, i < n ->
      (forall x b, x < m -> b < 2 ->
         item c [i; 2 * x + b]
         = item (mkTensor [n; d] dat) [i; b * m + x])
      ∧ (forall col, 2 * m <= col -> col < d ->
           item c [i; col] = item (mkTensor [n; d] dat) [i; col]).
Proof.
  intros Hn Hr Hd Hlen Hint.
  destruct (interleave_bias_steps n d (2 * m) m dat cfg)
    as (a & b0 & r2 & c0 & Ha & Hsa & Hwa & Hb0 & Hsb & Hwb & Hp & Hl2
        & Hc & Hsc & Hint'); try done.
  cbn zeta in *. rewrite Hint in Hint'. injection Hint' as ->.
  remember (2 * m) as r eqn:Hr2.
  split; [done|]. intros i Hi.
  assert (HwT : well_formed (mkTensor [n; d] dat))
    by (unfold well_formed; simpl; lia).
  assert (Hwa' : well_formed (mkTensor [n; r] (data r2)))
    by (unfold well_formed; simpl; lia).
  assert (Hcat : forall rr, rr < d ->
            data c0 !!! (i * d + rr)
            = if decide (rr < r)
              then data r2 !!! (i * r + rr)
              else data b0 !!! (i * (d - r) + (rr - r))).
  { intros rr Hrr.
    pose proof (cat_elem (mkTensor [n; r] (data r2)) b0 c0 1 r (d - r)
                  i rr Hwa' Hwb eq_refl) as Hx.
    cbn [shape take drop prod_dims foldr data] in Hx.
    rewrite Hsb in Hx. rewrite !Nat.mul_1_r in Hx.
    replace (r + (d - r)) with d in Hx by lia.
    apply Hx; [done|done|lia|lia]. }
  assert (Hrot : forall rr, rr < r ->
            data a !!! (i * r + rr) = dat !!! (i * d + rr)).
  { intros rr Hrr.
    pose proof (narrow_elem (mkTensor [n; d] dat) a 1 0 r d i rr HwT
                  eq_refl) as Hx.
    cbn [shape take drop prod_dims foldr data] in Hx.
    rewrite !Nat.mul_1_r, Nat.sub_0_r in Hx.
    rewrite Hx by (done || lia). f_equal; lia. }
  assert (Hpass : forall rr, rr < d - r ->
            data b0 !!! (i * (d - r) + rr) = dat !!! (i * d + (r + rr))).
  { intros rr Hrr.
    pose proof (narrow_elem (mkTensor [n; d] dat) b0 1 r d d i rr HwT
                  eq_refl) as Hx.
    cbn [shape take drop prod_dims foldr data] in Hx.
    rewrite !Nat.mul_1_r in Hx.
    by rewrite Hx by (done || lia). }
  split.
  - intros x b Hx Hb.
    pose proof (permute_elem (mkTensor [n; 2; m] (data a)) r2
                  [0; 2; 1] [i; x; b] Hp) as Hperm.
    simpl in Hperm.
    unfold item. rewrite Hsc. cbn [ravel shape data prod_dims foldr].
    replace (i * (d * 1) + ((2 * x + b) * 1 + 0))
      with (i * d + (2 * x + b)) by lia.
    rewrite Hcat by nia. rewrite decide_True by nia.
    replace (i * r + (2 * x + b))
      with (i * (m * 2) + (x * 2 + (b * 1 + 0))) by nia.
    rewrite Hperm
      by (repeat (apply List.Forall2_cons; [lia|]); apply List.Forall2_nil).
    replace (i * (m * 1 + (m * 1 + 0)) + (b * (m * 1) + (x * 1 + 0)))
      with (i * r + (b * m + x)) by nia.
    rewrite Hrot by nia. f_equal; lia.
  - intros col Hlo Hhi.
    unfold item. rewrite Hsc. cbn [ravel shape data prod_dims foldr].
    replace (i * (d * 1) + (col * 1 + 0)) with (i * d + col) by lia.
    rewrite Hcat by nia. rewrite decide_False by nia.
    rewrite Hpass by nia. f_equal; nia.
Qed.

End llama_layout.

(** X15: where the LLaMA interleave puts each element.  With
    [rotary_dim = 2 * m], the interleaved tensor has the shape of the
    input; within each head, position [2 * x + b] of the rotary part holds
    the element that was at position [b * m + x] (the two halves become
    adjacent pairs), and the positions from [rotary_dim] on are unchanged;
    for weights this holds in every column. *)
Theorem interleave_layout {A : Type} `{Inhabited A}
    (cfg : Llama.cs_model_config) (n d m : nat) :
  1 <= n -> Llama.rotary_dim cfg = 2 * m -> 2 * m <= d ->
  (forall (h : nat) (dat : list A) (c : Torch.Tensor A),
     1 <= h -> length dat = n * d * h ->
     Llama.interleave_helper (Torch.mkTensor [n; d; h] dat) cfg = Ok c ->
     Torch.shape c = [n; d; h]
     ∧ forall i z, i < n -> z < h ->
         (forall x b, x < m -> b < 2 ->
            Torch.item c [i; 2 * x + b; z]
            = Torch.item (Torch.mkTensor [n; d; h] dat) [i; b * m + x; z])
         ∧ (forall col, 2 * m <= col -> col < d ->
              Torch.item c [i; col; z]
              = Torch.item (Torch.mkTensor [n; d; h] dat) [i; col; z]))
  ∧ (forall (dat : list A) (c : Torch.Tensor A),
       length dat = n * d ->
       Llama.interleave_helper (Torch.mkTensor [n; d] dat) cfg = Ok c ->
       Torch.shape c = [n; d]
       ∧ forall i, i < n ->
           (forall x b, x < m -> b < 2 ->
              Torch.item c [i; 2 * x + b]
              = Torch.item (Torch.mkTensor [n; d] dat) [i; b * m + x])
           ∧ (forall col, 2 * m <= col -> col < d ->
                Torch.item c [i; col]
                = Torch.item (Torch.mkTensor [n; d] dat) [i; col])).
Proof.
  intros Hn Hr Hd. split.
  - intros h dat c Hh Hlen Hint.
    by apply (interleave_weight_layout cfg n d h m dat c).
  - intros dat c Hlen Hint.
    by apply (interleave_bias_layout cfg n d m dat c).
Qed.

Lemma interleave_layout_witness :
  let cfg := Llama.Build_cs_model_config 1 4 None None in
  let t := Torch.mkTensor [1; 6] [10; 11; 12; 13; 14; 15]%Z in
  exists c,
    Llama.interleave_helper t cfg = Ok c
    ∧ Torch.item c [0; 1] = 12%Z
    ∧ Torch.item c [0; 5] = 15%Z.
Proof.
  intros cfg t.
  destruct (Llama.interleave_helper t cfg) as [c|e] eqn:Hint;
    [|vm_compute in Hint; discriminate Hint].
  destruct (interleave_layout (A := Z) cfg 1 6 2) as [_ Hbias];
    [lia|reflexivity|lia|].
  destruct (Hbias [10; 11; 12; 13; 14; 15]%Z c eq_refl Hint) as [_ Hel].
  destruct (Hel 0) as [Hrot Hpass]; [lia|].
  exists c. split; [reflexivity|]. split.
  - change (Torch.item c [0; 2 * 0 + 1] = 12%Z).
    rewrite (Hrot 0 1) by lia. reflexivity.
  - rewrite (Hpass 5) by lia. reflexivity.
Defined.

(** * The sharded writer at its edges *)

(** X16: shard file names are one-to-one in the shard number and the
    total, also beyond five digits, and none of them is the name of the
    index file; so the renumbering of [save] never maps two shards to one
    name. *)
Theorem shard_names_distinct (i j t u : nat) :
  (Streaming.get_filename i t = Streaming.get_filename j u
   <-> i = j ∧ t = u)
  ∧ Streaming.get_filename i t ≠ Streaming.index_file.
Proof.
  split; [split|].
  - apply get_filename_inj.
  - by intros [-> ->].
  - apply get_filename_not_index.
Qed.

Section writer_edges.
Import Streaming.

Lemma save_keeps_active (w w' : writer) :
  save w = Done w' -> active_file_name w' = active_file_name w.
Proof.
  unfold save. intros Hsave.
  destruct (flush_fields w) as (_ & _ & _ & _ & Han & _).
  match type of Hsave with
  | and_then ?x _ = _ => destruct x as [w1|] eqn:Hx
  end; cbn [and_then] in Hsave; [|done].
  injection Hsave as <-. wsimpl.
  case_decide.
  - match type of Hx with
    | and_then ?x _ = _ => destruct x as [files|]
    end; cbn [and_then] in Hx; [|done].
    case_decide; [|done]. injection Hx as <-. by wsimpl.
  - by injection Hx as <-.
Qed.

Lemma flush_skipped (w : writer) :
  consistent w -> skipped w -> skipped (_flush w).
Proof.
  intros Hc [Ht Hf Hi Ha Hk]. unfold _flush.
  destruct (dirty w) eqn:Hd; [|by split]. split; wsimpl; try done.
  - by rewrite lookup_insert_ne.
  - rewrite lookup_insert_ne; [done|].
    destruct (cons_active w Hc) as [Hs|[Hx _]]; [|congruence].
    apply (cons_sizes w Hc) in Hs as (j & _ & ->).
    apply get_filename_not_index.
Qed.

Lemma switch_skipped (w w1 : writer) (f : string) :
  consistent w -> skipped w -> f ≠ get_filename 0 0 ->
  _switch_shards f w = Done w1 -> skipped w1.
Proof.
  intros Hc Hs Hf Hsw. unfold _switch_shards in Hsw.
  destruct (flush_skipped w Hc Hs) as [Ht Hfile Hi Ha Hk].
  destruct (fs (_flush w) !! f) as [[d|? ?]|]; try done.
  injection Hsw as <-. by split.
Qed.

Lemma store_skipped (w : writer) (k : string) (v : HFTensor) (sz : Z)
    (warn : bool) :
  skipped w -> skipped (store k v sz w warn).
Proof.
  intros [Ht Hf Hi Ha Hk]. split; unfold store; wsimpl; try done.
  intros k'. destruct (decide (k = k')) as [<-|Hne].
  - rewrite lookup_insert_eq. congruence.
  - by rewrite lookup_insert_ne.
Qed.

Lemma open_next_skipped (w : writer) :
  consistent w -> skipped w -> skipped (open_next_shard w).
Proof.
  intros Hc Hs. destruct (flush_skipped w Hc Hs) as [Ht Hf Hi Ha Hk].
  split; unfold open_next_shard; wsimpl; try done.
  intros Heq. apply get_filename_inj in Heq. lia.
Qed.

Lemma setitem_skipped (w w' : writer) (k : string) (v : HFTensor) :
  consistent w -> skipped w -> __setitem__ k v w = Done w' -> skipped w'.
Proof.
  intros Hc Hs Hset. unfold __setitem__ in Hset.
  destruct (weight_map w !! k) as [f|] eqn:Hk.
  - assert (Hf : f ≠ get_filename 0 0)
      by (intros ->; by apply (skipped_keys w Hs k)).
    assert (Hw1 : exists w1,
              (if decide (active_file_name w ≠ f)
               then _switch_shards f w else Done w) = Done w1
              ∧ skipped w1).
    { case_decide.
      - destruct (_switch_shards f w) as [w1|] eqn:Hsw; [|done].
        exists w1. split; [done|]. by apply (switch_skipped w w1 f).
      - eauto. }
    destruct Hw1 as (w1 & Hw1 & Hs1). rewrite Hw1 in Hset.
    cbn [and_then] in Hset.
    destruct (active_file_data w1 !! k); [|done].
    destruct (file_size w1 !! active_file_name w1); [|done].
    injection Hset as <-. by apply store_skipped.
  - rewrite decide_False in Hset by (intros Hn; apply Hn; apply Hc).
    cbn [and_then] in Hset.
    destruct (file_size w !! active_file_name w); [|done].
    cbn zeta in Hset. case_decide.
    + destruct (file_size (open_next_shard w)
                  !! active_file_name (open_next_shard w)); [|done].
      injection Hset as <-. apply store_skipped.
      by apply open_next_skipped.
    + destruct (file_size w !! active_file_name w); [|done].
      injection Hset as <-. by apply store_skipped.
Qed.

Lemma getitem_skipped (w w1 : writer) (k : string) (v : HFTensor) :
  consistent w -> skipped w -> __getitem__ k w = Done (w1, v) ->
  skipped w1.
Proof.
  intros Hc Hs Hg. unfold __getitem__ in Hg.
  destruct (weight_map w !! k) as [f|] eqn:Hk; [|done].
  assert (Hf : f ≠ get_filename 0 0)
    by (intros ->; by apply (skipped_keys w Hs k)).
  case_decide.
  - destruct (_switch_shards f w) as [w2|] eqn:Hsw;
      cbn [and_then] in Hg; [|done].
    destruct (active_file_data w2 !! k); [|done].
    injection Hg as <- _. by apply (switch_skipped w w2 f).
  - cbn [and_then] in Hg. destruct (active_file_data w !! k); [|done].
    by injection Hg as <- _.
Qed.

Lemma run_skipped (ops : list op) (w w' : writer) :
  Forall (fun o => o ≠ Save) ops ->
  consistent w -> skipped w -> run ops w = Done w' -> skipped w'.
Proof.
  intros Hops. revert w. induction Hops as [|o ops Ho Hops IH];
    intros w Hc Hs Hrun.
  - cbn in Hrun. by injection Hrun as <-.
  - cbn [run] in Hrun.
    destruct (run_op o w) as [w1|] eqn:Hop; cbn [and_then] in Hrun;
      [|done].
    assert (Hc1 : consistent w1).
    { apply (run_consistent [o] w w1 Hc). cbn [run]. by rewrite Hop. }
    apply (IH w1 Hc1); [|done].
    destruct o as [k v|k|]; cbn [run_op] in Hop; [| |done].
    + by apply (setitem_skipped w w1 k v).
    + destruct (__getitem__ k w) as [[w2 v]|] eqn:Hg;
        cbn [and_then] in Hop; [|done].
      injection Hop as <-. by apply (getitem_skipped w w2 k v).
Qed.

Lemma save_skipped (w : writer) :
  consistent w -> skipped w ->
  save w = Failed FileNotFoundError (fs (_flush w))
  ∧ fs (_flush w) !! index_file = None.
Proof.
  intros Hc Hs. destruct (flush_skipped w Hc Hs) as [Ht Hf Hi _ _].
  split; [|done].
  unfold save. rewrite Ht.
  rewrite decide_True by lia.
  replace (last_file_number (_flush w) + 1)
    with (S (last_file_number (_flush w))) by lia.
  cbn [seq fmap list_fmap rename_all]. unfold os_rename.
  by rewrite Hf.
Qed.

End writer_edges.

(** X17: a first tensor that is larger than the shard limit makes the
    checkpoint unsaveable.  The tensor opens shard 1 and leaves shard 0
    empty and unwritten; whatever is set or read afterwards, [save] raises
    [FileNotFoundError] at the first rename and writes no index file. *)
Theorem oversized_first_tensor_blocks_save (max : Z) (k : string)
    (v : Streaming.HFTensor) (ops : list Streaming.op)
    (w : Streaming.writer) :
  (Streaming.weight_size v > max)%Z ->
  Forall (fun o => o ≠ Streaming.Save) ops ->
  Streaming.run (Streaming.SetItem k v :: ops) (Streaming.fresh_writer max)
    = Done w ->
  Streaming.save w
    = Failed FileNotFoundError (Streaming.fs (Streaming._flush w))
  ∧ Streaming.fs (Streaming._flush w) !! Streaming.index_file = None
  ∧ Streaming.fs w !! Streaming.get_filename 0 0 = None
  ∧ forall k', Streaming.weight_map w !! k'
               ≠ Some (Streaming.get_filename 0 0).
Proof.
  intros Hbig Hops Hrun. cbn [Streaming.run Streaming.run_op] in Hrun.
  rewrite (setitem_new_step _ k v 0) in Hrun;
    [|done|done|apply lookup_singleton_eq].
  unfold Streaming.fresh_writer at 1 in Hrun. wsimpl.
  destruct (decide (0 + Streaming.weight_size v > max)%Z) as [_|?]; [|lia].
  cbn [Streaming.and_then] in Hrun.
  set (w1 := Streaming.store k v (0 + Streaming.weight_size v)
               (Streaming.open_next_shard (Streaming.fresh_writer max))
               false) in *.
  assert (Hc1 : Streaming.consistent w1).
  { apply consistent_store.
    - apply consistent_open_next_shard, consistent_fresh.
    - unfold Streaming.open_next_shard. wsimpl.
      rewrite lookup_insert_eq. eauto. }
  assert (Hs1 : Streaming.skipped w1).
  { unfold w1, Streaming.store, Streaming.open_next_shard,
      Streaming._flush, Streaming.fresh_writer. wsimpl.
    split; wsimpl.
    - done.
    - apply lookup_empty.
    - apply lookup_empty.
    - intros Heq. apply get_filename_inj in Heq. lia.
    - intros k'. destruct (decide (k = k')) as [<-|Hne].
      + rewrite lookup_insert_eq.
        intros [= Heq]; apply get_filename_inj in Heq; lia.
      + rewrite lookup_insert_ne by done. by rewrite lookup_empty. }
  pose proof (run_skipped ops w1 w Hops Hc1 Hs1 Hrun) as Hs.
  assert (Hsave : Streaming.save w
            = Failed FileNotFoundError (Streaming.fs (Streaming._flush w))
            ∧ Streaming.fs (Streaming._flush w) !! Streaming.index_file
              = None).
  { apply save_skipped; [|done]. by apply (run_consistent ops w1 w). }
  destruct Hsave as [Hsave Hindex].
  split; [exact Hsave|]. split; [exact Hindex|].
  split; [apply Hs|apply Hs].
Qed.

Lemma oversized_first_tensor_blocks_save_witness :
  let t n := Streaming.Build_HFTensor Streaming.torch_uint8
               (Torch.mkTensor [n] (replicate n 0%Z)) in
  let ops := [Streaming.SetItem "b" (t 10); Streaming.GetItem "a"] in
  exists w,
    Streaming.run (Streaming.SetItem "a" (t 200) :: ops)
      (Streaming.fresh_writer 100) = Done w
    ∧ Streaming.save w
      = Failed FileNotFoundError (Streaming.fs (Streaming._flush w)).
Proof.
  intros t ops.
  destruct (Streaming.run (Streaming.SetItem "a" (t 200) :: ops)
              (Streaming.fresh_writer 100)) as [w|e r] eqn:Hrun;
    [|vm_compute in Hrun; discriminate Hrun].
  exists w. split; [reflexivity|].
  destruct (oversized_first_tensor_blocks_save 100 "a" (t 200) ops w)
    as [Hsave _].
  - vm_compute. reflexivity.
  - repeat (apply List.Forall_cons; [discriminate|]). apply List.Forall_nil.
  - exact Hrun.
  - exact Hsave.
Defined.

(** X18: after a [save] that renumbered the shards, a key that is not
    yet in the checkpoint cannot be added: the writer still names the
    active shard by its old file name, which is no key of [file_size] any
    more, so [__setitem__] raises [KeyError]. *)
Theorem new_key_after_renumbering_save (max : Z) (ops : list Streaming.op)
    (w w' : Streaming.writer) (k : string) (v : Streaming.HFTensor) :
  Streaming.run ops (Streaming.fresh_writer max) = Done w ->
  Streaming.total_shards_finalized w ≠ Streaming.last_file_number w + 1 ->
  Streaming.save w = Done w' ->
  Streaming.weight_map w' !! k = None ->
  Streaming.__setitem__ k v w' = Failed KeyError (Streaming.fs w').
Proof.
  intros Hrun Hren Hsave Hk.
  pose proof (run_consistent ops _ w (consistent_fresh max) Hrun) as Hc.
  destruct (save_spec w w' Hc Hsave) as (Hc' & Hlast & Ht & _).
  pose proof (save_keeps_active w w' Hsave) as Hact.
  assert (Hnone : Streaming.file_size w' !! Streaming.active_file_name w'
                  = None).
  { apply eq_None_not_Some. intros Hs.
    apply (Streaming.cons_sizes w' Hc') in Hs as (i & _ & Hi).
    rewrite Hact in Hi.
    destruct (Streaming.cons_active w Hc) as [Hs|[_ Hx]]; [|done].
    apply (Streaming.cons_sizes w Hc) in Hs as (j & _ & Hj).
    rewrite Hj in Hi. apply get_filename_inj in Hi as [_ Hi].
    rewrite Ht in Hi. done. }
  unfold Streaming.__setitem__. rewrite Hk.
  rewrite decide_False
    by (intros Hn; apply Hn; apply (Streaming.cons_current w' Hc')).
  cbn [Streaming.and_then]. by rewrite Hnone.
Qed.

Lemma new_key_after_renumbering_save_witness :
  let t n := Streaming.Build_HFTensor Streaming.torch_uint8
               (Torch.mkTensor [n] (replicate n 0%Z)) in
  let ops := [Streaming.SetItem "a" (t 60)] in
  exists w w',
    Streaming.run ops (Streaming.fresh_writer 100) = Done w
    ∧ Streaming.save w = Done w'
    ∧ Streaming.__setitem__ "b" (t 10) w'
      = Failed KeyError (Streaming.fs w').
Proof.
  intros t ops.
  destruct (Streaming.run ops (Streaming.fresh_writer 100)) as [w|e r] eqn:Hrun;
    [|vm_compute in Hrun; discriminate Hrun].
  destruct (Streaming.save w) as [w'|e r] eqn:Hsave.
  2:{ exfalso. vm_compute in Hrun. injection Hrun as <-.
      vm_compute in Hsave. discriminate Hsave. }
  exists w, w'. split; [reflexivity|]. split; [exact Hsave|].
  apply (new_key_after_renumbering_save 100 ops w w' "b" (t 10) Hrun).
  - vm_compute in Hrun. injection Hrun as <-. vm_compute. lia.
  - exact Hsave.
  - vm_compute in Hrun. injection Hrun as <-.
    vm_compute in Hsave. injection Hsave as <-. vm_compute. reflexivity.
Defined.

(** * The tracked shard sizes *)

Section size_accounting.
Import Streaming.

Lemma held_bytes_foldr (d : gmap string HFTensor)
    (wm : gmap string string) (f : string) :
  held_bytes d wm f
  = foldr (fun kv acc =>
             if decide (wm !! kv.1 = Some f)
             then (weight_size kv.2 + acc)%Z else acc) 0%Z
      (map_to_list d).
Proof.
  unfold held_bytes. rewrite map_fold_foldr.
  induction (map_to_list d) as [|[k v] l IH]; [done|].
  cbn [foldr uncurry fst snd]. by rewrite IH.
Qed.

Lemma held_bytes_ext (d : gmap string HFTensor)
    (wm wm' : gmap string string) (f f' : string) :
  (forall k v, d !! k = Some v ->
     (wm !! k = Some f <-> wm' !! k = Some f')) ->
  held_bytes d wm f = held_bytes d wm' f'.
Proof.
  intros Hext. rewrite !held_bytes_foldr.
  assert (Hl : forall kv, kv ∈ map_to_list d -> d !! kv.1 = Some kv.2).
  { intros [k v] Hin. by apply elem_of_map_to_list in Hin. }
  induction (map_to_list d) as [|[k v] l IH]; [done|].
  cbn [foldr fst snd]. rewrite IH.
  2:{ intros kv Hin. apply Hl. by right. }
  pose proof (Hext k v (Hl (k, v) ltac:(by left))) as Hkv.
  repeat case_decide; try done; tauto.
Qed.

Lemma held_bytes_comm (wm : gmap string string) (f : string)
    (j1 j2 : string) (z1 z2 : HFTensor) (y : Z) :
  (if decide (wm !! j1 = Some f)
   then (weight_size z1
         + (if decide (wm !! j2 = Some f)
            then (weight_size z2 + y) else y))
   else (if decide (wm !! j2 = Some f)
         then (weight_size z2 + y) else y))%Z
  = (if decide (wm !! j2 = Some f)
     then (weight_size z2
           + (if decide (wm !! j1 = Some f)
              then (weight_size z1 + y) else y))
     else (if decide (wm !! j1 = Some f)
           then (weight_size z1 + y) else y))%Z.
Proof. repeat case_decide; lia. Qed.

Lemma held_bytes_insert (d : gmap string HFTensor)
    (wm : gmap string string) (f k : string) (v : HFTensor) :
  d !! k = None ->
  held_bytes (<[k := v]> d) wm f
  = ((if decide (wm !! k = Some f) then weight_size v else 0)
     + held_bytes d wm f)%Z.
Proof.
  intros Hk. unfold held_bytes.
  rewrite map_fold_insert_L; [|intros; apply held_bytes_comm|done].
  case_decide; lia.
Qed.

Lemma held_bytes_update (d : gmap string HFTensor)
    (wm : gmap string string) (f k : string) (v old : HFTensor) :
  d !! k = Some old ->
  held_bytes (<[k := v]> d) wm f
  = (held_bytes d wm f
     + (if decide (wm !! k = Some f)
        then weight_size v - weight_size old else 0))%Z.
Proof.
  intros Hk.
  rewrite <- (insert_delete_eq d k v).
  rewrite held_bytes_insert by apply lookup_delete_eq.
  rewrite <- (insert_delete_id d k old) at 2 by done.
  rewrite (held_bytes_insert (delete k d)) by apply lookup_delete_eq.
  case_decide; lia.
Qed.

Lemma held_bytes_unmapped (d : gmap string HFTensor)
    (wm : gmap string string) (f : string) :
  (forall k, wm !! k ≠ Some f) -> held_bytes d wm f = 0%Z.
Proof.
  intros Hno. rewrite held_bytes_foldr.
  induction (map_to_list d) as [|[k v] l IH]; [done|].
  cbn [foldr fst snd]. rewrite IH. by rewrite decide_False.
Qed.

Lemma accounted_fresh (max : Z) : accounted (fresh_writer max) ∅.
Proof.
  intros f sz Hf. unfold fresh_writer in *. wsimpl.
  apply lookup_singleton_Some in Hf as [_ <-].
  symmetry. apply held_bytes_unmapped. intros k.
  by rewrite lookup_empty.
Qed.

Lemma held_bytes_new_key (d : gmap string HFTensor)
    (wm : gmap string string) (k a g : string) (v : HFTensor) :
  d !! k = None ->
  held_bytes (<[k := v]> d) (<[k := a]> wm) g
  = ((if decide (a = g) then weight_size v else 0)
     + held_bytes d wm g)%Z.
Proof.
  intros Hk. rewrite held_bytes_insert by done.
  rewrite lookup_insert_eq.
  rewrite (held_bytes_ext d (<[k := a]> wm) wm g g).
  - repeat case_decide; try done; congruence.
  - intros k' v' Hk'. rewrite lookup_insert_ne; [done|].
    intros ->. congruence.
Qed.

Lemma store_new_accounted (w : writer) (d : gmap string HFTensor)
    (k : string) (v : HFTensor) (sz : Z) :
  d !! k = None -> accounted w d ->
  file_size w !! active_file_name w = Some sz ->
  accounted (store k v (sz + weight_size v) w false) (<[k := v]> d).
Proof.
  intros Hk Hacc Hsz g z Hg. unfold store in *. wsimpl.
  rewrite held_bytes_new_key by done.
  destruct (decide (active_file_name w = g)) as [<-|Hne].
  - rewrite lookup_insert_eq in Hg. injection Hg as <-.
    rewrite <- (Hacc _ _ Hsz). lia.
  - rewrite lookup_insert_ne in Hg by done.
    by rewrite <- (Hacc _ _ Hg).
Qed.

Lemma open_next_accounted (w : writer) (d : gmap string HFTensor) :
  consistent w -> accounted w d -> accounted (open_next_shard w) d.
Proof.
  intros Hc Hacc g z Hg. unfold open_next_shard in *. wsimpl.
  destruct (flush_fields w)
    as (Hwm & _ & Hlast & Htsf & _ & _ & Hfs & _).
  rewrite Hwm, Hlast, Htsf, Hfs in *.
  pose proof (next_shard_fresh w Hc) as Hfresh.
  set (name := get_filename (last_file_number w + 1)
                 (total_shards_finalized w)) in *.
  destruct (decide (name = g)) as [<-|Hne].
  - rewrite lookup_insert_eq in Hg. injection Hg as <-.
    symmetry. apply held_bytes_unmapped. intros k' Hk'.
    destruct (cons_keys w Hc k' name Hk') as ([z Hz] & _).
    congruence.
  - rewrite lookup_insert_ne in Hg by done. by apply Hacc.
Qed.

Lemma setitem_accounted (w w' : writer) (d : gmap string HFTensor)
    (k : string) (v : HFTensor) :
  consistent w -> agrees w d -> accounted w d ->
  __setitem__ k v w = Done w' -> accounted w' (<[k := v]> d).
Proof.
  intros Hc Ha Hacc Hset.
  destruct (weight_map w !! k) as [f|] eqn:Hk.
  - destruct (setitem_update_spec w k f v Hc Hk)
      as (w1 & old & sz & Hget & Hsz & Hs & Hc1 & Han & Hfs & _).
    rewrite Hs in Hset. injection Hset as <-.
    destruct (getitem_keeps_maps w w1 k old Hget) as [Hwm _].
    assert (Hold : d !! k = Some old).
    { pose proof (getitem_agrees w d k Hc Ha) as Hd.
      destruct (d !! k) as [v'|].
      - destruct Hd as (w2 & Hg' & _). rewrite Hget in Hg'.
        by injection Hg' as _ ->.
      - by rewrite Hget in Hd. }
    intros g z Hg. unfold store in *. wsimpl.
    rewrite Hwm, Han, Hfs in *.
    rewrite (insert_id (weight_map w)) by done.
    rewrite (held_bytes_update d _ g k v old) by done. rewrite Hk.
    destruct (decide (f = g)) as [<-|Hne].
    + rewrite lookup_insert_eq in Hg. injection Hg as <-.
      rewrite decide_True by done. rewrite <- (Hacc _ _ Hsz). lia.
    + rewrite lookup_insert_ne in Hg by done.
      rewrite decide_False by congruence.
      rewrite <- (Hacc _ _ Hg). lia.
  - pose proof (agrees_absent w d Ha k Hk) as Hd.
    destruct (file_size w !! active_file_name w) as [sz|] eqn:Hsz.
    + rewrite (setitem_new_step w k v sz Hk (cons_current w Hc) Hsz)
        in Hset.
      injection Hset as <-. case_decide.
      * apply store_new_accounted; [done| |].
        -- by apply open_next_accounted.
        -- unfold open_next_shard. wsimpl. apply lookup_insert_eq.
      * by apply store_new_accounted.
    + unfold __setitem__ in Hset. rewrite Hk in Hset.
      rewrite decide_False in Hset
        by (intros Hn; apply Hn; apply Hc).
      cbn [and_then] in Hset. by rewrite Hsz in Hset.
Qed.

Lemma getitem_keeps_sizes (w w1 : writer) (k : string) (v : HFTensor) :
  __getitem__ k w = Done (w1, v) -> file_size w1 = file_size w.
Proof.
  unfold __getitem__. intros Hg.
  destruct (weight_map w !! k) as [f|]; [|done].
  case_decide.
  - unfold _switch_shards in Hg.
    destruct (flush_fields w) as (_ & _ & _ & _ & _ & _ & Hfs & _).
    destruct (fs (_flush w) !! f) as [[sh|? ?]|];
      cbn [and_then] in Hg; try done.
    wsimpl. destruct (sh !! k); [|done]. injection Hg as <- _.
    by wsimpl.
  - cbn [and_then] in Hg. destruct (active_file_data w !! k); [|done].
    by injection Hg as <- _.
Qed.

Lemma save_sizes (w w' : writer) (f' : string) (sz : Z) :
  consistent w -> save w = Done w' -> file_size w' !! f' = Some sz ->
  exists i, i <= last_file_number w
    ∧ f' = get_filename i (total_shards_finalized w')
    ∧ file_size w !! get_filename i (total_shards_finalized w) = Some sz.
Proof.
  intros Hc Hsave Hf'. unfold save in Hsave.
  destruct (flush_fields w)
    as (Hwm & Hcur & Hlast & Htsf & Han & Had & Hfs & Hmax & Hwarn & Hd).
  set (w0 := _flush w) in *.
  rewrite Hwm, Hcur, Hlast, Htsf, Han, Had, Hfs, Hmax, Hwarn, Hd in Hsave.
  assert (Hdom : forall f z, file_size w !! f = Some z ->
             exists i, i <= last_file_number w
               ∧ f = get_filename i (total_shards_finalized w)).
  { intros f z Hf. apply (cons_sizes w Hc). eauto. }
  case_decide as Hren.
  - set (T := last_file_number w + 1) in *.
    set (t := total_shards_finalized w) in *.
    set (ps := (fun i => (get_filename i t, get_filename i T))
                 <$> seq 0 T) in *.
    set (file_renames := foldl (fun m p => <[p.1 := p.2]> m) ∅ ps) in *.
    destruct (rename_all ps (fs w0)) as [files|] eqn:Hra;
      cbn [and_then] in Hsave; [|done].
    case_decide as Hall; cbn [and_then] in Hsave; [|done].
    injection Hsave as <-. wsimpl.
    pose proof (renames_NoDup t T T Hren) as Hnd. fold ps in Hnd.
    assert (Hnd1 : NoDup (fst <$> ps))
      by (by apply NoDup_app in Hnd as [? _]).
    set (rename := fun prev_file : string =>
                     default prev_file (file_renames !! prev_file)) in *.
    assert (Hrename : forall i, i <= last_file_number w ->
               rename (get_filename i t) = get_filename i T).
    { intros i Hi. unfold rename, file_renames.
      assert (Hl : foldl (fun m p => <[p.1 := p.2]> m)
                     (∅ : gmap string string) ps !! get_filename i t
                   = Some (get_filename i T)).
      { apply foldl_insert_lookup; [done|]. apply elem_of_renames.
        exists i. split; [unfold T; lia|done]. }
      by rewrite Hl. }
    assert (Hndr : NoDup (rename <$> (fst <$> map_to_list (file_size w)))).
    { apply NoDup_fmap_2_strong; [|apply NoDup_fst_map_to_list].
      intros f g Hf Hg Heq.
      apply list_elem_of_fmap in Hf as ([f1 zf] & -> & Hf).
      apply list_elem_of_fmap in Hg as ([g1 zg] & -> & Hg).
      apply elem_of_map_to_list in Hf, Hg. cbn [fst] in *.
      destruct (Hdom _ _ Hf) as (i & Hi & ->).
      destruct (Hdom _ _ Hg) as (j & Hj & ->).
      rewrite !Hrename in Heq by done.
      apply get_filename_inj in Heq as [-> _]. done. }
    apply (lookup_renamed rename) in Hf' as (f & -> & Hf); [|done].
    destruct (Hdom _ _ Hf) as (i & Hi & ->).
    exists i. split; [done|]. split; [by apply Hrename|done].
  - cbn [and_then] in Hsave. injection Hsave as <-. wsimpl.
    rewrite Hfs in Hf'. rewrite Htsf.
    destruct (Hdom _ _ Hf') as (i & Hi & ->).
    exists i. done.
Qed.

Lemma save_accounted (w w' : writer) (d : gmap string HFTensor) :
  consistent w -> accounted w d -> save w = Done w' -> accounted w' d.
Proof.
  intros Hc Hacc Hsave f' sz Hf'.
  destruct (save_sizes w w' f' sz Hc Hsave Hf') as (i & Hi & -> & Hsz).
  rewrite (Hacc _ _ Hsz). apply held_bytes_ext. intros k v _.
  destruct (save_spec w w' Hc Hsave)
    as (_ & _ & _ & _ & _ & _ & Hsome & _).
  split.
  - by apply (save_keeps_shard w w' k i Hc Hsave).
  - intros Hk'.
    assert (Hs : is_Some (weight_map w !! k)) by (apply Hsome; eauto).
    destruct Hs as [f Hk].
    destruct (cons_keys w Hc k f Hk) as (Hz & _ & _).
    apply (cons_sizes w Hc) in Hz as (j & Hj & ->).
    pose proof (save_keeps_shard w w' k j Hc Hsave Hk) as Hk2.
    rewrite Hk' in Hk2.
    assert (Heq : get_filename i (total_shards_finalized w')
                  = get_filename j (total_shards_finalized w'))
      by congruence.
    apply get_filename_inj in Heq as [-> _]. done.
Qed.

Lemma run_accounted (ops : list op) (w w' : writer)
    (d : gmap string HFTensor) :
  consistent w -> agrees w d -> accounted w d -> run ops w = Done w' ->
  accounted w' (dict_of ops d).
Proof.
  revert w d. induction ops as [|o ops IH]; intros w d Hc Ha Hacc Hrun.
  - cbn in Hrun. by injection Hrun as <-.
  - cbn [run] in Hrun.
    destruct (run_op o w) as [w1|] eqn:Hop; cbn [and_then] in Hrun;
      [|done].
    assert (Hc1 : consistent w1).
    { apply (run_consistent [o] w w1 Hc). cbn [run]. by rewrite Hop. }
    assert (Ha1 : agrees w1 (dict_of [o] d)).
    { apply (run_agrees [o] w w1 d Hc Ha). cbn [run]. by rewrite Hop. }
    destruct o as [k v|k|]; cbn [run_op dict_of] in *.
    + apply (IH w1); [done|done| |done]. by apply (setitem_accounted w).
    + apply (IH w1); [done|done| |done].
      destruct (__getitem__ k w) as [[w2 v]|] eqn:Hg;
        cbn [and_then] in Hop; [|done].
      injection Hop as <-. cbn [fst].
      destruct (getitem_keeps_maps w w2 k v Hg) as [Hwm _].
      pose proof (getitem_keeps_sizes w w2 k v Hg) as Hfs.
      intros f sz Hf. rewrite Hwm. apply Hacc. by rewrite <- Hfs.
    + apply (IH w1); [done|done| |done]. by apply (save_accounted w).
Qed.

End size_accounting.

(** X19. After any calls of [__setitem__] (new keys and updates),
    [__getitem__] and [save] that all return, the size the writer tracks
    for a shard is the sum of the byte sizes of the tensors filed under
    that shard, each key counted once with its latest value. *)
Theorem shard_sizes_follow_updates (max : Z) (ops : list Streaming.op)
    (w : Streaming.writer) (f : string) (sz : Z) :
  Streaming.run ops (Streaming.fresh_writer max) = Done w ->
  Streaming.file_size w !! f = Some sz ->
  sz = Streaming.held_bytes (Streaming.dict_of ops ∅)
         (Streaming.weight_map w) f.
Proof.
  intros Hrun Hf.
  exact (run_accounted ops (Streaming.fresh_writer max) w ∅
           (consistent_fresh max) (agrees_fresh max) (accounted_fresh max)
           Hrun f sz Hf).
Qed.

Lemma shard_sizes_follow_updates_witness :
  let t n := Streaming.Build_HFTensor Streaming.torch_uint8
               (Torch.mkTensor [n] (replicate n 0%Z)) in
  let ops := [Streaming.SetItem "a" (t 60); Streaming.SetItem "b" (t 50);
              Streaming.SetItem "a" (t 200); Streaming.Save] in
  exists w,
    Streaming.run ops (Streaming.fresh_writer 100) = Done w
    ∧ Streaming.file_size w !! Streaming.get_filename 0 2 = Some 200%Z
    ∧ 200%Z = Streaming.held_bytes (Streaming.dict_of ops ∅)
                (Streaming.weight_map w) (Streaming.get_filename 0 2).
Proof.
  intros t ops.
  destruct (Streaming.run ops (Streaming.fresh_writer 100)) as [w|e r] eqn:Hrun;
    [|vm_compute in Hrun; discriminate Hrun].
  assert (Hf : Streaming.file_size w !! Streaming.get_filename 0 2
               = Some 200%Z).
  { vm_compute in Hrun. injection Hrun as <-. vm_compute. reflexivity. }
  exists w. split; [reflexivity|]. split; [exact Hf|].
  exact (shard_sizes_follow_updates 100 ops w _ _ Hrun Hf).
Defined.

(** * The hierarchical writer view: nested values *)

Section nested_values.
Context {V : Type}.
Import CSWriter.

(** What a returning [__setitem__] of a dict, list or tuple does to a
    dict-backed view. *)
Lemma setitem_container_dict (self self' : view V)
    (items : list (pykey * node)) (key : pykey) (value : pyvalue V) :
  state self = NDict items -> is_container value = true ->
  __setitem__ self key value = Done self' ->
  exists file,
    save_leaves (prefix self ++ [key]) (flatten value)
      (checkpoint_file self) = Done file
    ∧ self' = mkView (NDict (assoc_set items key (skeleton value)))
                (prefix self) file.
Proof.
  intros Hst Hcont Hset. unfold __setitem__ in Hset.
  rewrite Hst, Hcont in Hset. rewrite contains_key_dict in Hset.
  destruct (assoc_get items key) as [held|] eqn:Hget.
  - rewrite bool_decide_eq_true_2 in Hset by eauto.
    cbn [get_item] in Hset. rewrite Hget in Hset.
    destruct held; cbn [is_leaf negb andb] in Hset; done.
  - rewrite bool_decide_eq_false_2 in Hset by (intros [? ?]; done).
    cbn [is_leaf negb andb] in Hset.
    destruct (save_leaves (prefix self ++ [key]) (flatten value)
                (checkpoint_file self)) as [file|]; [|done].
    cbn [set_item] in Hset. injection Hset as <-. eauto.
Qed.

Lemma save_leaves_keeps (pre : list pykey)
    (leaves : list (list string * V)) (file file' : h5_file)
    (n : string) (x : V) :
  save_leaves pre leaves file = Done file' ->
  file !! n = Some x ->
  Ok n ∉ (fun p => join_keys (pre ++ (KStr <$> p.1))) <$> leaves ->
  file' !! n = Some x.
Proof.
  revert file. induction leaves as [|[scope y] leaves IH];
    intros file Hsave Hn Hnot; cbn [save_leaves] in Hsave.
  - by injection Hsave as <-.
  - rewrite fmap_cons, not_elem_of_cons in Hnot.
    destruct Hnot as [Hne Hnot]. cbn [fst] in Hne.
    destruct (join_keys (pre ++ (KStr <$> scope))) as [name|]; [|done].
    apply (IH (<[name := y]> file)); [done| |done].
    unfold h5_file. rewrite lookup_insert_ne; [done|]. congruence.
Qed.

Lemma save_leaves_lookup (pre : list pykey)
    (leaves : list (list string * V)) (file file' : h5_file)
    (scope : list string) (x : V) :
  save_leaves pre leaves file = Done file' ->
  NoDup ((fun p => join_keys (pre ++ (KStr <$> p.1))) <$> leaves) ->
  (scope, x) ∈ leaves ->
  exists name,
    join_keys (pre ++ (KStr <$> scope)) = Ok name
    ∧ file' !! name = Some x.
Proof.
  revert file. induction leaves as [|[scope' y] leaves IH];
    intros file Hsave Hnd Hin; cbn [save_leaves] in Hsave.
  - by apply elem_of_nil in Hin.
  - rewrite fmap_cons in Hnd. apply NoDup_cons in Hnd as [Hfirst Hnd].
    cbn [fst] in Hfirst.
    destruct (join_keys (pre ++ (KStr <$> scope'))) as [name|] eqn:Hname;
      [|done].
    apply elem_of_cons in Hin as [[= -> ->]|Hin].
    + exists name. split; [done|].
      apply (save_leaves_keeps pre leaves (<[name := y]> file));
        [done| |done].
      unfold h5_file. apply lookup_insert_eq.
    + by apply (IH (<[name := y]> file)).
Qed.

Lemma flatten_dict_elem (items : list (string * pyvalue V))
    (scope : list string) (x : V) :
  (scope, x) ∈ flatten (PDict items) ->
  exists k c rest,
    (k, c) ∈ items ∧ scope = k :: rest ∧ (rest, x) ∈ flatten c.
Proof.
  induction items as [|[k c] items IH]; cbn [flatten].
  - intros Hin. by apply elem_of_nil in Hin.
  - intros Hin. apply elem_of_app in Hin as [Hin|Hin].
    + apply list_elem_of_fmap in Hin as ([rest y] & [= -> ->] & Hin).
      exists k, c, rest. split; [by left|done].
    + destruct (IH Hin) as (k' & c' & rest & Hin' & -> & Hrest).
      exists k', c', rest. split; [by right|done].
Qed.

Lemma skeleton_dict_get (items : list (string * pyvalue V))
    (k : string) (c : pyvalue V) :
  NoDup (fst <$> items) -> (k, c) ∈ items ->
  exists sk,
    skeleton (PDict items) = NDict sk
    ∧ assoc_get sk (KStr k) = Some (skeleton c).
Proof.
  intros Hnd Hin. eexists. split; [reflexivity|].
  induction items as [|[k' c'] items IH].
  - by apply elem_of_nil in Hin.
  - rewrite fmap_cons in Hnd. apply NoDup_cons in Hnd as [Hfirst Hnd].
    cbn [assoc_get]. apply elem_of_cons in Hin as [[= -> ->]|Hin].
    + by rewrite decide_True.
    + rewrite decide_False.
      * by apply IH.
      * intros [= ->]. apply Hfirst. cbn [fst].
        apply list_elem_of_fmap. by exists (k, c).
Qed.

Lemma plain_child (items : list (string * pyvalue V)) (k : string)
    (c : pyvalue V) :
  plain (PDict items) -> (k, c) ∈ items -> plain c.
Proof.
  intros [_ Hall] Hin.
  induction items as [|[k' c'] items IH].
  - by apply elem_of_nil in Hin.
  - destruct Hall as [Hc Hall].
    apply elem_of_cons in Hin as [[= -> ->]|Hin]; [done|by apply IH].
Qed.

(** Reading a leaf through a view of the skeleton of a nest of dicts. *)
Lemma follow_plain (leaf_getitem : V -> pykey -> result (V + view V))
    (v : pyvalue V) :
  forall (pre : list pykey) (file : h5_file) (scope : list string)
         (x : V) (name : string),
    plain v -> is_container v = true -> (scope, x) ∈ flatten v ->
    join_keys (pre ++ (KStr <$> scope)) = Ok name ->
    file !! name = Some x ->
    follow leaf_getitem (inr (mkView (skeleton v) pre file))
      (KStr <$> scope)
    = Ok (inl x).
Proof.
  induction v as [y|items IH|items _|items _] using pyvalue_nested_ind;
    intros pre file scope x name Hplain Hcont Hin Hname Hfile;
    [done| |done|done].
  destruct (flatten_dict_elem items scope x Hin)
    as (k & c & rest & Hkc & -> & Hrest).
  destruct (skeleton_dict_get items k c (proj1 Hplain) Hkc)
    as (sk & -> & Hget).
  pose proof (plain_child items k c Hplain Hkc) as Hpc.
  rewrite Forall_forall in IH. specialize (IH (k, c) Hkc). cbn [snd] in IH.
  rewrite fmap_cons. cbn [follow].
  unfold __getitem__. cbn [state prefix checkpoint_file get_item].
  rewrite Hget. cbn [mbind result_bind].
  destruct c as [y|items'|items'|items']; [| |done|done].
  - cbn [flatten] in Hrest. apply list_elem_of_singleton in Hrest.
    injection Hrest as -> ->.
    cbn [skeleton fmap list_fmap] in *. rewrite Hname.
    cbn [mbind result_bind]. rewrite Hfile. done.
  - assert (Hsk : exists sk', skeleton (PDict items') = NDict sk')
      by (eexists; reflexivity).
    destruct Hsk as (sk' & Hsk). rewrite Hsk. rewrite <- Hsk.
    apply (IH (pre ++ [KStr k]) file rest x name); try done.
    rewrite <- Hname. f_equal. rewrite <- app_assoc. done.
Qed.

Lemma skeleton_list_lookup (vs : list (pyvalue V)) (n : nat)
    (c : pyvalue V) :
  vs !! n = Some c ->
  exists sk,
    skeleton (PList vs) = NList sk ∧ skeleton (PTuple vs) = NTuple sk
    ∧ length sk = length vs ∧ sk !! n = Some (skeleton c).
Proof.
  intros Hn. eexists. split; [reflexivity|]. split; [reflexivity|].
  split.
  - clear Hn. induction vs as [|c' vs IH]; [done|].
    cbn [length]. by rewrite IH.
  - revert n Hn. induction vs as [|c' vs IH]; intros [|n] Hn; try done.
    + by injection Hn as ->.
    + by apply IH.
Qed.

End nested_values.

(** X20: on a view whose state is a dict, after [__setitem__] has stored
    a nest of dicts under a string key, every leaf of the nest is read
    back by the chain of subscripts [self[key][k1]...[kn]] along its path,
    provided the dotted names of the leaves are pairwise distinct. *)
Theorem view_nested_round_trip {V : Type}
    (leaf_getitem : V -> CSWriter.pykey
                    -> result (V + CSWriter.view V))
    (self self' : CSWriter.view V)
    (items : list (CSWriter.pykey * CSWriter.node)) (k : string)
    (value : CSWriter.pyvalue V) (scope : list string) (x : V) :
  CSWriter.state self = CSWriter.NDict items ->
  CSWriter.plain value -> CSWriter.is_container value = true ->
  NoDup ((fun p => CSWriter.join_keys
                     ((CSWriter.prefix self ++ [CSWriter.KStr k])
                      ++ (CSWriter.KStr <$> p.1)))
           <$> CSWriter.flatten value) ->
  CSWriter.__setitem__ self (CSWriter.KStr k) value = Done self' ->
  (scope, x) ∈ CSWriter.flatten value ->
  CSWriter.follow leaf_getitem (inr self')
    (CSWriter.KStr k :: (CSWriter.KStr <$> scope))
  = Ok (inl x).
Proof.
  intros Hst Hplain Hcont Hnd Hset Hin.
  destruct (setitem_container_dict self self' items _ value Hst Hcont Hset)
    as (file & Hsave & ->).
  destruct (save_leaves_lookup _ _ _ file scope x Hsave Hnd Hin)
    as (name & Hname & Hfile).
  cbn [CSWriter.follow]. unfold CSWriter.__getitem__.
  cbn [CSWriter.state CSWriter.prefix CSWriter.checkpoint_file
       CSWriter.get_item].
  rewrite assoc_get_set. cbn [mbind result_bind].
  destruct value as [y|vitems|vitems|vitems]; [done| |done|done].
  assert (Hsk : exists sk,
             CSWriter.skeleton (CSWriter.PDict vitems) = CSWriter.NDict sk)
    by (eexists; reflexivity).
  destruct Hsk as (sk & Hsk). rewrite Hsk. rewrite <- Hsk.
  by apply (follow_plain leaf_getitem (CSWriter.PDict vitems) _ file scope x
              name).
Qed.

Lemma view_nested_round_trip_witness :
  let value := CSWriter.PDict
                 [("layer", CSWriter.PDict [("weight", CSWriter.PLeaf 7%Z);
                                            ("bias", CSWriter.PLeaf 8%Z)]);
                  ("step", CSWriter.PLeaf 9%Z)] in
  exists self',
    CSWriter.__setitem__ (V := Z) CSWriter.StreamingCSWriter
      (CSWriter.KStr "model") value = Done self'
    ∧ CSWriter.follow (fun _ _ => Raise TypeError) (inr self')
        (CSWriter.KStr "model"
         :: (CSWriter.KStr <$> ["layer"; "bias"]))
      = Ok (inl 8%Z).
Proof.
  intros value. eexists. split; [vm_compute; reflexivity|].
  apply (view_nested_round_trip (fun _ _ => Raise TypeError)
           CSWriter.StreamingCSWriter _ [] "model" value
           ["layer"; "bias"] 8%Z).
  - reflexivity.
  - cbn. repeat split;
    repeat (apply NoDup_cons_2;
            [intros Hx;
             repeat (apply elem_of_cons in Hx as [Hx|Hx];
                     [discriminate Hx|]);
             by apply elem_of_nil in Hx|]);
    apply NoDup_nil_2.
  - reflexivity.
  - vm_compute.
    repeat (apply NoDup_cons_2;
            [intros Hx;
             repeat (apply elem_of_cons in Hx as [Hx|Hx];
                     [discriminate Hx|]);
             by apply elem_of_nil in Hx|]);
    apply NoDup_nil_2.
  - vm_compute. reflexivity.
  - cbn. set_solver.
Defined.

(** X13: on a view whose state is a dict, after [__setitem__] has stored
    a list or a tuple under a string key, a leaf that is an element of it
    cannot be read back: the subscript of the key returns a sub-view, and
    the subscript of that with the element's index raises [TypeError],
    because the index is joined into the dotted name. *)
Theorem sequence_element_unreadable {V : Type}
    (self self' : CSWriter.view V)
    (items : list (CSWriter.pykey * CSWriter.node)) (k : string)
    (value : CSWriter.pyvalue V) (vs : list (CSWriter.pyvalue V))
    (n : nat) (x : V) :
  CSWriter.state self = CSWriter.NDict items ->
  value = CSWriter.PList vs \/ value = CSWriter.PTuple vs ->
  CSWriter.__setitem__ self (CSWriter.KStr k) value = Done self' ->
  vs !! n = Some (CSWriter.PLeaf x) ->
  exists sub,
    CSWriter.__getitem__ self' (CSWriter.KStr k) = Ok (inr sub)
    ∧ CSWriter.__getitem__ sub (CSWriter.KInt (Z.of_nat n))
      = Raise TypeError.
Proof.
  intros Hst Hvalue Hset Hn.
  assert (Hcont : CSWriter.is_container value = true)
    by (by destruct Hvalue as [->| ->]).
  destruct (setitem_container_dict self self' items _ value Hst Hcont Hset)
    as (file & _ & ->).
  destruct (skeleton_list_lookup vs n _ Hn)
    as (sk & Hsk & Hskt & Hlen & Hskn).
  assert (Hlt : n < length vs) by (by eapply lookup_lt_Some).
  destruct Hvalue as [->| ->]; eexists; split.
  1,3: unfold CSWriter.__getitem__;
    cbn [CSWriter.state CSWriter.prefix CSWriter.checkpoint_file
         CSWriter.get_item];
    rewrite assoc_get_set; cbn [mbind result_bind];
    rewrite ?Hsk, ?Hskt; reflexivity.
  all: unfold CSWriter.__getitem__;
    cbn [CSWriter.state CSWriter.prefix CSWriter.checkpoint_file
         CSWriter.get_item];
    unfold CSWriter.seq_index; rewrite decide_True by lia;
    rewrite Nat2Z.id, Hskn; cbn [mbind result_bind CSWriter.skeleton];
    by rewrite join_keys_int.
Qed.

Lemma sequence_element_unreadable_witness :
  exists self' sub,
    CSWriter.__setitem__ (V := Z) CSWriter.StreamingCSWriter
      (CSWriter.KStr "a")
      (CSWriter.PList [CSWriter.PLeaf 7%Z; CSWriter.PLeaf 8%Z]) = Done self'
    ∧ CSWriter.__getitem__ self' (CSWriter.KStr "a") = Ok (inr sub)
    ∧ CSWriter.__getitem__ sub (CSWriter.KInt 1) = Raise TypeError.
Proof.
  destruct (CSWriter.__setitem__ (V := Z) CSWriter.StreamingCSWriter
              (CSWriter.KStr "a")
              (CSWriter.PList [CSWriter.PLeaf 7%Z; CSWriter.PLeaf 8%Z]))
    as [self'|e r] eqn:Hset; [|vm_compute in Hset; discriminate Hset].
  destruct (sequence_element_unreadable CSWriter.StreamingCSWriter self' []
              "a" _ [CSWriter.PLeaf 7%Z; CSWriter.PLeaf 8%Z] 1 8%Z
              eq_refl (or_introl eq_refl) Hset eq_refl)
    as (sub & Hsub & Herr).
  exists self', sub. split; [reflexivity|]. split; [exact Hsub|exact Herr].
Defined.
